(** * FasterSpecFit: emission-line model builder and sparse linear algebra

    A shallow embedding of [FasterSpecFit/emlines_sparse_custom.py] and
    [FasterSpecFit/sparse_rep.py], and the properties their specification
    states about them.

    Modelling conventions.
    - float64 values are idealised as real numbers ([R]).  Wherever the
      floating-point program would leave the reals (a division by zero, the
      logarithm of a non-positive number) the model raises an exception
      instead of continuing with an infinity or a NaN.
    - NumPy arrays are lists; indices are integers ([Z]) with Python's
      wrap-around of negative indices and Python's clipping of slices.
    - Functions compiled with [@jit(nopython=True)] run without bounds
      checks unless Numba's [boundscheck] option is switched on: a read past
      the end of an array then yields an indeterminate value.  The record
      [jit_env] carries that option and the indeterminate value.
    - [np.empty] returns uninitialised storage, filled here with the
      indeterminate value of the environment. *)

From Stdlib Require Import Reals Lra Lia ZArith.
From stdpp Require Import base list.

Local Open Scope R_scope.

(** ** Exceptions and results *)

Inductive exn : Type :=
| ValueError
| IndexError
| ZeroDivisionError
| FloatingPointError.

Inductive result (A : Type) : Type :=
| Ok (a : A)
| Raise (e : exn).

Arguments Ok {A} a.
Arguments Raise {A} e.

Definition bind {A B : Type} (m : result A) (k : A -> result B) : result B :=
  match m with
  | Ok a => k a
  | Raise e => Raise e
  end.

Notation "x <- m ;; k" := (bind m (fun x => k))
  (at level 100, m at next level, right associativity).

Definition raises {A : Type} (m : result A) : Prop := exists e, m = Raise e.

(** [for i in range(a, b): s = body i s], stopping at the first exception. *)
Fixpoint for_loop {S : Type} (body : Z -> S -> result S) (a : Z) (n : nat)
    (s : S) : result S :=
  match n with
  | O => Ok s
  | Datatypes.S n' => s' <- body a s ;; for_loop body (a + 1)%Z n' s'
  end.

Definition for_range {S : Type} (a b : Z) (body : Z -> S -> result S)
    (s : S) : result S :=
  for_loop body a (Z.to_nat (b - a)) s.

(** [for i, x in enumerate(xs): s = body i x s]. *)
Fixpoint for_enumerate {X S : Type} (body : Z -> X -> S -> result S) (i : Z)
    (xs : list X) (s : S) : result S :=
  match xs with
  | [] => Ok s
  | x :: xs' => s' <- body i x s ;; for_enumerate body (i + 1)%Z xs' s'
  end.

(** ** Python and NumPy indexing *)

(** A Python index into a sequence of length [n]: negative indices count
    from the end. *)
Definition norm_index (n : nat) (i : Z) : option nat :=
  if (0 <=? i)%Z then
    if (i <? Z.of_nat n)%Z then Some (Z.to_nat i) else None
  else if (- Z.of_nat n <=? i)%Z then Some (Z.to_nat (i + Z.of_nat n))
  else None.

(** [l[i]] in the interpreter: out of range is an [IndexError]. *)
Definition getitem {A : Type} (l : list A) (i : Z) : result A :=
  match norm_index (length l) i with
  | Some k => match l !! k with Some x => Ok x | None => Raise IndexError end
  | None => Raise IndexError
  end.

(** [l[i] = v]; a write outside the array has no defined outcome in
    compiled code either, so the model stops in both modes. *)
Definition setitem {A : Type} (l : list A) (i : Z) (v : A) : result (list A) :=
  match norm_index (length l) i with
  | Some k => Ok (<[k:=v]> l)
  | None => Raise IndexError
  end.

(** Execution environment of Numba-compiled functions. *)
Record jit_env : Type := JitEnv {
  boundscheck : bool;
  junk : R;
  junk_int : Z
}.

(** [l[i]] in compiled code; [d] is what a read outside the array finds. *)
Definition jit_read {A : Type} (env : jit_env) (d : A) (l : list A) (i : Z)
    : result A :=
  match norm_index (length l) i with
  | Some k => Ok (nth k l d)
  | None => if boundscheck env then Raise IndexError else Ok d
  end.

Definition jit_getitem (env : jit_env) (l : list R) (i : Z) : result R :=
  jit_read env (junk env) l i.

Definition jit_getitem_int (env : jit_env) (l : list Z) (i : Z) : result Z :=
  jit_read env (junk_int env) l i.

(** Two-dimensional arrays: the shape and the rows. *)
Record array2 : Type := Array2 {
  shape0 : nat;
  shape1 : nat;
  rows : list (list R)
}.

Definition array2_wf (M : array2) : Prop :=
  length (rows M) = shape0 M /\
  Forall (fun r => length r = shape1 M) (rows M).

(** [np.empty((n, m))] *)
Definition np_empty2 (fill : R) (n m : nat) : array2 :=
  Array2 n m (replicate n (replicate m fill)).

(** [M[i, j]] and [M[i, j] = v] in compiled code. *)
Definition jit_getitem2 (env : jit_env) (M : array2) (i j : Z) : result R :=
  match norm_index (shape0 M) i, norm_index (shape1 M) j with
  | Some r, Some c => Ok (nth c (nth r (rows M) []) (junk env))
  | _, _ => if boundscheck env then Raise IndexError else Ok (junk env)
  end.

(** [M[i]], a view of row [i], in compiled code; a view outside the array
    shows nothing that can be read. *)
Definition jit_getrow (env : jit_env) (M : array2) (i : Z)
    : result (list R) :=
  match norm_index (shape0 M) i with
  | Some r => Ok (nth r (rows M) [])
  | None => if boundscheck env then Raise IndexError else Ok []
  end.

Definition setitem2 (M : array2) (i j : Z) (v : R) : result array2 :=
  match norm_index (shape0 M) i, norm_index (shape1 M) j with
  | Some r, Some c =>
      Ok (Array2 (shape0 M) (shape1 M)
            (<[r := <[c := v]> (nth r (rows M) [])]> (rows M)))
  | _, _ => Raise IndexError
  end.

(** A slice bound, wrapped and clipped as Python does. *)
Definition clip_index (n : nat) (i : Z) : nat :=
  let j := if (i <? 0)%Z then (i + Z.of_nat n)%Z else i in
  Z.to_nat (Z.min (Z.max j 0) (Z.of_nat n)).

(** [l[start:stop]] *)
Definition slice {A : Type} (l : list A) (start stop : Z) : list A :=
  let a := clip_index (length l) start in
  let b := clip_index (length l) stop in
  take (b - a) (drop a l).

(** [l[start:]] *)
Definition slice_from {A : Type} (l : list A) (start : Z) : list A :=
  drop (clip_index (length l) start) l.

(** Broadcasting a one-dimensional array to a target of length [m]. *)
Definition broadcast_to (m : nat) (b : list R) : result (list R) :=
  if decide (length b = m) then Ok b
  else match b with
       | [x] => Ok (replicate m x)
       | _ => Raise ValueError
       end.

(** Element-wise binary operation on two arrays, with broadcasting. *)
Definition broadcast2 {A B C : Type} (f : A -> B -> C) (a : list A)
    (b : list B) : result (list C) :=
  if decide (length a = length b) then Ok (zip_with f a b)
  else match a, b with
       | [x], _ => Ok (map (f x) b)
       | _, [y] => Ok (map (fun x => f x y) a)
       | _, _ => Raise ValueError
       end.

(** [l[start:stop] = b] on an array (the array is never resized). *)
Definition setslice (l : list R) (start stop : Z) (b : list R)
    : result (list R) :=
  let a := clip_index (length l) start in
  let m := (clip_index (length l) stop - a)%nat in
  b' <- broadcast_to m b ;;
  Ok (take a l ++ b' ++ drop (a + m) l).

(** [l[start:stop] += b] *)
Definition iadd_slice (l : list R) (start stop : Z) (b : list R)
    : result (list R) :=
  let a := clip_index (length l) start in
  let m := (clip_index (length l) stop - a)%nat in
  b' <- broadcast_to m b ;;
  Ok (take a l ++ zip_with Rplus (take m (drop a l)) b' ++ drop (a + m) l).

(** ** NumPy numerics over the reals *)

(** Scalar [x / y] in compiled code (Numba's default error model) *)
Definition scalar_div (x y : R) : result R :=
  if Req_dec_T y 0 then Raise ZeroDivisionError else Ok (x / y).

(** One element of an array division [x / y]: NumPy yields an infinity or a
    NaN for a zero divisor, which the reals cannot hold. *)
Definition array_div (x y : R) : result R :=
  if Req_dec_T y 0 then Raise FloatingPointError else Ok (x / y).

Fixpoint mapM {A B : Type} (f : A -> result B) (l : list A) : result (list B) :=
  match l with
  | [] => Ok []
  | x :: l' => y <- f x ;; ys <- mapM f l' ;; Ok (y :: ys)
  end.

(** [np.log] *)
Definition np_log (x : R) : result R :=
  if Rlt_dec 0 x then Ok (ln x) else Raise FloatingPointError.

(** [np.diff] *)
Definition np_diff (l : list R) : list R :=
  zip_with (fun x y => y - x) l (tail l).

(** [np.max] and [np.min]: a [ValueError] on an empty array. *)
Definition np_max (l : list R) : result R :=
  match l with
  | [] => Raise ValueError
  | x :: l' => Ok (foldl Rmax x l')
  end.

Definition np_min (l : list R) : result R :=
  match l with
  | [] => Raise ValueError
  | x :: l' => Ok (foldl Rmin x l')
  end.

(** [int(x)]: truncation towards zero. *)
Definition trunc (x : R) : Z :=
  if Rle_dec 0 x then Int_part x else (- Int_part (- x))%Z.

(** [np.zeros(n)] and [np.empty(n)]: a negative size is a [ValueError]. *)
Definition np_zeros (n : Z) : result (list R) :=
  if (n <? 0)%Z then Raise ValueError else Ok (replicate (Z.to_nat n) 0).

Definition np_empty (fill : R) (n : Z) : result (list R) :=
  if (n <? 0)%Z then Raise ValueError else Ok (replicate (Z.to_nat n) fill).

(** [np.array_split(l, 3)]: the first [len(l) % 3] parts get one extra
    element. *)
Definition array_split3 (l : list R) : list R * list R * list R :=
  let n := length l in
  let q := (n / 3)%nat in
  let r := (n mod 3)%nat in
  let n1 := (q + (if (0 <? r)%nat then 1 else 0))%nat in
  let n2 := (q + (if (1 <? r)%nat then 1 else 0))%nat in
  (take n1 l, take n2 (drop n1 l), drop (n1 + n2) l).

(** [np.searchsorted(a, v, side="left")] on a sorted array (the builders
    search the sorted bin edges only): the number of leading elements below
    [v]. *)
Fixpoint searchsorted_left (a : list R) (v : R) : nat :=
  match a with
  | [] => O
  | x :: a' => if Rlt_dec x v then S (searchsorted_left a' v) else O
  end.

(** [np.searchsorted(a, v, side="right")]: the number of leading elements
    not above [v]. *)
Fixpoint searchsorted_right (a : list R) (v : R) : nat :=
  match a with
  | [] => O
  | x :: a' => if Rle_dec x v then S (searchsorted_right a' v) else O
  end.

(** ** The error function *)

Definition gauss (t : R) : R := exp (- (t * t)).

Definition gauss_integrable (a b : R) : Riemann_integrable gauss a b.
Proof.
  assert (Hc : continuity gauss).
  { unfold gauss.
    apply (continuity_comp (fun t => - (t * t)) exp).
    - apply continuity_opp.
      apply continuity_mult; apply derivable_continuous, derivable_id.
    - apply derivable_continuous, derivable_exp. }
  destruct (Rle_dec a b) as [H|H].
  - apply continuity_implies_RiemannInt; [exact H|intros; apply Hc].
  - apply RiemannInt_P1, continuity_implies_RiemannInt; [lra|intros; apply Hc].
Defined.

(** The integral of [exp(-t^2)] from [0] to [x]. *)
Definition gauss_area (x : R) : R := RiemannInt (gauss_integrable 0 x).

(** [math.erf] and [math.erfc]: [erf x] is [2 / sqrt pi] times the integral
    of [exp(-t^2)] from [0] to [x], continued as an odd function, and
    [erfc x = 1 - erf x]. *)
Definition erf (x : R) : R :=
  if Rle_dec 0 x then 2 / sqrt PI * gauss_area x
  else - (2 / sqrt PI * gauss_area (- x)).

Definition erfc (x : R) : R := 1 - erf x.

(** ** emlines_sparse_custom.py *)

Definition MAX_SDEV : R := 5.

Definition C_LIGHT : R := 299792458 / 1000.

Definition SQRT_2PI : R := sqrt (2 * PI).

Definition norm_pdf (a : R) : R :=
  1 / SQRT_2PI * exp (- (1/2) * a ^ 2).

Definition norm_cdf (a : R) : R :=
  let SQRT1_2 := 1 / sqrt 2 in
  let z := Rabs a in
  if Rlt_dec z 1 then 1/2 + 1/2 * erf (a * SQRT1_2)
  else
    let y := 1/2 * erfc (z * SQRT1_2) in
    if Rlt_dec 0 a then 1 - y else y.

(** The per-line quantities both builders compute before touching any
    buffer: the width, the shifted centre and the support window. *)
Record line_window : Type := LineWindow {
  lw_sigma : R;
  lw_line_shift : R;
  lw_shifted_line : R;
  lw_log_shifted_line : R;
  lw_lo : Z;
  lw_hi : Z
}.

(** Lines 117-135 of [build_emline_model]. *)
Definition model_line_window (env : jit_env)
    (line_vshifts line_sigmas log_obs_bin_edges : list R) (redshift : R)
    (line_wavelengths : list R) (j : Z) : result line_window :=
  sj <- jit_getitem env line_sigmas j ;;
  let sigma := sj / C_LIGHT in
  vj <- jit_getitem env line_vshifts j ;;
  let line_shift := 1 + redshift + vj / C_LIGHT in
  wj <- jit_getitem env line_wavelengths j ;;
  let shifted_line := wj * line_shift in
  log_shifted_line <- np_log shifted_line ;;
  let lo := searchsorted_left log_obs_bin_edges
              (log_shifted_line - MAX_SDEV * sigma) in
  let hi := searchsorted_right log_obs_bin_edges
              (log_shifted_line + MAX_SDEV * sigma) in
  Ok (LineWindow sigma line_shift shifted_line log_shifted_line
        (Z.of_nat lo) (Z.of_nat hi)).

(** Lines 140-165: the contribution of one line with a non-empty window,
    computed in the scratch buffer and added to the output buffer. *)
Definition model_line_fill (env : jit_env)
    (line_amplitudes ibin_width log_obs_bin_edges : list R)
    (j : Z) (w : line_window) (st : list R * list R)
    : result (list R * list R) :=
  let '(model_fluxes, edge_vals) := st in
  let sigma := lw_sigma w in
  let lo := lw_lo w in
  let hi := lw_hi w in
  let c := SQRT_2PI * sigma * exp (1/2 * sigma ^ 2) in
  let nedges := (hi - lo + 2)%Z in
  aj <- jit_getitem env line_amplitudes j ;;
  let A := c * aj * lw_shifted_line w in
  q <- scalar_div (lw_log_shifted_line w) sigma ;;
  let offset := q + sigma in
  edge_vals <- setitem edge_vals 0 0 ;;
  edge_vals <-
    for_range 1 (nedges - 1)
      (fun i ev =>
         e <- jit_getitem env log_obs_bin_edges (i + lo - 1) ;;
         q <- scalar_div e sigma ;;
         let x := q - offset in
         setitem ev i (A * norm_cdf x))
      edge_vals ;;
  edge_vals <- setitem edge_vals (nedges - 1) A ;;
  edge_vals <-
    for_range 0 (nedges - 1)
      (fun i ev =>
         hi_val <- jit_getitem env ev (i + 1) ;;
         lo_val <- jit_getitem env ev i ;;
         wd <- jit_getitem env ibin_width (i + lo) ;;
         setitem ev i ((hi_val - lo_val) * wd))
      edge_vals ;;
  model_fluxes <-
    iadd_slice model_fluxes lo (hi + 1) (slice edge_vals 0 (nedges - 1)) ;;
  Ok (model_fluxes, edge_vals).

(** One iteration of the loop over the lines. *)
Definition model_line (env : jit_env)
    (line_amplitudes line_vshifts line_sigmas ibin_width
       log_obs_bin_edges : list R)
    (redshift : R) (line_wavelengths : list R)
    (j : Z) (st : list R * list R) : result (list R * list R) :=
  w <- model_line_window env line_vshifts line_sigmas log_obs_bin_edges
         redshift line_wavelengths j ;;
  if (lw_hi w =? lw_lo w)%Z then Ok st
  else model_line_fill env line_amplitudes ibin_width log_obs_bin_edges j w st.

Definition build_emline_model (env : jit_env)
    (parameters obs_bin_edges log_obs_bin_edges : list R) (redshift : R)
    (line_wavelengths : list R) : result (list R) :=
  let '(line_amplitudes, line_vshifts, line_sigmas) :=
    array_split3 parameters in
  inv_widths <- mapM (array_div 1) (np_diff obs_bin_edges) ;;
  let ibin_width := 0 :: inv_widths in
  let nbins := (Z.of_nat (length obs_bin_edges) - 1)%Z in
  model_fluxes <- np_zeros (nbins + 2) ;;
  smax <- np_max (map (fun s => s / C_LIGHT) line_sigmas) ;;
  dmin <- np_min (np_diff log_obs_bin_edges) ;;
  q <- scalar_div (2 * MAX_SDEV * smax) dmin ;;
  let max_width := (trunc q + 4)%Z in
  edge_vals <- np_empty (junk env) max_width ;;
  st <- for_range 0 (Z.of_nat (length line_wavelengths))
          (model_line env line_amplitudes line_vshifts line_sigmas ibin_width
             log_obs_bin_edges redshift line_wavelengths)
          (model_fluxes, edge_vals) ;;
  Ok (slice (fst st) 1 (-1)).

(** *** [_objective]

    Not compiled: it runs in the interpreter, with checked indexing.  The
    array [parameters] is updated in place, so the model returns its final
    contents next to the residuals.  Each entry of [resolution_matrix] is
    an external object of which only the [dot] method is used. *)

(** [l[idx]] with an integer index array *)
Definition fancy_get (l : list R) (idx : list Z) : result (list R) :=
  mapM (getitem l) idx.

(** [l[idx] = vals] with an integer index array, assigned in order *)
Fixpoint scatter (l : list R) (idx : list Z) (vals : list R)
    : result (list R) :=
  match idx, vals with
  | i :: idx', v :: vals' => l' <- setitem l i v ;; scatter l' idx' vals'
  | _, _ => Ok l
  end.

Definition fancy_set (l : list R) (idx : list Z) (vals : list R)
    : result (list R) :=
  vals' <- broadcast_to (length idx) vals ;;
  scatter l idx vals'.

(** [for I, indx, factor in zip(Itied, tiedtoparam, tiedfactor):
       parameters[I] = parameters[indx] * factor] *)
Fixpoint apply_ties (parameters : list R) (Itied tiedtoparam : list Z)
    (tiedfactor : list R) : result (list R) :=
  match Itied, tiedtoparam, tiedfactor with
  | I_ :: Itied', indx :: tiedtoparam', factor :: tiedfactor' =>
      p <- getitem parameters indx ;;
      parameters' <- setitem parameters I_ (p * factor) ;;
      apply_ties parameters' Itied' tiedtoparam' tiedfactor'
  | _, _, _ => Ok parameters
  end.

(** Lines 203-209: free parameters, ties, doublets. *)
Definition expand_parameters (parameters free_parameters : list R)
    (Ifree Itied tiedtoparam : list Z) (tiedfactor : list R)
    (doubletindx doubletpair : list Z) : result (list R) :=
  parameters <- fancy_set parameters Ifree free_parameters ;;
  parameters <-
    (if (0 <? length Itied)%nat
     then apply_ties parameters Itied tiedtoparam tiedfactor
     else Ok parameters) ;;
  lhs <- fancy_get parameters doubletindx ;;
  rhs <- fancy_get parameters doubletpair ;;
  rhs' <- broadcast_to (length lhs) rhs ;;
  fancy_set parameters doubletindx (zip_with Rmult lhs rhs').

Definition _objective (env : jit_env)
    (free_parameters obs_bin_edges log_obs_bin_edges obs_fluxes
       obs_weights : list R)
    (redshift : R) (line_wavelengths : list R)
    (resolution_matrix : list (list R -> result (list R)))
    (camerapix : list (Z * Z)) (parameters : list R)
    (Ifree Itied tiedtoparam : list Z) (tiedfactor : list R)
    (doubletindx doubletpair : list Z) : result (list R * list R) :=
  parameters <- expand_parameters parameters free_parameters Ifree Itied
                  tiedtoparam tiedfactor doubletindx doubletpair ;;
  let model_fluxes := replicate (length obs_fluxes) (junk env) in
  model_fluxes <-
    for_enumerate
      (fun icam campix model_fluxes =>
         let '(s, e) := campix in
         mf <- build_emline_model env parameters
                 (slice obs_bin_edges (s + icam) (e + icam + 1))
                 (slice log_obs_bin_edges (s + icam) (e + icam + 1))
                 redshift line_wavelengths ;;
         R_icam <- getitem resolution_matrix icam ;;
         blurred <- R_icam mf ;;
         setslice model_fluxes s e blurred)
      0%Z camerapix model_fluxes ;;
  diff <- broadcast2 Rminus obs_fluxes model_fluxes ;;
  residuals <- broadcast2 Rmult obs_weights diff ;;
  Ok (residuals, parameters).

(** *** [build_emline_model_jacobian]

    The source keeps this function inside a string literal; it is embedded
    as written there. *)

(** Lines 286-303. *)
Definition jacobian_line_window (env : jit_env)
    (line_vshifts line_sigmas log_obs_bin_edges : list R) (redshift : R)
    (line_wavelengths : list R) (j : Z) : result line_window :=
  sj <- jit_getitem env line_sigmas j ;;
  let sigma := sj / C_LIGHT in
  vj <- jit_getitem env line_vshifts j ;;
  let line_shift := 1 + redshift + vj / C_LIGHT in
  wj <- jit_getitem env line_wavelengths j ;;
  let shifted_line := wj * line_shift in
  log_shifted_line <- np_log shifted_line ;;
  let lo := searchsorted_left log_obs_bin_edges
              (log_shifted_line - MAX_SDEV * sigma) in
  let hi := searchsorted_right log_obs_bin_edges
              (log_shifted_line + MAX_SDEV * sigma) in
  Ok (LineWindow sigma line_shift shifted_line log_shifted_line
        (Z.of_nat lo) (Z.of_nat hi)).

(** The state of the Jacobian builder's loop: the value rows and the two
    index arrays. *)
Record jacobian_state : Type := JacobianState {
  js_dd : list (list R);
  js_starts : list Z;
  js_ends : list Z
}.

(** Differencing one row in place: [vals[i] = (vals[i+1] - vals[i]) * w[i+lo]] *)
Definition difference_row (env : jit_env) (w : list R) (lo : Z) (i : Z)
    (vals : list R) : result (list R) :=
  hi_val <- jit_getitem env vals (i + 1) ;;
  lo_val <- jit_getitem env vals i ;;
  wd <- jit_getitem env w (i + lo) ;;
  setitem vals i ((hi_val - lo_val) * wd).

(** Lines 308-371: the three derivative rows of a line with a non-empty
    window. *)
Definition jacobian_line_fill (env : jit_env)
    (line_amplitudes w log_obs_bin_edges line_wavelengths : list R)
    (nlines : Z) (j : Z) (lw : line_window) (st : jacobian_state)
    : result jacobian_state :=
  let sigma := lw_sigma lw in
  let line_shift := lw_line_shift lw in
  let lo := lw_lo lw in
  let hi := lw_hi lw in
  let c0 := SQRT_2PI * exp (1/2 * sigma ^ 2) in
  let nedges := (hi - lo + 2)%Z in
  dda_vals <- jit_read env [] (js_dd st) j ;;
  ddv_vals <- jit_read env [] (js_dd st) (nlines + j) ;;
  dds_vals <- jit_read env [] (js_dd st) (2 * nlines + j) ;;
  q <- scalar_div (lw_log_shifted_line lw) sigma ;;
  let offset := q + sigma in
  wj <- jit_getitem env line_wavelengths j ;;
  let c := c0 * wj in
  aj <- jit_getitem env line_amplitudes j ;;
  let A := c / C_LIGHT * aj in
  dda_vals <- setitem dda_vals 0 0 ;;
  ddv_vals <- setitem ddv_vals 0 0 ;;
  dds_vals <- setitem dds_vals 0 0 ;;
  r <- for_range 1 (nedges - 1)
         (fun i '(dda_vals, ddv_vals, dds_vals) =>
            e <- jit_getitem env log_obs_bin_edges (i + lo - 1) ;;
            q <- scalar_div e sigma ;;
            let x := q - offset in
            let pdf := norm_pdf x in
            let cdf := norm_cdf x in
            dda_vals <- setitem dda_vals i (c * line_shift * sigma * cdf) ;;
            ddv_vals <- setitem ddv_vals i (A * (sigma * cdf - pdf)) ;;
            dds_vals <- setitem dds_vals i
                          (A * line_shift *
                             ((1 + sigma ^ 2) * cdf - (x + 2 * sigma) * pdf)) ;;
            Ok (dda_vals, ddv_vals, dds_vals))
         (dda_vals, ddv_vals, dds_vals) ;;
  let '(dda_vals, ddv_vals, dds_vals) := r in
  dda_vals <- setitem dda_vals (nedges - 1) (c * line_shift * sigma) ;;
  ddv_vals <- setitem ddv_vals (nedges - 1) (A * sigma) ;;
  dds_vals <- setitem dds_vals (nedges - 1)
                (A * line_shift * (1 + sigma ^ 2)) ;;
  r <- for_range 0 (nedges - 1)
         (fun i '(dda_vals, ddv_vals, dds_vals) =>
            dda_vals <- difference_row env w lo i dda_vals ;;
            ddv_vals <- difference_row env w lo i ddv_vals ;;
            dds_vals <- difference_row env w lo i dds_vals ;;
            Ok (dda_vals, ddv_vals, dds_vals))
         (dda_vals, ddv_vals, dds_vals) ;;
  let '(dda_vals, ddv_vals, dds_vals) := r in
  r <- (if (lo =? 0)%Z then
          starts <- setitem (js_starts st) j lo ;;
          dda_vals <- setslice dda_vals 0 (nedges - 1) (slice dda_vals 1 nedges) ;;
          ddv_vals <- setslice ddv_vals 0 (nedges - 1) (slice ddv_vals 1 nedges) ;;
          dds_vals <- setslice dds_vals 0 (nedges - 1) (slice dds_vals 1 nedges) ;;
          Ok (starts, (dda_vals, ddv_vals, dds_vals))
        else
          starts <- setitem (js_starts st) j (lo - 1)%Z ;;
          Ok (starts, (dda_vals, ddv_vals, dds_vals))) ;;
  let '(starts, (dda_vals, ddv_vals, dds_vals)) := r in
  ends <- setitem (js_ends st) j hi ;;
  dd <- setitem (js_dd st) j dda_vals ;;
  dd <- setitem dd (nlines + j) ddv_vals ;;
  dd <- setitem dd (2 * nlines + j) dds_vals ;;
  Ok (JacobianState dd starts ends).

Definition jacobian_line (env : jit_env)
    (line_amplitudes line_vshifts line_sigmas w log_obs_bin_edges : list R)
    (redshift : R) (line_wavelengths : list R) (nlines : Z)
    (j : Z) (st : jacobian_state) : result jacobian_state :=
  lw <- jacobian_line_window env line_vshifts line_sigmas log_obs_bin_edges
          redshift line_wavelengths j ;;
  if (lw_hi lw =? lw_lo lw)%Z then Ok st
  else jacobian_line_fill env line_amplitudes w log_obs_bin_edges
         line_wavelengths nlines j lw st.

(** [mytile(a, n)] *)
Definition mytile {A : Type} (a : list A) (n : nat) : list A :=
  concat (replicate n a).

Definition build_emline_model_jacobian (env : jit_env)
    (parameters obs_weights obs_bin_edges log_obs_bin_edges : list R)
    (redshift : R) (line_wavelengths : list R)
    : result (list Z * list Z * array2) :=
  let '(line_amplitudes, line_vshifts, line_sigmas) :=
    array_split3 parameters in
  qs <- broadcast2 array_div obs_weights (np_diff obs_bin_edges) ;;
  ws <- mapM (fun q => q) qs ;;
  let w := 0 :: ws in
  smax <- np_max (map (fun s => s / C_LIGHT) line_sigmas) ;;
  dmin <- np_min (np_diff log_obs_bin_edges) ;;
  q <- scalar_div (2 * MAX_SDEV * smax) dmin ;;
  let max_width := (trunc q + 4)%Z in
  let nlines := length line_wavelengths in
  dd <- (if (max_width <? 0)%Z then Raise ValueError
         else Ok (np_empty2 (junk env) (3 * nlines) (Z.to_nat max_width))) ;;
  let starts := replicate nlines 0%Z in
  let ends := replicate nlines 0%Z in
  st <- for_range 0 (Z.of_nat nlines)
          (jacobian_line env line_amplitudes line_vshifts line_sigmas w
             log_obs_bin_edges redshift line_wavelengths (Z.of_nat nlines))
          (JacobianState (rows dd) starts ends) ;;
  Ok (mytile (js_starts st) 3, mytile (js_ends st) 3,
      Array2 (3 * nlines) (Z.to_nat max_width) (js_dd st)).

(** *** [centers_to_edges] (interpreted) *)

(** The body of the loop for one segment: lines 418-427, up to the
    [np.hstack]. *)
Definition segment_edges (icenters : list R) : result (list R) :=
  sums <- broadcast2 Rplus (slice icenters 0 (-1)) (slice_from icenters 1) ;;
  let int_edges := map (Rmult (1/2)) sums in
  c0 <- getitem icenters 0 ;;
  c1 <- getitem icenters 1 ;;
  m0 <- getitem int_edges 0 ;;
  let edge_l := c0 - (c1 - m0) in
  cn <- getitem icenters (-1) ;;
  cn' <- getitem icenters (-1) ;;
  mn <- getitem int_edges (-1) ;;
  let edge_r := cn + (cn' - mn) in
  Ok (edge_l :: int_edges ++ [edge_r]).

Definition centers_to_edges (uninit : R) (centers : list R)
    (camerapix : list (Z * Z)) : result (list R) :=
  let ncameras := length camerapix in
  let edges := replicate (length centers + ncameras) uninit in
  for_enumerate
    (fun icam campix edges =>
       let '(s, e) := campix in
       let icenters := slice centers s e in
       new_edges <- segment_edges icenters ;;
       setslice edges (s + icam) (e + icam + 1) new_edges)
    0%Z camerapix edges.

(** ** sparse_rep.py *)

Module ResMatrix.

Definition _from_dia_matrix (env : jit_env) (D : array2) : result array2 :=
  let ndiag := Z.of_nat (shape0 D) in
  let nrow := Z.of_nat (shape1 D) in
  let hdiag := (ndiag / 2)%Z in
  let A := np_empty2 (junk env) (shape1 D) (shape0 D) in
  for_range 0 nrow
    (fun i A =>
       let jmin := Z.max (i - hdiag) 0 in
       let jmax := Z.min (i + hdiag) (nrow - 1) in
       for_range jmin (jmax + 1)
         (fun j A =>
            d <- jit_getitem2 env D (hdiag + i - j) j ;;
            setitem2 A i (j - i + hdiag) d)
         A)
    A.

Definition _matvec (env : jit_env) (M : array2) (v w : list R)
    : result (list R) :=
  let nrow := Z.of_nat (shape0 M) in
  let ndiag := Z.of_nat (shape1 M) in
  let hdiag := (ndiag / 2)%Z in
  for_range 0 nrow
    (fun i w =>
       let jmin := Z.max (i - hdiag) 0 in
       let jmax := Z.min (i + hdiag) (nrow - 1) in
       acc <- for_range jmin (jmax + 1)
                (fun j acc =>
                   m <- jit_getitem2 env M i (j - i + hdiag) ;;
                   x <- jit_getitem env v j ;;
                   Ok (acc + m * x))
                0 ;;
       setitem w i acc)
    w.

(** [ResMatrix(D).matvec(v, w)]: the constructor followed by the method;
    [w] is the output parameter. *)
Definition matvec (env : jit_env) (D : array2) (v w : list R)
    : result (list R) :=
  data <- _from_dia_matrix env D ;;
  _matvec env data v w.

End ResMatrix.

Module EMLineJacobian.

(** The ideal-Jacobian fragment [(starts, ends, values)]. *)
Definition fragment : Type := (list Z * list Z * array2)%type.

Definition _matvec_J (env : jit_env) (J : fragment) (v w : list R)
    : result (list R) :=
  let '(starts, ends, values) := J in
  let nvars := Z.of_nat (length starts) in
  let nbins := Z.of_nat (length w) in
  w <- for_range 0 nbins (fun j w => setitem w j 0) w ;;
  for_range 0 nvars
    (fun i w =>
       vals <- jit_getrow env values i ;;
       e <- jit_getitem_int env ends i ;;
       s <- jit_getitem_int env starts i ;;
       for_range 0 (e - s)
         (fun j w =>
            s <- jit_getitem_int env starts i ;;
            cur <- jit_getitem env w (j + s) ;;
            a <- jit_getitem env vals j ;;
            x <- jit_getitem env v i ;;
            setitem w (j + s) (cur + a * x))
         w)
    w.

Definition _rmatvec_J (env : jit_env) (J : fragment) (v w : list R)
    : result (list R) :=
  let '(starts, ends, values) := J in
  let nvars := Z.of_nat (length starts) in
  for_range 0 nvars
    (fun i w =>
       vals <- jit_getrow env values i ;;
       e <- jit_getitem_int env ends i ;;
       s <- jit_getitem_int env starts i ;;
       acc <- for_range 0 (e - s)
                (fun j acc =>
                   a <- jit_getitem env vals j ;;
                   s <- jit_getitem_int env starts i ;;
                   x <- jit_getitem env v (j + s) ;;
                   Ok (acc + a * x))
                0 ;;
       setitem w i acc)
    w.

End EMLineJacobian.

(** ** [mytile] as the loop the source writes

    [r = np.empty(n * sz)], then [r[i*sz:(i+1)*sz] = a] for [i] in
    [range(n)]; [uninit] is what the fresh array holds.  The function is
    applied to integer arrays, so the slice assignment is stated for any
    element type. *)

Definition setslice_any {A : Type} (l : list A) (start stop : Z) (b : list A)
    : result (list A) :=
  let a := clip_index (length l) start in
  let m := (clip_index (length l) stop - a)%nat in
  if decide (length b = m) then Ok (take a l ++ b ++ drop (a + m) l)
  else match b with
       | [x] => Ok (take a l ++ replicate m x ++ drop (a + m) l)
       | _ => Raise ValueError
       end.

Definition mytile_loop {A : Type} (uninit : A) (a : list A) (n : Z)
    : result (list A) :=
  let sz := Z.of_nat (length a) in
  r <- (if (n * sz <? 0)%Z then Raise ValueError
        else Ok (replicate (Z.to_nat (n * sz)) uninit)) ;;
  for_range 0 n
    (fun i r => setslice_any r (i * sz) ((i + 1) * sz) a)
    r.

(** ** [EMLineJacobian] as a linear operator

    The constructor and the two products [_matvec] and [_rmatvec] (not
    compiled).  The module [params_mapping] is not among the sources: the two
    functions of [ParamsMapping] that the products call enter as parameters,
    [pm_matvec v out] for [ParamsMapping._matvec(J_S, v, out)] and
    [pm_rmatvec x w] for [ParamsMapping._rmatvec(J_S, x, w)], each giving
    the new contents of the array it writes to.  The temporary [vFull] of the
    object is shared by all calls, so both products return the object
    next to their result. *)

(** [for x, y in zip(xs, ys): s = body x y s] *)
Fixpoint for_zip {X Y St : Type} (body : X -> Y -> St -> result St)
    (xs : list X) (ys : list Y) (s : St) : result St :=
  match xs, ys with
  | x :: xs', y :: ys' => s' <- body x y s ;; for_zip body xs' ys' s'
  | _, _ => Ok s
  end.

Module LinearOperator.

Record t : Type := Make {
  shape : Z * Z;
  camerapix : list (Z * Z);
  jacs : list EMLineJacobian.fragment;
  vFull : list R
}.

Definition __init__ (env : jit_env) (shape : Z * Z)
    (camerapix : list (Z * Z)) (jacs : list EMLineJacobian.fragment)
    : result t :=
  jac0 <- getitem jacs 0 ;;
  let J0 := snd jac0 in
  let nParms := shape0 J0 in
  Ok (Make shape camerapix jacs (replicate nParms (junk env))).

Definition _matvec (pm_matvec : list R -> list R -> result (list R))
    (env : jit_env) (self : t) (v : list R) : result (list R * t) :=
  let nBins := fst (shape self) in
  w <- np_empty (junk env) nBins ;;
  vFull' <- pm_matvec v (vFull self) ;;
  w <- for_zip
         (fun (campix : Z * Z) jac w =>
            let '(s, e) := campix in
            sub <- EMLineJacobian._matvec_J env jac vFull' (slice w s e) ;;
            setslice w s e sub)
         (camerapix self) (jacs self) w ;;
  Ok (w, Make (shape self) (camerapix self) (jacs self) vFull').

Definition _rmatvec (pm_rmatvec : list R -> list R -> result (list R))
    (env : jit_env) (self : t) (v : list R) : result (list R * t) :=
  let nFreeParms := snd (shape self) in
  w <- np_zeros nFreeParms ;;
  st <- for_zip
          (fun (campix : Z * Z) jac (st : list R * list R) =>
             let '(s, e) := campix in
             let '(w, vFull) := st in
             vFull <- EMLineJacobian._rmatvec_J env jac (slice v s e) vFull ;;
             w <- pm_rmatvec vFull w ;;
             Ok (w, vFull))
          (camerapix self) (jacs self) (w, vFull self) ;;
  Ok (fst st, Make (shape self) (camerapix self) (jacs self) (snd st)).

End LinearOperator.

(** ** Definitions used to state the properties *)

(** The interior edges of a segment. *)
Definition midpoints (c : list R) : list R :=
  map (Rmult (1/2)) (zip_with Rplus (take (length c - 1) c) (drop 1 c)).

(** What the loop body computes for a segment with at least two centers. *)
Definition segment_result (c : list R) : list R :=
  let n := length c in
  (nth 0 c 0 - (nth 1 c 0 - nth 0 (midpoints c) 0))
  :: midpoints c
  ++ [nth (n - 1) c 0 + (nth (n - 1) c 0 - nth (n - 2) (midpoints c) 0)].

(** Segments as the specification describes them: inside the array of
    centers, at least two centers each, in increasing order and disjoint. *)
Definition segments_wf (ncenters : nat) (camerapix : list (Z * Z)) : Prop :=
  (forall k s e, camerapix !! k = Some (s, e) ->
     (0 <= s /\ s + 2 <= e /\ e <= Z.of_nat ncenters)%Z) /\
  (forall k k' s e s' e', (k < k')%nat ->
     camerapix !! k = Some (s, e) -> camerapix !! k' = Some (s', e') ->
     (e <= s')%Z).

(** [sum_n f n = f 0 + ... + f (n-1)], accumulated from the left as the
    loops of the program do. *)
Fixpoint sum_n (f : nat -> R) (n : nat) : R :=
  match n with
  | O => 0
  | S n' => sum_n f n' + f n'
  end.

(** The entry [M[r, c]] of a two-dimensional array. *)
Definition entry (M : array2) (r c : Z) : R :=
  nth (Z.to_nat c) (nth (Z.to_nat r) (rows M) []) 0.

(** The dense banded matrix-vector product of the specification, for the
    stacked-diagonal input [D] of shape [ndiag x nrow]: row [i] of the
    product sums [D[hdiag + i - j, j] * v[j]] over the columns [j] of the
    band that exist. *)
Definition banded_product (D : array2) (v : list R) (i : Z) : R :=
  let hdiag := (Z.of_nat (shape0 D) / 2)%Z in
  let jmin := Z.max (i - hdiag) 0 in
  let jmax := Z.min (i + hdiag) (Z.of_nat (shape1 D) - 1) in
  sum_n (fun k => let j := (jmin + Z.of_nat k)%Z in
                  entry D (hdiag + i - j) j * nth (Z.to_nat j) v 0)
        (Z.to_nat (jmax + 1 - jmin)).

(** [D] holds the identity matrix in stacked-diagonal form: ones on the
    central diagonal, zeros elsewhere. *)
Definition is_identity_dia (D : array2) : Prop :=
  let hdiag := (Z.of_nat (shape0 D) / 2)%Z in
  forall r c, (0 <= r < Z.of_nat (shape0 D))%Z ->
              (0 <= c < Z.of_nat (shape1 D))%Z ->
              entry D r c = if (r =? hdiag)%Z then 1 else 0.

(** The matrix a sparse ideal-Jacobian fragment stands for: column [i]
    holds [values[i]] on the rows [starts[i] .. ends[i]) and zero elsewhere. *)
Definition jac_entry (J : EMLineJacobian.fragment) (r i : nat) : R :=
  let '(starts, ends, values) := J in
  let s := nth i starts 0%Z in
  let e := nth i ends 0%Z in
  if decide (s <= Z.of_nat r < e)%Z
  then entry values (Z.of_nat i) (Z.of_nat r - s)
  else 0.

(** A fragment over [nbins] rows: one run per column, inside the rows and
    inside the storage of [values]. *)
Definition fragment_wf (J : EMLineJacobian.fragment) (nbins : nat) : Prop :=
  let '(starts, ends, values) := J in
  length ends = length starts /\
  array2_wf values /\
  shape0 values = length starts /\
  forall i, (i < length starts)%nat ->
    (0 <= nth i starts 0 <= nth i ends 0)%Z /\
    (nth i ends 0 <= Z.of_nat nbins)%Z /\
    (nth i ends 0 - nth i starts 0 <= Z.of_nat (shape1 values))%Z.

(** Inner product of two vectors of the same length. *)
Definition dot (a b : list R) : R :=
  sum_n (fun k => nth k a 0 * nth k b 0) (length a).

(** Strictly increasing arrays (bin edges). *)
Definition strictly_increasing (a : list R) : Prop :=
  forall i, (i + 1 < length a)%nat -> nth i a 0 < nth (i + 1) a 0.

(** The scale [A = c * amplitude * shifted_line] of one line, with
    [c = sqrt(2 pi) * sigma * exp(sigma^2 / 2)]: the value of its edge
    integral above the window. *)
Definition line_area (w : line_window) (aj : R) : R :=
  SQRT_2PI * lw_sigma w * exp (1/2 * lw_sigma w ^ 2) * aj * lw_shifted_line w.

(** The value the model builder gives the integral of a line at edge [k]:
    zero below the window, [A] from [hi] on, [A * norm_cdf(x)] inside. *)
Definition edge_value (log_obs_bin_edges : list R) (w : line_window) (aj : R)
    (k : Z) : R :=
  if (k <? lw_lo w)%Z then 0
  else if (lw_hi w <=? k)%Z then line_area w aj
  else line_area w aj *
       norm_cdf (nth (Z.to_nat k) log_obs_bin_edges 0 / lw_sigma w
                 - (lw_log_shifted_line w / lw_sigma w + lw_sigma w)).

(** What one line adds to entry [k] of the padded output buffer (entry [k]
    is bin [k - 1]): the difference of the edge values at [k] and [k - 1]
    times [ibin_width[k]], on the entries [lo .. hi]; [garbage] is what the
    program finds when it reads [ibin_width] past its end. *)
Definition line_delta (garbage : R) (ibin_width log_obs_bin_edges : list R)
    (w : line_window) (aj : R) (k : nat) : R :=
  if decide (lw_lo w < lw_hi w /\ lw_lo w <= Z.of_nat k <= lw_hi w)%Z
  then (edge_value log_obs_bin_edges w aj (Z.of_nat k)
        - edge_value log_obs_bin_edges w aj (Z.of_nat k - 1))
       * nth k ibin_width garbage
  else 0.

(** The window of line [j], read off the concatenated parameter array
    (amplitudes, velocity shifts, widths). *)
Definition line_window_at (parameters log_obs_bin_edges : list R)
    (redshift : R) (line_wavelengths : list R) (j : nat) : line_window :=
  let n := length line_wavelengths in
  let sigma := nth (2 * n + j) parameters 0 / C_LIGHT in
  let line_shift := 1 + redshift + nth (n + j) parameters 0 / C_LIGHT in
  let shifted_line := nth j line_wavelengths 0 * line_shift in
  let log_shifted_line := ln shifted_line in
  LineWindow sigma line_shift shifted_line log_shifted_line
    (Z.of_nat (searchsorted_left log_obs_bin_edges
                 (log_shifted_line - MAX_SDEV * sigma)))
    (Z.of_nat (searchsorted_right log_obs_bin_edges
                 (log_shifted_line + MAX_SDEV * sigma))).

(** [ibin_width] as the model builder computes it. *)
Definition ibin_width_of (obs_bin_edges : list R) : list R :=
  0 :: map (fun d => 1 / d) (np_diff obs_bin_edges).

(** Valid input of the model builder: [N >= 1] lines and [3 N] parameters,
    at least two bin edges with their logarithms alongside, both strictly
    increasing, non-negative widths (a line of width zero having an empty
    window) and positive shifted wavelengths. *)
Record valid_model_input (parameters obs_bin_edges log_obs_bin_edges : list R)
    (redshift : R) (line_wavelengths : list R) : Prop := ValidModelInput {
  vi_lines : (1 <= length line_wavelengths)%nat;
  vi_params : length parameters = (3 * length line_wavelengths)%nat;
  vi_edges : (2 <= length obs_bin_edges)%nat;
  vi_logs : length log_obs_bin_edges = length obs_bin_edges;
  vi_obs_increasing : strictly_increasing obs_bin_edges;
  vi_log_increasing : strictly_increasing log_obs_bin_edges;
  vi_sigma : forall j, (j < length line_wavelengths)%nat ->
               0 <= nth (2 * length line_wavelengths + j) parameters 0;
  vi_sigma_zero : forall j, (j < length line_wavelengths)%nat ->
               nth (2 * length line_wavelengths + j) parameters 0 = 0 ->
               lw_hi (line_window_at parameters log_obs_bin_edges redshift
                        line_wavelengths j) =
               lw_lo (line_window_at parameters log_obs_bin_edges redshift
                        line_wavelengths j);
  vi_shifted : forall j, (j < length line_wavelengths)%nat ->
               0 < nth j line_wavelengths 0 *
                   (1 + redshift +
                    nth (length line_wavelengths + j) parameters 0 / C_LIGHT)
}.

(** Bin [b] is touched by the window of a line: the line's loop adds to the
    bins [lo - 1 .. hi - 1] (entries [lo .. hi] of the padded buffer), and to
    none when [hi = lo]. *)
Definition in_window (w : line_window) (b : nat) : Prop :=
  (lw_lo w < lw_hi w /\ lw_lo w <= Z.of_nat b + 1 <= lw_hi w)%Z.

(** The parameter array of line [j] taken alone. *)
Definition single_line_parameters (parameters : list R) (n j : nat) : list R :=
  [nth j parameters 0; nth (n + j) parameters 0; nth (2 * n + j) parameters 0].

(** Compiled code as Numba runs it by default, and with its [boundscheck]
    option on; the indeterminate values are fixed to zero. *)
Definition numba_default : jit_env := JitEnv false 0 0.
Definition numba_boundscheck : jit_env := JitEnv true 0 0.

(** An index a Python sequence of length [n] accepts. *)
Definition index_ok (n : nat) (i : Z) : Prop :=
  (- Z.of_nat n <= i < Z.of_nat n)%Z.

(** Index arrays of [_objective] that fit the parameter array. *)
Record expansion_valid (nparams : nat) (free_parameters : list R)
    (Ifree Itied tiedtoparam doubletindx doubletpair : list Z) : Prop :=
  ExpansionValid {
  ev_free_len : length free_parameters = length Ifree;
  ev_free : Forall (index_ok nparams) Ifree;
  ev_tied : Forall (index_ok nparams) Itied;
  ev_tiedto : Forall (index_ok nparams) tiedtoparam;
  ev_doublet : Forall (index_ok nparams) doubletindx;
  ev_pair : Forall (index_ok nparams) doubletpair;
  ev_pair_len : length doubletpair = length doubletindx
}.

(** The modelled flux of one camera: the model on the camera's own edges,
    blurred by the camera's resolution matrix. *)
Definition camera_flux (env : jit_env) (parameters obs_bin_edges
    log_obs_bin_edges : list R) (redshift : R) (line_wavelengths : list R)
    (R_icam : list R -> result (list R)) (icam : nat) (campix : Z * Z)
    (blurred : list R) : Prop :=
  let '(s, e) := campix in
  exists mf,
    build_emline_model env parameters
      (slice obs_bin_edges (s + Z.of_nat icam) (e + Z.of_nat icam + 1))
      (slice log_obs_bin_edges (s + Z.of_nat icam) (e + Z.of_nat icam + 1))
      redshift line_wavelengths = Ok mf /\
    R_icam mf = Ok blurred.

(** Cameras that [_objective] can process with the parameter array
    [parameters]: pixel ranges inside the observations, in increasing order
    and disjoint, valid model input on each camera's edges, and a resolution
    matrix per camera whose [dot] maps the camera's bins to its pixels. *)
Definition cameras_valid (parameters obs_bin_edges log_obs_bin_edges : list R)
    (redshift : R) (line_wavelengths : list R)
    (resolution_matrix : list (list R -> result (list R)))
    (camerapix : list (Z * Z)) (nobs : nat) : Prop :=
  (forall k s e, camerapix !! k = Some (s, e) ->
     (0 <= s <= e)%Z /\ (e <= Z.of_nat nobs)%Z /\
     valid_model_input parameters
       (slice obs_bin_edges (s + Z.of_nat k) (e + Z.of_nat k + 1))
       (slice log_obs_bin_edges (s + Z.of_nat k) (e + Z.of_nat k + 1))
       redshift line_wavelengths /\
     exists R_k, resolution_matrix !! k = Some R_k /\
       forall mf,
         length mf =
           (length (slice obs_bin_edges (s + Z.of_nat k)
                      (e + Z.of_nat k + 1)) - 1)%nat ->
         exists b, R_k mf = Ok b /\ length b = Z.to_nat (e - s)) /\
  (forall k k' s e s' e', (k < k')%nat ->
     camerapix !! k = Some (s, e) -> camerapix !! k' = Some (s', e') ->
     (e <= s')%Z).

(** [l[i]] for an index [i >= 0], as statements read it. *)
Definition at_index (l : list R) (i : Z) : R := nth (Z.to_nat i) l 0.

(** An index array whose entries are non-negative positions of an array of
    length [n]. *)
Definition indices_in (n : nat) (idx : list Z) : Prop :=
  Forall (fun i => (0 <= i < Z.of_nat n)%Z) idx.

(** Camera pixel ranges that follow one another without gap or overlap from
    row [from] to row [to]. *)
Fixpoint cameras_tile (camerapix : list (Z * Z)) (from to : Z) : Prop :=
  match camerapix with
  | [] => from = to
  | (s, e) :: rest => s = from /\ (s <= e)%Z /\ cameras_tile rest e to
  end.

(** One well-formed fragment per camera, over the rows of the camera and
    with [nParms] columns. *)
Fixpoint fragments_fit (camerapix : list (Z * Z))
    (jacs : list EMLineJacobian.fragment) (nParms : nat) : Prop :=
  match camerapix, jacs with
  | (s, e) :: cs, J :: js =>
      fragment_wf J (Z.to_nat (e - s)) /\
      length (fst (fst J)) = nParms /\
      fragments_fit cs js nParms
  | [], [] => True
  | _, _ => False
  end.

(** Entry [(r, i)] of the fragments stacked camera over camera: row [r]
    belongs to the first camera whose range holds it. *)
Fixpoint stacked_entry (camerapix : list (Z * Z))
    (jacs : list EMLineJacobian.fragment) (r i : nat) : R :=
  match camerapix, jacs with
  | (s, e) :: cs, J :: js =>
      if decide (s <= Z.of_nat r < e)%Z
      then jac_entry J (r - Z.to_nat s) i
      else stacked_entry cs js r i
  | _, _ => 0
  end.

(** The parameter mapping as a matrix [S] of [nParms] rows and [nFree]
    columns: what the two products of [ParamsMapping] are taken to compute,
    the forward one into its output array, the transposed one added to its
    output array. *)
Definition mapping_products (S : nat -> nat -> R) (nParms nFree : nat)
    (pm_matvec pm_rmatvec : list R -> list R -> result (list R)) : Prop :=
  (forall v out, length v = nFree -> length out = nParms ->
     exists x, pm_matvec v out = Ok x /\ length x = nParms /\
       forall i, (i < nParms)%nat ->
         nth i x 0 = sum_n (fun k => S i k * nth k v 0) nFree) /\
  (forall x w, length x = nParms -> length w = nFree ->
     exists w', pm_rmatvec x w = Ok w' /\ length w' = nFree /\
       forall k, (k < nFree)%nat ->
         nth k w' 0 = nth k w 0 + sum_n (fun i => S i k * nth i x 0) nParms).

(** The value the Jacobian builder computes at edge [k] for a line with
    window [w], rest wavelength [wj] and amplitude [aj]: row [0] for the
    amplitude, row [1] for the velocity shift, row [2] for the width; zero
    below the window, the closed form from [hi] on, the form with the
    distribution function and the density inside. *)
Definition jacobian_edge (log_obs_bin_edges : list R) (w : line_window)
    (wj aj : R) (t : nat) (k : Z) : R :=
  let sigma := lw_sigma w in
  let line_shift := lw_line_shift w in
  let c := SQRT_2PI * exp (1/2 * sigma ^ 2) * wj in
  let A := c / C_LIGHT * aj in
  if (k <? lw_lo w)%Z then 0
  else if (lw_hi w <=? k)%Z then
    match t with
    | O => c * line_shift * sigma
    | 1%nat => A * sigma
    | _ => A * line_shift * (1 + sigma ^ 2)
    end
  else
    let x := nth (Z.to_nat k) log_obs_bin_edges 0 / sigma
             - (lw_log_shifted_line w / sigma + sigma) in
    match t with
    | O => c * line_shift * sigma * norm_cdf x
    | 1%nat => A * (sigma * norm_cdf x - norm_pdf x)
    | _ => A * line_shift *
           ((1 + sigma ^ 2) * norm_cdf x - (x + 2 * sigma) * norm_pdf x)
    end.

(** What the Jacobian builder leaves for bin [k - 1] in row [t] of a line:
    the difference of the values at the edges [k] and [k - 1] times
    [w[k]], on the bins of the window. *)
Definition jacobian_delta (garbage : R) (wts log_obs_bin_edges : list R)
    (w : line_window) (wj aj : R) (t : nat) (k : nat) : R :=
  if decide (lw_lo w < lw_hi w /\ lw_lo w <= Z.of_nat k <= lw_hi w)%Z
  then (jacobian_edge log_obs_bin_edges w wj aj t (Z.of_nat k)
        - jacobian_edge log_obs_bin_edges w wj aj t (Z.of_nat k - 1))
       * nth k wts garbage
  else 0.

(** The window of a line with velocity shift [v] and width [s] (both as in
    the parameter array) whose bounds are held at [lo] and [hi]. *)
Definition window_of (redshift wl : R) (lo hi : Z) (v s : R) : line_window :=
  LineWindow (s / C_LIGHT) (1 + redshift + v / C_LIGHT)
    (wl * (1 + redshift + v / C_LIGHT))
    (ln (wl * (1 + redshift + v / C_LIGHT))) lo hi.

(** The flux a line of amplitude [a], velocity shift [v] and width [s] adds
    to bin [b], as a function of the three parameters, the window bounds
    being held at [lo] and [hi]. *)
Definition line_flux_of (obs_bin_edges log_obs_bin_edges : list R)
    (redshift wl : R) (lo hi : Z) (a v s : R) (b : nat) : R :=
  line_delta 0 (ibin_width_of obs_bin_edges) log_obs_bin_edges
    (window_of redshift wl lo hi v s) a (S b).

(** * Properties *)

(** ** Results, loops and indexing *)

Lemma bind_Ok {A B : Type} (m : result A) (k : A -> result B) (b : B) :
  bind m k = Ok b -> exists a, m = Ok a /\ k a = Ok b.
Proof. destruct m as [a|e]; simpl; [eauto|discriminate]. Qed.

Lemma raises_bind {A B : Type} (m : result A) (k : A -> result B) :
  raises m -> raises (bind m k).
Proof. intros [e ->]. exists e. reflexivity. Qed.

Lemma raises_not_Ok {A : Type} (m : result A) (a : A) :
  raises m -> m <> Ok a.
Proof. intros [e ->]. discriminate. Qed.

Lemma for_loop_inv {St : Type} (P : Z -> St -> Prop) body (n : nat) :
  forall (a : Z) (s : St),
    P a s ->
    (forall i s, (a <= i < a + Z.of_nat n)%Z -> P i s ->
                 exists s', body i s = Ok s' /\ P (i + 1)%Z s') ->
    exists s', for_loop body a n s = Ok s' /\ P (a + Z.of_nat n)%Z s'.
Proof.
  induction n as [|n IH]; intros a s HP Hstep; simpl.
  - exists s. split; [reflexivity|]. replace (a + Z.of_nat 0)%Z with a by lia. exact HP.
  - destruct (Hstep a s) as (s1 & -> & HP1); [lia|exact HP|]. simpl.
    destruct (IH (a + 1)%Z s1) as (s2 & Hs2 & HP2); [exact HP1| |].
    + intros i s' Hi. apply Hstep. lia.
    + exists s2. split; [exact Hs2|].
      replace (a + Z.of_nat (S n))%Z with (a + 1 + Z.of_nat n)%Z by lia. exact HP2.
Qed.

Lemma for_range_inv {S : Type} (P : Z -> S -> Prop) body (a b : Z) (s : S) :
  (a <= b)%Z ->
  P a s ->
  (forall i s, (a <= i < b)%Z -> P i s ->
               exists s', body i s = Ok s' /\ P (i + 1)%Z s') ->
  exists s', for_range a b body s = Ok s' /\ P b s'.
Proof.
  intros Hab HP Hstep. unfold for_range.
  destruct (for_loop_inv P body (Z.to_nat (b - a)) a s HP) as (s' & Hs & HP').
  - intros i s0 Hi. apply Hstep. lia.
  - exists s'. split; [exact Hs|].
    replace (a + Z.of_nat (Z.to_nat (b - a)))%Z with b in HP' by lia. exact HP'.
Qed.

Lemma for_range_empty {S : Type} body (a b : Z) (s : S) :
  (b <= a)%Z -> for_range a b body s = Ok s.
Proof.
  intros H. unfold for_range. replace (Z.to_nat (b - a)) with O by lia.
  reflexivity.
Qed.

Lemma for_loop_snoc {St : Type} (body : Z -> St -> result St) (n : nat) :
  forall (a : Z) (s : St),
    for_loop body a (S n) s =
    (s' <- for_loop body a n s ;; body (a + Z.of_nat n)%Z s').
Proof.
  induction n as [|n IH]; intros a s.
  - cbn [for_loop bind]. replace (a + Z.of_nat 0)%Z with a by lia.
    destruct (body a s); reflexivity.
  - change (for_loop body a (S (S n)) s)
      with (s' <- body a s ;; for_loop body (a + 1)%Z (S n) s').
    change (for_loop body a (S n) s)
      with (s' <- body a s ;; for_loop body (a + 1)%Z n s').
    destruct (body a s) as [s1|e]; [|reflexivity]. cbn [bind].
    rewrite IH. replace (a + 1 + Z.of_nat n)%Z with (a + Z.of_nat (S n))%Z by lia.
    reflexivity.
Qed.

Lemma for_range_snoc {St : Type} (a b : Z) (body : Z -> St -> result St) (s : St) :
  (a < b)%Z ->
  for_range a b body s = (s' <- for_range a (b - 1) body s ;; body (b - 1)%Z s').
Proof.
  intros H. unfold for_range.
  replace (Z.to_nat (b - a)) with (S (Z.to_nat (b - 1 - a))) by lia.
  rewrite for_loop_snoc. replace (a + Z.of_nat (Z.to_nat (b - 1 - a)))%Z with (b - 1)%Z by lia.
  reflexivity.
Qed.

Lemma for_enumerate_inv {X St : Type} (P : nat -> St -> Prop) body (xs : list X) :
  forall (k : nat) (s : St),
    P k s ->
    (forall i x s, xs !! i = Some x -> P (k + i)%nat s ->
       exists s', body (Z.of_nat (k + i)) x s = Ok s' /\ P (S (k + i)) s') ->
    exists s', for_enumerate body (Z.of_nat k) xs s = Ok s' /\
               P (k + length xs)%nat s'.
Proof.
  induction xs as [|x xs IH]; intros k s HP Hstep; simpl.
  - exists s. split; [reflexivity|]. replace (k + 0)%nat with k by lia. exact HP.
  - destruct (Hstep O x s) as (s1 & Hs1 & HP1); [reflexivity| |].
    { replace (k + 0)%nat with k by lia. exact HP. }
    replace (k + 0)%nat with k in * by lia. rewrite Hs1. simpl.
    replace (Z.of_nat k + 1)%Z with (Z.of_nat (S k)) by lia.
    destruct (IH (S k) s1 HP1) as (s2 & Hs2 & HP2).
    + intros i y s' Hy HPi.
      replace (S k + i)%nat with (k + S i)%nat in * by lia.
      apply (Hstep (S i) y s'); [exact Hy|exact HPi].
    + exists s2. split; [exact Hs2|].
      replace (k + S (length xs))%nat with (S k + length xs)%nat by lia.
      exact HP2.
Qed.

Lemma norm_index_in (n : nat) (i : Z) :
  (0 <= i < Z.of_nat n)%Z -> norm_index n i = Some (Z.to_nat i).
Proof.
  intros H. unfold norm_index.
  destruct (Z.leb_spec 0 i); [|lia]. destruct (Z.ltb_spec i (Z.of_nat n)); [|lia].
  reflexivity.
Qed.

Lemma norm_index_neg (n : nat) (i : Z) :
  (- Z.of_nat n <= i < 0)%Z -> norm_index n i = Some (Z.to_nat (i + Z.of_nat n)).
Proof.
  intros H. unfold norm_index.
  destruct (Z.leb_spec 0 i); [lia|].
  destruct (Z.leb_spec (- Z.of_nat n) i); [|lia]. reflexivity.
Qed.

Lemma norm_index_out (n : nat) (i : Z) :
  (Z.of_nat n <= i)%Z -> norm_index n i = None.
Proof.
  intros H. unfold norm_index.
  destruct (Z.leb_spec 0 i); [|lia]. destruct (Z.ltb_spec i (Z.of_nat n)); [lia|].
  reflexivity.
Qed.

Lemma norm_index_lt (n : nat) (i : Z) (k : nat) :
  norm_index n i = Some k -> (k < n)%nat.
Proof.
  unfold norm_index.
  destruct (Z.leb_spec 0 i).
  - destruct (Z.ltb_spec i (Z.of_nat n)); [|discriminate]. intros [= <-]. lia.
  - destruct (Z.leb_spec (- Z.of_nat n) i); [|discriminate]. intros [= <-]. lia.
Qed.

Lemma getitem_in {A : Type} (l : list A) (i : Z) (x : A) :
  (0 <= i)%Z -> l !! Z.to_nat i = Some x -> getitem l i = Ok x.
Proof.
  intros Hi Hx. unfold getitem.
  rewrite norm_index_in by (apply lookup_lt_Some in Hx; lia).
  rewrite Hx. reflexivity.
Qed.

Lemma getitem_last {A : Type} (l : list A) (x : A) :
  getitem (l ++ [x]) (-1) = Ok x.
Proof.
  unfold getitem. rewrite norm_index_neg by (rewrite length_app; simpl; lia).
  rewrite length_app. simpl.
  replace (Z.to_nat (-1 + Z.of_nat (length l + 1))) with (length l + 0)%nat by lia.
  rewrite lookup_app_r by lia.
  replace (length l + 0 - length l)%nat with O by lia. reflexivity.
Qed.

Lemma getitem_out {A : Type} (l : list A) (i : Z) :
  (Z.of_nat (length l) <= i)%Z -> getitem l i = Raise IndexError.
Proof. intros H. unfold getitem. rewrite norm_index_out by lia. reflexivity. Qed.

Lemma setitem_in {A : Type} (l : list A) (i : Z) (v : A) :
  (0 <= i < Z.of_nat (length l))%Z -> setitem l i v = Ok (<[Z.to_nat i := v]> l).
Proof. intros H. unfold setitem. rewrite norm_index_in by lia. reflexivity. Qed.

Lemma jit_read_in {A : Type} env (d : A) (l : list A) (i : Z) (x : A) :
  (0 <= i)%Z -> l !! Z.to_nat i = Some x -> jit_read env d l i = Ok x.
Proof.
  intros Hi Hx. unfold jit_read.
  rewrite norm_index_in by (apply lookup_lt_Some in Hx; lia).
  f_equal. apply nth_lookup_Some with (d := d) in Hx. exact Hx.
Qed.

Lemma jit_getitem_in env (l : list R) (i : Z) (x : R) :
  (0 <= i)%Z -> l !! Z.to_nat i = Some x -> jit_getitem env l i = Ok x.
Proof. apply jit_read_in. Qed.

Lemma jit_getitem_int_in env (l : list Z) (i : Z) (x : Z) :
  (0 <= i)%Z -> l !! Z.to_nat i = Some x -> jit_getitem_int env l i = Ok x.
Proof. apply jit_read_in. Qed.

Lemma clip_index_in (n : nat) (i : Z) :
  (0 <= i <= Z.of_nat n)%Z -> clip_index n i = Z.to_nat i.
Proof.
  intros H. unfold clip_index. destruct (Z.ltb_spec i 0); [lia|]. lia.
Qed.

Lemma clip_index_neg (n : nat) (i : Z) :
  (- Z.of_nat n <= i < 0)%Z -> clip_index n i = Z.to_nat (i + Z.of_nat n).
Proof.
  intros H. unfold clip_index. destruct (Z.ltb_spec i 0); [|lia]. lia.
Qed.

Lemma clip_index_le (n : nat) (i : Z) : (clip_index n i <= n)%nat.
Proof. unfold clip_index. destruct (Z.ltb_spec i 0); lia. Qed.

Lemma slice_in {A : Type} (l : list A) (a b : Z) :
  (0 <= a <= b)%Z -> (b <= Z.of_nat (length l))%Z ->
  slice l a b = take (Z.to_nat b - Z.to_nat a) (drop (Z.to_nat a) l).
Proof.
  intros Ha Hb. unfold slice. rewrite !clip_index_in by lia. reflexivity.
Qed.

Lemma length_slice {A : Type} (l : list A) (a b : Z) :
  length (slice l a b) =
  (clip_index (length l) b - clip_index (length l) a)%nat.
Proof.
  unfold slice. rewrite length_take, length_drop.
  pose proof (clip_index_le (length l) b). lia.
Qed.

Lemma broadcast_to_same (m : nat) (b : list R) :
  length b = m -> broadcast_to m b = Ok b.
Proof. intros H. unfold broadcast_to. destruct (decide (length b = m)); [reflexivity|lia]. Qed.

Lemma broadcast2_same {A B C : Type} (f : A -> B -> C) a b :
  length a = length b -> broadcast2 f a b = Ok (zip_with f a b).
Proof.
  intros H. unfold broadcast2.
  destruct (decide (length a = length b)); [reflexivity|lia].
Qed.

Lemma setslice_same (l : list R) (a b : Z) (new : list R) :
  (0 <= a <= b)%Z -> (b <= Z.of_nat (length l))%Z ->
  length new = Z.to_nat (b - a) ->
  setslice l a b new =
  Ok (take (Z.to_nat a) l ++ new ++ drop (Z.to_nat b) l).
Proof.
  intros Ha Hb Hn. unfold setslice. rewrite !clip_index_in by lia.
  rewrite broadcast_to_same by lia. simpl.
  replace (Z.to_nat a + (Z.to_nat b - Z.to_nat a))%nat with (Z.to_nat b) by lia.
  reflexivity.
Qed.

Lemma lookup_nth {A : Type} (l : list A) (k : nat) (d : A) :
  (k < length l)%nat -> l !! k = Some (nth k l d).
Proof.
  intros H. destruct (nth_lookup_or_length l k d) as [E|E]; [exact E|lia].
Qed.

Lemma jit_getitem_nth env (l : list R) (i : Z) :
  (0 <= i < Z.of_nat (length l))%Z ->
  jit_getitem env l i = Ok (nth (Z.to_nat i) l 0).
Proof. intros H. apply jit_getitem_in; [lia|]. apply lookup_nth. lia. Qed.

Lemma jit_getitem_int_nth env (l : list Z) (i : Z) :
  (0 <= i < Z.of_nat (length l))%Z ->
  jit_getitem_int env l i = Ok (nth (Z.to_nat i) l 0%Z).
Proof. intros H. apply jit_getitem_int_in; [lia|]. apply lookup_nth. lia. Qed.

Lemma nth_insert_eq {A : Type} (l : list A) (k : nat) (v d : A) :
  (k < length l)%nat -> nth k (<[k := v]> l) d = v.
Proof. intros H. apply nth_lookup_Some, list_lookup_insert_eq, H. Qed.

Lemma nth_insert_ne {A : Type} (l : list A) (k k' : nat) (v d : A) :
  k <> k' -> nth k' (<[k := v]> l) d = nth k' l d.
Proof. intros H. rewrite !nth_lookup, list_lookup_insert_ne by exact H. reflexivity. Qed.

(** ** Finite sums *)

Lemma sum_n_ext (f g : nat -> R) (n : nat) :
  (forall k, (k < n)%nat -> f k = g k) -> sum_n f n = sum_n g n.
Proof.
  induction n as [|n IH]; intros H; simpl; [reflexivity|].
  rewrite IH by (intros; apply H; lia). rewrite H by lia. reflexivity.
Qed.

Lemma sum_n_zero (f : nat -> R) (n : nat) :
  (forall k, (k < n)%nat -> f k = 0) -> sum_n f n = 0.
Proof.
  induction n as [|n IH]; intros H; simpl; [reflexivity|].
  rewrite IH by (intros; apply H; lia). rewrite H by lia. ring.
Qed.

(** A sum with a single non-zero term. *)
Lemma sum_n_single (f : nat -> R) (n k0 : nat) :
  (k0 < n)%nat -> (forall k, (k < n)%nat -> k <> k0 -> f k = 0) ->
  sum_n f n = f k0.
Proof.
  induction n as [|n IH]; intros Hk H; [lia|]. simpl.
  destruct (decide (k0 = n)) as [->|Hne].
  - rewrite sum_n_zero by (intros; apply H; lia). ring.
  - rewrite IH by (try lia; intros; apply H; lia). rewrite (H n) by lia. ring.
Qed.

Lemma sum_n_plus (f g : nat -> R) (n : nat) :
  sum_n (fun k => f k + g k) n = sum_n f n + sum_n g n.
Proof. induction n as [|n IH]; simpl; [ring|rewrite IH; ring]. Qed.

Lemma sum_n_scal_r (f : nat -> R) (c : R) (n : nat) :
  sum_n (fun k => f k * c) n = sum_n f n * c.
Proof. induction n as [|n IH]; simpl; [ring|rewrite IH; ring]. Qed.

Lemma sum_n_scal_l (f : nat -> R) (c : R) (n : nat) :
  sum_n (fun k => c * f k) n = c * sum_n f n.
Proof. induction n as [|n IH]; simpl; [ring|rewrite IH; ring]. Qed.

Lemma sum_n_swap (f : nat -> nat -> R) (n m : nat) :
  sum_n (fun r => sum_n (fun i => f r i) m) n =
  sum_n (fun i => sum_n (fun r => f r i) n) m.
Proof.
  induction n as [|n IH]; simpl.
  - symmetry. apply sum_n_zero. reflexivity.
  - rewrite IH, <- sum_n_plus. reflexivity.
Qed.

Lemma sum_n_app (f : nat -> R) (a b : nat) :
  sum_n f (a + b) = sum_n f a + sum_n (fun k => f (a + k)%nat) b.
Proof.
  induction b as [|b IH]; simpl.
  - rewrite Nat.add_0_r. ring.
  - rewrite Nat.add_succ_r. simpl. rewrite IH. ring.
Qed.

(** A sum over [0 .. n) of a function supported on [s .. e). *)
Lemma sum_n_window (g : nat -> R) (s e n : nat) :
  (s <= e)%nat -> (e <= n)%nat ->
  sum_n (fun r => if decide (s <= r < e)%nat then g (r - s)%nat else 0) n =
  sum_n g (e - s).
Proof.
  intros Hse Hen.
  replace n with (s + ((e - s) + (n - e)))%nat at 1 by lia.
  rewrite sum_n_app, sum_n_app.
  rewrite (sum_n_zero _ s).
  2: { intros k Hk. destruct (decide (s <= k < e)%nat); [lia|reflexivity]. }
  rewrite (sum_n_zero _ (n - e)).
  2: { intros k Hk. destruct (decide (s <= s + (e - s + k) < e)%nat);
       [lia|reflexivity]. }
  rewrite Rplus_0_l, Rplus_0_r. apply sum_n_ext. intros k Hk.
  destruct (decide (s <= s + k < e)%nat); [|lia]. f_equal. lia.
Qed.

(** ** The error function and [norm_cdf] *)

Lemma gauss_area_0 : gauss_area 0 = 0.
Proof. unfold gauss_area. apply RiemannInt_P9. Qed.

Lemma gauss_area_mono x y : 0 <= x -> x <= y -> gauss_area x <= gauss_area y.
Proof.
  intros Hx Hxy. unfold gauss_area.
  rewrite <- (RiemannInt_P26 (gauss_integrable 0 x) (gauss_integrable x y)
                (gauss_integrable 0 y)).
  assert (0 <= RiemannInt (gauss_integrable x y)); [|lra].
  replace 0 with (RiemannInt (RiemannInt_P14 x y 0))
    by (rewrite RiemannInt_P15; ring).
  apply RiemannInt_P19; [exact Hxy|].
  intros t _. unfold fct_cte, gauss. left. apply exp_pos.
Qed.

Lemma gauss_area_nonneg x : 0 <= x -> 0 <= gauss_area x.
Proof. intros Hx. rewrite <- gauss_area_0. apply gauss_area_mono; lra. Qed.

Lemma two_over_sqrt_pi_pos : 0 < 2 / sqrt PI.
Proof. apply Rdiv_lt_0_compat; [lra|apply sqrt_lt_R0, PI_RGT_0]. Qed.

Lemma erf_0 : erf 0 = 0.
Proof.
  unfold erf. destruct (Rle_dec 0 0); [|lra]. rewrite gauss_area_0. ring.
Qed.

Lemma erf_odd x : erf (- x) = - erf x.
Proof.
  unfold erf.
  destruct (Rle_dec 0 x) as [Hx|Hx], (Rle_dec 0 (- x)) as [Hn|Hn]; try lra.
  - assert (x = 0) as -> by lra. rewrite Ropp_0, gauss_area_0. ring.
  - rewrite Ropp_involutive. ring.
Qed.

Lemma erf_mono x y : x <= y -> erf x <= erf y.
Proof.
  intros Hxy. pose proof two_over_sqrt_pi_pos as Hc. unfold erf.
  destruct (Rle_dec 0 x) as [Hx|Hx], (Rle_dec 0 y) as [Hy|Hy]; try lra.
  - apply Rmult_le_compat_l; [lra|]. apply gauss_area_mono; lra.
  - pose proof (gauss_area_nonneg (- x)). pose proof (gauss_area_nonneg y).
    assert (0 <= 2 / sqrt PI * gauss_area (- x)) by (apply Rmult_le_pos; lra).
    assert (0 <= 2 / sqrt PI * gauss_area y) by (apply Rmult_le_pos; lra).
    lra.
  - apply Ropp_le_contravar, Rmult_le_compat_l; [lra|]. apply gauss_area_mono; lra.
Qed.

(** Both branches of [norm_cdf] compute the same expression in [erf]. *)
Lemma norm_cdf_erf a : norm_cdf a = 1/2 + 1/2 * erf (a * (1 / sqrt 2)).
Proof.
  unfold norm_cdf, erfc. cbv zeta.
  destruct (Rlt_dec (Rabs a) 1) as [Hz|Hz]; [reflexivity|].
  destruct (Rlt_dec 0 a) as [Ha|Ha].
  - rewrite Rabs_right by lra. lra.
  - rewrite Rabs_left1 by lra.
    replace (- a * (1 / sqrt 2)) with (- (a * (1 / sqrt 2))) by ring.
    rewrite erf_odd. lra.
Qed.

Lemma norm_cdf_0 : norm_cdf 0 = 1/2.
Proof. rewrite norm_cdf_erf, Rmult_0_l, erf_0. lra. Qed.

(** C6: [norm_cdf x + norm_cdf (-x) = 1] for every real [x], across the
    [erf] branch and the [erfc] branch; [norm_cdf 0 = 0.5]; and [norm_cdf]
    is non-decreasing over the whole real line. *)
Theorem norm_cdf_reflection_zero_monotone :
  (forall x, norm_cdf x + norm_cdf (- x) = 1) /\
  norm_cdf 0 = 1/2 /\
  (forall x y, x <= y -> norm_cdf x <= norm_cdf y).
Proof.
  split; [|split].
  - intros x. rewrite !norm_cdf_erf.
    replace (- x * (1 / sqrt 2)) with (- (x * (1 / sqrt 2))) by ring.
    rewrite erf_odd. lra.
  - exact norm_cdf_0.
  - intros x y Hxy. rewrite !norm_cdf_erf.
    assert (0 < 1 / sqrt 2).
    { apply Rdiv_lt_0_compat; [lra|apply sqrt_lt_R0; lra]. }
    assert (erf (x * (1 / sqrt 2)) <= erf (y * (1 / sqrt 2))); [|lra].
    apply erf_mono. apply Rmult_le_compat_r; lra.
Qed.

Lemma norm_cdf_reflection_zero_monotone_witness : norm_cdf 0 <= norm_cdf 1.
Proof.
  apply (proj2 (proj2 norm_cdf_reflection_zero_monotone) 0 1). lra.
Defined.

(** ** [centers_to_edges] *)

(** A segment with fewer than two centers makes the loop body fail. *)
Lemma segment_edges_short (icenters : list R) :
  (length icenters < 2)%nat -> segment_edges icenters = Raise IndexError.
Proof.
  intros H. destruct icenters as [|c [|c' l]]; simpl in H; try lia.
  - reflexivity.
  - reflexivity.
Qed.

Lemma for_enumerate_raises {X St : Type} (body : Z -> X -> St -> result St)
    (bad : X -> Prop) (xs : list X) :
  (forall i x s, bad x -> raises (body i x s)) ->
  (exists x, In x xs /\ bad x) ->
  forall i s, raises (for_enumerate body i xs s).
Proof.
  intros Hbad. induction xs as [|x xs IH]; intros (y & Hy & By) i s.
  - destruct Hy.
  - simpl. destruct Hy as [->|Hy].
    + apply raises_bind, Hbad, By.
    + destruct (body i x s) as [s'|e] eqn:E; simpl.
      * apply IH. exists y. split; assumption.
      * exists e. reflexivity.
Qed.

(** C9: if some segment of [camerapix] selects fewer than two centers,
    [centers_to_edges] raises an exception and returns no result. *)
Theorem centers_to_edges_short_segment_fails
    (uninit : R) (centers : list R) (camerapix : list (Z * Z)) :
  (exists s e, In (s, e) camerapix /\ (length (slice centers s e) < 2)%nat) ->
  raises (centers_to_edges uninit centers camerapix) /\
  forall edges, centers_to_edges uninit centers camerapix <> Ok edges.
Proof.
  intros (s & e & Hin & Hshort).
  assert (Hr : raises (centers_to_edges uninit centers camerapix)).
  { unfold centers_to_edges.
    apply (for_enumerate_raises _
             (fun c => (length (slice centers (fst c) (snd c)) < 2)%nat)).
    - intros i [s' e'] edges Hb. simpl in Hb.
      rewrite (segment_edges_short _ Hb). exists IndexError. reflexivity.
    - exists (s, e). split; [exact Hin|exact Hshort]. }
  split; [exact Hr|]. intros edges. apply raises_not_Ok, Hr.
Qed.

Lemma centers_to_edges_short_segment_fails_witness :
  raises (centers_to_edges 0 [1; 2; 3] [(0, 1)%Z]).
Proof.
  apply (centers_to_edges_short_segment_fails 0 [1; 2; 3] [(0, 1)%Z]).
  exists 0%Z, 1%Z. split; [left; reflexivity|simpl; lia].
Defined.

Lemma length_midpoints (c : list R) : length (midpoints c) = (length c - 1)%nat.
Proof.
  unfold midpoints. rewrite length_map, length_zip_with, length_take, length_drop.
  lia.
Qed.

Lemma midpoints_lookup (c : list R) (i : nat) :
  (i + 1 < length c)%nat ->
  midpoints c !! i = Some (1/2 * (nth i c 0 + nth (i + 1) c 0)).
Proof.
  intros Hi. unfold midpoints. rewrite list_lookup_fmap, lookup_zip_with.
  rewrite lookup_take_lt by lia. rewrite lookup_drop.
  destruct (lookup_lt_is_Some_2 c i) as [x Hx]; [lia|].
  destruct (lookup_lt_is_Some_2 c (1 + i)) as [y Hy]; [lia|].
  rewrite Hx, Hy. simpl.
  rewrite (nth_lookup_Some _ _ 0 _ Hx).
  replace (i + 1)%nat with (1 + i)%nat by lia.
  rewrite (nth_lookup_Some _ _ 0 _ Hy). reflexivity.
Qed.

Lemma segment_edges_ok (c : list R) :
  (2 <= length c)%nat -> segment_edges c = Ok (segment_result c).
Proof.
  intros Hn. unfold segment_edges.
  assert (Hs1 : slice c 0 (-1) = take (length c - 1) c).
  { unfold slice. rewrite (clip_index_in _ 0) by lia.
    rewrite (clip_index_neg _ (-1)) by lia.
    simpl. rewrite drop_0. f_equal. lia. }
  assert (Hs2 : slice_from c 1 = drop 1 c).
  { unfold slice_from. rewrite clip_index_in by lia. reflexivity. }
  rewrite Hs1, Hs2.
  rewrite broadcast2_same by (rewrite length_take, length_drop; lia). simpl.
  fold (midpoints c).
  pose proof (length_midpoints c) as Hm.
  destruct (lookup_lt_is_Some_2 c 0) as [c0 Hc0]; [lia|].
  destruct (lookup_lt_is_Some_2 c 1) as [c1 Hc1]; [lia|].
  destruct (lookup_lt_is_Some_2 (midpoints c) 0) as [m0 Hm0]; [lia|].
  destruct (lookup_lt_is_Some_2 c (length c - 1)) as [cn Hcn]; [lia|].
  destruct (lookup_lt_is_Some_2 (midpoints c) (length c - 2)) as [mn Hmn]; [lia|].
  rewrite (getitem_in c 0 c0) by (try lia; exact Hc0). simpl.
  rewrite (getitem_in c 1 c1) by (try lia; exact Hc1). simpl.
  rewrite (getitem_in (midpoints c) 0 m0) by (try lia; exact Hm0). simpl.
  assert (Hlast : getitem c (-1) = Ok cn).
  { unfold getitem. rewrite norm_index_neg by lia.
    replace (Z.to_nat (-1 + Z.of_nat (length c))) with (length c - 1)%nat by lia.
    rewrite Hcn. reflexivity. }
  assert (Hmlast : getitem (midpoints c) (-1) = Ok mn).
  { unfold getitem. rewrite norm_index_neg by lia.
    replace (Z.to_nat (-1 + Z.of_nat (length (midpoints c))))
      with (length c - 2)%nat by lia.
    rewrite Hmn. reflexivity. }
  rewrite Hlast. simpl. rewrite Hmlast. simpl.
  unfold segment_result.
  rewrite (nth_lookup_Some _ _ 0 _ Hc0), (nth_lookup_Some _ _ 0 _ Hc1),
    (nth_lookup_Some _ _ 0 _ Hm0), (nth_lookup_Some _ _ 0 _ Hcn),
    (nth_lookup_Some _ _ 0 _ Hmn).
  reflexivity.
Qed.

Lemma length_segment_result (c : list R) :
  (2 <= length c)%nat -> length (segment_result c) = S (length c).
Proof.
  intros H. unfold segment_result. simpl.
  rewrite length_app, length_midpoints. simpl. lia.
Qed.

Lemma slice_setslice_same (l : list R) (a b : Z) (new : list R) :
  (0 <= a <= b)%Z -> (b <= Z.of_nat (length l))%Z ->
  length new = Z.to_nat (b - a) ->
  slice (take (Z.to_nat a) l ++ new ++ drop (Z.to_nat b) l) a b = new.
Proof.
  intros Ha Hb Hn. rewrite slice_in.
  - rewrite drop_app_length' by (rewrite length_take; lia).
    rewrite take_app_length' by lia. reflexivity.
  - lia.
  - rewrite !length_app, length_take, length_drop. lia.
Qed.

Lemma slice_setslice_before (l : list R) (a b a' b' : Z) (new : list R) :
  (0 <= a' <= b')%Z -> (b' <= a)%Z -> (a <= b)%Z ->
  (b <= Z.of_nat (length l))%Z ->
  length new = Z.to_nat (b - a) ->
  slice (take (Z.to_nat a) l ++ new ++ drop (Z.to_nat b) l) a' b' =
  slice l a' b'.
Proof.
  intros Ha' Hb' Hab Hb Hn. rewrite !slice_in; try lia.
  - apply list_eq. intros i.
    destruct (decide (i < Z.to_nat b' - Z.to_nat a')%nat) as [Hi|Hi].
    + rewrite !lookup_take_lt by lia. rewrite !lookup_drop.
      rewrite lookup_app_l by (rewrite length_take; lia).
      rewrite lookup_take_lt by lia. reflexivity.
    + rewrite !lookup_take_ge by lia. reflexivity.
  - rewrite !length_app, length_take, length_drop. lia.
Qed.

(** C7: for segments with at least two centers each, [centers_to_edges]
    returns an array holding, for segment number [k] with range [s, e) and
    [n = e - s] centers [c], exactly [n + 1] edges at positions
    [s + k .. e + k]: the leftmost is [c[0] - (c[1] - m[0])], the interior
    ones are the midpoints [m[i-1] = (c[i-1] + c[i]) / 2], the rightmost is
    [c[n-1] + (c[n-1] - m[n-2])]; these edges are a function of the
    segment's own centers only. *)
Theorem centers_to_edges_segment_edges
    (uninit : R) (centers : list R) (camerapix : list (Z * Z)) :
  segments_wf (length centers) camerapix ->
  exists edges,
    centers_to_edges uninit centers camerapix = Ok edges /\
    length edges = (length centers + length camerapix)%nat /\
    forall k s e, camerapix !! k = Some (s, e) ->
      let c := slice centers s e in
      let n := length c in
      let seg := slice edges (s + Z.of_nat k) (e + Z.of_nat k + 1) in
      let m i := (nth i c 0 + nth (i + 1) c 0) / 2 in
      n = Z.to_nat (e - s) /\
      length seg = (n + 1)%nat /\
      nth 0 seg 0 = nth 0 c 0 - (nth 1 c 0 - m 0%nat) /\
      (forall i, (1 <= i <= n - 1)%nat -> nth i seg 0 = m (i - 1)%nat) /\
      nth n seg 0 = nth (n - 1) c 0 + (nth (n - 1) c 0 - m (n - 2)%nat) /\
      seg = segment_result c.
Proof.
  intros [Hwf Hord]. unfold centers_to_edges.
  set (L := length centers). set (N := length camerapix).
  set (body := fun (icam : Z) (campix : Z * Z) (edges : list R) =>
                 let '(s, e) := campix in
                 new_edges <- segment_edges (slice centers s e) ;;
                 setslice edges (s + icam) (e + icam + 1) new_edges).
  pose (P := fun (k : nat) (edges : list R) =>
               length edges = (L + N)%nat /\
               forall k' s e, (k' < k)%nat -> camerapix !! k' = Some (s, e) ->
                 slice edges (s + Z.of_nat k') (e + Z.of_nat k' + 1) =
                 segment_result (slice centers s e)).
  assert (Hlen : forall k s e, camerapix !! k = Some (s, e) ->
                 length (slice centers s e) = Z.to_nat (e - s)).
  { intros k s e Hk. destruct (Hwf k s e Hk) as (H1 & H2 & H3).
    rewrite length_slice, !clip_index_in by (fold L; lia). lia. }
  destruct (for_enumerate_inv P body camerapix 0 (replicate (L + N) uninit))
    as (edges & Hrun & Hlen' & HP).
  { split; [apply length_replicate|]. intros; lia. }
  { intros i [s e] edges Hi [HL HP]. simpl in *.
    destruct (Hwf i s e Hi) as (H1 & H2 & H3).
    pose proof (Hlen i s e Hi) as Hn.
    pose proof (lookup_lt_Some _ _ _ Hi) as HiN. fold N in HiN.
    rewrite segment_edges_ok by lia. simpl.
    pose proof (length_segment_result (slice centers s e) ltac:(lia)) as Hsr.
    rewrite setslice_same by lia.
    eexists. split; [reflexivity|]. split.
    - rewrite !length_app, length_take, length_drop. lia.
    - intros k' s' e' Hk' Hk's.
      destruct (decide (k' = i)) as [->|Hne].
      + rewrite Hi in Hk's. injection Hk's as <- <-.
        apply slice_setslice_same; lia.
      + assert (k' < i)%nat as Hlt by lia.
        pose proof (Hord k' i s' e' s e Hlt Hk's Hi).
        destruct (Hwf k' s' e' Hk's) as (H1' & H2' & H3').
        rewrite slice_setslice_before by lia.
        apply HP; [lia|exact Hk's]. }
  simpl in Hrun. exists edges. split; [exact Hrun|]. split; [exact Hlen'|].
  intros k s e Hk. cbv zeta.
  pose proof (lookup_lt_Some _ _ _ Hk) as HkN.
  rewrite (HP k s e) by (simpl; first [lia|exact Hk]).
  destruct (Hwf k s e Hk) as (H1 & H2 & H3).
  pose proof (Hlen k s e Hk) as Hn.
  set (c := slice centers s e) in *.
  assert (2 <= length c)%nat as Hc2 by lia.
  pose proof (length_midpoints c) as Hm.
  split; [exact Hn|]. split; [rewrite length_segment_result; lia|].
  assert (Hmid : forall i, (i + 1 < length c)%nat ->
            nth i (midpoints c) 0 = (nth i c 0 + nth (i + 1) c 0) / 2).
  { intros i Hi. rewrite (nth_lookup_Some _ _ 0 _ (midpoints_lookup c i Hi)).
    lra. }
  split; [|split; [|split; [|reflexivity]]].
  - unfold segment_result. simpl. rewrite Hmid by lia. reflexivity.
  - intros i Hi. unfold segment_result. cbv zeta.
    destruct i as [|i]; [lia|]. simpl.
    rewrite app_nth1 by lia. rewrite Hmid by lia.
    replace (i - 0)%nat with i by lia. reflexivity.
  - unfold segment_result. cbv zeta.
    destruct (length c) as [|n'] eqn:En; [lia|]. simpl.
    rewrite app_nth2 by lia. rewrite Hm.
    replace (n' - (S n' - 1))%nat with O by lia. simpl.
    replace (n' - 0)%nat with n' by lia.
    rewrite Hmid by lia. replace (n' - 1 + 1)%nat with n' by lia. reflexivity.
Qed.

Lemma centers_to_edges_segment_edges_witness :
  exists edges,
    centers_to_edges 0 [1; 2; 3; 5] [(0, 2)%Z; (2, 4)%Z] = Ok edges /\
    length edges = 6%nat.
Proof.
  destruct (centers_to_edges_segment_edges 0 [1; 2; 3; 5]
              [(0, 2)%Z; (2, 4)%Z])
    as (edges & Hedges & Hlen & _).
  - split.
    + intros k s e Hk. destruct k as [|[|k]]; [| |discriminate];
        injection Hk as <- <-; simpl; lia.
    + intros k k' s e s' e' Hlt Hk Hk'.
      destruct k as [|[|k]]; [| |discriminate]; injection Hk as <- <-;
        (destruct k' as [|[|k']]; [| |discriminate]; injection Hk' as <- <-);
        lia.
  - exists edges. split; [exact Hedges|exact Hlen].
Defined.

(** ** [ResMatrix] *)

Lemma entry_nat (M : array2) (r c : nat) :
  entry M (Z.of_nat r) (Z.of_nat c) = nth c (nth r (rows M) []) 0.
Proof. unfold entry. rewrite !Nat2Z.id. reflexivity. Qed.

Lemma jit_getitem2_in env (M : array2) (i j : Z) :
  array2_wf M ->
  (0 <= i < Z.of_nat (shape0 M))%Z -> (0 <= j < Z.of_nat (shape1 M))%Z ->
  jit_getitem2 env M i j = Ok (entry M i j).
Proof.
  intros [Hr Hc] Hi Hj. unfold jit_getitem2, entry.
  rewrite !norm_index_in by lia. f_equal.
  apply nth_indep.
  assert (Hrow : nth (Z.to_nat i) (rows M) [] ∈ rows M).
  { apply nth_elem_of. lia. }
  rewrite Forall_forall in Hc. rewrite (Hc _ Hrow). lia.
Qed.

Lemma jit_getrow_in env (M : array2) (i : Z) :
  array2_wf M -> (0 <= i < Z.of_nat (shape0 M))%Z ->
  jit_getrow env M i = Ok (nth (Z.to_nat i) (rows M) []).
Proof.
  intros _ Hi. unfold jit_getrow. rewrite norm_index_in by lia. reflexivity.
Qed.

Lemma setitem2_in (M : array2) (i j : Z) (v : R) :
  array2_wf M ->
  (0 <= i < Z.of_nat (shape0 M))%Z -> (0 <= j < Z.of_nat (shape1 M))%Z ->
  exists M',
    setitem2 M i j v = Ok M' /\
    array2_wf M' /\ shape0 M' = shape0 M /\ shape1 M' = shape1 M /\
    forall r c, (0 <= r)%Z -> (0 <= c)%Z ->
      entry M' r c = if decide (r = i /\ c = j) then v else entry M r c.
Proof.
  intros [Hr Hc] Hi Hj. unfold setitem2. rewrite !norm_index_in by lia.
  eexists. split; [reflexivity|]. simpl.
  assert (Hrow : length (nth (Z.to_nat i) (rows M) []) = shape1 M).
  { rewrite Forall_forall in Hc. apply Hc. apply nth_elem_of. lia. }
  split; [|split; [reflexivity|split; [reflexivity|]]].
  - split; simpl.
    + rewrite length_insert. exact Hr.
    + apply Forall_insert; [exact Hc|]. rewrite length_insert. exact Hrow.
  - intros r c Hr0 Hc0. unfold entry. simpl.
    rewrite (nth_lookup (<[_ := _]> (rows M))).
    destruct (decide (Z.to_nat r = Z.to_nat i)) as [Eri|Nri].
    + rewrite Eri, list_lookup_insert_eq by lia. simpl.
      rewrite nth_lookup.
      destruct (decide (Z.to_nat c = Z.to_nat j)) as [Ecj|Ncj].
      * rewrite Ecj, list_lookup_insert_eq by lia. simpl.
        destruct (decide (r = i /\ c = j)) as [_|Hne]; [reflexivity|lia].
      * rewrite list_lookup_insert_ne by lia. rewrite <- nth_lookup.
        destruct (decide (r = i /\ c = j)) as [[-> ->]|_]; [lia|reflexivity].
    + rewrite list_lookup_insert_ne by lia. rewrite <- nth_lookup.
      destruct (decide (r = i /\ c = j)) as [[-> ->]|_]; [lia|reflexivity].
Qed.

Lemma np_empty2_wf (fill : R) (n m : nat) : array2_wf (np_empty2 fill n m).
Proof.
  split; simpl; [apply length_replicate|].
  apply Forall_replicate. apply length_replicate.
Qed.

Lemma odd_half (n : Z) : Z.odd n = true -> (n = 2 * (n / 2) + 1)%Z.
Proof.
  intros H. pose proof (Z.div_mod n 2 ltac:(lia)) as E.
  rewrite Zmod_odd, H in E. exact E.
Qed.

(** The row-banded form holds the band of the stacked-diagonal input. *)
Lemma from_dia_matrix_ok env (D : array2) :
  array2_wf D -> Z.odd (Z.of_nat (shape0 D)) = true ->
  let hdiag := (Z.of_nat (shape0 D) / 2)%Z in
  let nrow := Z.of_nat (shape1 D) in
  exists A,
    ResMatrix._from_dia_matrix env D = Ok A /\
    array2_wf A /\ shape0 A = shape1 D /\ shape1 A = shape0 D /\
    forall i j, (0 <= i < nrow)%Z ->
      (Z.max (i - hdiag) 0 <= j <= Z.min (i + hdiag) (nrow - 1))%Z ->
      entry A i (j - i + hdiag) = entry D (hdiag + i - j) j.
Proof.
  intros HD Hodd hdiag nrow. apply odd_half in Hodd. fold hdiag in Hodd.
  unfold ResMatrix._from_dia_matrix. fold hdiag. fold nrow.
  assert (Enr : nrow = Z.of_nat (shape1 D)) by reflexivity.
  assert (Ehd : hdiag = (Z.of_nat (shape0 D) / 2)%Z) by reflexivity.
  clearbody nrow hdiag.
  pose (good := fun (A : array2) =>
                  array2_wf A /\ shape0 A = shape1 D /\ shape1 A = shape0 D).
  pose (filled := fun (A : array2) (i j : Z) =>
                    entry A i (j - i + hdiag) = entry D (hdiag + i - j) j).
  pose (band := fun (i j : Z) =>
     (0 <= i < nrow)%Z /\
     (Z.max (i - hdiag) 0 <= j <= Z.min (i + hdiag) (nrow - 1))%Z).
  pose (P := fun (i0 : Z) (A : array2) =>
     good A /\ forall i j, band i j -> (i < i0)%Z -> filled A i j).
  destruct (for_range_inv P
    (fun i A =>
       for_range (Z.max (i - hdiag) 0) (Z.min (i + hdiag) (nrow - 1) + 1)
         (fun j A =>
            d <- jit_getitem2 env D (hdiag + i - j) j ;;
            setitem2 A i (j - i + hdiag) d) A)
    0 nrow (np_empty2 (junk env) (shape1 D) (shape0 D)))
    as (A & HA & [HgA HfA]).
  - lia.
  - split; [|intros i j [Hb _] Hlt; lia].
    split; [apply np_empty2_wf|split; reflexivity].
  - intros i0 A0 Hi0 [Hg0 Hf0].
    pose (Q := fun (j0 : Z) (A : array2) =>
       good A /\ forall i j, band i j ->
                   (i < i0 \/ (i = i0 /\ j < j0))%Z -> filled A i j).
    destruct (for_range_inv Q
      (fun j A =>
         d <- jit_getitem2 env D (hdiag + i0 - j) j ;;
         setitem2 A i0 (j - i0 + hdiag) d)
      (Z.max (i0 - hdiag) 0) (Z.min (i0 + hdiag) (nrow - 1) + 1) A0)
      as (A1 & HA1 & [Hg1 Hf1]).
    + lia.
    + split; [exact Hg0|]. intros i j Hb [Hlt|[-> Hlt]].
      * apply Hf0; assumption.
      * destruct Hb as [_ Hb]. lia.
    + intros j0 A [Hj0a Hj0b] [(Hwf & Hs0 & Hs1) Hf].
      rewrite jit_getitem2_in by (try exact HD; lia). simpl.
      destruct (setitem2_in A i0 (j0 - i0 + hdiag) (entry D (hdiag + i0 - j0) j0))
        as (A' & -> & Hwf' & Hs0' & Hs1' & Hent); [exact Hwf|lia|lia|].
      eexists. split; [reflexivity|]. split.
      * split; [exact Hwf'|]. split; congruence.
      * intros i j Hb Hij. unfold filled. rewrite Hent by (destruct Hb; lia).
        destruct (decide (i = i0 /\ (j - i + hdiag)%Z = (j0 - i0 + hdiag)%Z))
          as [[-> Ej]|Hne].
        -- f_equal; lia.
        -- apply Hf; [exact Hb|]. lia.
    + exists A1. split; [exact HA1|]. split; [exact Hg1|].
      intros i j Hb Hlt. apply Hf1; [exact Hb|].
      destruct Hb as [_ Hb]. lia.
  - exists A. split; [exact HA|].
    destruct HgA as (Hwf & Hs0 & Hs1).
    split; [exact Hwf|]. split; [exact Hs0|]. split; [exact Hs1|].
    intros i j Hi Hj. apply HfA; [split; assumption|lia].
Qed.

(** [_matvec] sums, for each row, the band entries times the matching
    entries of [v]. *)
Lemma matvec_ok env (M : array2) (v w : list R) :
  array2_wf M -> Z.odd (Z.of_nat (shape1 M)) = true ->
  length v = shape0 M -> length w = shape0 M ->
  let hdiag := (Z.of_nat (shape1 M) / 2)%Z in
  let nrow := Z.of_nat (shape0 M) in
  exists w',
    ResMatrix._matvec env M v w = Ok w' /\
    length w' = shape0 M /\
    forall i, (0 <= i < nrow)%Z ->
      let jmin := Z.max (i - hdiag) 0 in
      let jmax := Z.min (i + hdiag) (nrow - 1) in
      nth (Z.to_nat i) w' 0 =
      sum_n (fun k => let j := (jmin + Z.of_nat k)%Z in
                      entry M i (j - i + hdiag) * nth (Z.to_nat j) v 0)
            (Z.to_nat (jmax + 1 - jmin)).
Proof.
  intros HM Hodd Hv Hw hdiag nrow. apply odd_half in Hodd. fold hdiag in Hodd.
  unfold ResMatrix._matvec. fold hdiag. fold nrow.
  assert (Enr : nrow = Z.of_nat (shape0 M)) by reflexivity.
  assert (Ehd : hdiag = (Z.of_nat (shape1 M) / 2)%Z) by reflexivity.
  clearbody nrow hdiag.
  pose (row := fun (i : Z) =>
     sum_n (fun k => let j := (Z.max (i - hdiag) 0 + Z.of_nat k)%Z in
                     entry M i (j - i + hdiag) * nth (Z.to_nat j) v 0)
           (Z.to_nat (Z.min (i + hdiag) (nrow - 1) + 1 - Z.max (i - hdiag) 0))).
  pose (P := fun (i0 : Z) (w' : list R) =>
     length w' = shape0 M /\
     forall i, (0 <= i < i0)%Z -> nth (Z.to_nat i) w' 0 = row i).
  destruct (for_range_inv P
    (fun i w =>
       acc <- for_range (Z.max (i - hdiag) 0) (Z.min (i + hdiag) (nrow - 1) + 1)
                (fun j acc =>
                   m <- jit_getitem2 env M i (j - i + hdiag) ;;
                   x <- jit_getitem env v j ;;
                   Ok (acc + m * x)) 0 ;;
       setitem w i acc)
    0 nrow w) as (w' & Hw' & Hlen & Hrows).
  - lia.
  - split; [exact Hw|intros; lia].
  - intros i0 w0 Hi0 [Hl0 Hr0].
    set (jmin := Z.max (i0 - hdiag) 0).
    set (jmax := Z.min (i0 + hdiag) (nrow - 1)).
    pose (Q := fun (j0 : Z) (acc : R) =>
       acc = sum_n (fun k => let j := (jmin + Z.of_nat k)%Z in
                             entry M i0 (j - i0 + hdiag) * nth (Z.to_nat j) v 0)
                   (Z.to_nat (j0 - jmin))).
    destruct (for_range_inv Q
      (fun j acc =>
         m <- jit_getitem2 env M i0 (j - i0 + hdiag) ;;
         x <- jit_getitem env v j ;;
         Ok (acc + m * x))
      jmin (jmax + 1) 0) as (acc & Hacc & HQ).
    + lia.
    + unfold Q. replace (Z.to_nat (jmin - jmin)) with O by lia. reflexivity.
    + intros j0 a Hj0 Ha.
      rewrite jit_getitem2_in by (try exact HM; lia). simpl.
      rewrite (jit_getitem_in env v j0 (nth (Z.to_nat j0) v 0)).
      2: lia.
      2: { destruct (nth_lookup_or_length v (Z.to_nat j0) 0) as [H|H];
           [exact H|lia]. }
      simpl. eexists. split; [reflexivity|]. unfold Q in *.
      replace (Z.to_nat (j0 + 1 - jmin)) with (S (Z.to_nat (j0 - jmin))) by lia.
      simpl. rewrite <- Ha.
      replace (jmin + Z.of_nat (Z.to_nat (j0 - jmin)))%Z with j0 by lia.
      reflexivity.
    + rewrite Hacc. simpl. rewrite setitem_in by lia.
      eexists. split; [reflexivity|]. split.
      * rewrite length_insert. exact Hl0.
      * intros i Hi. destruct (decide (i = i0)) as [->|Hne].
        -- rewrite (nth_lookup_Some _ _ _ acc)
             by (apply list_lookup_insert_eq; lia).
           exact HQ.
        -- rewrite nth_lookup, list_lookup_insert_ne by lia.
           rewrite <- nth_lookup. apply Hr0. lia.
  - exists w'. split; [exact Hw'|]. split; [exact Hlen|].
    intros i Hi. cbv zeta. apply Hrows. exact Hi.
Qed.

Lemma banded_product_identity (D : array2) (v : list R) (i : Z) :
  Z.odd (Z.of_nat (shape0 D)) = true -> is_identity_dia D ->
  (0 <= i < Z.of_nat (shape1 D))%Z ->
  banded_product D v i = nth (Z.to_nat i) v 0.
Proof.
  intros Hodd Hid Hi. apply odd_half in Hodd.
  unfold banded_product, is_identity_dia in *.
  set (hdiag := (Z.of_nat (shape0 D) / 2)%Z) in *.
  set (jmin := Z.max (i - hdiag) 0).
  set (jmax := Z.min (i + hdiag) (Z.of_nat (shape1 D) - 1)).
  assert (Hh : (0 <= hdiag)%Z) by lia.
  rewrite (sum_n_single _ _ (Z.to_nat (i - jmin))).
  - cbv zeta. replace (jmin + Z.of_nat (Z.to_nat (i - jmin)))%Z with i by lia.
    rewrite Hid by lia.
    replace (hdiag + i - i)%Z with hdiag by lia. rewrite Z.eqb_refl. ring.
  - lia.
  - intros k Hk Hne. cbv zeta. rewrite Hid by lia.
    destruct (Z.eqb_spec (hdiag + i - (jmin + Z.of_nat k)) hdiag); [lia|ring].
Qed.

(** C2: for a stacked-diagonal input [D] of shape [ndiag x nrow] with [ndiag]
    odd and a vector [v] of length [nrow], [ResMatrix(D).matvec(v, w)]
    returns in [w], at every row [i], the sum over the columns [j] from
    [max(i - hdiag, 0)] to [min(i + hdiag, nrow - 1)] of
    [D[hdiag + i - j, j] * v[j]]; when [D] encodes the identity matrix the
    result is [v]. *)
Theorem ResMatrix_matvec_banded_product env (D : array2) (v w : list R) :
  array2_wf D -> Z.odd (Z.of_nat (shape0 D)) = true ->
  length v = shape1 D -> length w = shape1 D ->
  exists w',
    ResMatrix.matvec env D v w = Ok w' /\
    length w' = shape1 D /\
    (forall i, (0 <= i < Z.of_nat (shape1 D))%Z ->
       nth (Z.to_nat i) w' 0 = banded_product D v i) /\
    (is_identity_dia D -> w' = v).
Proof.
  intros HD Hodd Hv Hw.
  destruct (from_dia_matrix_ok env D HD Hodd)
    as (A & HA & HwfA & Hs0 & Hs1 & Hband).
  destruct (matvec_ok env A v w HwfA) as (w' & Hw' & Hlen & Hrows);
    try congruence.
  assert (Hprod : forall i, (0 <= i < Z.of_nat (shape1 D))%Z ->
            nth (Z.to_nat i) w' 0 = banded_product D v i).
  { intros i Hi. rewrite Hrows by (rewrite Hs0; exact Hi).
    unfold banded_product. rewrite Hs0, Hs1.
    apply sum_n_ext. intros k Hk. cbv zeta. rewrite Hband by lia.
    reflexivity. }
  exists w'. unfold ResMatrix.matvec. rewrite HA. simpl.
  split; [exact Hw'|]. split; [congruence|]. split; [exact Hprod|].
  intros Hid. apply list_eq_same_length with (n := shape1 D); try congruence.
  intros k x y Hk Hx Hy.
  rewrite <- (nth_lookup_Some _ _ 0 _ Hx), <- (nth_lookup_Some _ _ 0 _ Hy).
  replace k with (Z.to_nat (Z.of_nat k)) by lia.
  rewrite Hprod by lia.
  apply banded_product_identity; [exact Hodd|exact Hid|lia].
Qed.

Lemma ResMatrix_matvec_banded_product_witness :
  exists w',
    ResMatrix.matvec numba_default (Array2 3 2 [[0; 0]; [1; 1]; [0; 0]])
      [7; 9] [0; 0] = Ok w' /\
    w' = [7; 9].
Proof.
  destruct (ResMatrix_matvec_banded_product numba_default
              (Array2 3 2 [[0; 0]; [1; 1]; [0; 0]]) [7; 9] [0; 0])
    as (w' & Hw' & _ & _ & Hid).
  - split; [reflexivity|]. repeat constructor.
  - reflexivity.
  - reflexivity.
  - reflexivity.
  - exists w'. split; [exact Hw'|]. apply Hid.
    intros r c Hr Hc. simpl in Hr, Hc.
    assert (r = 0 \/ r = 1 \/ r = 2)%Z as [->|[->| ->]] by lia;
      (assert (c = 0 \/ c = 1)%Z as [->| ->] by lia); reflexivity.
Defined.

(** ** [EMLineJacobian]: the ideal-Jacobian fragment *)

Section Fragment.

Variable env : jit_env.
Variables (starts ends : list Z) (values : array2).
Variable nbins : nat.
Hypothesis Hwf : fragment_wf (starts, ends, values) nbins.

Let J : EMLineJacobian.fragment := (starts, ends, values).
Let nvars : nat := length starts.
Let s (i : nat) : Z := nth i starts 0%Z.
Let e (i : nat) : Z := nth i ends 0%Z.

Lemma fragment_run (i : nat) :
  (i < nvars)%nat ->
  (0 <= s i <= e i)%Z /\ (e i <= Z.of_nat nbins)%Z /\
  (e i - s i <= Z.of_nat (shape1 values))%Z.
Proof. intros Hi. destruct Hwf as (_ & _ & _ & H). apply H, Hi. Qed.

Lemma zero_fill (w : list R) :
  exists w', for_range 0 (Z.of_nat (length w)) (fun j w => setitem w j 0) w
             = Ok w' /\
             length w' = length w /\
             forall r, (r < length w)%nat -> nth r w' 0 = 0.
Proof.
  pose (P := fun (j : Z) (w' : list R) =>
               length w' = length w /\
               forall r, (Z.of_nat r < j)%Z -> nth r w' 0 = 0).
  destruct (for_range_inv P (fun j w => setitem w j 0) 0
              (Z.of_nat (length w)) w) as (w' & Hw' & Hl & Hz).
  - lia.
  - split; [reflexivity|intros; lia].
  - intros j w0 Hj [Hl0 Hz0]. rewrite setitem_in by lia.
    eexists. split; [reflexivity|]. split.
    + rewrite length_insert. exact Hl0.
    + intros r Hr. destruct (decide (r = Z.to_nat j)) as [->|Hne].
      * apply nth_insert_eq. lia.
      * rewrite nth_insert_ne by lia. apply Hz0. lia.
  - exists w'. split; [exact Hw'|]. split; [exact Hl|].
    intros r Hr. apply Hz. lia.
Qed.

(** Forward multiply: each output row is the matching row of the matrix
    times [v]. *)
Lemma matvec_J_ok (v w : list R) :
  length v = nvars -> length w = nbins ->
  exists w',
    EMLineJacobian._matvec_J env J v w = Ok w' /\
    length w' = nbins /\
    forall r, (r < nbins)%nat ->
      nth r w' 0 = sum_n (fun i => jac_entry J r i * nth i v 0) nvars.
Proof.
  intros Hv Hw. unfold EMLineJacobian._matvec_J, J.
  destruct Hwf as (Hends & Hvals & Hs0 & _).
  destruct (zero_fill w) as (w0 & -> & Hl0 & Hz0). simpl.
  pose (P := fun (i0 : Z) (w' : list R) =>
     length w' = nbins /\
     forall r, (r < nbins)%nat ->
       nth r w' 0 = sum_n (fun i => jac_entry J r i * nth i v 0)
                          (Z.to_nat i0)).
  destruct (for_range_inv P
    (fun i w =>
       vals <- jit_getrow env values i ;;
       e <- jit_getitem_int env ends i ;;
       s <- jit_getitem_int env starts i ;;
       for_range 0 (e - s)
         (fun j w =>
            s <- jit_getitem_int env starts i ;;
            cur <- jit_getitem env w (j + s) ;;
            a <- jit_getitem env vals j ;;
            x <- jit_getitem env v i ;;
            setitem w (j + s) (cur + a * x))
         w)
    0 (Z.of_nat (length starts)) w0) as (w' & Hw' & Hl' & Hr').
  - lia.
  - split; [lia|]. intros r Hr. simpl. apply Hz0. lia.
  - intros i0 w1 Hi0 [Hl1 Hr1].
    destruct (fragment_run (Z.to_nat i0)) as (Hse & Hen & Hsh);
      [unfold nvars; lia|].
    rewrite (jit_getrow_in env values i0 Hvals) by lia. cbn [bind].
    rewrite jit_getitem_int_nth by lia. simpl.
    rewrite jit_getitem_int_nth by lia. simpl.
    fold (s (Z.to_nat i0)). fold (e (Z.to_nat i0)).
    set (si := s (Z.to_nat i0)) in *. set (ei := e (Z.to_nat i0)) in *.
  assert (Hrow : length (nth (Z.to_nat i0) (rows values) []) = shape1 values).
  { destruct Hvals as [Hr Hc]. rewrite Forall_forall in Hc. apply Hc.
    apply nth_elem_of. lia. }
    pose (Q := fun (j0 : Z) (w' : list R) =>
       length w' = nbins /\
       forall r, (r < nbins)%nat ->
         nth r w' 0 =
         nth r w1 0 +
         (if decide (si <= Z.of_nat r < si + j0)%Z
          then entry values i0 (Z.of_nat r - si) * nth (Z.to_nat i0) v 0
          else 0)).
    destruct (for_range_inv Q
      (fun j w =>
         cur <- jit_getitem env w (j + si) ;;
         a <- jit_getitem env (nth (Z.to_nat i0) (rows values) []) j ;;
         x <- jit_getitem env v i0 ;;
         setitem w (j + si) (cur + a * x))
      0 (ei - si) w1) as (w2 & Hw2 & Hl2 & Hr2).
    + lia.
    + split; [exact Hl1|]. intros r Hr.
      destruct (decide (si <= Z.of_nat r < si + 0)%Z); [lia|ring].
    + intros j0 w3 Hj0 [Hl3 Hr3].
      rewrite jit_getitem_nth by lia. simpl.
      rewrite jit_getitem_nth by (rewrite Hrow; lia). simpl.
  fold (entry values i0 j0).
      rewrite jit_getitem_nth by (unfold nvars in Hv; lia). simpl.
      rewrite setitem_in by lia.
      eexists. split; [reflexivity|]. split.
      * rewrite length_insert. exact Hl3.
      * intros r Hr. destruct (decide (r = Z.to_nat (j0 + si))) as [->|Hne].
        -- rewrite nth_insert_eq by lia. rewrite Hr3 by lia.
           destruct (decide (si <= Z.of_nat (Z.to_nat (j0 + si)) < si + j0)%Z);
             [lia|].
           destruct (decide (si <= Z.of_nat (Z.to_nat (j0 + si)) < si + (j0 + 1))%Z);
             [|lia].
           replace (Z.of_nat (Z.to_nat (j0 + si)) - si)%Z with j0 by lia.
           ring.
        -- rewrite nth_insert_ne by lia. rewrite Hr3 by lia.
           destruct (decide (si <= Z.of_nat r < si + j0)%Z),
             (decide (si <= Z.of_nat r < si + (j0 + 1))%Z);
             try lia; reflexivity.
    + exists w2. split; [exact Hw2|]. split; [exact Hl2|].
      intros r Hr. rewrite Hr2 by exact Hr. rewrite Hr1 by exact Hr.
      replace (Z.to_nat (i0 + 1)) with (S (Z.to_nat i0)) by lia. simpl.
      f_equal. unfold jac_entry, J. fold (s (Z.to_nat i0)) (e (Z.to_nat i0)).
      fold si ei. replace (si + (ei - si))%Z with ei by lia.
      rewrite Z2Nat.id by lia.
      destruct (decide (si <= Z.of_nat r < ei)%Z); ring.
  - exists w'. split; [exact Hw'|]. split; [exact Hl'|].
    intros r Hr. rewrite Hr' by exact Hr. rewrite Nat2Z.id. reflexivity.
Qed.

(** Transpose multiply: each output entry is the matching column of the
    matrix times [u]. *)
Lemma rmatvec_J_ok (u w : list R) :
  length u = nbins -> length w = nvars ->
  exists w',
    EMLineJacobian._rmatvec_J env J u w = Ok w' /\
    length w' = nvars /\
    forall i, (i < nvars)%nat ->
      nth i w' 0 = sum_n (fun r => jac_entry J r i * nth r u 0) nbins.
Proof.
  intros Hu Hw. unfold EMLineJacobian._rmatvec_J, J.
  destruct Hwf as (Hends & Hvals & Hs0 & _).
  pose (P := fun (i0 : Z) (w' : list R) =>
     length w' = nvars /\
     forall i, (Z.of_nat i < i0)%Z ->
       nth i w' 0 = sum_n (fun r => jac_entry J r i * nth r u 0) nbins).
  destruct (for_range_inv P
    (fun i w =>
       vals <- jit_getrow env values i ;;
       e <- jit_getitem_int env ends i ;;
       s <- jit_getitem_int env starts i ;;
       acc <- for_range 0 (e - s)
                (fun j acc =>
                   a <- jit_getitem env vals j ;;
                   s <- jit_getitem_int env starts i ;;
                   x <- jit_getitem env u (j + s) ;;
                   Ok (acc + a * x))
                0 ;;
       setitem w i acc)
    0 (Z.of_nat (length starts)) w) as (w' & Hw' & Hl' & Hr').
  - lia.
  - split; [exact Hw|intros; lia].
  - intros i0 w1 Hi0 [Hl1 Hr1].
    destruct (fragment_run (Z.to_nat i0)) as (Hse & Hen & Hsh);
      [unfold nvars; lia|].
    rewrite (jit_getrow_in env values i0 Hvals) by lia. cbn [bind].
    rewrite jit_getitem_int_nth by lia. simpl.
    rewrite jit_getitem_int_nth by lia. simpl.
    fold (s (Z.to_nat i0)). fold (e (Z.to_nat i0)).
    set (si := s (Z.to_nat i0)) in *. set (ei := e (Z.to_nat i0)) in *.
  assert (Hrow : length (nth (Z.to_nat i0) (rows values) []) = shape1 values).
  { destruct Hvals as [Hr Hc]. rewrite Forall_forall in Hc. apply Hc.
    apply nth_elem_of. lia. }
    pose (g := fun (k : nat) =>
                 entry values i0 (Z.of_nat k) *
                 nth (Z.to_nat (Z.of_nat k + si)) u 0).
    pose (Q := fun (j0 : Z) (acc : R) => acc = sum_n g (Z.to_nat j0)).
    destruct (for_range_inv Q
      (fun j acc =>
         a <- jit_getitem env (nth (Z.to_nat i0) (rows values) []) j ;;
         x <- jit_getitem env u (j + si) ;;
         Ok (acc + a * x))
      0 (ei - si) 0) as (acc & Hacc & HQ).
    + lia.
    + reflexivity.
    + intros j0 a Hj0 Ha.
      rewrite jit_getitem_nth by (rewrite Hrow; lia). simpl.
  fold (entry values i0 j0).
      rewrite jit_getitem_nth by lia. simpl.
      eexists. split; [reflexivity|]. unfold Q in *.
      replace (Z.to_nat (j0 + 1)) with (S (Z.to_nat j0)) by lia. simpl.
      rewrite <- Ha. unfold g. rewrite Z2Nat.id by lia. reflexivity.
    + rewrite Hacc. simpl. rewrite setitem_in by (unfold nvars in *; lia).
      eexists. split; [reflexivity|]. split.
      * rewrite length_insert. exact Hl1.
      * intros i Hi. destruct (decide (i = Z.to_nat i0)) as [->|Hne].
        -- rewrite nth_insert_eq by (unfold nvars in *; lia).
           unfold Q in HQ. rewrite HQ.
           replace (Z.to_nat (ei - si)) with (Z.to_nat ei - Z.to_nat si)%nat
             by lia.
           rewrite <- (sum_n_window g (Z.to_nat si) (Z.to_nat ei) nbins)
             by lia.
           apply sum_n_ext. intros r Hr.
           unfold jac_entry, J. fold (s (Z.to_nat i0)) (e (Z.to_nat i0)).
           fold si ei. rewrite Z2Nat.id by lia.
           destruct (decide (Z.to_nat si <= r < Z.to_nat ei)%nat),
             (decide (si <= Z.of_nat r < ei)%Z); try lia; [|ring].
           unfold g. f_equal; f_equal; lia.
        -- rewrite nth_insert_ne by lia. apply Hr1. lia.
  - exists w'. split; [exact Hw'|]. split; [exact Hl'|].
    intros i Hi. apply Hr'. unfold nvars in Hi. lia.
Qed.

End Fragment.

(** C4: for a fragment [J = (starts, ends, values)] with
    [0 <= starts[i] <= ends[i] <= nbins] for every column, [_matvec_J] and
    [_rmatvec_J] multiply by the same matrix [A] (column [i] holding
    [values[i]] on rows [starts[i] .. ends[i])) and by its transpose: for
    every parameter vector [v] and bin vector [u], the inner product of
    [_matvec_J(J, v, .)] with [u] equals that of [v] with
    [_rmatvec_J(J, u, .)]. *)
Theorem matvec_J_rmatvec_J_adjoint env (starts ends : list Z) (values : array2)
    (nbins : nat) (v u w wt : list R) :
  fragment_wf (starts, ends, values) nbins ->
  length v = length starts -> length u = nbins ->
  length w = nbins -> length wt = length starts ->
  let J : EMLineJacobian.fragment := (starts, ends, values) in
  exists Jv Jtu,
    EMLineJacobian._matvec_J env J v w = Ok Jv /\
    EMLineJacobian._rmatvec_J env J u wt = Ok Jtu /\
    (forall r, (r < nbins)%nat ->
       nth r Jv 0 = sum_n (fun i => jac_entry J r i * nth i v 0) (length starts)) /\
    (forall i, (i < length starts)%nat ->
       nth i Jtu 0 = sum_n (fun r => jac_entry J r i * nth r u 0) nbins) /\
    dot Jv u = dot v Jtu.
Proof.
  intros Hwf Hv Hu Hw Hwt J.
  destruct (matvec_J_ok env starts ends values nbins Hwf v w Hv Hw)
    as (Jv & HJv & HlJv & Hrows).
  destruct (rmatvec_J_ok env starts ends values nbins Hwf u wt Hu Hwt)
    as (Jtu & HJtu & HlJtu & Hcols).
  exists Jv, Jtu. split; [exact HJv|]. split; [exact HJtu|].
  split; [exact Hrows|]. split; [exact Hcols|].
  unfold dot. rewrite HlJv, Hv.
  rewrite (sum_n_ext _ (fun r => sum_n (fun i =>
             jac_entry J r i * nth i v 0 * nth r u 0) (length starts))).
  2: { intros r Hr. rewrite Hrows by exact Hr. rewrite <- sum_n_scal_r.
       reflexivity. }
  rewrite sum_n_swap. apply sum_n_ext. intros i Hi.
  rewrite Hcols by exact Hi. rewrite <- sum_n_scal_l.
  apply sum_n_ext. intros r Hr. fold J. ring.
Qed.

Lemma matvec_J_rmatvec_J_adjoint_witness :
  exists Jv Jtu,
    EMLineJacobian._matvec_J numba_default
      ([0; 1]%Z, [2; 2]%Z, Array2 2 2 [[1; 2]; [3; 0]]) [1; 1] [0; 0] = Ok Jv /\
    EMLineJacobian._rmatvec_J numba_default
      ([0; 1]%Z, [2; 2]%Z, Array2 2 2 [[1; 2]; [3; 0]]) [1; 1] [0; 0] = Ok Jtu /\
    dot Jv [1; 1] = dot [1; 1] Jtu.
Proof.
  destruct (matvec_J_rmatvec_J_adjoint numba_default [0; 1]%Z [2; 2]%Z
              (Array2 2 2 [[1; 2]; [3; 0]]) 2 [1; 1] [1; 1] [0; 0] [0; 0])
    as (Jv & Jtu & HJv & HJtu & _ & _ & Hdot).
  - split; [reflexivity|]. split; [split; [reflexivity|repeat constructor]|].
    split; [reflexivity|].
    intros i Hi. simpl in Hi.
    destruct i as [|[|i]]; [| |lia]; simpl; lia.
  - reflexivity.
  - reflexivity.
  - reflexivity.
  - reflexivity.
  - exists Jv, Jtu. split; [exact HJv|]. split; [exact HJtu|exact Hdot].
Defined.

(** ** [build_emline_model]: searching, extrema, truncation *)

Lemma searchsorted_left_le (a : list R) (v : R) :
  (searchsorted_left a v <= length a)%nat.
Proof.
  induction a as [|x a IH]; simpl; [lia|]. destruct (Rlt_dec x v); lia.
Qed.

Lemma searchsorted_right_le (a : list R) (v : R) :
  (searchsorted_right a v <= length a)%nat.
Proof.
  induction a as [|x a IH]; simpl; [lia|]. destruct (Rle_dec x v); lia.
Qed.

Lemma searchsorted_left_below (a : list R) (v : R) (i : nat) :
  (i < searchsorted_left a v)%nat -> nth i a 0 < v.
Proof.
  revert i. induction a as [|x a IH]; intros i; simpl; [lia|].
  destruct (Rlt_dec x v); [|lia]. destruct i; [auto|]. intros H. apply IH. lia.
Qed.

Lemma searchsorted_left_at (a : list R) (v : R) :
  (searchsorted_left a v < length a)%nat ->
  v <= nth (searchsorted_left a v) a 0.
Proof.
  induction a as [|x a IH]; simpl; [lia|].
  destruct (Rlt_dec x v); [|intros; lra]. intros H. apply IH. lia.
Qed.

Lemma searchsorted_right_below (a : list R) (v : R) (i : nat) :
  (i < searchsorted_right a v)%nat -> nth i a 0 <= v.
Proof.
  revert i. induction a as [|x a IH]; intros i; simpl; [lia|].
  destruct (Rle_dec x v); [|lia]. destruct i; [auto|]. intros H. apply IH. lia.
Qed.

Lemma searchsorted_right_at (a : list R) (v : R) :
  (searchsorted_right a v < length a)%nat ->
  v < nth (searchsorted_right a v) a 0.
Proof.
  induction a as [|x a IH]; simpl; [lia|].
  destruct (Rle_dec x v); [|intros; lra]. intros H. apply IH. lia.
Qed.

(** The lower search never passes the upper one when the bounds are in
    order. *)
Lemma searchsorted_left_right (a : list R) (vl vh : R) :
  vl <= vh -> (searchsorted_left a vl <= searchsorted_right a vh)%nat.
Proof.
  intros H. induction a as [|x a IH]; simpl; [lia|].
  destruct (Rlt_dec x vl), (Rle_dec x vh); try lia. lra.
Qed.

(** On a strictly increasing array, the searches count the elements below
    (not above) the value. *)
Lemma searchsorted_left_above (a : list R) (v : R) (i : nat) :
  strictly_increasing a ->
  (searchsorted_left a v <= i < length a)%nat -> v <= nth i a 0.
Proof.
  revert i. induction a as [|x a IH]; intros i Hinc; simpl; [lia|].
  assert (Hinc' : strictly_increasing a).
  { intros k Hk. apply (Hinc (S k)). simpl. lia. }
  destruct (Rlt_dec x v) as [Hx|Hx].
  - intros Hi. destruct i; [lia|]. apply IH; [exact Hinc'|lia].
  - intros Hi. clear IH. induction i as [|i IHi]; [lra|].
    assert (nth i (x :: a) 0 < nth (S i) (x :: a) 0).
    { replace (S i) with (i + 1)%nat by lia. apply Hinc. simpl in *. lia. }
    assert (v <= nth i (x :: a) 0) by (apply IHi; simpl in *; lia).
    change (nth (S i) (x :: a) 0) with (nth i a 0) in *. lra.
Qed.

Lemma searchsorted_right_above (a : list R) (v : R) (i : nat) :
  strictly_increasing a ->
  (searchsorted_right a v <= i < length a)%nat -> v < nth i a 0.
Proof.
  revert i. induction a as [|x a IH]; intros i Hinc; simpl; [lia|].
  assert (Hinc' : strictly_increasing a).
  { intros k Hk. apply (Hinc (S k)). simpl. lia. }
  destruct (Rle_dec x v) as [Hx|Hx].
  - intros Hi. destruct i; [lia|]. apply IH; [exact Hinc'|lia].
  - intros Hi. clear IH. induction i as [|i IHi]; [simpl; lra|].
    assert (nth i (x :: a) 0 < nth (S i) (x :: a) 0).
    { replace (S i) with (i + 1)%nat by lia. apply Hinc. simpl in *. lia. }
    assert (v < nth i (x :: a) 0) by (apply IHi; simpl in *; lia).
    change (nth (S i) (x :: a) 0) with (nth i a 0) in *. lra.
Qed.

Lemma foldl_Rmax_ge (l : list R) (x : R) :
  x <= foldl Rmax x l /\ forall y, In y l -> y <= foldl Rmax x l.
Proof.
  revert x. induction l as [|z l IH]; intros x; simpl.
  - split; [lra|intros y []].
  - destruct (IH (Rmax x z)) as [H1 H2].
    pose proof (Rmax_l x z). pose proof (Rmax_r x z).
    split; [lra|]. intros y [<-|Hy]; [lra|apply H2, Hy].
Qed.

Lemma foldl_Rmin_le (l : list R) (x : R) :
  foldl Rmin x l <= x /\ forall y, In y l -> foldl Rmin x l <= y.
Proof.
  revert x. induction l as [|z l IH]; intros x; simpl.
  - split; [lra|intros y []].
  - destruct (IH (Rmin x z)) as [H1 H2].
    pose proof (Rmin_l x z). pose proof (Rmin_r x z).
    split; [lra|]. intros y [<-|Hy]; [lra|apply H2, Hy].
Qed.

Lemma foldl_Rmin_pos (l : list R) (x : R) :
  0 < x -> (forall y, In y l -> 0 < y) -> 0 < foldl Rmin x l.
Proof.
  revert x. induction l as [|z l IH]; intros x Hx Hl; simpl; [exact Hx|].
  apply IH.
  - apply Rmin_glb_lt; [exact Hx|apply Hl; left; reflexivity].
  - intros y Hy. apply Hl. right. exact Hy.
Qed.

Lemma np_max_ge (l : list R) (m : R) :
  np_max l = Ok m -> forall y, In y l -> y <= m.
Proof.
  destruct l as [|x l]; simpl; [discriminate|]. intros [= <-] y [<-|Hy].
  - apply (proj1 (foldl_Rmax_ge l x)).
  - apply (proj2 (foldl_Rmax_ge l x)), Hy.
Qed.

Lemma np_min_le (l : list R) (m : R) :
  np_min l = Ok m -> forall y, In y l -> m <= y.
Proof.
  destruct l as [|x l]; simpl; [discriminate|]. intros [= <-] y [<-|Hy].
  - apply (proj1 (foldl_Rmin_le l x)).
  - apply (proj2 (foldl_Rmin_le l x)), Hy.
Qed.

Lemma np_min_pos (l : list R) (m : R) :
  np_min l = Ok m -> (forall y, In y l -> 0 < y) -> 0 < m.
Proof.
  destruct l as [|x l]; simpl; [discriminate|]. intros [= <-] H.
  apply foldl_Rmin_pos; [apply H; left; reflexivity|].
  intros y Hy. apply H. right. exact Hy.
Qed.

Lemma length_np_diff (l : list R) : length (np_diff l) = (length l - 1)%nat.
Proof.
  unfold np_diff. rewrite length_zip_with.
  destruct l as [|x l]; [reflexivity|]. cbn [tail length]. lia.
Qed.

Lemma np_diff_nth (l : list R) (i : nat) :
  (i + 1 < length l)%nat ->
  nth i (np_diff l) 0 = nth (i + 1) l 0 - nth i l 0.
Proof.
  intros H. unfold np_diff. apply nth_lookup_Some.
  rewrite lookup_zip_with.
  rewrite (lookup_nth l i 0) by lia. simpl.
  destruct l as [|x l]; [simpl in H; lia|]. simpl.
  rewrite (lookup_nth l i 0) by (simpl in H; lia). simpl.
  replace (i + 1)%nat with (S i) by lia. reflexivity.
Qed.

Lemma In_nth_lt {A : Type} (l : list A) (y d : A) :
  In y l -> exists i, (i < length l)%nat /\ nth i l d = y.
Proof. intros H. apply (In_nth l y d) in H. exact H. Qed.

(** Truncation of a non-negative real dominates every integer below it. *)
Lemma trunc_ge (q : R) (n : Z) : 0 <= q -> IZR n <= q -> (n <= trunc q)%Z.
Proof.
  intros Hq Hn. unfold trunc. destruct (Rle_dec 0 q); [|lra].
  destruct (base_Int_part q) as [H1 H2].
  assert (IZR n < IZR (Int_part q + 1)) as H by (rewrite plus_IZR; lra).
  apply lt_IZR in H. lia.
Qed.

Lemma array_split3_3n (l : list R) (n : nat) :
  length l = (3 * n)%nat ->
  array_split3 l = (take n l, take n (drop n l), drop (2 * n) l).
Proof.
  intros H. unfold array_split3. rewrite H.
  replace (3 * n)%nat with (n * 3)%nat by lia.
  rewrite Nat.div_mul, Nat.Div0.mod_mul by lia. simpl.
  rewrite !Nat.add_0_r. reflexivity.
Qed.

Lemma mapM_array_div (l : list R) :
  (forall y, In y l -> y <> 0) ->
  mapM (array_div 1) l = Ok (map (fun y => 1 / y) l).
Proof.
  induction l as [|x l IH]; intros H; simpl; [reflexivity|].
  unfold array_div at 1. destruct (Req_dec_T x 0) as [E|_].
  - exfalso. apply (H x); [left; reflexivity|exact E].
  - simpl. rewrite IH by (intros y Hy; apply H; right; exact Hy). reflexivity.
Qed.

(** On a strictly increasing array whose consecutive gaps are at least [d],
    elements [k] places apart differ by at least [k * d]. *)
Lemma increasing_gap (a : list R) (d : R) (i k : nat) :
  (forall y, In y (np_diff a) -> d <= y) ->
  (i + k < length a)%nat ->
  INR k * d <= nth (i + k) a 0 - nth i a 0.
Proof.
  intros Hd. induction k as [|k IH]; intros Hk.
  - rewrite Nat.add_0_r. simpl. lra.
  - assert (d <= nth (i + k) (np_diff a) 0) as Hgap.
    { apply Hd. apply nth_In. rewrite length_np_diff. lia. }
    rewrite np_diff_nth in Hgap by lia.
    replace (i + S k)%nat with (i + k + 1)%nat by lia.
    rewrite S_INR. specialize (IH ltac:(lia)). lra.
Qed.

(** ** [build_emline_model]: one line *)

Lemma jit_getitem_unchecked env (l : list R) (i : Z) :
  (0 <= i)%Z ->
  (i < Z.of_nat (length l))%Z \/ boundscheck env = false ->
  jit_getitem env l i = Ok (nth (Z.to_nat i) l (junk env)).
Proof.
  intros Hi H. unfold jit_getitem, jit_read.
  destruct (Z.ltb_spec i (Z.of_nat (length l))) as [Hlt|Hge].
  - rewrite norm_index_in by lia. reflexivity.
  - rewrite norm_index_out by lia. destruct H as [H| ->]; [lia|].
    rewrite nth_overflow by lia. reflexivity.
Qed.

Lemma scalar_div_ok (x y : R) : y <> 0 -> scalar_div x y = Ok (x / y).
Proof.
  intros H. unfold scalar_div. destruct (Req_dec_T y 0); [contradiction|reflexivity].
Qed.

Lemma iadd_slice_ok (l : list R) (a b : Z) (d : list R) :
  (0 <= a <= b)%Z -> (b <= Z.of_nat (length l))%Z ->
  length d = Z.to_nat (b - a) ->
  exists l',
    iadd_slice l a b d = Ok l' /\
    length l' = length l /\
    forall k, nth k l' 0 =
              nth k l 0 +
              (if decide (a <= Z.of_nat k < b)%Z
               then nth (k - Z.to_nat a) d 0 else 0).
Proof.
  intros Ha Hb Hd. unfold iadd_slice. rewrite !clip_index_in by lia.
  rewrite broadcast_to_same by lia. simpl.
  eexists. split; [reflexivity|].
  set (na := Z.to_nat a). set (m := (Z.to_nat b - na)%nat).
  assert (Hm : length d = m) by lia.
  assert (Hlz : length (zip_with Rplus (take m (drop na l)) d) = m).
  { rewrite length_zip_with, length_take, length_drop. lia. }
  split.
  - rewrite !length_app, length_take, length_drop, Hlz. lia.
  - intros k. destruct (decide (a <= Z.of_nat k < b)%Z) as [Hk|Hk].
    + rewrite app_nth2 by (rewrite length_take; lia).
      rewrite length_take. replace (na `min` length l)%nat with na by lia.
      rewrite app_nth1 by lia.
      apply nth_lookup_Some. rewrite lookup_zip_with.
      rewrite lookup_take_lt by lia. rewrite lookup_drop.
      replace (na + (k - na))%nat with k by lia.
      rewrite (lookup_nth l k 0) by lia. simpl.
      rewrite (lookup_nth d (k - na) 0) by lia. reflexivity.
    + rewrite Rplus_0_r.
      destruct (decide (k < na)%nat) as [Hlt|Hge].
      * rewrite app_nth1 by (rewrite length_take; lia).
        rewrite !nth_lookup, lookup_take_lt by lia. reflexivity.
      * rewrite app_nth2 by (rewrite length_take; lia).
        rewrite length_take. replace (na `min` length l)%nat with na by lia.
        rewrite app_nth2 by lia. rewrite Hlz.
        rewrite !nth_lookup, lookup_drop. f_equal. f_equal. lia.
Qed.

Section OneLine.

Variable env : jit_env.
Variables line_amplitudes ibin_width log_obs_bin_edges : list R.
Variable j : Z.
Variable w : line_window.
Variable aj : R.

Let lo := lw_lo w.
Let hi := lw_hi w.
Let sigma := lw_sigma w.
Let A := line_area w aj.
Let nedges := (hi - lo + 2)%Z.
Let V (i : Z) : R := edge_value log_obs_bin_edges w aj (i + lo - 1).
Let D (i : Z) : R :=
  (V (i + 1) - V i) * nth (Z.to_nat (i + lo)) ibin_width (junk env).

(** The two inner loops of [model_line_fill]. *)
Let edge_loop (i : Z) (ev : list R) : result (list R) :=
  e <- jit_getitem env log_obs_bin_edges (i + lo - 1) ;;
  q <- scalar_div e sigma ;;
  setitem ev i (A * norm_cdf (q - (lw_log_shifted_line w / sigma + sigma))).
Let diff_loop (i : Z) (ev : list R) : result (list R) :=
  hi_val <- jit_getitem env ev (i + 1) ;;
  lo_val <- jit_getitem env ev i ;;
  wd <- jit_getitem env ibin_width (i + lo) ;;
  setitem ev i ((hi_val - lo_val) * wd).

Hypothesis Hlo : (0 <= lo < hi)%Z.
Hypothesis Hhi : (hi <= Z.of_nat (length log_obs_bin_edges))%Z.
Hypothesis Hsigma : sigma <> 0.
Hypothesis Hj : (0 <= j)%Z.
Hypothesis Haj : line_amplitudes !! Z.to_nat j = Some aj.

Lemma V_0 : V 0 = 0.
Proof.
  unfold V, edge_value. fold lo.
  destruct (Z.ltb_spec (0 + lo - 1) lo); [reflexivity|lia].
Qed.

Lemma V_top : V (nedges - 1) = A.
Proof.
  unfold V, edge_value, nedges. fold lo hi.
  destruct (Z.ltb_spec (hi - lo + 2 - 1 + lo - 1) lo); [lia|].
  destruct (Z.leb_spec hi (hi - lo + 2 - 1 + lo - 1)); [reflexivity|lia].
Qed.

Lemma V_mid (i : Z) :
  (1 <= i < nedges - 1)%Z ->
  V i = A * norm_cdf (nth (Z.to_nat (i + lo - 1)) log_obs_bin_edges 0 / sigma
                      - (lw_log_shifted_line w / sigma + sigma)).
Proof.
  intros Hi. unfold V, edge_value. unfold nedges in Hi. fold lo hi sigma.
  destruct (Z.ltb_spec (i + lo - 1) lo); [lia|].
  destruct (Z.leb_spec hi (i + lo - 1)); [lia|]. reflexivity.
Qed.

(** Unfolding of [model_line_fill] up to its loops. *)
Lemma model_line_fill_unfold (model_fluxes edge_vals : list R) :
  (0 < Z.of_nat (length edge_vals))%Z ->
  model_line_fill env line_amplitudes ibin_width log_obs_bin_edges j w
    (model_fluxes, edge_vals) =
  (ev <- for_range 1 (nedges - 1) edge_loop (<[O := 0]> edge_vals) ;;
   ev <- setitem ev (nedges - 1) A ;;
   ev <- for_range 0 (nedges - 1) diff_loop ev ;;
   mf <- iadd_slice model_fluxes lo (hi + 1) (slice ev 0 (nedges - 1)) ;;
   Ok (mf, ev)).
Proof.
  intros Hev. unfold model_line_fill. fold lo hi sigma.
  rewrite (jit_getitem_in env line_amplitudes j aj Hj Haj). cbn [bind].
  rewrite scalar_div_ok by exact Hsigma. cbn [bind].
  rewrite setitem_in by lia. cbn [bind]. reflexivity.
Qed.

(** After the first loop and the write of [A], the scratch buffer holds
    the edge values of the window. *)
Lemma edge_loop_ok (edge_vals : list R) :
  (nedges <= Z.of_nat (length edge_vals))%Z ->
  exists ev,
    (ev <- for_range 1 (nedges - 1) edge_loop (<[O := 0]> edge_vals) ;;
     setitem ev (nedges - 1) A) = Ok ev /\
    length ev = length edge_vals /\
    forall i, (0 <= i <= nedges - 1)%Z -> nth (Z.to_nat i) ev 0 = V i.
Proof.
  intros Hev. set (W := length edge_vals).
  pose (P1 := fun (i : Z) (ev : list R) =>
     length ev = W /\
     forall i', (0 <= i' < i)%Z -> nth (Z.to_nat i') ev 0 = V i').
  destruct (for_range_inv P1 edge_loop 1 (nedges - 1) (<[O := 0]> edge_vals))
    as (ev1 & Hev1 & Hl1 & Hv1).
  { unfold nedges. lia. }
  { split; [apply length_insert|]. intros i' Hi'.
    assert (i' = 0%Z) as -> by lia.
    change (Z.to_nat 0) with O. rewrite nth_insert_eq by (fold W; unfold nedges in Hev; lia).
    symmetry. apply V_0. }
  { intros i ev Hi [Hl Hv]. unfold edge_loop. unfold nedges in Hi, Hev.
    rewrite jit_getitem_nth by lia. cbn [bind].
    rewrite scalar_div_ok by exact Hsigma. cbn [bind].
    rewrite setitem_in by (unfold W in Hl; lia).
    eexists. split; [reflexivity|]. split.
    - rewrite length_insert. exact Hl.
    - intros i' Hi'. destruct (decide (i' = i)) as [->|Hne].
      + rewrite nth_insert_eq by (unfold W in Hl; lia).
        symmetry. apply V_mid. unfold nedges. lia.
      + rewrite nth_insert_ne by lia. apply Hv. lia. }
  rewrite Hev1. cbn [bind].
  rewrite setitem_in by (unfold W in Hl1; unfold nedges in *; lia).
  eexists. split; [reflexivity|]. split.
  - rewrite length_insert. exact Hl1.
  - intros i' Hi'.
    destruct (decide (i' = (nedges - 1)%Z)) as [->|Hne].
    + rewrite nth_insert_eq by (unfold W in Hl1; unfold nedges in *; lia).
      symmetry. apply V_top.
    + rewrite nth_insert_ne by lia. apply Hv1. lia.
Qed.

(** The first [m] rounds of the second loop, as long as [ibin_width] can be
    read. *)
Lemma diff_loop_ok (ev0 : list R) (m : Z) :
  (nedges <= Z.of_nat (length ev0))%Z ->
  (forall i, (0 <= i <= nedges - 1)%Z -> nth (Z.to_nat i) ev0 0 = V i) ->
  (0 <= m <= nedges - 1)%Z ->
  (m + lo - 1 < Z.of_nat (length ibin_width))%Z \/ boundscheck env = false ->
  exists ev,
    for_range 0 m diff_loop ev0 = Ok ev /\
    length ev = length ev0 /\
    (forall i, (0 <= i < m)%Z -> nth (Z.to_nat i) ev 0 = D i) /\
    (forall i, (m <= i <= nedges - 1)%Z -> nth (Z.to_nat i) ev 0 = V i).
Proof.
  intros Hlen Hv0 Hm Hread.
  pose (P2 := fun (i : Z) (ev : list R) =>
     length ev = length ev0 /\
     (forall i', (0 <= i' < i)%Z -> nth (Z.to_nat i') ev 0 = D i') /\
     (forall i', (i <= i' <= nedges - 1)%Z -> nth (Z.to_nat i') ev 0 = V i')).
  apply (for_range_inv P2 diff_loop 0 m ev0).
  - lia.
  - split; [reflexivity|]. split; [intros; lia|]. intros i' Hi'. apply Hv0. lia.
  - intros i ev Hi (Hl & Hd & Hv). unfold diff_loop.
    rewrite jit_getitem_nth by lia. cbn [bind].
    rewrite jit_getitem_nth by lia. cbn [bind].
    rewrite jit_getitem_unchecked
      by first [lia | destruct Hread; [left; lia|right; assumption]].
    cbn [bind]. rewrite setitem_in by lia.
    eexists. split; [reflexivity|]. split; [|split].
    + rewrite length_insert. exact Hl.
    + intros i' Hi'. destruct (decide (i' = i)) as [->|Hne].
      * rewrite nth_insert_eq by lia.
        rewrite !Hv by lia. reflexivity.
      * rewrite nth_insert_ne by lia. apply Hd. lia.
    + intros i' Hi'. rewrite nth_insert_ne by lia. apply Hv. lia.
Qed.

Lemma model_line_fill_ok (model_fluxes edge_vals : list R) :
  (hi < Z.of_nat (length ibin_width))%Z \/ boundscheck env = false ->
  length model_fluxes = S (length log_obs_bin_edges) ->
  (nedges <= Z.of_nat (length edge_vals))%Z ->
  exists model_fluxes' edge_vals',
    model_line_fill env line_amplitudes ibin_width log_obs_bin_edges j w
      (model_fluxes, edge_vals) = Ok (model_fluxes', edge_vals') /\
    length model_fluxes' = length model_fluxes /\
    length edge_vals' = length edge_vals /\
    forall k, nth k model_fluxes' 0 =
              nth k model_fluxes 0 +
              line_delta (junk env) ibin_width log_obs_bin_edges w aj k.
Proof.
  intros Hread Hmf Hev.
  rewrite model_line_fill_unfold by (unfold nedges in Hev; lia).
  destruct (edge_loop_ok edge_vals Hev) as (ev2 & Hev2 & Hl2 & Hv2).
  destruct (for_range 1 (nedges - 1) edge_loop (<[O := 0]> edge_vals))
    as [ev1|err]; [|discriminate].
  cbn [bind] in *. rewrite Hev2. cbn [bind].
  destruct (diff_loop_ok ev2 (nedges - 1)) as (ev3 & Hev3 & Hl3 & Hd3 & _).
  { lia. }
  { exact Hv2. }
  { unfold nedges. lia. }
  { unfold nedges. destruct Hread; [left; lia|right; assumption]. }
  rewrite Hev3. cbn [bind].
  assert (Hslice : slice ev3 0 (nedges - 1) = take (Z.to_nat (nedges - 1)) ev3).
  { rewrite slice_in by (unfold nedges in *; lia).
    rewrite drop_0. f_equal. lia. }
  rewrite Hslice.
  destruct (iadd_slice_ok model_fluxes lo (hi + 1)
              (take (Z.to_nat (nedges - 1)) ev3))
    as (mf' & Hmf' & Hlmf & Hnth).
  { lia. }
  { lia. }
  { rewrite length_take. unfold nedges in *. lia. }
  rewrite Hmf'. cbn [bind]. exists mf', ev3.
  split; [reflexivity|]. split; [exact Hlmf|]. split; [congruence|].
  intros k. rewrite Hnth. f_equal. unfold line_delta. fold lo hi.
  destruct (decide (lo <= Z.of_nat k < hi + 1)%Z) as [Hk|Hk];
    destruct (decide (lo < hi /\ lo <= Z.of_nat k <= hi)%Z) as [Hk'|Hk'];
    try lia; [|reflexivity].
  rewrite nth_lookup, lookup_take_lt by (unfold nedges; lia).
  rewrite <- nth_lookup.
  replace (k - Z.to_nat lo)%nat with (Z.to_nat (Z.of_nat k - lo)) by lia.
  rewrite Hd3 by (unfold nedges; lia). unfold D, V.
  replace (Z.to_nat (Z.of_nat k - lo + lo)) with k by lia.
  f_equal. f_equal; f_equal; lia.
Qed.

(** With bounds checks on, a window that ends at the last edge makes the
    second loop read [ibin_width] one entry past its end. *)
Lemma model_line_fill_index_error (model_fluxes edge_vals : list R) :
  boundscheck env = true ->
  hi = Z.of_nat (length ibin_width) ->
  (nedges <= Z.of_nat (length edge_vals))%Z ->
  model_line_fill env line_amplitudes ibin_width log_obs_bin_edges j w
    (model_fluxes, edge_vals) = Raise IndexError.
Proof.
  intros Hcheck Hend Hev.
  rewrite model_line_fill_unfold by (unfold nedges in Hev; lia).
  destruct (edge_loop_ok edge_vals Hev) as (ev2 & Hev2 & Hl2 & Hv2).
  destruct (for_range 1 (nedges - 1) edge_loop (<[O := 0]> edge_vals))
    as [ev1|err]; [|discriminate].
  cbn [bind] in *. rewrite Hev2. cbn [bind].
  destruct (diff_loop_ok ev2 (nedges - 2)) as (ev3 & Hev3 & Hl3 & _ & Hv3).
  { lia. }
  { exact Hv2. }
  { unfold nedges. lia. }
  { left. unfold nedges. lia. }
  rewrite (for_range_snoc 0 (nedges - 1)) by (unfold nedges; lia).
  replace (nedges - 1 - 1)%Z with (nedges - 2)%Z by lia.
  rewrite Hev3. cbn [bind]. unfold diff_loop.
  rewrite jit_getitem_nth by (unfold nedges in *; lia). cbn [bind].
  rewrite jit_getitem_nth by (unfold nedges in *; lia). cbn [bind].
  unfold jit_getitem at 1, jit_read.
  rewrite norm_index_out by (unfold nedges; lia). rewrite Hcheck.
  reflexivity.
Qed.

End OneLine.

(** ** [build_emline_model]: the whole loop *)

Lemma C_LIGHT_pos : 0 < C_LIGHT.
Proof. unfold C_LIGHT. lra. Qed.

Lemma np_log_ok (x : R) : 0 < x -> np_log x = Ok (ln x).
Proof. intros H. unfold np_log. destruct (Rlt_dec 0 x); [reflexivity|lra]. Qed.

Section WholeModel.

Variable env : jit_env.
Variables parameters obs_bin_edges log_obs_bin_edges : list R.
Variable redshift : R.
Variable line_wavelengths : list R.
Hypothesis Hvalid :
  valid_model_input parameters obs_bin_edges log_obs_bin_edges redshift
    line_wavelengths.

Let N := length line_wavelengths.
Let E := length obs_bin_edges.
Let line_amplitudes := take N parameters.
Let line_vshifts := take N (drop N parameters).
Let line_sigmas := drop (2 * N) parameters.
Let ibin_width := ibin_width_of obs_bin_edges.
Let win (j : nat) : line_window :=
  line_window_at parameters log_obs_bin_edges redshift line_wavelengths j.
Let delta (j k : nat) : R :=
  line_delta (junk env) ibin_width log_obs_bin_edges (win j)
    (nth j parameters 0) k.

Lemma window_ok (j : nat) :
  (j < N)%nat ->
  model_line_window env line_vshifts line_sigmas log_obs_bin_edges redshift
    line_wavelengths (Z.of_nat j) = Ok (win j).
Proof.
  intros Hj. destruct Hvalid as [_ Hp _ _ _ _ _ _ Hsh]. fold N in Hp, Hsh.
  unfold model_line_window.
  rewrite (jit_getitem_in env line_sigmas _ (nth (2 * N + j) parameters 0)).
  2: lia.
  2: { unfold line_sigmas. rewrite lookup_drop, Nat2Z.id.
       apply lookup_nth. lia. }
  cbn [bind].
  rewrite (jit_getitem_in env line_vshifts _ (nth (N + j) parameters 0)).
  2: lia.
  2: { unfold line_vshifts. rewrite Nat2Z.id, lookup_take_lt by lia.
       rewrite lookup_drop. apply lookup_nth. lia. }
  cbn [bind].
  rewrite (jit_getitem_in env line_wavelengths _ (nth j line_wavelengths 0)).
  2: lia.
  2: { rewrite Nat2Z.id. apply lookup_nth. exact Hj. }
  cbn [bind]. rewrite np_log_ok by (apply Hsh; exact Hj). cbn [bind].
  reflexivity.
Qed.

Lemma win_sigma_nonneg (j : nat) : (j < N)%nat -> 0 <= lw_sigma (win j).
Proof.
  intros Hj. destruct Hvalid as [_ _ _ _ _ _ Hs _ _]. simpl.
  apply Rmult_le_pos; [apply Hs; exact Hj|].
  left. apply Rinv_0_lt_compat, C_LIGHT_pos.
Qed.

(** A line that is not skipped has a width to divide by. *)
Lemma win_sigma_nonzero (j : nat) :
  (j < N)%nat -> lw_hi (win j) <> lw_lo (win j) -> lw_sigma (win j) <> 0.
Proof.
  intros Hj Hne Hz. destruct Hvalid as [_ _ _ _ _ _ _ Hs0 _].
  apply Hne, Hs0; [exact Hj|]. simpl in Hz. fold N.
  pose proof C_LIGHT_pos.
  apply Rmult_eq_reg_r with (/ C_LIGHT); [|apply Rinv_neq_0_compat; lra].
  rewrite Rmult_0_l. exact Hz.
Qed.

Lemma win_lo_le_hi (j : nat) :
  (j < N)%nat -> (0 <= lw_lo (win j) <= lw_hi (win j))%Z.
Proof.
  intros Hj. pose proof (win_sigma_nonneg j Hj) as Hs. simpl in *.
  split; [lia|]. apply inj_le, searchsorted_left_right. unfold MAX_SDEV. lra.
Qed.

Lemma win_hi_le (j : nat) :
  (lw_hi (win j) <= Z.of_nat (length log_obs_bin_edges))%Z.
Proof. simpl. apply inj_le, searchsorted_right_le. Qed.

(** The scratch buffer is large enough for every line. *)
Lemma window_fits (j : nat) (smax dmin : R) :
  (j < N)%nat ->
  np_max (map (fun s => s / C_LIGHT) line_sigmas) = Ok smax ->
  np_min (np_diff log_obs_bin_edges) = Ok dmin ->
  0 < dmin /\ 0 <= 2 * MAX_SDEV * smax / dmin /\
  ((lw_lo (win j) < lw_hi (win j))%Z ->
   (lw_hi (win j) - lw_lo (win j) + 2
    <= trunc (2 * MAX_SDEV * smax / dmin) + 3)%Z).
Proof.
  intros Hj Hmax Hmin.
  destruct Hvalid as [_ Hp He Hl _ Hinc Hs _ _]. fold N in Hp, Hs.
  pose proof (win_sigma_nonneg j Hj) as Hsig.
  assert (Hd : 0 < dmin).
  { apply (np_min_pos _ _ Hmin). intros y Hy.
    destruct (In_nth_lt _ _ 0 Hy) as (i & Hi & <-).
    rewrite length_np_diff in Hi. rewrite np_diff_nth by lia.
    specialize (Hinc i ltac:(lia)). lra. }
  assert (Hsm : lw_sigma (win j) <= smax).
  { apply (np_max_ge _ _ Hmax). apply in_map_iff.
    exists (nth (2 * N + j) parameters 0). split; [reflexivity|].
    unfold line_sigmas. apply list_elem_of_In, list_elem_of_lookup.
    exists j. rewrite lookup_drop. apply lookup_nth. lia. }
  assert (Hq : 0 <= 2 * MAX_SDEV * smax / dmin).
  { apply Rmult_le_pos; [unfold MAX_SDEV; lra|].
    left. apply Rinv_0_lt_compat, Hd. }
  split; [exact Hd|]. split; [exact Hq|]. intros Hlt.
  set (lo := searchsorted_left log_obs_bin_edges
               (lw_log_shifted_line (win j) - MAX_SDEV * lw_sigma (win j))) in *.
  set (hi := searchsorted_right log_obs_bin_edges
               (lw_log_shifted_line (win j) + MAX_SDEV * lw_sigma (win j))) in *.
  assert (Elo : lw_lo (win j) = Z.of_nat lo) by reflexivity.
  assert (Ehi : lw_hi (win j) = Z.of_nat hi) by reflexivity.
  assert (Hlohi : (lo < hi)%nat) by lia.
  assert (Hhi : (hi <= length log_obs_bin_edges)%nat)
    by apply searchsorted_right_le.
  assert (Hlow : lw_log_shifted_line (win j) - MAX_SDEV * lw_sigma (win j)
                 <= nth lo log_obs_bin_edges 0).
  { apply searchsorted_left_at. fold lo. lia. }
  assert (Hup : nth (hi - 1) log_obs_bin_edges 0
                <= lw_log_shifted_line (win j) + MAX_SDEV * lw_sigma (win j)).
  { apply searchsorted_right_below. fold hi. lia. }
  pose proof (increasing_gap log_obs_bin_edges dmin lo (hi - 1 - lo)
                (np_min_le _ _ Hmin) ltac:(lia)) as Hgap.
  replace (lo + (hi - 1 - lo))%nat with (hi - 1)%nat in Hgap by lia.
  assert (Hn : IZR (Z.of_nat (hi - 1 - lo)) <= 2 * MAX_SDEV * smax / dmin).
  { rewrite <- INR_IZR_INZ. unfold MAX_SDEV in *.
    apply Rmult_le_reg_r with dmin; [exact Hd|].
    replace (2 * 5 * smax / dmin * dmin) with (2 * 5 * smax)
      by (field; lra).
    lra. }
  apply trunc_ge in Hn; [|exact Hq].
  rewrite Elo, Ehi. lia.
Qed.

(** Everything [build_emline_model] does before its loop succeeds on
    valid input. *)
Lemma build_emline_model_prelude :
  exists smax dmin,
    np_max (map (fun s => s / C_LIGHT) line_sigmas) = Ok smax /\
    np_min (np_diff log_obs_bin_edges) = Ok dmin /\
    (0 <= trunc (2 * MAX_SDEV * smax / dmin))%Z /\
    build_emline_model env parameters obs_bin_edges log_obs_bin_edges
      redshift line_wavelengths =
    (st <- for_range 0 (Z.of_nat N)
             (model_line env line_amplitudes line_vshifts line_sigmas
                ibin_width log_obs_bin_edges redshift line_wavelengths)
             (replicate (S E) 0,
              replicate (Z.to_nat (trunc (2 * MAX_SDEV * smax / dmin) + 4))
                (junk env)) ;;
     Ok (slice (fst st) 1 (-1))).
Proof.
  pose proof Hvalid as [HN Hp He Hl Hobs Hinc Hs _ _].
  fold N in HN, Hp, Hs. fold E in He, Hl.
  unfold build_emline_model.
  rewrite (array_split3_3n parameters N Hp).
  fold line_amplitudes line_vshifts line_sigmas.
  rewrite mapM_array_div.
  2: { intros y Hy. destruct (In_nth_lt _ _ 0 Hy) as (i & Hi & <-).
       rewrite length_np_diff in Hi. rewrite np_diff_nth by lia.
       specialize (Hobs i ltac:(lia)). lra. }
  cbn [bind]. fold (ibin_width_of obs_bin_edges). fold ibin_width.
  unfold np_zeros. fold E.
  destruct (Z.ltb_spec (Z.of_nat E - 1 + 2) 0) as [Hneg|_]; [lia|].
  cbn [bind].
  replace (Z.to_nat (Z.of_nat E - 1 + 2)) with (S E) by lia.
  assert (Hmax : exists smax,
            np_max (map (fun s => s / C_LIGHT) line_sigmas) = Ok smax).
  { destruct (map (fun s => s / C_LIGHT) line_sigmas) as [|s0 ss] eqn:Ess;
      [|simpl; eauto].
    apply (f_equal length) in Ess.
    rewrite length_map in Ess. unfold line_sigmas in Ess.
    rewrite length_drop in Ess. simpl in Ess. lia. }
  destruct Hmax as (smax & Hmax). rewrite Hmax. cbn [bind].
  assert (Hmin : exists dmin, np_min (np_diff log_obs_bin_edges) = Ok dmin).
  { destruct (np_diff log_obs_bin_edges) as [|d0 ds] eqn:Ed; [|simpl; eauto].
    apply (f_equal length) in Ed. rewrite length_np_diff in Ed.
    simpl in Ed. lia. }
  destruct Hmin as (dmin & Hmin). rewrite Hmin. cbn [bind].
  destruct (window_fits 0 smax dmin ltac:(lia) Hmax Hmin) as (Hd & Hq & _).
  rewrite scalar_div_ok by lra. cbn [bind].
  set (q := 2 * MAX_SDEV * smax / dmin) in *.
  assert (Htr : (0 <= trunc q)%Z) by (apply trunc_ge; [exact Hq|simpl; exact Hq]).
  unfold np_empty.
  destruct (Z.ltb_spec (trunc q + 4) 0) as [Hneg|_]; [lia|]. cbn [bind].
  exists smax, dmin. split; [reflexivity|]. split; [reflexivity|].
  split; [exact Htr|]. reflexivity.
Qed.

(** With bounds checks on, a single line whose window ends at the last
    edge stops the builder with an [IndexError]. *)
Lemma build_emline_model_index_error :
  boundscheck env = true -> N = 1%nat ->
  (lw_lo (win 0) < lw_hi (win 0))%Z -> lw_hi (win 0) = Z.of_nat E ->
  build_emline_model env parameters obs_bin_edges log_obs_bin_edges
    redshift line_wavelengths = Raise IndexError.
Proof.
  intros Hcheck HN1 Hlt Hend.
  pose proof Hvalid as [_ Hp He Hl _ _ _ _ _]. fold N in Hp. fold E in He, Hl.
  destruct build_emline_model_prelude as (smax & dmin & Hmax & Hmin & Htr & ->).
  rewrite HN1. unfold for_range.
  replace (Z.to_nat (Z.of_nat 1 - 0)) with 1%nat by lia. cbn [for_loop].
  unfold model_line.
  pose proof (window_ok 0 ltac:(lia)) as Hwin.
  change (Z.of_nat 0) with 0%Z in Hwin.
  rewrite Hwin. cbn [bind].
  destruct (Z.eqb_spec (lw_hi (win 0)) (lw_lo (win 0))) as [Heq|_]; [lia|].
  destruct (window_fits 0 smax dmin ltac:(lia) Hmax Hmin) as (_ & _ & Hfit).
  specialize (Hfit Hlt).
  rewrite (model_line_fill_index_error env line_amplitudes ibin_width
             log_obs_bin_edges 0 (win 0) (nth 0 parameters 0)).
  - reflexivity.
  - pose proof (win_lo_le_hi 0 ltac:(lia)). lia.
  - apply win_hi_le.
  - apply win_sigma_nonzero; lia.
  - lia.
  - unfold line_amplitudes. rewrite lookup_take_lt by lia.
    apply lookup_nth. lia.
  - exact Hcheck.
  - rewrite Hend. unfold ibin_width, ibin_width_of. simpl length.
    rewrite length_map, length_np_diff. fold E. lia.
  - rewrite length_replicate. lia.
Qed.

Hypothesis Hread :
  boundscheck env = false \/
  forall j, (j < N)%nat -> (lw_hi (win j) < Z.of_nat E)%Z.

Lemma model_line_ok (j : nat) (model_fluxes edge_vals : list R)
    (smax dmin : R) :
  (j < N)%nat ->
  np_max (map (fun s => s / C_LIGHT) line_sigmas) = Ok smax ->
  np_min (np_diff log_obs_bin_edges) = Ok dmin ->
  length model_fluxes = S E ->
  length edge_vals = Z.to_nat (trunc (2 * MAX_SDEV * smax / dmin) + 4) ->
  exists model_fluxes' edge_vals',
    model_line env line_amplitudes line_vshifts line_sigmas ibin_width
      log_obs_bin_edges redshift line_wavelengths (Z.of_nat j)
      (model_fluxes, edge_vals) = Ok (model_fluxes', edge_vals') /\
    length model_fluxes' = length model_fluxes /\
    length edge_vals' = length edge_vals /\
    forall k, nth k model_fluxes' 0 = nth k model_fluxes 0 + delta j k.
Proof.
  intros Hj Hmax Hmin Hmf Hev.
  pose proof Hvalid as [_ Hp He Hl _ _ _ _ _]. fold N in Hp. fold E in He, Hl.
  unfold model_line. rewrite window_ok by exact Hj. cbn [bind].
  pose proof (win_lo_le_hi j Hj) as Hlohi.
  destruct (window_fits j smax dmin Hj Hmax Hmin) as (Hd & Hq & Hfit).
  destruct (Z.eqb_spec (lw_hi (win j)) (lw_lo (win j))) as [Heq|Hne].
  - exists model_fluxes, edge_vals. split; [reflexivity|].
    split; [reflexivity|]. split; [reflexivity|].
    intros k. unfold delta, line_delta.
    destruct (decide (lw_lo (win j) < lw_hi (win j)
                      /\ lw_lo (win j) <= Z.of_nat k <= lw_hi (win j))%Z);
      [lia|ring].
  - apply (model_line_fill_ok env line_amplitudes ibin_width
             log_obs_bin_edges (Z.of_nat j) (win j) (nth j parameters 0)).
    + lia.
    + apply win_hi_le.
    + apply win_sigma_nonzero; [exact Hj|exact Hne].
    + lia.
    + unfold line_amplitudes. rewrite Nat2Z.id, lookup_take_lt by lia.
      apply lookup_nth. lia.
    + destruct Hread as [Hb|Hb]; [right; exact Hb|left].
      unfold ibin_width, ibin_width_of. simpl length.
      rewrite length_map, length_np_diff. fold E.
      specialize (Hb j Hj). lia.
    + rewrite Hmf, Hl. reflexivity.
    + specialize (Hfit ltac:(lia)). rewrite Hev.
      assert (0 <= trunc (2 * MAX_SDEV * smax / dmin))%Z
        by (apply trunc_ge; [exact Hq|simpl; exact Hq]).
      lia.
Qed.

(** The result of the builder, bin by bin. *)
Lemma build_emline_model_ok :
  exists out,
    build_emline_model env parameters obs_bin_edges log_obs_bin_edges
      redshift line_wavelengths = Ok out /\
    length out = (E - 1)%nat /\
    forall b, (b < E - 1)%nat -> nth b out 0 = sum_n (fun j => delta j (S b)) N.
Proof.
  pose proof Hvalid as [HN Hp He Hl Hobs Hinc Hs _ _].
  fold N in HN, Hp, Hs. fold E in He, Hl.
  destruct build_emline_model_prelude as (smax & dmin & Hmax & Hmin & Htr & ->).
  set (q := 2 * MAX_SDEV * smax / dmin) in *.
  pose (P := fun (j : Z) (st : list R * list R) =>
     length (fst st) = S E /\
     length (snd st) = Z.to_nat (trunc q + 4) /\
     forall k, nth k (fst st) 0 = sum_n (fun j' => delta j' k) (Z.to_nat j)).
  destruct (for_range_inv P
    (model_line env line_amplitudes line_vshifts line_sigmas ibin_width
       log_obs_bin_edges redshift line_wavelengths)
    0 (Z.of_nat N)
    (replicate (S E) 0,
     replicate (Z.to_nat (trunc q + 4)) (junk env)))
    as ([mf ev] & Hrun & Hlmf & Hlev & Hsum).
  - lia.
  - split; [|split].
    + simpl. rewrite length_replicate. lia.
    + simpl. apply length_replicate.
    + intros k. change (nth k (replicate (S E) 0) 0 = 0).
      destruct (decide (k < S E)%nat) as [Hk|Hk].
      * apply nth_lookup_Some, lookup_replicate_2. exact Hk.
      * apply nth_overflow. rewrite length_replicate. lia.
  - intros j [mf ev] Hj (Hlmf & Hlev & Hsum). simpl in Hlmf, Hlev, Hsum.
    fold N in Hj.
    destruct (model_line_ok (Z.to_nat j) mf ev smax dmin)
      as (mf' & ev' & Hstep & Hlmf' & Hlev' & Hnth); try assumption; [lia|].
    rewrite Z2Nat.id in Hstep by lia.
    exists (mf', ev'). split; [exact Hstep|]. split; [|split]; simpl.
    + congruence.
    + congruence.
    + intros k. rewrite Hnth, Hsum.
      replace (Z.to_nat (j + 1)) with (S (Z.to_nat j)) by lia. reflexivity.
  - rewrite Hrun. cbn [bind]. simpl in Hlmf, Hlev, Hsum. simpl fst.
    assert (Hout : slice mf 1 (-1) = take (E - 1) (drop 1 mf)).
    { unfold slice. rewrite (clip_index_in _ 1) by lia.
      rewrite (clip_index_neg _ (-1)) by lia. f_equal. lia. }
    rewrite Hout. eexists. split; [reflexivity|]. split.
    + rewrite length_take, length_drop. lia.
    + intros b Hb. rewrite nth_lookup, lookup_take_lt by lia.
      rewrite lookup_drop, <- nth_lookup. simpl. rewrite Hsum.
      fold N. rewrite Nat2Z.id. reflexivity.
Qed.

End WholeModel.

(** ** [build_emline_model]: superposition of the lines *)

Lemma single_line_valid (parameters obs_bin_edges log_obs_bin_edges : list R)
    (redshift : R) (line_wavelengths : list R) (j : nat) :
  valid_model_input parameters obs_bin_edges log_obs_bin_edges redshift
    line_wavelengths ->
  (j < length line_wavelengths)%nat ->
  valid_model_input
    (single_line_parameters parameters (length line_wavelengths) j)
    obs_bin_edges log_obs_bin_edges redshift [nth j line_wavelengths 0].
Proof.
  intros [HN Hp He Hl Hobs Hinc Hs Hs0 Hsh] Hj.
  split; try assumption.
  - simpl. lia.
  - reflexivity.
  - intros j' Hj'. simpl in Hj'. assert (j' = O) as -> by lia.
    simpl. apply Hs, Hj.
  - intros j' Hj'. simpl in Hj'. assert (j' = O) as -> by lia.
    intros Hz. apply (Hs0 j Hj). exact Hz.
  - intros j' Hj'. simpl in Hj'. assert (j' = O) as -> by lia.
    simpl. apply Hsh, Hj.
Qed.

Lemma single_line_window (parameters log_obs_bin_edges : list R)
    (redshift : R) (line_wavelengths : list R) (j : nat) :
  line_window_at
    (single_line_parameters parameters (length line_wavelengths) j)
    log_obs_bin_edges redshift [nth j line_wavelengths 0] 0 =
  line_window_at parameters log_obs_bin_edges redshift line_wavelengths j.
Proof. reflexivity. Qed.

Lemma line_delta_outside (g : R) (ibw logE : list R) (w : line_window)
    (aj : R) (b : nat) :
  ~ in_window w b -> line_delta g ibw logE w aj (S b) = 0.
Proof.
  intros H. unfold line_delta, in_window in *.
  destruct (decide (lw_lo w < lw_hi w
                    /\ lw_lo w <= Z.of_nat (S b) <= lw_hi w)%Z) as [Hd|_];
    [|reflexivity].
  exfalso. apply H. lia.
Qed.

(** C5: on valid input (strictly increasing bin edges, [N >= 1] lines), run
    as compiled, without bounds checks, or with no window reaching past the
    last edge, [build_emline_model] returns the bin-by-bin sum of what it
    returns for each line taken alone; a line contributes zero to every bin
    outside its window, a line whose window is empty ([hi = lo]) is skipped
    without error and contributes zero everywhere, and a bin in no line's
    window is exactly zero. *)
Theorem build_emline_model_superposition (env : jit_env)
    (parameters obs_bin_edges log_obs_bin_edges : list R) (redshift : R)
    (line_wavelengths : list R) :
  let N := length line_wavelengths in
  let nbins := (length obs_bin_edges - 1)%nat in
  let win j := line_window_at parameters log_obs_bin_edges redshift
                 line_wavelengths j in
  valid_model_input parameters obs_bin_edges log_obs_bin_edges redshift
    line_wavelengths ->
  (boundscheck env = false \/
   forall j, (j < N)%nat ->
             (lw_hi (win j) < Z.of_nat (length obs_bin_edges))%Z) ->
  exists (out : list R) (alone : nat -> list R),
    build_emline_model env parameters obs_bin_edges log_obs_bin_edges
      redshift line_wavelengths = Ok out /\
    length out = nbins /\
    (forall j, (j < N)%nat ->
       build_emline_model env (single_line_parameters parameters N j)
         obs_bin_edges log_obs_bin_edges redshift [nth j line_wavelengths 0]
       = Ok (alone j) /\
       length (alone j) = nbins /\
       (forall b, (b < nbins)%nat -> ~ in_window (win j) b ->
                  nth b (alone j) 0 = 0) /\
       (lw_hi (win j) = lw_lo (win j) ->
        forall b, (b < nbins)%nat -> nth b (alone j) 0 = 0)) /\
    (forall b, (b < nbins)%nat ->
       nth b out 0 = sum_n (fun j => nth b (alone j) 0) N) /\
    (forall b, (b < nbins)%nat ->
       (forall j, (j < N)%nat -> ~ in_window (win j) b) -> nth b out 0 = 0).
Proof.
  intros N nbins win Hvalid Hread.
  destruct (build_emline_model_ok env parameters obs_bin_edges
              log_obs_bin_edges redshift line_wavelengths Hvalid Hread)
    as (out & Hout & Hlen & Hbins).
  set (delta := fun (j k : nat) =>
         line_delta (junk env) (ibin_width_of obs_bin_edges) log_obs_bin_edges
           (win j) (nth j parameters 0) k) in *.
  assert (Hsingle : forall j, (j < N)%nat ->
    exists out_j,
      build_emline_model env (single_line_parameters parameters N j)
        obs_bin_edges log_obs_bin_edges redshift [nth j line_wavelengths 0]
      = Ok out_j /\
      length out_j = nbins /\
      forall b, (b < nbins)%nat -> nth b out_j 0 = delta j (S b)).
  { intros j Hj.
    destruct (build_emline_model_ok env (single_line_parameters parameters N j)
                obs_bin_edges log_obs_bin_edges redshift
                [nth j line_wavelengths 0]
                (single_line_valid _ _ _ _ _ j Hvalid Hj))
      as (out_j & Hout_j & Hlen_j & Hbins_j).
    { destruct Hread as [Hb|Hb]; [left; exact Hb|right].
      intros j' Hj'. simpl in Hj'. assert (j' = O) as -> by lia.
      unfold N. rewrite single_line_window. apply Hb, Hj. }
    exists out_j. split; [exact Hout_j|]. split; [exact Hlen_j|].
    intros b Hb. rewrite Hbins_j by exact Hb. simpl sum_n.
    unfold N. rewrite single_line_window. unfold delta, win. simpl nth.
    ring. }
  pose (alone := fun (j : nat) =>
    match build_emline_model env (single_line_parameters parameters N j)
            obs_bin_edges log_obs_bin_edges redshift [nth j line_wavelengths 0]
    with Ok o => o | Raise _ => [] end).
  assert (Halone : forall j, (j < N)%nat ->
    build_emline_model env (single_line_parameters parameters N j)
      obs_bin_edges log_obs_bin_edges redshift [nth j line_wavelengths 0]
    = Ok (alone j) /\
    length (alone j) = nbins /\
    forall b, (b < nbins)%nat -> nth b (alone j) 0 = delta j (S b)).
  { intros j Hj. destruct (Hsingle j Hj) as (o & Ho & Hl & Hb).
    unfold alone. rewrite Ho. auto. }
  exists out, alone. split; [exact Hout|]. split; [exact Hlen|].
  split; [|split].
  - intros j Hj. destruct (Halone j Hj) as (Ho & Hl & Hb).
    split; [exact Ho|]. split; [exact Hl|]. split.
    + intros b Hlt Hwin. rewrite Hb by exact Hlt.
      apply line_delta_outside, Hwin.
    + intros Heq b Hlt. rewrite Hb by exact Hlt.
      apply line_delta_outside. unfold in_window. lia.
  - intros b Hb. rewrite Hbins by exact Hb. apply sum_n_ext.
    intros j Hj. destruct (Halone j Hj) as (_ & _ & Hd).
    rewrite Hd by exact Hb. reflexivity.
  - intros b Hb Hnone. rewrite Hbins by exact Hb. apply sum_n_zero.
    intros j Hj. apply line_delta_outside, Hnone, Hj.
Qed.

(** ** [build_emline_model]: the area of a single line *)

Lemma sum_n_telescope (F : nat -> R) (n : nat) :
  sum_n (fun b => F (S b) - F b) n = F n - F O.
Proof. induction n as [|n IH]; simpl; [ring|rewrite IH; ring]. Qed.

Lemma ibin_width_of_nth (edges : list R) (g : R) (b : nat) :
  (b + 1 < length edges)%nat ->
  nth (S b) (ibin_width_of edges) g = 1 / (nth (b + 1) edges 0 - nth b edges 0).
Proof.
  intros Hb. unfold ibin_width_of. cbn [nth].
  apply nth_lookup_Some. rewrite list_lookup_fmap.
  rewrite (lookup_nth (np_diff edges) b 0) by (rewrite length_np_diff; lia).
  simpl. rewrite np_diff_nth by lia. reflexivity.
Qed.

(** C3, as amended: for a single line with amplitude [amp], zero velocity
    shift and width [sigma > 0], over strictly increasing bin edges whose
    logarithms reach strictly more than [MAX_SDEV] sigma beyond the line's
    log-centre on each side and of which at least one lies within [MAX_SDEV]
    sigma of it, the bin-average fluxes times the bin widths sum to
    [c * amp * shifted_line] with [c = sqrt(2 pi) * sigma * exp(sigma^2 / 2)]
    ([sigma] in units of the speed of light): the edge integrals telescope
    between [0] below the window and that constant above it. *)
Theorem single_line_total_area (env : jit_env) (amp sig wl redshift : R)
    (obs_bin_edges log_obs_bin_edges : list R) :
  let parameters := [amp; 0; sig] in
  let w := line_window_at parameters log_obs_bin_edges redshift [wl] 0 in
  let centre := lw_log_shifted_line w in
  let sigma := lw_sigma w in
  valid_model_input parameters obs_bin_edges log_obs_bin_edges redshift [wl] ->
  nth 0 log_obs_bin_edges 0 < centre - MAX_SDEV * sigma ->
  centre + MAX_SDEV * sigma
    < nth (length log_obs_bin_edges - 1) log_obs_bin_edges 0 ->
  (exists i, (i < length log_obs_bin_edges)%nat /\
             centre - MAX_SDEV * sigma <= nth i log_obs_bin_edges 0
             <= centre + MAX_SDEV * sigma) ->
  exists out,
    build_emline_model env parameters obs_bin_edges log_obs_bin_edges
      redshift [wl] = Ok out /\
    length out = (length obs_bin_edges - 1)%nat /\
    sum_n (fun b => nth b out 0 *
                    (nth (b + 1) obs_bin_edges 0 - nth b obs_bin_edges 0))
          (length obs_bin_edges - 1)
    = SQRT_2PI * sigma * exp (1/2 * sigma ^ 2) * amp * (wl * (1 + redshift + 0 / C_LIGHT)).
Proof.
  intros parameters w centre sigma Hvalid Hleft Hright (i0 & Hi0 & Hin).
  pose proof Hvalid as [HN Hp He Hl Hobs Hinc Hs Hs0 Hsh].
  set (E := length obs_bin_edges) in *.
  set (lo := searchsorted_left log_obs_bin_edges (centre - MAX_SDEV * sigma)).
  set (hi := searchsorted_right log_obs_bin_edges (centre + MAX_SDEV * sigma)).
  assert (Elo : lw_lo w = Z.of_nat lo) by reflexivity.
  assert (Ehi : lw_hi w = Z.of_nat hi) by reflexivity.
  (* the window lies strictly inside the edges and is not empty *)
  assert (Hlo1 : (1 <= lo)%nat).
  { unfold lo. destruct log_obs_bin_edges as [|x l]; [simpl in Hl; lia|].
    simpl in Hleft |- *. destruct (Rlt_dec x (centre - MAX_SDEV * sigma)); [lia|lra]. }
  assert (Hhi1 : (hi <= E - 1)%nat).
  { destruct (decide (hi <= E - 1)%nat) as [H|H]; [exact H|]. exfalso.
    assert (nth (E - 1) log_obs_bin_edges 0 <= centre + MAX_SDEV * sigma).
    { apply searchsorted_right_below. fold hi. lia. }
    rewrite Hl in Hright. fold E in Hright. lra. }
  assert (Hlohi : (lo <= i0 < hi)%nat).
  { split.
    - destruct (decide (lo <= i0)%nat) as [H|H]; [exact H|]. exfalso.
      assert (nth i0 log_obs_bin_edges 0 < centre - MAX_SDEV * sigma).
      { apply searchsorted_left_below. fold lo. lia. }
      lra.
    - destruct (decide (i0 < hi)%nat) as [H|H]; [exact H|]. exfalso.
      assert (centre + MAX_SDEV * sigma < nth i0 log_obs_bin_edges 0).
      { apply searchsorted_right_above; [exact Hinc|]. fold hi. lia. }
      lra. }
  destruct (build_emline_model_ok env parameters obs_bin_edges
              log_obs_bin_edges redshift [wl] Hvalid)
    as (out & Hout & Hlen & Hbins).
  { right. intros j Hj. simpl in Hj. assert (j = O) as -> by lia.
    fold w. rewrite Ehi. fold E. lia. }
  fold E in Hlen, Hbins. fold w in Hbins.
  exists out. split; [exact Hout|]. split; [exact Hlen|].
  set (F := fun (k : nat) => edge_value log_obs_bin_edges w amp (Z.of_nat k)).
  rewrite (sum_n_ext _ (fun b => F (S b) - F b)).
  - rewrite sum_n_telescope. unfold F, edge_value.
    rewrite Elo, Ehi.
    destruct (Z.ltb_spec (Z.of_nat (E - 1)) (Z.of_nat lo)); [lia|].
    destruct (Z.leb_spec (Z.of_nat hi) (Z.of_nat (E - 1))); [|lia].
    destruct (Z.ltb_spec (Z.of_nat O) (Z.of_nat lo)); [|lia].
    unfold line_area. fold sigma. unfold w. simpl lw_shifted_line.
    rewrite Rminus_0_r. reflexivity.
  - intros b Hb. rewrite Hbins by exact Hb. simpl sum_n. rewrite Rplus_0_l.
    simpl nth at 1. fold parameters. fold w. unfold line_delta.
    destruct (decide (lw_lo w < lw_hi w
                      /\ lw_lo w <= Z.of_nat (S b) <= lw_hi w)%Z) as [Hw|Hw].
    + rewrite ibin_width_of_nth by (fold E; lia).
      assert (nth b obs_bin_edges 0 < nth (b + 1) obs_bin_edges 0)
        by (apply Hobs; fold E; lia).
      unfold F. replace (Z.of_nat (S b) - 1)%Z with (Z.of_nat b) by lia.
      field. lra.
    + unfold F, edge_value. rewrite Elo, Ehi in *.
      destruct (Z.ltb_spec (Z.of_nat (S b)) (Z.of_nat lo)),
        (Z.ltb_spec (Z.of_nat b) (Z.of_nat lo)),
        (Z.leb_spec (Z.of_nat hi) (Z.of_nat (S b))),
        (Z.leb_spec (Z.of_nat hi) (Z.of_nat b)); try lia; ring.
Qed.

(** *** Concrete spectra *)

Lemma strictly_increasing_2 (a b : R) : a < b -> strictly_increasing [a; b].
Proof.
  intros H i Hi. simpl in Hi. assert (i = O) as -> by lia. exact H.
Qed.

Lemma strictly_increasing_3 (a b c : R) :
  a < b -> b < c -> strictly_increasing [a; b; c].
Proof.
  intros H1 H2 i Hi. simpl in Hi.
  destruct i as [|[|i]]; [exact H1|exact H2|lia].
Qed.

Lemma ln_unshifted (x : R) : ln (exp x * (1 + 0 + 0 / C_LIGHT)) = x.
Proof.
  replace (exp x * (1 + 0 + 0 / C_LIGHT)) with (exp x)
    by (unfold C_LIGHT; field).
  apply ln_exp.
Qed.

Ltac decide_reals :=
  repeat match goal with
  | |- context [Rlt_dec ?a ?b] =>
      destruct (Rlt_dec a b); try (exfalso; unfold MAX_SDEV, C_LIGHT in *; lra)
  | |- context [Rle_dec ?a ?b] =>
      destruct (Rle_dec a b); try (exfalso; unfold MAX_SDEV, C_LIGHT in *; lra)
  end.

(** One line of width 75 km/s at [exp x], no redshift, on bin edges whose
    logarithms are [log_edges]. *)
Lemma valid_one_line (amp x : R) (edges log_edges : list R) :
  (2 <= length edges)%nat -> length log_edges = length edges ->
  strictly_increasing edges -> strictly_increasing log_edges ->
  valid_model_input [amp; 0; 75] edges log_edges 0 [exp x].
Proof.
  intros He Hl Hobs Hinc. split; try assumption.
  - simpl. lia.
  - reflexivity.
  - intros j Hj. simpl in Hj. assert (j = O) as -> by lia.
    cbn [length Nat.mul Nat.add nth]. lra.
  - intros j Hj. simpl in Hj. assert (j = O) as -> by lia.
    cbn [length Nat.mul Nat.add nth]. lra.
  - intros j Hj. simpl in Hj. assert (j = O) as -> by lia.
    cbn [length Nat.add nth].
    replace (exp x * (1 + 0 + 0 / C_LIGHT)) with (exp x)
      by (unfold C_LIGHT; field).
    apply exp_pos.
Qed.

Lemma one_line_window (x : R) (log_edges : list R) :
  line_window_at [1; 0; 75] log_edges 0 [exp x] 0 =
  LineWindow (75 / C_LIGHT) (1 + 0 + 0 / C_LIGHT)
    (exp x * (1 + 0 + 0 / C_LIGHT)) x
    (Z.of_nat (searchsorted_left log_edges (x - MAX_SDEV * (75 / C_LIGHT))))
    (Z.of_nat (searchsorted_right log_edges (x + MAX_SDEV * (75 / C_LIGHT)))).
Proof.
  unfold line_window_at. cbn [length Nat.mul Nat.add nth].
  rewrite ln_unshifted. reflexivity.
Qed.

(** C3, counterexample: the bin edges [exp 8, exp 9] reach far more than
    [MAX_SDEV] sigma beyond the centre [exp 8.5] of a line of amplitude 1 and
    width 75 km/s, yet no edge falls inside the window, the line is skipped,
    and the flux times the width of the only bin is 0: neither the amplitude
    nor the constant [A] of the line. *)
Lemma total_area_counterexample :
  let obs_bin_edges := [exp 8; exp 9] in
  let log_obs_bin_edges := [8; 9] in
  let w := line_window_at [1; 0; 75] log_obs_bin_edges 0 [exp (17/2)] 0 in
  strictly_increasing obs_bin_edges /\
  log_obs_bin_edges = map ln obs_bin_edges /\
  0 < lw_sigma w /\
  nth 0 log_obs_bin_edges 0 <= lw_log_shifted_line w - MAX_SDEV * lw_sigma w /\
  lw_log_shifted_line w + MAX_SDEV * lw_sigma w <= nth 1 log_obs_bin_edges 0 /\
  exists out,
    build_emline_model numba_default [1; 0; 75] obs_bin_edges
      log_obs_bin_edges 0 [exp (17/2)] = Ok out /\
    out = [0] /\
    sum_n (fun b => nth b out 0 *
                    (nth (b + 1) obs_bin_edges 0 - nth b obs_bin_edges 0)) 1
    <> 1 /\
    sum_n (fun b => nth b out 0 *
                    (nth (b + 1) obs_bin_edges 0 - nth b obs_bin_edges 0)) 1
    <> line_area w 1.
Proof.
  intros obs_bin_edges log_obs_bin_edges w.
  assert (Hobs : strictly_increasing obs_bin_edges).
  { apply strictly_increasing_2, exp_increasing. lra. }
  assert (Hinc : strictly_increasing log_obs_bin_edges).
  { apply strictly_increasing_2. lra. }
  assert (Hw : w = LineWindow (75 / C_LIGHT) (1 + 0 + 0 / C_LIGHT)
                     (exp (17/2) * (1 + 0 + 0 / C_LIGHT)) (17/2) 1 1).
  { unfold w. rewrite one_line_window. f_equal.
    - unfold log_obs_bin_edges, searchsorted_left. decide_reals. reflexivity.
    - unfold log_obs_bin_edges, searchsorted_right. decide_reals. reflexivity. }
  split; [exact Hobs|]. split.
  { unfold log_obs_bin_edges, obs_bin_edges. simpl. rewrite !ln_exp. reflexivity. }
  rewrite Hw. unfold log_obs_bin_edges at 1 2.
  cbn [lw_sigma lw_log_shifted_line nth].
  split; [unfold C_LIGHT; lra|].
  split; [unfold MAX_SDEV, C_LIGHT; lra|].
  split; [unfold MAX_SDEV, C_LIGHT; lra|].
  destruct (build_emline_model_ok numba_default [1; 0; 75] obs_bin_edges
              log_obs_bin_edges 0 [exp (17/2)])
    as (out & Hout & Hlen & Hbins).
  { apply valid_one_line; [simpl; lia|reflexivity|exact Hobs|exact Hinc]. }
  { left. reflexivity. }
  exists out. split; [exact Hout|].
  assert (Hout0 : out = [0]).
  { destruct out as [|y [|y' out']]; simpl in Hlen; try lia.
    f_equal. specialize (Hbins O ltac:(simpl; lia)). simpl in Hbins.
    rewrite Hbins. fold w. rewrite Hw. unfold line_delta.
    cbn [lw_lo lw_hi].
    destruct (decide (1 < 1 /\ 1 <= Z.of_nat 1 <= 1)%Z); [lia|ring]. }
  split; [exact Hout0|]. rewrite Hout0. simpl sum_n. cbn [nth].
  split; [lra|].
  assert (Hpos : 0 < line_area w 1); [|rewrite Hw in Hpos; lra].
  rewrite Hw. unfold line_area. cbn [lw_sigma lw_shifted_line].
  replace (1 + 0 + 0 / C_LIGHT) with 1 by (unfold C_LIGHT; field).
  assert (0 < SQRT_2PI).
  { unfold SQRT_2PI. apply sqrt_lt_R0. pose proof PI_RGT_0. lra. }
  assert (0 < 75 / C_LIGHT) by (unfold C_LIGHT; lra).
  pose proof (exp_pos (1 / 2 * (75 / C_LIGHT) ^ 2)).
  pose proof (exp_pos (17 / 2)).
  repeat apply Rmult_lt_0_compat; lra.
Qed.

Lemma single_line_total_area_witness :
  exists out,
    build_emline_model numba_default [1; 0; 75]
      [exp 8; exp (17/2); exp 9] [8; 17/2; 9] 0 [exp (17/2)] = Ok out /\
    length out = 2%nat.
Proof.
  destruct (single_line_total_area numba_default 1 75 (exp (17/2)) 0
              [exp 8; exp (17/2); exp 9] [8; 17/2; 9])
    as (out & Hout & Hlen & _).
  - apply valid_one_line; [simpl; lia|reflexivity| |].
    + apply strictly_increasing_3; apply exp_increasing; lra.
    + apply strictly_increasing_3; lra.
  - rewrite one_line_window. cbn [lw_sigma lw_log_shifted_line nth].
    unfold MAX_SDEV, C_LIGHT. lra.
  - rewrite one_line_window. cbn [lw_sigma lw_log_shifted_line nth length Nat.sub].
    unfold MAX_SDEV, C_LIGHT. lra.
  - exists 1%nat. rewrite one_line_window.
    cbn [lw_sigma lw_log_shifted_line nth length].
    split; [lia|]. unfold MAX_SDEV, C_LIGHT. lra.
  - exists out. split; [exact Hout|exact Hlen].
Defined.

Lemma build_emline_model_superposition_witness :
  exists out,
    build_emline_model numba_default [1; 2; 0; 0; 75; 75] [exp 8; exp 9]
      [8; 9] 0 [exp (17/2); exp 9] = Ok out /\
    length out = 1%nat.
Proof.
  destruct (build_emline_model_superposition numba_default
              [1; 2; 0; 0; 75; 75] [exp 8; exp 9] [8; 9] 0
              [exp (17/2); exp 9])
    as (out & alone & Hout & Hlen & _).
  - split.
    + simpl. lia.
    + reflexivity.
    + simpl. lia.
    + reflexivity.
    + apply strictly_increasing_2, exp_increasing. lra.
    + apply strictly_increasing_2. lra.
    + intros j Hj. simpl in Hj.
      destruct j as [|[|j]]; [| |lia]; cbn [length Nat.mul Nat.add nth]; lra.
    + intros j Hj. simpl in Hj.
      destruct j as [|[|j]]; [| |lia]; cbn [length Nat.mul Nat.add nth]; lra.
    + intros j Hj. simpl in Hj.
      destruct j as [|[|j]]; [| |lia]; cbn [length Nat.add nth];
        (replace (1 + 0 + 0 / C_LIGHT) with 1 by (unfold C_LIGHT; field));
        rewrite Rmult_1_r; apply exp_pos.
  - left. reflexivity.
  - exists out. split; [exact Hout|exact Hlen].
Defined.

(** ** [build_emline_model]: reading [ibin_width] past its end *)

(** C10, at the failing input: one line of width 75 km/s centred on the
    last of the bin edges [exp 8, exp 9].  Its window is [lo = 1], [hi = 2 =
    nbins + 1]; the second inner loop reads [ibin_width[2]] although
    [ibin_width] has the two entries [0] and [1]: with bounds checks the
    builder stops with an [IndexError], without them it goes on with
    whatever it found there. *)
Theorem build_emline_model_reads_past_ibin_width :
  let obs_bin_edges := [exp 8; exp 9] in
  let log_obs_bin_edges := [8; 9] in
  let w := line_window_at [1; 0; 75] log_obs_bin_edges 0 [exp 9] 0 in
  lw_lo w = 1%Z /\ lw_hi w = 2%Z /\
  length (ibin_width_of obs_bin_edges) = 2%nat /\
  build_emline_model numba_boundscheck [1; 0; 75] obs_bin_edges
    log_obs_bin_edges 0 [exp 9] = Raise IndexError /\
  exists out,
    build_emline_model numba_default [1; 0; 75] obs_bin_edges
      log_obs_bin_edges 0 [exp 9] = Ok out /\ length out = 1%nat.
Proof.
  intros obs_bin_edges log_obs_bin_edges w.
  assert (Hobs : strictly_increasing obs_bin_edges).
  { apply strictly_increasing_2, exp_increasing. lra. }
  assert (Hinc : strictly_increasing log_obs_bin_edges).
  { apply strictly_increasing_2. lra. }
  assert (Hvalid : valid_model_input [1; 0; 75] obs_bin_edges
                     log_obs_bin_edges 0 [exp 9]).
  { apply valid_one_line; [simpl; lia|reflexivity|exact Hobs|exact Hinc]. }
  assert (Hw : w = LineWindow (75 / C_LIGHT) (1 + 0 + 0 / C_LIGHT)
                     (exp 9 * (1 + 0 + 0 / C_LIGHT)) 9 1 2).
  { unfold w. rewrite one_line_window. f_equal.
    - unfold log_obs_bin_edges, searchsorted_left. decide_reals. reflexivity.
    - unfold log_obs_bin_edges, searchsorted_right. decide_reals. reflexivity. }
  split; [rewrite Hw; reflexivity|]. split; [rewrite Hw; reflexivity|].
  split; [reflexivity|]. split.
  - apply build_emline_model_index_error.
    + exact Hvalid.
    + reflexivity.
    + reflexivity.
    + fold w. rewrite Hw. cbn [lw_lo lw_hi]. lia.
    + fold w. rewrite Hw. reflexivity.
  - destruct (build_emline_model_ok numba_default [1; 0; 75] obs_bin_edges
                log_obs_bin_edges 0 [exp 9] Hvalid)
      as (out & Hout & Hlen & _); [left; reflexivity|].
    exists out. split; [exact Hout|exact Hlen].
Qed.

(** ** The windows of the Jacobian builder *)

(** The run the Jacobian builder stores for a line it does not skip ends at
    [hi] and starts at [lo - 1], or at [lo] when [lo = 0]. *)
Lemma jacobian_line_fill_run (env : jit_env)
    (line_amplitudes wts log_obs_bin_edges line_wavelengths : list R)
    (nlines j : Z) (w : line_window) (jst jst' : jacobian_state) :
  jacobian_line_fill env line_amplitudes wts log_obs_bin_edges
    line_wavelengths nlines j w jst = Ok jst' ->
  setitem (js_ends jst) j (lw_hi w) = Ok (js_ends jst') /\
  setitem (js_starts jst) j
    (if (lw_lo w =? 0)%Z then lw_lo w else (lw_lo w - 1)%Z)
  = Ok (js_starts jst').
Proof.
  unfold jacobian_line_fill. intros H.
  repeat first
    [ apply bind_Ok in H as (? & ? & H)
    | match type of H with
      | context [let '(_, _) := ?r in _] => destruct r
      end ].
  injection H as <-. cbn [js_ends js_starts].
  split; [assumption|].
  match goal with
  | Hs : (if (lw_lo w =? 0)%Z then _ else _) = Ok _ |- _ =>
      destruct (lw_lo w =? 0)%Z;
      repeat (apply bind_Ok in Hs as (? & ? & Hs));
      injection Hs as <- <- <- <-; assumption
  end.
Qed.

(** C8: on the same parameters, log bin edges, redshift and line
    wavelengths, [build_emline_model_jacobian] computes for each line the
    window [(lo, hi)] that [build_emline_model] computes: [lo] is the left
    insertion point of the log-centre minus [MAX_SDEV] sigma, [hi] the right
    insertion point of the log-centre plus [MAX_SDEV] sigma, and both
    builders leave their state untouched exactly when [hi = lo] and fill in
    the line otherwise; the run the Jacobian builder then records for the
    line ends at that [hi] and starts at that [lo - 1] ([lo] when
    [lo = 0]). *)
Theorem jacobian_window_equals_model_window (env : jit_env)
    (line_amplitudes line_vshifts line_sigmas log_obs_bin_edges : list R)
    (redshift : R) (line_wavelengths : list R) (j : Z) :
  jacobian_line_window env line_vshifts line_sigmas log_obs_bin_edges
    redshift line_wavelengths j =
  model_line_window env line_vshifts line_sigmas log_obs_bin_edges
    redshift line_wavelengths j /\
  forall w,
    model_line_window env line_vshifts line_sigmas log_obs_bin_edges
      redshift line_wavelengths j = Ok w ->
    lw_lo w = Z.of_nat (searchsorted_left log_obs_bin_edges
                          (lw_log_shifted_line w - MAX_SDEV * lw_sigma w)) /\
    lw_hi w = Z.of_nat (searchsorted_right log_obs_bin_edges
                          (lw_log_shifted_line w + MAX_SDEV * lw_sigma w)) /\
    forall ibin_width wts nlines st jst,
      (lw_hi w = lw_lo w ->
       model_line env line_amplitudes line_vshifts line_sigmas ibin_width
         log_obs_bin_edges redshift line_wavelengths j st = Ok st /\
       jacobian_line env line_amplitudes line_vshifts line_sigmas wts
         log_obs_bin_edges redshift line_wavelengths nlines j jst = Ok jst) /\
      (lw_hi w <> lw_lo w ->
       model_line env line_amplitudes line_vshifts line_sigmas ibin_width
         log_obs_bin_edges redshift line_wavelengths j st =
       model_line_fill env line_amplitudes ibin_width log_obs_bin_edges j w st /\
       jacobian_line env line_amplitudes line_vshifts line_sigmas wts
         log_obs_bin_edges redshift line_wavelengths nlines j jst =
       jacobian_line_fill env line_amplitudes wts log_obs_bin_edges
         line_wavelengths nlines j w jst /\
       forall jst',
         jacobian_line env line_amplitudes line_vshifts line_sigmas wts
           log_obs_bin_edges redshift line_wavelengths nlines j jst
         = Ok jst' ->
         setitem (js_ends jst) j (lw_hi w) = Ok (js_ends jst') /\
         setitem (js_starts jst) j
           (if (lw_lo w =? 0)%Z then lw_lo w else (lw_lo w - 1)%Z)
         = Ok (js_starts jst')).
Proof.
  split; [reflexivity|]. intros w Hw.
  assert (Hjw : jacobian_line_window env line_vshifts line_sigmas
                  log_obs_bin_edges redshift line_wavelengths j = Ok w)
    by exact Hw.
  split; [|split].
  - unfold model_line_window in Hw.
    destruct (jit_getitem env line_sigmas j) as [sj|]; [|discriminate].
    destruct (jit_getitem env line_vshifts j) as [vj|]; [|discriminate].
    destruct (jit_getitem env line_wavelengths j) as [wj|]; [|discriminate].
    cbn [bind] in Hw.
    destruct (np_log (wj * (1 + redshift + vj / C_LIGHT))) as [l|];
      [|discriminate].
    cbn [bind] in Hw. injection Hw as <-. reflexivity.
  - unfold model_line_window in Hw.
    destruct (jit_getitem env line_sigmas j) as [sj|]; [|discriminate].
    destruct (jit_getitem env line_vshifts j) as [vj|]; [|discriminate].
    destruct (jit_getitem env line_wavelengths j) as [wj|]; [|discriminate].
    cbn [bind] in Hw.
    destruct (np_log (wj * (1 + redshift + vj / C_LIGHT))) as [l|];
      [|discriminate].
    cbn [bind] in Hw. injection Hw as <-. reflexivity.
  - intros ibin_width wts nlines st jst.
    unfold model_line, jacobian_line. rewrite Hw, Hjw. cbn [bind].
    split; intros H.
    + apply Z.eqb_eq in H. rewrite H. split; reflexivity.
    + apply Z.eqb_neq in H. rewrite H.
      split; [reflexivity|]. split; [reflexivity|].
      intros jst'. apply jacobian_line_fill_run.
Qed.

Lemma jacobian_window_equals_model_window_witness :
  jacobian_line_window numba_default [0] [75] [8; 9] 0 [exp 9] 0 =
  model_line_window numba_default [0] [75] [8; 9] 0 [exp 9] 0.
Proof.
  exact (proj1 (jacobian_window_equals_model_window numba_default [1] [0] [75]
                  [8; 9] 0 [exp 9] 0)).
Defined.

(** ** [_objective] *)

Lemma norm_index_ok (n : nat) (i : Z) :
  index_ok n i -> exists k, norm_index n i = Some k /\ (k < n)%nat.
Proof.
  intros H. unfold index_ok in H. destruct (Z.leb_spec 0 i).
  - exists (Z.to_nat i). rewrite norm_index_in by lia. split; [reflexivity|lia].
  - exists (Z.to_nat (i + Z.of_nat n)). rewrite norm_index_neg by lia.
    split; [reflexivity|lia].
Qed.

Lemma setitem_ok (l : list R) (i : Z) (v : R) :
  index_ok (length l) i ->
  exists l', setitem l i v = Ok l' /\ length l' = length l.
Proof.
  intros H. destruct (norm_index_ok _ _ H) as (k & Hk & _).
  unfold setitem. rewrite Hk. eexists. split; [reflexivity|].
  apply length_insert.
Qed.

Lemma getitem_ok (l : list R) (i : Z) :
  index_ok (length l) i -> exists x, getitem l i = Ok x.
Proof.
  intros H. destruct (norm_index_ok _ _ H) as (k & Hk & Hlt).
  unfold getitem. rewrite Hk. rewrite (lookup_nth l k 0) by exact Hlt. eauto.
Qed.

Lemma scatter_ok (idx : list Z) :
  forall (l vals : list R),
    Forall (index_ok (length l)) idx ->
    exists l', scatter l idx vals = Ok l' /\ length l' = length l.
Proof.
  induction idx as [|i idx IH]; intros l vals Hidx.
  - exists l. split; reflexivity.
  - destruct vals as [|v vals]; [exists l; split; reflexivity|].
    apply Forall_cons in Hidx as [Hi Hidx]. cbn [scatter].
    destruct (setitem_ok l i v Hi) as (l1 & -> & Hl1). cbn [bind].
    destruct (IH l1 vals) as (l2 & -> & Hl2); [rewrite Hl1; exact Hidx|].
    exists l2. split; [reflexivity|congruence].
Qed.

Lemma fancy_get_ok (l : list R) (idx : list Z) :
  Forall (index_ok (length l)) idx ->
  exists xs, fancy_get l idx = Ok xs /\ length xs = length idx.
Proof.
  unfold fancy_get. induction idx as [|i idx IH]; intros Hidx.
  - exists []. split; reflexivity.
  - apply Forall_cons in Hidx as [Hi Hidx]. cbn [mapM].
    destruct (getitem_ok l i Hi) as (x & ->). cbn [bind].
    destruct (IH Hidx) as (xs & -> & Hxs). cbn [bind].
    exists (x :: xs). split; [reflexivity|simpl; congruence].
Qed.

Lemma apply_ties_ok (Itied : list Z) :
  forall (parameters : list R) (tiedtoparam : list Z) (tiedfactor : list R),
    Forall (index_ok (length parameters)) Itied ->
    Forall (index_ok (length parameters)) tiedtoparam ->
    exists p', apply_ties parameters Itied tiedtoparam tiedfactor = Ok p' /\
               length p' = length parameters.
Proof.
  induction Itied as [|I_ Itied IH]; intros p tiedto factor HI Hto.
  - exists p. split; reflexivity.
  - destruct tiedto as [|indx tiedto]; [exists p; split; reflexivity|].
    destruct factor as [|f factor]; [exists p; split; reflexivity|].
    apply Forall_cons in HI as [HI1 HI]. apply Forall_cons in Hto as [Hto1 Hto].
    cbn [apply_ties].
    destruct (getitem_ok p indx Hto1) as (x & ->). cbn [bind].
    destruct (setitem_ok p I_ (x * f) HI1) as (p1 & -> & Hp1). cbn [bind].
    destruct (IH p1 tiedto factor) as (p2 & -> & Hp2);
      [rewrite Hp1; exact HI|rewrite Hp1; exact Hto|].
    exists p2. split; [reflexivity|congruence].
Qed.

(** The expansion of the free parameters succeeds when the index arrays fit
    the parameter array. *)
Lemma expand_parameters_ok (parameters free_parameters : list R)
    (Ifree Itied tiedtoparam : list Z) (tiedfactor : list R)
    (doubletindx doubletpair : list Z) :
  expansion_valid (length parameters) free_parameters Ifree Itied tiedtoparam
    doubletindx doubletpair ->
  exists p',
    expand_parameters parameters free_parameters Ifree Itied tiedtoparam
      tiedfactor doubletindx doubletpair = Ok p' /\
    length p' = length parameters.
Proof.
  intros [Hfl Hf Ht Hto Hd Hp Hpl]. unfold expand_parameters, fancy_set.
  rewrite broadcast_to_same by exact Hfl. cbn [bind].
  destruct (scatter_ok Ifree parameters free_parameters Hf) as (p1 & -> & Hp1).
  cbn [bind].
  assert (Hties : exists p2,
            (if (0 <? length Itied)%nat
             then apply_ties p1 Itied tiedtoparam tiedfactor else Ok p1) = Ok p2
            /\ length p2 = length parameters).
  { destruct (0 <? length Itied)%nat.
    - destruct (apply_ties_ok Itied p1 tiedtoparam tiedfactor)
        as (p2 & Hp2 & Hl2); [rewrite Hp1; assumption..|].
      exists p2. split; [exact Hp2|congruence].
    - exists p1. split; [reflexivity|exact Hp1]. }
  destruct Hties as (p2 & -> & Hp2). cbn [bind].
  destruct (fancy_get_ok p2 doubletindx) as (lhs & -> & Hlhs);
    [rewrite Hp2; exact Hd|]. cbn [bind].
  destruct (fancy_get_ok p2 doubletpair) as (rhs & -> & Hrhs);
    [rewrite Hp2; exact Hp|]. cbn [bind].
  rewrite broadcast_to_same by congruence. cbn [bind].
  rewrite broadcast_to_same by (rewrite length_zip_with; lia). cbn [bind].
  destruct (scatter_ok doubletindx p2 (zip_with Rmult lhs rhs))
    as (p3 & -> & Hp3); [rewrite Hp2; exact Hd|].
  exists p3. split; [reflexivity|congruence].
Qed.

(** C1, as amended: on index arrays that fit the parameter array and valid
    cameras (the model builder running as compiled, without bounds checks),
    [_objective] returns [obs_weights * (obs_fluxes - model_fluxes)], with
    the model of each camera computed from the expanded parameters and
    blurred by the camera's resolution matrix; it keeps no state of its own,
    and the array [parameters] holds, when it returns, the expanded
    parameters it wrote there. *)
Theorem objective_residuals_and_parameters (env : jit_env)
    (free_parameters obs_bin_edges log_obs_bin_edges obs_fluxes
       obs_weights : list R)
    (redshift : R) (line_wavelengths : list R)
    (resolution_matrix : list (list R -> result (list R)))
    (camerapix : list (Z * Z)) (parameters : list R)
    (Ifree Itied tiedtoparam : list Z) (tiedfactor : list R)
    (doubletindx doubletpair : list Z) :
  boundscheck env = false ->
  expansion_valid (length parameters) free_parameters Ifree Itied tiedtoparam
    doubletindx doubletpair ->
  (forall p',
     expand_parameters parameters free_parameters Ifree Itied tiedtoparam
       tiedfactor doubletindx doubletpair = Ok p' ->
     cameras_valid p' obs_bin_edges log_obs_bin_edges redshift line_wavelengths
       resolution_matrix camerapix (length obs_fluxes)) ->
  length obs_weights = length obs_fluxes ->
  exists residuals parameters' model_fluxes,
    _objective env free_parameters obs_bin_edges log_obs_bin_edges obs_fluxes
      obs_weights redshift line_wavelengths resolution_matrix camerapix
      parameters Ifree Itied tiedtoparam tiedfactor doubletindx doubletpair
    = Ok (residuals, parameters') /\
    expand_parameters parameters free_parameters Ifree Itied tiedtoparam
      tiedfactor doubletindx doubletpair = Ok parameters' /\
    residuals = zip_with Rmult obs_weights
                  (zip_with Rminus obs_fluxes model_fluxes) /\
    length model_fluxes = length obs_fluxes /\
    forall k s e R_k,
      camerapix !! k = Some (s, e) -> resolution_matrix !! k = Some R_k ->
      camera_flux env parameters' obs_bin_edges log_obs_bin_edges redshift
        line_wavelengths R_k k (s, e) (slice model_fluxes s e).
Proof.
  intros Hcheck Hexp Hcams Hlen.
  destruct (expand_parameters_ok parameters free_parameters Ifree Itied
              tiedtoparam tiedfactor doubletindx doubletpair Hexp)
    as (p' & Hp' & _).
  specialize (Hcams p' Hp'). destruct Hcams as [Hcam Hord].
  unfold _objective. rewrite Hp'. cbn [bind].
  set (body := fun (icam : Z) (campix : Z * Z) (model_fluxes : list R) =>
         let '(s, e) := campix in
         mf <- build_emline_model env p'
                 (slice obs_bin_edges (s + icam) (e + icam + 1))
                 (slice log_obs_bin_edges (s + icam) (e + icam + 1))
                 redshift line_wavelengths ;;
         R_icam <- getitem resolution_matrix icam ;;
         blurred <- R_icam mf ;;
         setslice model_fluxes s e blurred).
  pose (P := fun (k : nat) (model : list R) =>
     length model = length obs_fluxes /\
     forall k' s e R_k, (k' < k)%nat ->
       camerapix !! k' = Some (s, e) -> resolution_matrix !! k' = Some R_k ->
       camera_flux env p' obs_bin_edges log_obs_bin_edges redshift
         line_wavelengths R_k k' (s, e) (slice model s e)).
  destruct (for_enumerate_inv P body camerapix 0
              (replicate (length obs_fluxes) (junk env)))
    as (model & Hrun & Hlm & Hmodel).
  { split; [apply length_replicate|]. intros; lia. }
  { intros i [s e] model Hi [Hl HP]. simpl in *.
    destruct (Hcam i s e Hi) as (Hse & He & Hvalid & R_i & HR & Hdot).
    destruct (build_emline_model_ok env p' _ _ redshift line_wavelengths Hvalid)
      as (mf & Hmf & Hlmf & _); [left; exact Hcheck|].
    rewrite Hmf. cbn [bind].
    rewrite (getitem_in resolution_matrix (Z.of_nat i) R_i)
      by (try lia; rewrite Nat2Z.id; exact HR).
    cbn [bind]. destruct (Hdot mf Hlmf) as (b & Hb & Hlb). rewrite Hb.
    cbn [bind]. rewrite setslice_same by lia.
    eexists. split; [reflexivity|]. split.
    - rewrite !length_app, length_take, length_drop. lia.
    - intros k' s' e' R_k Hk' Hk's HRk.
      destruct (decide (k' = i)) as [->|Hne].
      + rewrite Hi in Hk's. injection Hk's as <- <-.
        rewrite HR in HRk. injection HRk as <-.
        rewrite slice_setslice_same by lia.
        exists mf. split; [exact Hmf|exact Hb].
      + assert (k' < i)%nat as Hlt by lia.
        pose proof (Hord k' i s' e' s e Hlt Hk's Hi).
        destruct (Hcam k' s' e' Hk's) as (Hse' & _).
        rewrite slice_setslice_before by lia.
        apply HP; [lia|exact Hk's|exact HRk]. }
  change (Z.of_nat 0) with 0%Z in Hrun. rewrite Hrun. cbn [bind].
  rewrite broadcast2_same by congruence. cbn [bind].
  rewrite broadcast2_same by (rewrite length_zip_with; lia). cbn [bind].
  exists (zip_with Rmult obs_weights (zip_with Rminus obs_fluxes model)),
    p', model.
  split; [reflexivity|]. split; [reflexivity|]. split; [reflexivity|].
  split; [exact Hlm|].
  intros k s e R_k Hk HR. apply (Hmodel k s e R_k); [|exact Hk|exact HR].
  simpl. apply lookup_lt_Some in Hk. lia.
Qed.

(** *** A concrete call: one camera, one bin, one free amplitude *)

Lemma expand_one_free :
  expand_parameters [1; 0; 75] [2] [0%Z] [] [] [] [] [] = Ok [2; 0; 75].
Proof. reflexivity. Qed.

Lemma one_camera_valid (p' : list R) :
  expand_parameters [1; 0; 75] [2] [0%Z] [] [] [] [] [] = Ok p' ->
  cameras_valid p' [exp 8; exp 9] [8; 9] 0 [exp 9] [fun v => Ok v]
    [(0, 1)%Z] 1.
Proof.
  rewrite expand_one_free. intros [= <-]. split.
  - intros k s e Hk. destruct k as [|k]; [|discriminate].
    injection Hk as <- <-.
    split; [lia|]. split; [simpl; lia|]. split.
    + change (slice [exp 8; exp 9] (0 + Z.of_nat 0) (1 + Z.of_nat 0 + 1))
        with [exp 8; exp 9].
      change (slice [8; 9] (0 + Z.of_nat 0) (1 + Z.of_nat 0 + 1)) with [8; 9].
      apply valid_one_line; [simpl; lia|reflexivity| |].
      * apply strictly_increasing_2, exp_increasing. lra.
      * apply strictly_increasing_2. lra.
    + exists (fun v => Ok v). split; [reflexivity|].
      intros mf Hmf. exists mf. split; [reflexivity|exact Hmf].
  - intros k k' s e s' e' Hlt Hk Hk'.
    destruct k' as [|k']; [lia|]. discriminate.
Qed.

(** C1, counterexample: a call with one free amplitude changes the array
    [parameters] from [1, 0, 75] to [2, 0, 75]. *)
Lemma objective_overwrites_parameters :
  exists residuals parameters',
    _objective numba_default [2] [exp 8; exp 9] [8; 9] [5] [1] 0 [exp 9]
      [fun v => Ok v] [(0, 1)%Z] [1; 0; 75] [0%Z] [] [] [] [] []
    = Ok (residuals, parameters') /\
    parameters' = [2; 0; 75] /\
    parameters' <> [1; 0; 75].
Proof.
  unfold _objective. rewrite expand_one_free. cbn [bind for_enumerate].
  change (slice [exp 8; exp 9] (0 + 0) (1 + 0 + 1)) with [exp 8; exp 9].
  change (slice [8; 9] (0 + 0) (1 + 0 + 1)) with [8; 9].
  destruct (build_emline_model_ok numba_default [2; 0; 75] [exp 8; exp 9]
              [8; 9] 0 [exp 9])
    as (mf & Hmf & Hlmf & _).
  { apply valid_one_line; [simpl; lia|reflexivity| |].
    - apply strictly_increasing_2, exp_increasing. lra.
    - apply strictly_increasing_2. lra. }
  { left. reflexivity. }
  destruct mf as [|y [|y' mf']]; simpl in Hlmf; try lia.
  rewrite Hmf. cbn [bind].
  eexists _, _. split; [reflexivity|]. split; [reflexivity|].
  intros [= H]. lra.
Qed.

Lemma objective_residuals_and_parameters_witness :
  exists residuals parameters',
    _objective numba_default [2] [exp 8; exp 9] [8; 9] [5] [1] 0 [exp 9]
      [fun v => Ok v] [(0, 1)%Z] [1; 0; 75] [0%Z] [] [] [] [] []
    = Ok (residuals, parameters').
Proof.
  destruct (objective_residuals_and_parameters numba_default [2]
              [exp 8; exp 9] [8; 9] [5] [1] 0 [exp 9] [fun v => Ok v]
              [(0, 1)%Z] [1; 0; 75] [0%Z] [] [] [] [] [])
    as (residuals & parameters' & model & Hobj & _).
  - reflexivity.
  - split; try reflexivity; try apply Forall_nil_2.
    apply Forall_cons. split; [unfold index_ok; simpl; lia|apply Forall_nil_2].
  - apply one_camera_valid.
  - reflexivity.
  - exists residuals, parameters'. exact Hobj.
Defined.

(** * Further properties *)

(** ** [norm_pdf] and [norm_cdf] *)

Lemma SQRT_2PI_pos : 0 < SQRT_2PI.
Proof. unfold SQRT_2PI. apply sqrt_lt_R0. pose proof PI_RGT_0. lra. Qed.

(** X1: [norm_pdf] is positive everywhere and even, its value at [0] is
    [1 / sqrt(2 pi)], and it does not increase as [|a|] grows, so that
    this is its maximum. *)
Theorem norm_pdf_positive_even_unimodal :
  (forall a, 0 < norm_pdf a) /\
  (forall a, norm_pdf (- a) = norm_pdf a) /\
  norm_pdf 0 = 1 / sqrt (2 * PI) /\
  (forall a b, Rabs a <= Rabs b -> norm_pdf b <= norm_pdf a) /\
  (forall a, norm_pdf a <= norm_pdf 0).
Proof.
  pose proof SQRT_2PI_pos as Hs.
  assert (Hinv : 0 < 1 / SQRT_2PI) by (apply Rdiv_lt_0_compat; lra).
  assert (Hmono : forall a b, Rabs a <= Rabs b -> norm_pdf b <= norm_pdf a).
  { intros a b Hab. unfold norm_pdf.
    apply Rmult_le_compat_l; [lra|].
    assert (Hsq : a ^ 2 <= b ^ 2).
    { rewrite <- (pow2_abs a), <- (pow2_abs b).
      pose proof (Rabs_pos a). apply pow_incr. lra. }
    destruct (Req_dec (a ^ 2) (b ^ 2)) as [E|N].
    - rewrite E. lra.
    - left. apply exp_increasing. lra. }
  split; [|split; [|split; [|split]]].
  - intros a. unfold norm_pdf. apply Rmult_lt_0_compat; [exact Hinv|apply exp_pos].
  - intros a. unfold norm_pdf. f_equal. f_equal. ring.
  - unfold norm_pdf, SQRT_2PI.
    replace (- (1 / 2) * 0 ^ 2) with 0 by ring. rewrite exp_0. ring.
  - exact Hmono.
  - intros a. apply Hmono. rewrite Rabs_R0. apply Rabs_pos.
Qed.

Lemma norm_pdf_positive_even_unimodal_witness : norm_pdf 2 <= norm_pdf (-1).
Proof.
  apply (proj1 (proj2 (proj2 (proj2 norm_pdf_positive_even_unimodal)))).
  rewrite Rabs_left by lra. rewrite Rabs_right by lra. lra.
Defined.

Lemma gauss_area_strict x y : 0 <= x -> x < y -> gauss_area x < gauss_area y.
Proof.
  intros Hx Hxy. unfold gauss_area.
  rewrite <- (RiemannInt_P26 (gauss_integrable 0 x) (gauss_integrable x y)
                (gauss_integrable 0 y)).
  assert (0 < RiemannInt (gauss_integrable x y)); [|lra].
  apply Rlt_le_trans with (RiemannInt (RiemannInt_P14 x y (exp (- (y * y))))).
  - rewrite RiemannInt_P15. apply Rmult_lt_0_compat; [apply exp_pos|lra].
  - apply RiemannInt_P19; [lra|].
    intros t Ht. unfold fct_cte, gauss.
    destruct (Req_dec (t * t) (y * y)) as [E|N]; [rewrite E; lra|].
    left. apply exp_increasing. nra.
Qed.

Lemma erf_strict x y : x < y -> erf x < erf y.
Proof.
  intros Hxy. pose proof two_over_sqrt_pi_pos as Hc. unfold erf.
  destruct (Rle_dec 0 x) as [Hx|Hx], (Rle_dec 0 y) as [Hy|Hy]; try lra.
  - apply Rmult_lt_compat_l; [lra|]. apply gauss_area_strict; lra.
  - assert (0 < gauss_area (- x)).
    { rewrite <- gauss_area_0. apply gauss_area_strict; lra. }
    pose proof (gauss_area_nonneg y Hy).
    assert (0 < 2 / sqrt PI * gauss_area (- x)) by (apply Rmult_lt_0_compat; lra).
    assert (0 <= 2 / sqrt PI * gauss_area y) by (apply Rmult_le_pos; lra).
    lra.
  - apply Ropp_lt_contravar, Rmult_lt_compat_l; [lra|].
    apply gauss_area_strict; lra.
Qed.

(** X2: the two branches of [norm_cdf] compute one function, [0.5 + 0.5 *
    erf(a / sqrt 2)], so there is no jump where the branches meet at
    [|a| = 1]; it is strictly increasing, above [0.5] exactly for positive
    arguments. *)
Theorem norm_cdf_one_formula_strictly_increasing :
  (forall a, norm_cdf a = 1/2 + 1/2 * erf (a * (1 / sqrt 2))) /\
  (forall a b, a < b -> norm_cdf a < norm_cdf b) /\
  (forall a, 1/2 < norm_cdf a <-> 0 < a).
Proof.
  assert (Hstrict : forall a b, a < b -> norm_cdf a < norm_cdf b).
  { intros a b Hab. rewrite !norm_cdf_erf.
    assert (0 < 1 / sqrt 2).
    { apply Rdiv_lt_0_compat; [lra|apply sqrt_lt_R0; lra]. }
    assert (erf (a * (1 / sqrt 2)) < erf (b * (1 / sqrt 2))); [|lra].
    apply erf_strict. apply Rmult_lt_compat_r; lra. }
  split; [exact norm_cdf_erf|]. split; [exact Hstrict|].
  intros a. rewrite <- norm_cdf_0. split.
  - intros H. destruct (Rlt_dec 0 a) as [Ha|Ha]; [exact Ha|]. exfalso.
    destruct (Req_dec a 0) as [->|Hne]; [lra|].
    assert (norm_cdf a < norm_cdf 0) by (apply Hstrict; lra). lra.
  - apply Hstrict.
Qed.

Lemma norm_cdf_one_formula_strictly_increasing_witness :
  norm_cdf (-2) < norm_cdf 3.
Proof.
  apply (proj1 (proj2 norm_cdf_one_formula_strictly_increasing)). lra.
Defined.

(** ** [centers_to_edges]: the edges of ordered centers *)

(** On well-formed segments the function returns, and the slice of segment
    [k] is what the loop body computed for it. *)
Lemma centers_to_edges_ok (uninit : R) (centers : list R)
    (camerapix : list (Z * Z)) :
  segments_wf (length centers) camerapix ->
  exists edges,
    centers_to_edges uninit centers camerapix = Ok edges /\
    length edges = (length centers + length camerapix)%nat /\
    forall k s e, camerapix !! k = Some (s, e) ->
      (2 <= length (slice centers s e))%nat /\
      slice edges (s + Z.of_nat k) (e + Z.of_nat k + 1) =
      segment_result (slice centers s e).
Proof.
  intros [Hwf Hord]. unfold centers_to_edges.
  set (L := length centers). set (N := length camerapix).
  pose (P := fun (k : nat) (edges : list R) =>
               length edges = (L + N)%nat /\
               forall k' s e, (k' < k)%nat -> camerapix !! k' = Some (s, e) ->
                 slice edges (s + Z.of_nat k') (e + Z.of_nat k' + 1) =
                 segment_result (slice centers s e)).
  assert (Hlen : forall k s e, camerapix !! k = Some (s, e) ->
                 length (slice centers s e) = Z.to_nat (e - s)).
  { intros k s e Hk. destruct (Hwf k s e Hk) as (H1 & H2 & H3).
    rewrite length_slice, !clip_index_in by (fold L; lia). lia. }
  destruct (for_enumerate_inv P
              (fun (icam : Z) (campix : Z * Z) (edges : list R) =>
                 let '(s, e) := campix in
                 new_edges <- segment_edges (slice centers s e) ;;
                 setslice edges (s + icam) (e + icam + 1) new_edges)
              camerapix 0 (replicate (L + N) uninit))
    as (edges & Hrun & Hlen' & HP).
  { split; [apply length_replicate|]. intros; lia. }
  { intros i [s e] edges Hi [HL HP]. simpl in *.
    destruct (Hwf i s e Hi) as (H1 & H2 & H3).
    pose proof (Hlen i s e Hi) as Hn.
    pose proof (lookup_lt_Some _ _ _ Hi) as HiN. fold N in HiN.
    rewrite segment_edges_ok by lia. simpl.
    pose proof (length_segment_result (slice centers s e) ltac:(lia)) as Hsr.
    rewrite setslice_same by lia.
    eexists. split; [reflexivity|]. split.
    - rewrite !length_app, length_take, length_drop. lia.
    - intros k' s' e' Hk' Hk's.
      destruct (decide (k' = i)) as [->|Hne].
      + rewrite Hi in Hk's. injection Hk's as <- <-.
        apply slice_setslice_same; lia.
      + assert (k' < i)%nat as Hlt by lia.
        pose proof (Hord k' i s' e' s e Hlt Hk's Hi).
        destruct (Hwf k' s' e' Hk's) as (H1' & H2' & H3').
        rewrite slice_setslice_before by lia.
        apply HP; [lia|exact Hk's]. }
  change (Z.of_nat 0) with 0%Z in Hrun.
  exists edges. split; [exact Hrun|]. split; [exact Hlen'|].
  intros k s e Hk. pose proof (lookup_lt_Some _ _ _ Hk) as HkN.
  destruct (Hwf k s e Hk) as (H1 & H2 & H3). pose proof (Hlen k s e Hk).
  split; [lia|]. apply HP; [simpl; lia|exact Hk].
Qed.

(** The edges of a segment in closed form: half a gap before the first
    center, the midpoints, half a gap after the last. *)
Lemma segment_result_nth (c : list R) (i : nat) :
  (2 <= length c)%nat -> (i <= length c)%nat ->
  nth i (segment_result c) 0 =
  if decide (i = O) then (3 * nth 0 c 0 - nth 1 c 0) / 2
  else if decide (i = length c)
       then (3 * nth (i - 1) c 0 - nth (i - 2) c 0) / 2
       else (nth (i - 1) c 0 + nth i c 0) / 2.
Proof.
  intros Hn Hi. pose proof (length_midpoints c) as Hm.
  assert (Hmid : forall k, (k + 1 < length c)%nat ->
            nth k (midpoints c) 0 = (nth k c 0 + nth (k + 1) c 0) / 2).
  { intros k Hk. rewrite (nth_lookup_Some _ _ 0 _ (midpoints_lookup c k Hk)).
    lra. }
  unfold segment_result. cbv zeta.
  destruct (decide (i = O)) as [->|Hi0].
  - simpl. rewrite Hmid by lia. simpl. lra.
  - destruct i as [|i]; [lia|]. cbn [nth].
    destruct (decide (S i = length c)) as [E|NE].
    + rewrite app_nth2 by lia. rewrite Hm.
      replace (i - (length c - 1))%nat with O by lia. cbn [nth].
      rewrite Hmid by lia.
      replace (length c - 2 + 1)%nat with (length c - 1)%nat by lia.
      replace (length c - 1)%nat with i by lia.
      replace (length c - 2)%nat with (i - 1)%nat by lia.
      replace (S i - 1)%nat with i by lia.
      replace (S i - 2)%nat with (i - 1)%nat by lia. lra.
    + rewrite app_nth1 by lia. rewrite Hmid by lia.
      replace (S i - 1)%nat with i by lia.
      replace (i + 1)%nat with (S i) by lia. reflexivity.
Qed.

(** X3: when the centers of every segment are strictly increasing, the edges
    [centers_to_edges] returns for a segment are strictly increasing too, and
    center [i] of the segment lies strictly between its edges [i] and
    [i + 1]. *)
Theorem centers_to_edges_brackets_centers
    (uninit : R) (centers : list R) (camerapix : list (Z * Z)) :
  segments_wf (length centers) camerapix ->
  (forall k s e, camerapix !! k = Some (s, e) ->
     strictly_increasing (slice centers s e)) ->
  exists edges,
    centers_to_edges uninit centers camerapix = Ok edges /\
    forall k s e, camerapix !! k = Some (s, e) ->
      let c := slice centers s e in
      let seg := slice edges (s + Z.of_nat k) (e + Z.of_nat k + 1) in
      length seg = S (length c) /\
      strictly_increasing seg /\
      forall i, (i < length c)%nat ->
        nth i seg 0 < nth i c 0 < nth (i + 1) seg 0.
Proof.
  intros Hwf Hinc.
  destruct (centers_to_edges_ok uninit centers camerapix Hwf)
    as (edges & Hrun & _ & Hseg).
  exists edges. split; [exact Hrun|]. intros k s e Hk. cbv zeta.
  destruct (Hseg k s e Hk) as (Hn & ->). specialize (Hinc k s e Hk).
  set (c := slice centers s e) in *.
  assert (Hstep : forall i, (i + 1 < length c)%nat -> nth i c 0 < nth (i + 1) c 0)
    by exact Hinc.
  assert (Hbr : forall i, (i < length c)%nat ->
            nth i (segment_result c) 0 < nth i c 0
            < nth (i + 1) (segment_result c) 0).
  { intros i Hi. rewrite !segment_result_nth by lia.
    destruct (decide (i = O)) as [->|Hi0].
    - specialize (Hstep O ltac:(lia)). simpl in Hstep.
      destruct (decide ((0 + 1)%nat = O)); [lia|].
      destruct (decide ((0 + 1)%nat = length c)); [lia|]. simpl. lra.
    - destruct (decide (i = length c)); [lia|].
      destruct (decide ((i + 1)%nat = O)); [lia|].
      pose proof (Hstep (i - 1)%nat ltac:(lia)) as Hprev.
      replace (i - 1 + 1)%nat with i in Hprev by lia.
      replace (i + 1 - 1)%nat with i by lia.
      replace (i + 1 - 2)%nat with (i - 1)%nat by lia.
      destruct (decide ((i + 1)%nat = length c)).
      + lra.
      + specialize (Hstep i ltac:(lia)). lra. }
  split; [apply length_segment_result; exact Hn|]. split; [|exact Hbr].
  intros i Hi. rewrite length_segment_result in Hi by exact Hn.
  pose proof (Hbr i ltac:(lia)). lra.
Qed.

Lemma centers_to_edges_brackets_centers_witness :
  exists edges, centers_to_edges 0 [1; 2; 4] [(0, 3)%Z] = Ok edges.
Proof.
  destruct (centers_to_edges_brackets_centers 0 [1; 2; 4] [(0, 3)%Z])
    as (edges & Hedges & _).
  - split.
    + intros k s e Hk. destruct k as [|k]; [|discriminate].
      injection Hk as <- <-. simpl. lia.
    + intros k k' s e s' e' Hlt Hk Hk'.
      destruct k' as [|k']; [lia|discriminate].
  - intros k s e Hk. destruct k as [|k]; [|discriminate].
    injection Hk as <- <-.
    change (slice [1; 2; 4] 0 3) with [1; 2; 4].
    intros i Hi. simpl in Hi.
    destruct i as [|[|i]]; [| |lia]; simpl; lra.
  - exists edges. exact Hedges.
Defined.

(** X4: on a segment of evenly spaced centers [c0 + i * h] the edges are
    evenly spaced with the same step and start half a step before the first
    center: edge [i] is [c0 - h / 2 + i * h], for [i] up to the number of
    centers. *)
Theorem centers_to_edges_evenly_spaced
    (uninit : R) (centers : list R) (camerapix : list (Z * Z)) (k : nat)
    (s e : Z) (c0 h : R) :
  segments_wf (length centers) camerapix ->
  camerapix !! k = Some (s, e) ->
  (forall i, (i < length (slice centers s e))%nat ->
     nth i (slice centers s e) 0 = c0 + INR i * h) ->
  exists edges,
    centers_to_edges uninit centers camerapix = Ok edges /\
    forall i, (i <= length (slice centers s e))%nat ->
      nth i (slice edges (s + Z.of_nat k) (e + Z.of_nat k + 1)) 0
      = c0 - h / 2 + INR i * h.
Proof.
  intros Hwf Hk Heven.
  destruct (centers_to_edges_ok uninit centers camerapix Hwf)
    as (edges & Hrun & _ & Hseg).
  exists edges. split; [exact Hrun|]. intros i Hi.
  destruct (Hseg k s e Hk) as (Hn & ->).
  rewrite segment_result_nth by lia.
  destruct (decide (i = O)) as [->|Hi0].
  - rewrite (Heven 0%nat), (Heven 1%nat) by lia. simpl. lra.
  - destruct (decide (i = length (slice centers s e))) as [E|NE].
    + rewrite (Heven (i - 1)%nat), (Heven (i - 2)%nat) by lia.
      rewrite !minus_INR by lia. simpl. lra.
    + rewrite (Heven (i - 1)%nat), (Heven i) by lia.
      rewrite minus_INR by lia. simpl. lra.
Qed.

Lemma centers_to_edges_evenly_spaced_witness :
  exists edges, centers_to_edges 0 [1; 3; 5] [(0, 3)%Z] = Ok edges /\
                nth 3 (slice edges (0 + Z.of_nat 0) (3 + Z.of_nat 0 + 1)) 0
                = 1 - 2 / 2 + INR 3 * 2.
Proof.
  destruct (centers_to_edges_evenly_spaced 0 [1; 3; 5] [(0, 3)%Z] 0 0 3 1 2)
    as (edges & Hedges & Hnth).
  - split.
    + intros k s e Hk. destruct k as [|k]; [|discriminate].
      injection Hk as <- <-. simpl. lia.
    + intros k k' s e s' e' Hlt Hk Hk'.
      destruct k' as [|k']; [lia|discriminate].
  - reflexivity.
  - change (slice [1; 3; 5] 0 3) with [1; 3; 5].
    intros i Hi. simpl in Hi.
    destruct i as [|[|[|i]]]; [| | |lia]; simpl; lra.
  - exists edges. split; [exact Hedges|]. apply Hnth.
    change (slice [1; 3; 5] 0 3) with [1; 3; 5]. simpl. lia.
Defined.

(** ** [build_emline_model]: degenerate input *)

Lemma array_split3_no_widths (parameters : list R) :
  (length parameters < 3)%nat ->
  snd (array_split3 parameters) = [].
Proof.
  intros H. unfold array_split3. cbn [snd].
  destruct parameters as [|a [|b [|c l]]]; simpl in H; try lia; reflexivity.
Qed.

(** X5: [build_emline_model] returns nothing when there is no line width to
    take the maximum of (fewer than three parameters, in particular no line
    at all) or no bin to take the smallest width of (fewer than two
    log-edges): it raises an exception. *)
Theorem build_emline_model_degenerate_input_raises (env : jit_env)
    (parameters obs_bin_edges log_obs_bin_edges : list R) (redshift : R)
    (line_wavelengths : list R) :
  (length parameters < 3)%nat \/ (length log_obs_bin_edges < 2)%nat ->
  raises (build_emline_model env parameters obs_bin_edges log_obs_bin_edges
            redshift line_wavelengths) /\
  forall out,
    build_emline_model env parameters obs_bin_edges log_obs_bin_edges
      redshift line_wavelengths <> Ok out.
Proof.
  intros H.
  assert (Hr : raises (build_emline_model env parameters obs_bin_edges
                         log_obs_bin_edges redshift line_wavelengths)).
  { unfold build_emline_model.
    destruct (array_split3 parameters) as [[la lv] ls] eqn:Esplit.
    destruct (mapM (array_div 1) (np_diff obs_bin_edges)) as [iw|err];
      [|exists err; reflexivity].
    cbn [bind].
    destruct (np_zeros (Z.of_nat (length obs_bin_edges) - 1 + 2)) as [mf|err];
      [|exists err; reflexivity].
    cbn [bind]. destruct H as [Hp|Hl].
    - pose proof (array_split3_no_widths parameters Hp) as Hs.
      rewrite Esplit in Hs. cbn [snd] in Hs. subst ls.
      exists ValueError. reflexivity.
    - destruct (np_max (map (fun s => s / C_LIGHT) ls)) as [smax|err];
        [|exists err; reflexivity].
      cbn [bind].
      assert (Hd : np_diff log_obs_bin_edges = []).
      { destruct log_obs_bin_edges as [|x [|y l]]; simpl in Hl; try lia;
          reflexivity. }
      rewrite Hd. exists ValueError. reflexivity. }
  split; [exact Hr|]. intros out. apply raises_not_Ok, Hr.
Qed.

Lemma build_emline_model_degenerate_input_raises_witness :
  raises (build_emline_model numba_default [] [exp 8; exp 9] [8; 9] 0 []).
Proof.
  apply (build_emline_model_degenerate_input_raises numba_default []
           [exp 8; exp 9] [8; 9] 0 []).
  left. simpl. lia.
Defined.

(** ** [build_emline_model]: the buffers are large enough *)

(** X6: on valid input [max_width] is computed without error and, for every
    line, [0 <= lo <= hi <= len(log_obs_bin_edges)], the [nedges = hi - lo +
    2] values the line writes fit the scratch buffer of [max_width] entries,
    and the accumulation slice [lo : hi + 1] lies inside the output buffer of
    [nbins + 2] entries. *)
Theorem build_emline_model_buffers_fit
    (parameters obs_bin_edges log_obs_bin_edges : list R) (redshift : R)
    (line_wavelengths : list R) :
  valid_model_input parameters obs_bin_edges log_obs_bin_edges redshift
    line_wavelengths ->
  let N := length line_wavelengths in
  let nbins := (Z.of_nat (length obs_bin_edges) - 1)%Z in
  exists smax dmin,
    np_max (map (fun s => s / C_LIGHT) (drop (2 * N) parameters)) = Ok smax /\
    np_min (np_diff log_obs_bin_edges) = Ok dmin /\
    0 < dmin /\
    let max_width := (trunc (2 * MAX_SDEV * smax / dmin) + 4)%Z in
    forall j, (j < N)%nat ->
      let w := line_window_at parameters log_obs_bin_edges redshift
                 line_wavelengths j in
      (0 <= lw_lo w <= lw_hi w)%Z /\
      (lw_hi w <= Z.of_nat (length log_obs_bin_edges))%Z /\
      (lw_hi w - lw_lo w + 2 <= max_width)%Z /\
      (lw_hi w + 1 <= nbins + 2)%Z.
Proof.
  intros Hvalid N nbins.
  destruct (build_emline_model_prelude numba_default parameters obs_bin_edges
              log_obs_bin_edges redshift line_wavelengths Hvalid)
    as (smax & dmin & Hmax & Hmin & Htr & _).
  exists smax, dmin. split; [exact Hmax|]. split; [exact Hmin|].
  pose proof Hvalid as [HN _ He Hl _ _ _ _ _].
  destruct (window_fits parameters obs_bin_edges log_obs_bin_edges redshift
              line_wavelengths Hvalid 0 smax dmin ltac:(lia) Hmax Hmin)
    as (Hd & _ & _).
  split; [exact Hd|]. intros max_width j Hj w.
  pose proof (win_lo_le_hi parameters obs_bin_edges log_obs_bin_edges redshift
                line_wavelengths Hvalid j Hj) as Hlohi.
  pose proof (win_hi_le parameters log_obs_bin_edges redshift
                line_wavelengths j) as Hhi.
  destruct (window_fits parameters obs_bin_edges log_obs_bin_edges redshift
              line_wavelengths Hvalid j smax dmin Hj Hmax Hmin)
    as (_ & _ & Hfit).
  cbv beta in Hlohi, Hhi, Hfit. fold w in Hlohi, Hhi, Hfit.
  split; [exact Hlohi|]. split; [exact Hhi|]. split.
  - unfold max_width.
    destruct (decide (lw_lo w < lw_hi w)%Z) as [Hlt|Hge].
    + specialize (Hfit Hlt). lia.
    + lia.
  - unfold nbins. lia.
Qed.

Lemma build_emline_model_buffers_fit_witness :
  exists smax dmin,
    np_max (map (fun s => s / C_LIGHT) (drop (2 * 1) [1; 0; 75])) = Ok smax /\
    np_min (np_diff [8; 9]) = Ok dmin /\ 0 < dmin.
Proof.
  destruct (build_emline_model_buffers_fit [1; 0; 75] [exp 8; exp 9] [8; 9] 0
              [exp 9])
    as (smax & dmin & Hmax & Hmin & Hd & _).
  - apply valid_one_line; [simpl; lia|reflexivity| |].
    + apply strictly_increasing_2, exp_increasing. lra.
    + apply strictly_increasing_2. lra.
  - exists smax, dmin. split; [exact Hmax|]. split; [exact Hmin|exact Hd].
Defined.

(** ** [build_emline_model]: what the result does not depend on *)

Lemma length_ibin_width_of (obs_bin_edges : list R) :
  (1 <= length obs_bin_edges)%nat ->
  length (ibin_width_of obs_bin_edges) = length obs_bin_edges.
Proof.
  intros H. unfold ibin_width_of. simpl length.
  rewrite length_map, length_np_diff. lia.
Qed.

Lemma line_delta_garbage (g g' : R) (obs_bin_edges logE : list R)
    (w : line_window) (aj : R) (k : nat) :
  (k < length obs_bin_edges)%nat ->
  line_delta g (ibin_width_of obs_bin_edges) logE w aj k =
  line_delta g' (ibin_width_of obs_bin_edges) logE w aj k.
Proof.
  intros Hk. unfold line_delta.
  destruct (decide _) as [_|_]; [|reflexivity].
  f_equal. apply nth_indep. rewrite length_ibin_width_of; lia.
Qed.

(** X7: on valid input the returned fluxes are one and the same array of
    [nbins] values however the compiled code is run: they depend neither on
    what the uninitialised scratch buffer holds, nor on the value found by a
    read of [ibin_width] past its end (that product only reaches the padding
    entry that the final slice drops), nor, when no window reaches the last
    edge, on whether bounds are checked. *)
Theorem build_emline_model_result_independent_of_run
    (parameters obs_bin_edges log_obs_bin_edges : list R) (redshift : R)
    (line_wavelengths : list R) :
  valid_model_input parameters obs_bin_edges log_obs_bin_edges redshift
    line_wavelengths ->
  exists out,
    length out = (length obs_bin_edges - 1)%nat /\
    (forall env, boundscheck env = false ->
       build_emline_model env parameters obs_bin_edges log_obs_bin_edges
         redshift line_wavelengths = Ok out) /\
    ((forall j, (j < length line_wavelengths)%nat ->
        (lw_hi (line_window_at parameters log_obs_bin_edges redshift
                  line_wavelengths j)
         < Z.of_nat (length obs_bin_edges))%Z) ->
     forall env,
       build_emline_model env parameters obs_bin_edges log_obs_bin_edges
         redshift line_wavelengths = Ok out).
Proof.
  intros Hvalid.
  destruct (build_emline_model_ok numba_default parameters obs_bin_edges
              log_obs_bin_edges redshift line_wavelengths Hvalid
              (or_introl eq_refl))
    as (out & Hout & Hlen & Hbins).
  assert (Hsame : forall env,
    (boundscheck env = false \/
     forall j, (j < length line_wavelengths)%nat ->
       (lw_hi (line_window_at parameters log_obs_bin_edges redshift
                 line_wavelengths j)
        < Z.of_nat (length obs_bin_edges))%Z) ->
    build_emline_model env parameters obs_bin_edges log_obs_bin_edges
      redshift line_wavelengths = Ok out).
  { intros env Hread.
    destruct (build_emline_model_ok env parameters obs_bin_edges
                log_obs_bin_edges redshift line_wavelengths Hvalid Hread)
      as (out' & Hout' & Hlen' & Hbins').
    rewrite Hout'. f_equal.
    apply (nth_ext _ _ 0 0); [lia|].
    intros b Hb. rewrite Hlen' in Hb.
    rewrite Hbins', Hbins by exact Hb.
    apply sum_n_ext. intros j _. apply line_delta_garbage. lia. }
  exists out. split; [exact Hlen|]. split.
  - intros env Hbc. apply Hsame. left. exact Hbc.
  - intros Hin env. apply Hsame. right. exact Hin.
Qed.

Lemma build_emline_model_result_independent_of_run_witness :
  exists out,
    length out = (length [exp 8; exp 9] - 1)%nat /\
    forall env, boundscheck env = false ->
      build_emline_model env [1; 0; 75] [exp 8; exp 9] [8; 9] 0 [exp 9]
      = Ok out.
Proof.
  destruct (build_emline_model_result_independent_of_run [1; 0; 75]
              [exp 8; exp 9] [8; 9] 0 [exp 9])
    as (out & Hlen & Hrun & _).
  - apply valid_one_line; [simpl; lia|reflexivity| |].
    + apply strictly_increasing_2, exp_increasing. lra.
    + apply strictly_increasing_2. lra.
  - exists out. split; [exact Hlen|exact Hrun].
Defined.

(** ** [build_emline_model]: linearity in the amplitudes *)

Lemma nth_zip_with_R (f : R -> R -> R) (a b : list R) (j : nat) :
  (j < length a)%nat -> length b = length a ->
  nth j (zip_with f a b) 0 = f (nth j a 0) (nth j b 0).
Proof.
  revert b j. induction a as [|x a IH]; intros [|y b] j Hj Hl;
    simpl in *; try lia.
  destruct j as [|j]; [reflexivity|]. apply IH; lia.
Qed.

Lemma nth_app_amplitude (a rest : list R) (j : nat) :
  (j < length a)%nat -> nth j (a ++ rest) 0 = nth j a 0.
Proof. intros H. apply app_nth1. exact H. Qed.

Lemma nth_app_rest (a rest : list R) (n j : nat) :
  length a = n -> nth (n + j) (a ++ rest) 0 = nth j rest 0.
Proof. intros <-. apply app_nth2_plus. Qed.

Lemma line_window_at_amplitudes (a a' rest logE : list R) (z : R)
    (wl : list R) (j : nat) :
  length a = length wl -> length a' = length wl ->
  line_window_at (a ++ rest) logE z wl j =
  line_window_at (a' ++ rest) logE z wl j.
Proof.
  intros Ha Ha'. unfold line_window_at.
  replace (2 * length wl + j)%nat with (length wl + (length wl + j))%nat
    by lia.
  rewrite !(nth_app_rest a rest) by exact Ha.
  rewrite !(nth_app_rest a' rest) by exact Ha'.
  reflexivity.
Qed.

Lemma valid_amplitudes_irrelevant (a a' rest obs logE : list R) (z : R)
    (wl : list R) :
  length a = length wl -> length a' = length wl ->
  valid_model_input (a ++ rest) obs logE z wl ->
  valid_model_input (a' ++ rest) obs logE z wl.
Proof.
  intros Ha Ha' [HN Hp He Hl Hobs Hinc Hs Hs0 Hsh].
  split; try assumption.
  - rewrite length_app in *. lia.
  - intros j Hj. specialize (Hs j Hj).
    replace (2 * length wl + j)%nat with (length wl + (length wl + j))%nat
      in * by lia.
    rewrite nth_app_rest in * by assumption. exact Hs.
  - intros j Hj Hz.
    rewrite <- (line_window_at_amplitudes a a' rest logE z wl j Ha Ha').
    apply Hs0; [exact Hj|].
    replace (2 * length wl + j)%nat with (length wl + (length wl + j))%nat
      in * by lia.
    rewrite nth_app_rest in * by assumption. exact Hz.
  - intros j Hj. specialize (Hsh j Hj).
    rewrite nth_app_rest in * by assumption. exact Hsh.
Qed.

Lemma edge_value_linear (logE : list R) (w : line_window) (x y c d : R)
    (k : Z) :
  edge_value logE w (c * x + d * y) k =
  c * edge_value logE w x k + d * edge_value logE w y k.
Proof.
  unfold edge_value, line_area.
  destruct (k <? lw_lo w)%Z; [ring|].
  destruct (lw_hi w <=? k)%Z; ring.
Qed.

Lemma line_delta_linear (g : R) (ibw logE : list R) (w : line_window)
    (x y c d : R) (k : nat) :
  line_delta g ibw logE w (c * x + d * y) k =
  c * line_delta g ibw logE w x k + d * line_delta g ibw logE w y k.
Proof.
  unfold line_delta. destruct (decide _) as [_|_]; [|ring].
  rewrite !edge_value_linear. ring.
Qed.

(** X8: the model is linear in the line amplitudes.  With the velocity
    shifts and widths [rest] held fixed and valid, the fluxes built from the
    amplitudes [c * a1 + d * a2] are [c] times the fluxes built from [a1]
    plus [d] times those built from [a2], bin by bin; in particular scaling
    every amplitude scales the model, and all-zero amplitudes give the zero
    model. *)
Theorem build_emline_model_linear_in_amplitudes (env : jit_env)
    (a1 a2 rest obs_bin_edges log_obs_bin_edges : list R) (redshift : R)
    (line_wavelengths : list R) (c d : R) :
  length a1 = length line_wavelengths ->
  length a2 = length line_wavelengths ->
  valid_model_input (a1 ++ rest) obs_bin_edges log_obs_bin_edges redshift
    line_wavelengths ->
  (boundscheck env = false \/
   forall j, (j < length line_wavelengths)%nat ->
     (lw_hi (line_window_at (a1 ++ rest) log_obs_bin_edges redshift
               line_wavelengths j)
      < Z.of_nat (length obs_bin_edges))%Z) ->
  exists o1 o2 o3,
    build_emline_model env (a1 ++ rest) obs_bin_edges log_obs_bin_edges
      redshift line_wavelengths = Ok o1 /\
    build_emline_model env (a2 ++ rest) obs_bin_edges log_obs_bin_edges
      redshift line_wavelengths = Ok o2 /\
    build_emline_model env
      (zip_with (fun x y => c * x + d * y) a1 a2 ++ rest)
      obs_bin_edges log_obs_bin_edges redshift line_wavelengths = Ok o3 /\
    length o3 = (length obs_bin_edges - 1)%nat /\
    forall b, (b < length obs_bin_edges - 1)%nat ->
      nth b o3 0 = c * nth b o1 0 + d * nth b o2 0.
Proof.
  intros Ha1 Ha2 Hvalid Hread.
  set (a3 := zip_with (fun x y => c * x + d * y) a1 a2).
  assert (Ha3 : length a3 = length line_wavelengths).
  { unfold a3. rewrite length_zip_with. lia. }
  assert (Hread' : forall a', length a' = length line_wavelengths ->
    boundscheck env = false \/
    forall j, (j < length line_wavelengths)%nat ->
      (lw_hi (line_window_at (a' ++ rest) log_obs_bin_edges redshift
                line_wavelengths j)
       < Z.of_nat (length obs_bin_edges))%Z).
  { intros a' Ha'. destruct Hread as [Hb|Hb]; [left; exact Hb|right].
    intros j Hj.
    rewrite (line_window_at_amplitudes a' a1 rest) by assumption.
    apply Hb, Hj. }
  destruct (build_emline_model_ok env (a1 ++ rest) obs_bin_edges
              log_obs_bin_edges redshift line_wavelengths Hvalid Hread)
    as (o1 & Ho1 & Hl1 & Hb1).
  destruct (build_emline_model_ok env (a2 ++ rest) obs_bin_edges
              log_obs_bin_edges redshift line_wavelengths
              (valid_amplitudes_irrelevant a1 a2 rest _ _ _ _ Ha1 Ha2 Hvalid)
              (Hread' a2 Ha2))
    as (o2 & Ho2 & Hl2 & Hb2).
  destruct (build_emline_model_ok env (a3 ++ rest) obs_bin_edges
              log_obs_bin_edges redshift line_wavelengths
              (valid_amplitudes_irrelevant a1 a3 rest _ _ _ _ Ha1 Ha3 Hvalid)
              (Hread' a3 Ha3))
    as (o3 & Ho3 & Hl3 & Hb3).
  exists o1, o2, o3. split; [exact Ho1|]. split; [exact Ho2|].
  split; [exact Ho3|]. split; [exact Hl3|].
  intros b Hb. rewrite Hb1, Hb2, Hb3 by exact Hb.
  rewrite <- !sum_n_scal_l, <- sum_n_plus.
  apply sum_n_ext. intros j Hj.
  rewrite (line_window_at_amplitudes a3 a1 rest) by assumption.
  rewrite (line_window_at_amplitudes a2 a1 rest) by assumption.
  rewrite !nth_app_amplitude by lia.
  unfold a3. rewrite nth_zip_with_R by lia.
  apply line_delta_linear.
Qed.

Lemma build_emline_model_linear_in_amplitudes_witness :
  exists o1 o2 o3,
    build_emline_model numba_default ([1] ++ [0; 75]) [exp 8; exp 9] [8; 9] 0
      [exp 9] = Ok o1 /\
    build_emline_model numba_default ([3] ++ [0; 75]) [exp 8; exp 9] [8; 9] 0
      [exp 9] = Ok o2 /\
    build_emline_model numba_default
      (zip_with (fun x y => 2 * x + 5 * y) [1] [3] ++ [0; 75])
      [exp 8; exp 9] [8; 9] 0 [exp 9] = Ok o3 /\
    length o3 = (length [exp 8; exp 9] - 1)%nat /\
    forall b, (b < length [exp 8; exp 9] - 1)%nat ->
      nth b o3 0 = 2 * nth b o1 0 + 5 * nth b o2 0.
Proof.
  apply (build_emline_model_linear_in_amplitudes numba_default [1] [3]
           [0; 75] [exp 8; exp 9] [8; 9] 0 [exp 9] 2 5).
  - reflexivity.
  - reflexivity.
  - apply (valid_one_line 1 9); [simpl; lia|reflexivity| |].
    + apply strictly_increasing_2, exp_increasing. lra.
    + apply strictly_increasing_2. lra.
  - left. reflexivity.
Defined.

(** ** The support window of a line *)

Lemma model_line_window_inv (env : jit_env)
    (line_vshifts line_sigmas log_obs_bin_edges : list R) (redshift : R)
    (line_wavelengths : list R) (j : Z) (w : line_window) :
  model_line_window env line_vshifts line_sigmas log_obs_bin_edges redshift
    line_wavelengths j = Ok w ->
  lw_lo w = Z.of_nat (searchsorted_left log_obs_bin_edges
              (lw_log_shifted_line w - MAX_SDEV * lw_sigma w)) /\
  lw_hi w = Z.of_nat (searchsorted_right log_obs_bin_edges
              (lw_log_shifted_line w + MAX_SDEV * lw_sigma w)) /\
  0 < lw_shifted_line w /\
  lw_log_shifted_line w = ln (lw_shifted_line w).
Proof.
  unfold model_line_window. intros H.
  destruct (jit_getitem env line_sigmas j) as [sj|]; [|discriminate].
  cbn [bind] in H.
  destruct (jit_getitem env line_vshifts j) as [vj|]; [|discriminate].
  cbn [bind] in H.
  destruct (jit_getitem env line_wavelengths j) as [wj|]; [|discriminate].
  cbn [bind] in H. unfold np_log in H.
  destruct (Rlt_dec 0 (wj * (1 + redshift + vj / C_LIGHT))) as [Hpos|];
    [|discriminate].
  cbn [bind] in H. injection H as <-. cbn. auto.
Qed.

Lemma searchsorted_left_iff (a : list R) (v : R) (i : nat) :
  strictly_increasing a -> (i < length a)%nat ->
  (i < searchsorted_left a v)%nat <-> nth i a 0 < v.
Proof.
  intros Hinc Hi. split.
  - apply searchsorted_left_below.
  - intros Hlt. destruct (decide (i < searchsorted_left a v)%nat) as [|Hn];
      [assumption|].
    pose proof (searchsorted_left_above a v i Hinc ltac:(lia)). lra.
Qed.

Lemma searchsorted_right_iff (a : list R) (v : R) (i : nat) :
  strictly_increasing a -> (i < length a)%nat ->
  (i < searchsorted_right a v)%nat <-> nth i a 0 <= v.
Proof.
  intros Hinc Hi. split.
  - apply searchsorted_right_below.
  - intros Hle. destruct (decide (i < searchsorted_right a v)%nat) as [|Hn];
      [assumption|].
    pose proof (searchsorted_right_above a v i Hinc ltac:(lia)). lra.
Qed.

(** X9: the window [lo, hi) that the builder computes for a line selects
    exactly the log-edges within [MAX_SDEV] widths of the line's shifted log
    centre: for strictly increasing log-edges and a non-negative width,
    [0 <= lo <= hi <= len(log_obs_bin_edges)]; edge [i] has [lo <= i < hi] if
    and only if it lies in [centre - MAX_SDEV * sigma, centre + MAX_SDEV *
    sigma]; the line is skipped ([hi = lo]) if and only if no edge lies there;
    and a bin is one the line adds to if and only if at least one of its two
    edges lies there. *)
Theorem model_line_window_selects_edges_in_range (env : jit_env)
    (line_vshifts line_sigmas log_obs_bin_edges : list R) (redshift : R)
    (line_wavelengths : list R) (j : Z) (w : line_window) :
  model_line_window env line_vshifts line_sigmas log_obs_bin_edges redshift
    line_wavelengths j = Ok w ->
  strictly_increasing log_obs_bin_edges ->
  0 <= lw_sigma w ->
  let in_range (i : nat) :=
    lw_log_shifted_line w - MAX_SDEV * lw_sigma w
      <= nth i log_obs_bin_edges 0
      <= lw_log_shifted_line w + MAX_SDEV * lw_sigma w in
  (0 <= lw_lo w <= lw_hi w)%Z /\
  (lw_hi w <= Z.of_nat (length log_obs_bin_edges))%Z /\
  (forall i, (i < length log_obs_bin_edges)%nat ->
     (lw_lo w <= Z.of_nat i < lw_hi w)%Z <-> in_range i) /\
  (lw_hi w = lw_lo w <->
   forall i, (i < length log_obs_bin_edges)%nat -> ~ in_range i) /\
  (forall b, (b + 1 < length log_obs_bin_edges)%nat ->
     in_window w b <-> in_range b \/ in_range (b + 1)%nat).
Proof.
  intros Hw Hinc Hsig in_range.
  destruct (model_line_window_inv _ _ _ _ _ _ _ _ Hw) as (Hlo & Hhi & _ & _).
  set (vl := lw_log_shifted_line w - MAX_SDEV * lw_sigma w) in *.
  set (vh := lw_log_shifted_line w + MAX_SDEV * lw_sigma w) in *.
  assert (Hv : vl <= vh) by (unfold vl, vh, MAX_SDEV; lra).
  pose proof (searchsorted_left_right log_obs_bin_edges vl vh Hv) as Hlr.
  pose proof (searchsorted_right_le log_obs_bin_edges vh) as Hle.
  assert (Hedge : forall i, (i < length log_obs_bin_edges)%nat ->
            (lw_lo w <= Z.of_nat i < lw_hi w)%Z <-> in_range i).
  { intros i Hi. unfold in_range. fold vl vh.
    pose proof (searchsorted_left_iff log_obs_bin_edges vl i Hinc Hi) as Hl.
    pose proof (searchsorted_right_iff log_obs_bin_edges vh i Hinc Hi) as Hr.
    rewrite Hlo, Hhi. split.
    - intros [H1 H2]. split.
      + destruct (Rle_dec vl (nth i log_obs_bin_edges 0)) as [|Hn];
          [assumption|].
        assert (i < searchsorted_left log_obs_bin_edges vl)%nat
          by (apply Hl; lra).
        lia.
      + apply Hr. lia.
    - intros [H1 H2]. split.
      + destruct (decide (i < searchsorted_left log_obs_bin_edges vl)%nat)
          as [Hlt|Hge]; [|lia].
        apply Hl in Hlt. lra.
      + apply inj_lt, Hr, H2. }
  split; [lia|]. split; [lia|]. split; [exact Hedge|]. split.
  - split.
    + intros Heq i Hi Hr. apply Hedge in Hr; [lia|exact Hi].
    + intros Hnone.
      destruct (decide (lw_hi w = lw_lo w)) as [|Hne]; [assumption|].
      exfalso. apply (Hnone (Z.to_nat (lw_lo w))); [lia|].
      apply Hedge; lia.
  - intros b Hb. unfold in_window. split.
    + intros [Hlt Hin].
      destruct (decide (Z.of_nat b + 1 < lw_hi w)%Z) as [Hb1|Hb1].
      * right. apply Hedge; lia.
      * left. apply Hedge; lia.
    + intros [Hr|Hr]; apply Hedge in Hr; lia.
Qed.

Lemma model_line_window_selects_edges_in_range_witness :
  exists w,
    model_line_window numba_default [0] [75] [8; 9] 0 [exp 9] 0 = Ok w /\
    (0 <= lw_lo w <= lw_hi w)%Z /\
    (lw_hi w <= Z.of_nat (length [8; 9]))%Z.
Proof.
  assert (Hvalid : valid_model_input [1; 0; 75] [exp 8; exp 9] [8; 9] 0
                     [exp 9]).
  { apply valid_one_line; [simpl; lia|reflexivity| |].
    - apply strictly_increasing_2, exp_increasing. lra.
    - apply strictly_increasing_2. lra. }
  pose proof (window_ok numba_default [1; 0; 75] [exp 8; exp 9] [8; 9] 0
                [exp 9] Hvalid 0 ltac:(simpl; lia)) as Hw.
  change (model_line_window numba_default [0] [75] [8; 9] 0 [exp 9] 0 =
          Ok (line_window_at [1; 0; 75] [8; 9] 0 [exp 9] 0)) in Hw.
  exists (line_window_at [1; 0; 75] [8; 9] 0 [exp 9] 0).
  split; [exact Hw|].
  destruct (model_line_window_selects_edges_in_range numba_default [0] [75]
              [8; 9] 0 [exp 9] 0 _ Hw)
    as (H1 & H2 & _).
  - apply strictly_increasing_2. lra.
  - change (0 <= 75 / C_LIGHT). unfold C_LIGHT. lra.
  - split; [exact H1|exact H2].
Defined.

(** ** [ResMatrix]: what the product depends on *)

(** The constructor followed by the multiply, row by row. *)
Lemma matvec_banded env (D : array2) (v w : list R) :
  array2_wf D -> Z.odd (Z.of_nat (shape0 D)) = true ->
  length v = shape1 D -> length w = shape1 D ->
  exists w',
    ResMatrix.matvec env D v w = Ok w' /\
    length w' = shape1 D /\
    forall i, (i < shape1 D)%nat ->
      nth i w' 0 = banded_product D v (Z.of_nat i).
Proof.
  intros HD Hodd Hv Hw.
  destruct (from_dia_matrix_ok env D HD Hodd)
    as (A & HA & HwfA & Hs0 & Hs1 & Hband).
  destruct (matvec_ok env A v w HwfA) as (w' & Hw' & Hlen & Hrows);
    try congruence.
  exists w'. unfold ResMatrix.matvec. rewrite HA. cbn [bind].
  split; [exact Hw'|]. split; [congruence|].
  intros i Hi.
  rewrite <- (Nat2Z.id i) at 1. rewrite Hrows by (rewrite Hs0; lia).
  unfold banded_product. rewrite Hs0, Hs1.
  apply sum_n_ext. intros k Hk. cbv zeta. rewrite Hband by lia.
  reflexivity.
Qed.

Lemma banded_product_ext (D D' : array2) (v : list R) (i : Z) :
  Z.odd (Z.of_nat (shape0 D)) = true ->
  shape0 D' = shape0 D -> shape1 D' = shape1 D ->
  (0 <= i < Z.of_nat (shape1 D))%Z ->
  (forall d c, (0 <= d < Z.of_nat (shape0 D))%Z ->
               (0 <= c < Z.of_nat (shape1 D))%Z ->
               (0 <= c + d - Z.of_nat (shape0 D) / 2
                < Z.of_nat (shape1 D))%Z ->
               entry D' d c = entry D d c) ->
  banded_product D' v i = banded_product D v i.
Proof.
  intros Hodd H0 H1 Hi Hagree. apply odd_half in Hodd.
  unfold banded_product. rewrite H0, H1.
  apply sum_n_ext. intros k Hk. cbv zeta. rewrite Hagree by lia.
  reflexivity.
Qed.

Lemma banded_product_linear (D : array2) (v1 v2 : list R) (c d : R) (i : Z) :
  length v1 = shape1 D -> length v2 = shape1 D ->
  (0 <= i < Z.of_nat (shape1 D))%Z ->
  banded_product D (zip_with (fun x y => c * x + d * y) v1 v2) i =
  c * banded_product D v1 i + d * banded_product D v2 i.
Proof.
  intros H1 H2 Hi. unfold banded_product.
  rewrite <- !sum_n_scal_l, <- sum_n_plus.
  apply sum_n_ext. intros k Hk. cbv zeta.
  rewrite nth_zip_with_R by lia. ring.
Qed.

(** X10: the product of a resolution matrix with a vector uses only the
    entries [D[d, c]] of the stacked diagonals that belong to the matrix
    (those with [0 <= c + d - hdiag < nrow]) and nothing else: two inputs
    that agree on these entries give the same result, whatever the unused
    corner entries of [D] hold, whatever the output buffer [w] held before,
    whatever lies in the uninitialised part of the row-banded array, and with
    or without bounds checks. *)
Theorem ResMatrix_matvec_ignores_entries_outside_matrix
    (env env' : jit_env) (D D' : array2) (v w w' : list R) :
  array2_wf D -> array2_wf D' ->
  Z.odd (Z.of_nat (shape0 D)) = true ->
  shape0 D' = shape0 D -> shape1 D' = shape1 D ->
  length v = shape1 D -> length w = shape1 D -> length w' = shape1 D ->
  (forall d c, (0 <= d < Z.of_nat (shape0 D))%Z ->
               (0 <= c < Z.of_nat (shape1 D))%Z ->
               (0 <= c + d - Z.of_nat (shape0 D) / 2
                < Z.of_nat (shape1 D))%Z ->
               entry D' d c = entry D d c) ->
  exists out,
    ResMatrix.matvec env D v w = Ok out /\
    ResMatrix.matvec env' D' v w' = Ok out /\
    length out = shape1 D.
Proof.
  intros HD HD' Hodd H0 H1 Hv Hw Hw' Hagree.
  destruct (matvec_banded env D v w HD Hodd Hv Hw) as (o & Ho & Hlo & Hro).
  destruct (matvec_banded env' D' v w' HD') as (o' & Ho' & Hlo' & Hro');
    try congruence.
  exists o. split; [exact Ho|]. split; [|exact Hlo].
  rewrite Ho'. f_equal. apply (nth_ext _ _ 0 0); [congruence|].
  intros i Hi. rewrite Hlo', H1 in Hi.
  rewrite Hro' by (rewrite H1; exact Hi). rewrite Hro by exact Hi.
  apply banded_product_ext; try assumption. lia.
Qed.

Lemma ResMatrix_matvec_ignores_entries_outside_matrix_witness :
  exists out,
    ResMatrix.matvec numba_default
      (Array2 3 2 [[7; 2]; [1; 1]; [3; 9]]) [5; 6] [0; 0] = Ok out /\
    ResMatrix.matvec numba_boundscheck
      (Array2 3 2 [[0; 2]; [1; 1]; [3; 0]]) [5; 6] [4; 4] = Ok out /\
    length out = 2%nat.
Proof.
  apply (ResMatrix_matvec_ignores_entries_outside_matrix numba_default
           numba_boundscheck (Array2 3 2 [[7; 2]; [1; 1]; [3; 9]])
           (Array2 3 2 [[0; 2]; [1; 1]; [3; 0]]) [5; 6] [0; 0] [4; 4]);
    try reflexivity.
  - split; [reflexivity|]. repeat constructor.
  - split; [reflexivity|]. repeat constructor.
  - intros d c Hd Hc Hin. cbn [shape0 shape1] in *.
    change (Z.of_nat 3 / 2)%Z with 1%Z in Hin.
    assert (Hcases : ((d = 0 /\ c = 1) \/ (d = 1 /\ c = 0)
                      \/ (d = 1 /\ c = 1) \/ (d = 2 /\ c = 0))%Z) by lia.
    destruct Hcases as [[-> ->]|[[-> ->]|[[-> ->]|[-> ->]]]]; reflexivity.
Defined.

(** X11: the product of a resolution matrix with a vector is linear in the
    vector: for [ndiag] odd, the result for [c * v1 + d * v2] is [c] times
    the result for [v1] plus [d] times the result for [v2]. *)
Theorem ResMatrix_matvec_linear (env : jit_env) (D : array2)
    (v1 v2 w1 w2 w3 : list R) (c d : R) :
  array2_wf D -> Z.odd (Z.of_nat (shape0 D)) = true ->
  length v1 = shape1 D -> length v2 = shape1 D ->
  length w1 = shape1 D -> length w2 = shape1 D -> length w3 = shape1 D ->
  exists o1 o2 o3,
    ResMatrix.matvec env D v1 w1 = Ok o1 /\
    ResMatrix.matvec env D v2 w2 = Ok o2 /\
    ResMatrix.matvec env D (zip_with (fun x y => c * x + d * y) v1 v2) w3
      = Ok o3 /\
    length o3 = shape1 D /\
    forall i, (i < shape1 D)%nat ->
      nth i o3 0 = c * nth i o1 0 + d * nth i o2 0.
Proof.
  intros HD Hodd Hv1 Hv2 Hw1 Hw2 Hw3.
  destruct (matvec_banded env D v1 w1 HD Hodd Hv1 Hw1) as (o1 & Ho1 & _ & Hr1).
  destruct (matvec_banded env D v2 w2 HD Hodd Hv2 Hw2) as (o2 & Ho2 & _ & Hr2).
  destruct (matvec_banded env D (zip_with (fun x y => c * x + d * y) v1 v2)
              w3 HD Hodd)
    as (o3 & Ho3 & Hl3 & Hr3); [rewrite length_zip_with; lia|exact Hw3|].
  exists o1, o2, o3. split; [exact Ho1|]. split; [exact Ho2|].
  split; [exact Ho3|]. split; [exact Hl3|].
  intros i Hi. rewrite Hr1, Hr2, Hr3 by exact Hi.
  apply banded_product_linear; [exact Hv1|exact Hv2|lia].
Qed.

Lemma ResMatrix_matvec_linear_witness :
  exists o1 o2 o3,
    ResMatrix.matvec numba_default (Array2 1 2 [[2; 3]]) [1; 0] [0; 0]
      = Ok o1 /\
    ResMatrix.matvec numba_default (Array2 1 2 [[2; 3]]) [0; 1] [0; 0]
      = Ok o2 /\
    ResMatrix.matvec numba_default (Array2 1 2 [[2; 3]])
      (zip_with (fun x y => 5 * x + 7 * y) [1; 0] [0; 1]) [0; 0] = Ok o3 /\
    length o3 = 2%nat /\
    forall i, (i < 2)%nat -> nth i o3 0 = 5 * nth i o1 0 + 7 * nth i o2 0.
Proof.
  apply (ResMatrix_matvec_linear numba_default (Array2 1 2 [[2; 3]])
           [1; 0] [0; 1] [0; 0] [0; 0] [0; 0] 5 7); try reflexivity.
  split; [reflexivity|]. repeat constructor.
Defined.

(** ** The fragment products as linear maps *)

(** X12: both products of a well-formed ideal-Jacobian fragment are linear
    maps that take nothing from the buffer they write to.  Whatever the
    output buffers held before, [_matvec_J] of [c * v1 + d * v2] is [c] times
    [_matvec_J] of [v1] plus [d] times [_matvec_J] of [v2], and it is zero on
    every row that lies in no column's run [starts[i], ends[i]); [_rmatvec_J]
    of [c * u1 + d * u2] is likewise [c] times that of [u1] plus [d] times
    that of [u2]. *)
Theorem matvec_J_rmatvec_J_linear (env : jit_env) (starts ends : list Z)
    (values : array2) (nbins : nat) (v1 v2 u1 u2 : list R)
    (w1 w2 w3 t1 t2 t3 : list R) (c d : R) :
  fragment_wf (starts, ends, values) nbins ->
  length v1 = length starts -> length v2 = length starts ->
  length u1 = nbins -> length u2 = nbins ->
  length w1 = nbins -> length w2 = nbins -> length w3 = nbins ->
  length t1 = length starts -> length t2 = length starts ->
  length t3 = length starts ->
  let J : EMLineJacobian.fragment := (starts, ends, values) in
  let comb := zip_with (fun x y => c * x + d * y) in
  (exists o1 o2 o3,
     EMLineJacobian._matvec_J env J v1 w1 = Ok o1 /\
     EMLineJacobian._matvec_J env J v2 w2 = Ok o2 /\
     EMLineJacobian._matvec_J env J (comb v1 v2) w3 = Ok o3 /\
     length o3 = nbins /\
     (forall r, (r < nbins)%nat ->
        nth r o3 0 = c * nth r o1 0 + d * nth r o2 0) /\
     (forall r, (r < nbins)%nat ->
        (forall i, (i < length starts)%nat ->
           ~ (nth i starts 0 <= Z.of_nat r < nth i ends 0)%Z) ->
        nth r o1 0 = 0)) /\
  (exists o1 o2 o3,
     EMLineJacobian._rmatvec_J env J u1 t1 = Ok o1 /\
     EMLineJacobian._rmatvec_J env J u2 t2 = Ok o2 /\
     EMLineJacobian._rmatvec_J env J (comb u1 u2) t3 = Ok o3 /\
     length o3 = length starts /\
     forall i, (i < length starts)%nat ->
       nth i o3 0 = c * nth i o1 0 + d * nth i o2 0).
Proof.
  intros Hwf Hv1 Hv2 Hu1 Hu2 Hw1 Hw2 Hw3 Ht1 Ht2 Ht3 J comb. split.
  - destruct (matvec_J_ok env starts ends values nbins Hwf v1 w1 Hv1 Hw1)
      as (o1 & Ho1 & _ & Hr1).
    destruct (matvec_J_ok env starts ends values nbins Hwf v2 w2 Hv2 Hw2)
      as (o2 & Ho2 & _ & Hr2).
    destruct (matvec_J_ok env starts ends values nbins Hwf (comb v1 v2) w3)
      as (o3 & Ho3 & Hl3 & Hr3);
      [unfold comb; rewrite length_zip_with; lia|exact Hw3|].
    exists o1, o2, o3. split; [exact Ho1|]. split; [exact Ho2|].
    split; [exact Ho3|]. split; [exact Hl3|]. split.
    + intros r Hr. rewrite Hr1, Hr2, Hr3 by exact Hr.
      rewrite <- !sum_n_scal_l, <- sum_n_plus.
      apply sum_n_ext. intros i Hi. unfold comb.
      rewrite nth_zip_with_R by lia. ring.
    + intros r Hr Hout. rewrite Hr1 by exact Hr.
      apply sum_n_zero. intros i Hi. unfold jac_entry.
      destruct (decide _) as [Hin|_]; [|ring].
      exfalso. exact (Hout i Hi Hin).
  - destruct (rmatvec_J_ok env starts ends values nbins Hwf u1 t1 Hu1 Ht1)
      as (o1 & Ho1 & _ & Hr1).
    destruct (rmatvec_J_ok env starts ends values nbins Hwf u2 t2 Hu2 Ht2)
      as (o2 & Ho2 & _ & Hr2).
    destruct (rmatvec_J_ok env starts ends values nbins Hwf (comb u1 u2) t3)
      as (o3 & Ho3 & Hl3 & Hr3);
      [unfold comb; rewrite length_zip_with; lia|exact Ht3|].
    exists o1, o2, o3. split; [exact Ho1|]. split; [exact Ho2|].
    split; [exact Ho3|]. split; [exact Hl3|].
    intros i Hi. rewrite Hr1, Hr2, Hr3 by exact Hi.
    rewrite <- !sum_n_scal_l, <- sum_n_plus.
    apply sum_n_ext. intros r Hr. unfold comb.
    rewrite nth_zip_with_R by lia. ring.
Qed.

Lemma matvec_J_rmatvec_J_linear_witness :
  exists o1 o2 o3,
    EMLineJacobian._matvec_J numba_default
      ([1%Z], [2%Z], Array2 1 1 [[4]]) [1] [9; 9; 9] = Ok o1 /\
    EMLineJacobian._matvec_J numba_default
      ([1%Z], [2%Z], Array2 1 1 [[4]]) [3] [8; 8; 8] = Ok o2 /\
    EMLineJacobian._matvec_J numba_default
      ([1%Z], [2%Z], Array2 1 1 [[4]])
      (zip_with (fun x y => 2 * x + 5 * y) [1] [3]) [7; 7; 7] = Ok o3 /\
    length o3 = 3%nat.
Proof.
  destruct (matvec_J_rmatvec_J_linear numba_default [1%Z] [2%Z]
              (Array2 1 1 [[4]]) 3 [1] [3] [0; 0; 0] [0; 0; 0]
              [9; 9; 9] [8; 8; 8] [7; 7; 7] [0] [0] [0] 2 5)
    as ((o1 & o2 & o3 & H1 & H2 & H3 & Hl & _) & _); try reflexivity.
  - split; [reflexivity|]. split.
    + split; [reflexivity|]. repeat constructor.
    + split; [reflexivity|]. intros i Hi. simpl in Hi.
      assert (i = O) as -> by lia. simpl. lia.
  - exists o1, o2, o3. auto.
Defined.

(** ** The expansion of the free parameters, entry by entry *)

Lemma getitem_at (l : list R) (i : Z) :
  (0 <= i < Z.of_nat (length l))%Z -> getitem l i = Ok (at_index l i).
Proof.
  intros H. apply getitem_in; [lia|]. apply lookup_nth. lia.
Qed.

Lemma at_index_insert_eq (l : list R) (i : Z) (v : R) :
  (0 <= i < Z.of_nat (length l))%Z ->
  at_index (<[Z.to_nat i := v]> l) i = v.
Proof. intros H. apply nth_insert_eq. lia. Qed.

Lemma at_index_insert_ne (l : list R) (i i' : Z) (v : R) :
  (0 <= i)%Z -> (0 <= i')%Z -> i <> i' ->
  at_index (<[Z.to_nat i := v]> l) i' = at_index l i'.
Proof. intros H H' Hne. apply nth_insert_ne. lia. Qed.

Lemma indices_in_nth (n : nat) (idx : list Z) (m : nat) :
  indices_in n idx -> (m < length idx)%nat ->
  (0 <= nth m idx 0 < Z.of_nat n)%Z /\ In (nth m idx 0%Z) idx.
Proof.
  intros H Hm. assert (Hin : In (nth m idx 0%Z) idx) by (apply nth_In, Hm).
  split; [|exact Hin].
  apply (proj1 (Forall_forall _ _) H). apply list_elem_of_In. exact Hin.
Qed.

Lemma scatter_spec (idx : list Z) :
  forall (l vals : list R),
    indices_in (length l) idx -> length vals = length idx ->
    exists l',
      scatter l idx vals = Ok l' /\ length l' = length l /\
      (forall i, (0 <= i)%Z -> ~ In i idx -> at_index l' i = at_index l i) /\
      (NoDup idx -> forall m, (m < length idx)%nat ->
         at_index l' (nth m idx 0%Z) = nth m vals 0).
Proof.
  induction idx as [|i0 idx IH]; intros l vals Hidx Hlen.
  - exists l. split; [reflexivity|]. split; [reflexivity|].
    split; [reflexivity|]. intros _ m Hm. simpl in Hm. lia.
  - destruct vals as [|v vals]; [discriminate|].
    apply Forall_cons in Hidx as [Hi0 Hidx]. cbn [scatter].
    rewrite setitem_in by exact Hi0. cbn [bind].
    destruct (IH (<[Z.to_nat i0 := v]> l) vals)
      as (l' & Hrun & Hl' & Hframe & Hval).
    { rewrite length_insert. exact Hidx. }
    { simpl in Hlen. lia. }
    exists l'. split; [exact Hrun|]. rewrite length_insert in Hl'.
    split; [exact Hl'|]. split.
    + intros i Hi Hnot. rewrite Hframe.
      * apply at_index_insert_ne; [lia|exact Hi|].
        intros ->. apply Hnot. left. reflexivity.
      * exact Hi.
      * intros Hin. apply Hnot. right. exact Hin.
    + intros Hnd m Hm. inversion Hnd as [|x xs Hnotin Hnd']; subst.
      destruct m as [|m].
      * cbn [nth]. rewrite Hframe; [|lia|].
        -- apply at_index_insert_eq. exact Hi0.
        -- intros Hin. apply Hnotin. apply list_elem_of_In. exact Hin.
      * cbn [nth]. apply Hval; [exact Hnd'|]. simpl in Hm. lia.
Qed.

Lemma apply_ties_spec (Itied : list Z) :
  forall (p : list R) (tiedtoparam : list Z) (tiedfactor : list R),
    indices_in (length p) Itied -> indices_in (length p) tiedtoparam ->
    length tiedtoparam = length Itied -> length tiedfactor = length Itied ->
    exists p',
      apply_ties p Itied tiedtoparam tiedfactor = Ok p' /\
      length p' = length p /\
      (forall i, (0 <= i)%Z -> ~ In i Itied -> at_index p' i = at_index p i) /\
      (NoDup Itied -> (forall i, In i tiedtoparam -> ~ In i Itied) ->
       forall m, (m < length Itied)%nat ->
         at_index p' (nth m Itied 0%Z) =
         at_index p (nth m tiedtoparam 0%Z) * nth m tiedfactor 0).
Proof.
  induction Itied as [|I_ Itied IH]; intros p tiedto factor HI Hto Hl1 Hl2.
  - exists p. split; [reflexivity|]. split; [reflexivity|].
    split; [reflexivity|]. intros _ _ m Hm. simpl in Hm. lia.
  - destruct tiedto as [|src tiedto]; [discriminate|].
    destruct factor as [|f factor]; [discriminate|].
    apply Forall_cons in HI as [HI1 HI]. apply Forall_cons in Hto as [Hs1 Hto].
    cbn [apply_ties]. rewrite getitem_at by exact Hs1. cbn [bind].
    rewrite setitem_in by exact HI1. cbn [bind].
    destruct (IH (<[Z.to_nat I_ := at_index p src * f]> p) tiedto factor)
      as (p' & Hrun & Hl' & Hframe & Hval).
    { rewrite length_insert. exact HI. }
    { rewrite length_insert. exact Hto. }
    { simpl in Hl1. lia. }
    { simpl in Hl2. lia. }
    exists p'. split; [exact Hrun|]. rewrite length_insert in Hl'.
    split; [exact Hl'|]. split.
    + intros i Hi Hnot. rewrite Hframe.
      * apply at_index_insert_ne; [lia|exact Hi|].
        intros ->. apply Hnot. left. reflexivity.
      * exact Hi.
      * intros Hin. apply Hnot. right. exact Hin.
    + intros Hnd Hdisj m Hm. inversion Hnd as [|x xs Hnotin Hnd']; subst.
      destruct m as [|m].
      * cbn [nth]. rewrite Hframe; [|lia|].
        -- apply at_index_insert_eq. exact HI1.
        -- intros Hin. apply Hnotin. apply list_elem_of_In. exact Hin.
      * cbn [nth]. rewrite Hval.
        -- f_equal. apply at_index_insert_ne; [lia| |].
           ++ assert (Hm' : (m < length tiedto)%nat)
                by (simpl in Hm, Hl1; lia).
              destruct (indices_in_nth _ _ m Hto Hm') as [Hr _]. lia.
           ++ intros ->. apply (Hdisj (nth m tiedto 0%Z)).
              ** right. apply nth_In. simpl in Hm, Hl1. lia.
              ** left. reflexivity.
        -- exact Hnd'.
        -- intros i Hin Hin'. apply (Hdisj i); [right; exact Hin|].
           right. exact Hin'.
        -- simpl in Hm. lia.
Qed.

Lemma fancy_get_spec (l : list R) (idx : list Z) :
  indices_in (length l) idx ->
  exists xs,
    fancy_get l idx = Ok xs /\ length xs = length idx /\
    forall m, (m < length idx)%nat -> nth m xs 0 = at_index l (nth m idx 0%Z).
Proof.
  unfold fancy_get. induction idx as [|i idx IH]; intros Hidx.
  - exists []. split; [reflexivity|]. split; [reflexivity|].
    intros m Hm. simpl in Hm. lia.
  - apply Forall_cons in Hidx as [Hi Hidx]. cbn [mapM].
    rewrite getitem_at by exact Hi. cbn [bind].
    destruct (IH Hidx) as (xs & -> & Hxs & Hval). cbn [bind].
    exists (at_index l i :: xs). split; [reflexivity|].
    split; [simpl; congruence|].
    intros [|m] Hm; [reflexivity|]. cbn [nth]. apply Hval. simpl in Hm. lia.
Qed.

(** The three stages of the expansion: the free values, the ties, the
    doublets. *)
Lemma expand_parameters_stages (parameters free_parameters : list R)
    (Ifree Itied tiedtoparam : list Z) (tiedfactor : list R)
    (doubletindx doubletpair : list Z) :
  length free_parameters = length Ifree ->
  length tiedtoparam = length Itied -> length tiedfactor = length Itied ->
  length doubletpair = length doubletindx ->
  indices_in (length parameters) Ifree ->
  indices_in (length parameters) Itied ->
  indices_in (length parameters) tiedtoparam ->
  indices_in (length parameters) doubletindx ->
  indices_in (length parameters) doubletpair ->
  exists p1 p2 p3,
    expand_parameters parameters free_parameters Ifree Itied tiedtoparam
      tiedfactor doubletindx doubletpair = Ok p3 /\
    length p3 = length parameters /\
    ((forall i, (0 <= i)%Z -> ~ In i Ifree ->
        at_index p1 i = at_index parameters i) /\
     (NoDup Ifree -> forall m, (m < length Ifree)%nat ->
        at_index p1 (nth m Ifree 0%Z) = nth m free_parameters 0)) /\
    ((forall i, (0 <= i)%Z -> ~ In i Itied -> at_index p2 i = at_index p1 i) /\
     (NoDup Itied -> (forall i, In i tiedtoparam -> ~ In i Itied) ->
      forall m, (m < length Itied)%nat ->
        at_index p2 (nth m Itied 0%Z) =
        at_index p1 (nth m tiedtoparam 0%Z) * nth m tiedfactor 0)) /\
    ((forall i, (0 <= i)%Z -> ~ In i doubletindx ->
        at_index p3 i = at_index p2 i) /\
     (NoDup doubletindx -> forall m, (m < length doubletindx)%nat ->
        at_index p3 (nth m doubletindx 0%Z) =
        at_index p2 (nth m doubletindx 0%Z) *
        at_index p2 (nth m doubletpair 0%Z))).
Proof.
  intros Hfl Htl Hfacl Hpl Hf Ht Hto Hd Hp.
  unfold expand_parameters, fancy_set.
  rewrite broadcast_to_same by exact Hfl. cbn [bind].
  destruct (scatter_spec Ifree parameters free_parameters Hf Hfl)
    as (p1 & -> & Hl1 & Hfr1 & Hv1). cbn [bind].
  assert (Hguard :
    (if (0 <? length Itied)%nat
     then apply_ties p1 Itied tiedtoparam tiedfactor else Ok p1) =
    apply_ties p1 Itied tiedtoparam tiedfactor).
  { destruct Itied; reflexivity. }
  rewrite Hguard.
  destruct (apply_ties_spec Itied p1 tiedtoparam tiedfactor)
    as (p2 & -> & Hl2 & Hfr2 & Hv2);
    [rewrite Hl1; assumption|rewrite Hl1; assumption|assumption..|].
  cbn [bind].
  destruct (fancy_get_spec p2 doubletindx) as (lhs & -> & Hllhs & Hlhs);
    [rewrite Hl2, Hl1; exact Hd|]. cbn [bind].
  destruct (fancy_get_spec p2 doubletpair) as (rhs & -> & Hlrhs & Hrhs);
    [rewrite Hl2, Hl1; exact Hp|]. cbn [bind].
  rewrite broadcast_to_same by congruence. cbn [bind].
  rewrite broadcast_to_same by (rewrite length_zip_with; lia). cbn [bind].
  destruct (scatter_spec doubletindx p2 (zip_with Rmult lhs rhs))
    as (p3 & -> & Hl3 & Hfr3 & Hv3);
    [rewrite Hl2, Hl1; exact Hd|rewrite length_zip_with; lia|].
  exists p1, p2, p3. split; [reflexivity|]. split; [congruence|].
  split; [split; assumption|]. split; [split; assumption|].
  split; [exact Hfr3|].
  intros Hnd m Hm. rewrite Hv3 by assumption.
  assert (Hz : forall (a b : list R) k, (k < length a)%nat ->
            length b = length a ->
            nth k (zip_with Rmult a b) 0 = nth k a 0 * nth k b 0).
  { induction a as [|x a IHa]; intros [|y b] k Hk Hb; simpl in *; try lia.
    destruct k; [reflexivity|]. apply IHa; lia. }
  rewrite Hz by lia. rewrite Hlhs by exact Hm. rewrite Hrhs by lia.
  reflexivity.
Qed.

(** X13: what the expansion writes into [parameters], for index arrays of
    non-negative in-range positions of matching lengths.  Every entry that is
    listed in none of [Ifree], [Itied], [doubletindx] keeps its value; with
    the free positions distinct, a free position that is neither tied nor a
    doublet holds its free value; with the tied positions distinct and the
    tie sources neither tied nor doublets, a tied position that is not a
    doublet holds the final value of its source times its factor. *)
Theorem expand_parameters_free_and_tied_entries
    (parameters free_parameters : list R)
    (Ifree Itied tiedtoparam : list Z) (tiedfactor : list R)
    (doubletindx doubletpair : list Z) :
  length free_parameters = length Ifree ->
  length tiedtoparam = length Itied -> length tiedfactor = length Itied ->
  length doubletpair = length doubletindx ->
  indices_in (length parameters) Ifree ->
  indices_in (length parameters) Itied ->
  indices_in (length parameters) tiedtoparam ->
  indices_in (length parameters) doubletindx ->
  indices_in (length parameters) doubletpair ->
  exists p',
    expand_parameters parameters free_parameters Ifree Itied tiedtoparam
      tiedfactor doubletindx doubletpair = Ok p' /\
    length p' = length parameters /\
    (forall i, (0 <= i)%Z ->
       ~ In i Ifree -> ~ In i Itied -> ~ In i doubletindx ->
       at_index p' i = at_index parameters i) /\
    (NoDup Ifree -> forall m, (m < length Ifree)%nat ->
       ~ In (nth m Ifree 0%Z) Itied -> ~ In (nth m Ifree 0%Z) doubletindx ->
       at_index p' (nth m Ifree 0%Z) = nth m free_parameters 0) /\
    (NoDup Itied ->
     (forall i, In i tiedtoparam -> ~ In i Itied /\ ~ In i doubletindx) ->
     forall m, (m < length Itied)%nat ->
       ~ In (nth m Itied 0%Z) doubletindx ->
       at_index p' (nth m Itied 0%Z) =
       at_index p' (nth m tiedtoparam 0%Z) * nth m tiedfactor 0).
Proof.
  intros Hfl Htl Hfacl Hpl Hf Ht Hto Hd Hp.
  destruct (expand_parameters_stages parameters free_parameters Ifree Itied
              tiedtoparam tiedfactor doubletindx doubletpair)
    as (p1 & p2 & p3 & Hrun & Hlen & [Hfr1 Hv1] & [Hfr2 Hv2] & [Hfr3 _]);
    try assumption.
  exists p3. split; [exact Hrun|]. split; [exact Hlen|]. split; [|split].
  - intros i Hi H1 H2 H3.
    rewrite Hfr3, Hfr2, Hfr1 by assumption. reflexivity.
  - intros Hnd m Hm H2 H3.
    destruct (indices_in_nth _ _ m Hf Hm) as [Hrange _].
    rewrite Hfr3, Hfr2 by (assumption || lia). apply Hv1; assumption.
  - intros Hnd Hsrc m Hm H3.
    destruct (indices_in_nth _ _ m Ht Hm) as [Hrange _].
    destruct (indices_in_nth _ _ m Hto ltac:(lia)) as [Hrange' Hin'].
    destruct (Hsrc _ Hin') as [Hs1 Hs2].
    rewrite Hfr3 by (assumption || lia).
    rewrite (Hfr3 (nth m tiedtoparam 0%Z)) by (assumption || lia).
    rewrite (Hfr2 (nth m tiedtoparam 0%Z)) by (assumption || lia).
    apply Hv2; [exact Hnd| |exact Hm].
    intros i Hi. apply (Hsrc i Hi).
Qed.

Lemma expand_parameters_free_and_tied_entries_witness :
  exists p',
    expand_parameters [1; 1; 0; 0; 75; 75] [2] [0%Z] [1%Z] [0%Z] [3] [] []
    = Ok p' /\
    length p' = 6%nat.
Proof.
  destruct (expand_parameters_free_and_tied_entries [1; 1; 0; 0; 75; 75] [2]
              [0%Z] [1%Z] [0%Z] [3] [] [])
    as (p' & Hrun & Hlen & _); try reflexivity;
    try (repeat constructor; simpl; lia).
  exists p'. split; [exact Hrun|exact Hlen].
Defined.

(** X14: the doublet step multiplies in place.  With the doublet positions
    distinct and no pair position itself a doublet, a doublet entry ends as
    the value it held before the step times the final value of its pair: its
    free value times the pair when the position is free and not tied, and,
    when the position is neither free nor tied, the value the caller's array
    held before the call times the pair, so that a second call on the array
    the first one left multiplies once more. *)
Theorem expand_parameters_doublet_entries
    (parameters free_parameters : list R)
    (Ifree Itied tiedtoparam : list Z) (tiedfactor : list R)
    (doubletindx doubletpair : list Z) :
  length free_parameters = length Ifree ->
  length tiedtoparam = length Itied -> length tiedfactor = length Itied ->
  length doubletpair = length doubletindx ->
  indices_in (length parameters) Ifree ->
  indices_in (length parameters) Itied ->
  indices_in (length parameters) tiedtoparam ->
  indices_in (length parameters) doubletindx ->
  indices_in (length parameters) doubletpair ->
  NoDup doubletindx ->
  (forall i, In i doubletpair -> ~ In i doubletindx) ->
  exists p',
    expand_parameters parameters free_parameters Ifree Itied tiedtoparam
      tiedfactor doubletindx doubletpair = Ok p' /\
    (NoDup Ifree -> forall m k,
       (m < length doubletindx)%nat -> (k < length Ifree)%nat ->
       nth m doubletindx 0%Z = nth k Ifree 0%Z ->
       ~ In (nth m doubletindx 0%Z) Itied ->
       at_index p' (nth m doubletindx 0%Z) =
       nth k free_parameters 0 * at_index p' (nth m doubletpair 0%Z)) /\
    (forall m, (m < length doubletindx)%nat ->
       ~ In (nth m doubletindx 0%Z) Ifree ->
       ~ In (nth m doubletindx 0%Z) Itied ->
       at_index p' (nth m doubletindx 0%Z) =
       at_index parameters (nth m doubletindx 0%Z) *
       at_index p' (nth m doubletpair 0%Z)) /\
    exists p'',
      expand_parameters p' free_parameters Ifree Itied tiedtoparam
        tiedfactor doubletindx doubletpair = Ok p'' /\
      forall m, (m < length doubletindx)%nat ->
        ~ In (nth m doubletindx 0%Z) Ifree ->
        ~ In (nth m doubletindx 0%Z) Itied ->
        at_index p'' (nth m doubletindx 0%Z) =
        at_index parameters (nth m doubletindx 0%Z) *
        at_index p' (nth m doubletpair 0%Z) *
        at_index p'' (nth m doubletpair 0%Z).
Proof.
  intros Hfl Htl Hfacl Hpl Hf Ht Hto Hd Hp Hnd Hpair.
  destruct (expand_parameters_stages parameters free_parameters Ifree Itied
              tiedtoparam tiedfactor doubletindx doubletpair)
    as (p1 & p2 & p3 & Hrun & Hlen & [Hfr1 Hv1] & [Hfr2 Hv2] & [Hfr3 Hv3]);
    try assumption.
  exists p3. split; [exact Hrun|].
  assert (Hstep : forall m, (m < length doubletindx)%nat ->
    at_index p3 (nth m doubletindx 0%Z) =
    at_index p2 (nth m doubletindx 0%Z) * at_index p3 (nth m doubletpair 0%Z)).
  { intros m Hm. rewrite (Hv3 Hnd m Hm). f_equal. symmetry.
    destruct (indices_in_nth _ _ m Hp ltac:(lia)) as [Hr Hin].
    apply Hfr3; [lia|]. apply Hpair, Hin. }
  split.
  - intros HndF m k Hm Hk Heq Hnt. rewrite (Hstep m Hm). f_equal.
    destruct (indices_in_nth _ _ m Hd Hm) as [Hr _].
    rewrite Hfr2 by (assumption || lia). rewrite Heq. apply Hv1; assumption.
  - assert (Hfirst : forall m, (m < length doubletindx)%nat ->
      ~ In (nth m doubletindx 0%Z) Ifree ->
      ~ In (nth m doubletindx 0%Z) Itied ->
      at_index p3 (nth m doubletindx 0%Z) =
      at_index parameters (nth m doubletindx 0%Z) *
      at_index p3 (nth m doubletpair 0%Z)).
    { intros m Hm Hnf Hnt. rewrite (Hstep m Hm). f_equal.
      destruct (indices_in_nth _ _ m Hd Hm) as [Hr _].
      rewrite Hfr2, Hfr1 by (assumption || lia). reflexivity. }
    split; [exact Hfirst|].
    rewrite <- Hlen in Hf, Ht, Hto, Hd, Hp.
    destruct (expand_parameters_stages p3 free_parameters Ifree Itied
                tiedtoparam tiedfactor doubletindx doubletpair)
      as (q1 & q2 & q3 & Hrun' & _ & [Hgr1 _] & [Hgr2 _] & [Hgr3 Hw3]);
      try assumption.
    exists q3. split; [exact Hrun'|].
    intros m Hm Hnf Hnt.
    destruct (indices_in_nth _ _ m Hd Hm) as [Hr _].
    destruct (indices_in_nth _ _ m Hp ltac:(lia)) as [Hr' Hin'].
    rewrite (Hw3 Hnd m Hm).
    rewrite <- (Hgr3 (nth m doubletpair 0%Z)) by (try lia; apply Hpair, Hin').
    rewrite Hgr2, Hgr1 by (assumption || lia).
    rewrite (Hfirst m Hm Hnf Hnt). reflexivity.
Qed.

Lemma expand_parameters_doublet_entries_witness :
  exists p',
    expand_parameters [1; 3; 0; 0; 75; 75] [2] [0%Z] [] [] [] [1%Z] [0%Z]
    = Ok p' /\
    at_index p' 1 = 3 * at_index p' 0.
Proof.
  destruct (expand_parameters_doublet_entries [1; 3; 0; 0; 75; 75] [2]
              [0%Z] [] [] [] [1%Z] [0%Z])
    as (p' & Hrun & _ & Hold & _); try reflexivity;
    try (repeat constructor; simpl; lia).
  - repeat constructor. intros H. inversion H.
  - exists p'. split; [exact Hrun|].
    apply (Hold 0%nat); [simpl; lia| |].
    + intros [H|[]]. discriminate.
    + intros [].
Defined.

(** ** [_objective]: malformed free parameters *)

Lemma norm_index_bad (n : nat) (i : Z) :
  ~ index_ok n i -> norm_index n i = None.
Proof.
  unfold index_ok, norm_index. intros H.
  destruct (Z.leb_spec 0 i).
  - destruct (Z.ltb_spec i (Z.of_nat n)); [lia|reflexivity].
  - destruct (Z.leb_spec (- Z.of_nat n) i); [lia|reflexivity].
Qed.

Lemma broadcast_to_mismatch (m : nat) (b : list R) :
  length b <> m -> length b <> 1%nat -> broadcast_to m b = Raise ValueError.
Proof.
  intros Hm H1. unfold broadcast_to.
  destruct (decide (length b = m)); [contradiction|].
  destruct b as [|x [|y b]]; [reflexivity|simpl in H1; lia|reflexivity].
Qed.

Lemma scatter_bad_index (idx : list Z) :
  forall (l vals : list R),
    length vals = length idx ->
    Exists (fun i => ~ index_ok (length l) i) idx ->
    scatter l idx vals = Raise IndexError.
Proof.
  induction idx as [|i idx IH]; intros l vals Hlen Hbad.
  - inversion Hbad.
  - destruct vals as [|v vals]; [discriminate|]. cbn [scatter].
    unfold setitem.
    destruct (norm_index (length l) i) as [k|] eqn:Ek; [|reflexivity].
    cbn [bind]. apply IH; [simpl in Hlen; lia|].
    rewrite length_insert.
    inversion Hbad as [x xs Hx|x xs Hxs]; subst; [|exact Hxs].
    rewrite (norm_index_bad _ _ Hx) in Ek. discriminate.
Qed.

(** X15: [_objective] rejects free parameters that do not fit [Ifree] before
    it computes anything: when [free_parameters] has neither the length of
    [Ifree] nor length one (which NumPy would broadcast) the assignment
    [parameters[Ifree] = free_parameters] raises [ValueError], and when the
    lengths agree but some entry of [Ifree] is not an index of [parameters]
    it raises [IndexError]; this is then the outcome of the call, whatever
    the other arguments are. *)
Theorem objective_rejects_malformed_free_parameters (env : jit_env)
    (free_parameters obs_bin_edges log_obs_bin_edges obs_fluxes
       obs_weights : list R)
    (redshift : R) (line_wavelengths : list R)
    (resolution_matrix : list (list R -> result (list R)))
    (camerapix : list (Z * Z)) (parameters : list R)
    (Ifree Itied tiedtoparam : list Z) (tiedfactor : list R)
    (doubletindx doubletpair : list Z) :
  (length free_parameters <> length Ifree ->
   length free_parameters <> 1%nat ->
   _objective env free_parameters obs_bin_edges log_obs_bin_edges obs_fluxes
     obs_weights redshift line_wavelengths resolution_matrix camerapix
     parameters Ifree Itied tiedtoparam tiedfactor doubletindx doubletpair
   = Raise ValueError) /\
  (length free_parameters = length Ifree ->
   Exists (fun i => ~ index_ok (length parameters) i) Ifree ->
   _objective env free_parameters obs_bin_edges log_obs_bin_edges obs_fluxes
     obs_weights redshift line_wavelengths resolution_matrix camerapix
     parameters Ifree Itied tiedtoparam tiedfactor doubletindx doubletpair
   = Raise IndexError).
Proof.
  split.
  - intros Hlen H1. unfold _objective, expand_parameters, fancy_set.
    rewrite broadcast_to_mismatch by (try exact H1; congruence).
    reflexivity.
  - intros Hlen Hbad. unfold _objective, expand_parameters, fancy_set.
    rewrite broadcast_to_same by exact Hlen. cbn [bind].
    rewrite scatter_bad_index by assumption. reflexivity.
Qed.

Lemma objective_rejects_malformed_free_parameters_witness :
  _objective numba_default [2; 4] [exp 8; exp 9] [8; 9] [5] [1] 0 [exp 9]
    [fun v => Ok v] [(0, 1)%Z] [1; 0; 75] [0%Z] [] [] [] [] []
  = Raise ValueError /\
  _objective numba_default [2] [exp 8; exp 9] [8; 9] [5] [1] 0 [exp 9]
    [fun v => Ok v] [(0, 1)%Z] [1; 0; 75] [3%Z] [] [] [] [] []
  = Raise IndexError.
Proof.
  split.
  - apply (proj1 (objective_rejects_malformed_free_parameters numba_default
             [2; 4] [exp 8; exp 9] [8; 9] [5] [1] 0 [exp 9] [fun v => Ok v]
             [(0, 1)%Z] [1; 0; 75] [0%Z] [] [] [] [] [])); simpl; lia.
  - apply (proj2 (objective_rejects_malformed_free_parameters numba_default
             [2] [exp 8; exp 9] [8; 9] [5] [1] 0 [exp 9] [fun v => Ok v]
             [(0, 1)%Z] [1; 0; 75] [3%Z] [] [] [] [] [])); [reflexivity|].
    apply Exists_cons. left. unfold index_ok. simpl. lia.
Defined.

(** ** [mytile] *)

Lemma length_concat_replicate {A : Type} (a : list A) (k : nat) :
  length (concat (replicate k a)) = (k * length a)%nat.
Proof.
  induction k as [|k IH]; [reflexivity|].
  simpl. rewrite length_app, IH. reflexivity.
Qed.

Lemma concat_replicate_snoc {A : Type} (a : list A) (k : nat) :
  concat (replicate (S k) a) = concat (replicate k a) ++ a.
Proof.
  induction k as [|k IH]; simpl.
  - rewrite app_nil_r. reflexivity.
  - simpl in IH. rewrite IH at 1. rewrite <- app_assoc. reflexivity.
Qed.

(** X16: the loop of [mytile] is [np.tile] for a one-dimensional array: for
    [n >= 0] it returns [n] copies of [a] one after the other, [n * len(a)]
    entries in all, and nothing of the uninitialised array it starts from is
    left in the result; for [n < 0] and [a] not empty the allocation
    fails. *)
Theorem mytile_loop_is_tile {A : Type} (uninit : A) (a : list A) (n : Z) :
  ((0 <= n)%Z ->
   mytile_loop uninit a n = Ok (mytile a (Z.to_nat n)) /\
   length (mytile a (Z.to_nat n)) = (Z.to_nat n * length a)%nat) /\
  ((n < 0)%Z -> a <> [] -> mytile_loop uninit a n = Raise ValueError).
Proof.
  split.
  - intros Hn. split; [|apply length_concat_replicate].
    unfold mytile_loop, mytile.
    set (sz := length a).
    destruct (Z.ltb_spec (n * Z.of_nat sz) 0) as [Hneg|_]; [nia|].
    cbn [bind].
    pose (P := fun (i : Z) (r : list A) =>
      r = concat (replicate (Z.to_nat i) a) ++
          replicate ((Z.to_nat n - Z.to_nat i) * sz) uninit).
    destruct (for_range_inv P
      (fun i r => setslice_any r (i * Z.of_nat sz) ((i + 1) * Z.of_nat sz) a)
      0 n (replicate (Z.to_nat (n * Z.of_nat sz)) uninit))
      as (r & Hr & HP).
    + exact Hn.
    + unfold P. simpl. f_equal. nia.
    + intros i r Hi HPi. unfold P in HPi.
      assert (Hlen : length r = (Z.to_nat n * sz)%nat).
      { rewrite HPi, length_app, length_concat_replicate, length_replicate.
        fold sz. nia. }
      unfold setslice_any. rewrite Hlen.
      rewrite (clip_index_in _ (i * Z.of_nat sz)) by nia.
      rewrite (clip_index_in _ ((i + 1) * Z.of_nat sz)) by nia.
      replace (Z.to_nat ((i + 1) * Z.of_nat sz) - Z.to_nat (i * Z.of_nat sz))%nat
        with sz by nia.
      destruct (decide (length a = sz)) as [_|Hne]; [|contradiction].
      eexists. split; [reflexivity|]. unfold P.
      replace (Z.to_nat (i * Z.of_nat sz)) with (Z.to_nat i * sz)%nat by nia.
      replace (Z.to_nat (i + 1)) with (S (Z.to_nat i)) by lia.
      rewrite concat_replicate_snoc, <- app_assoc.
      assert (Hpre : length (concat (replicate (Z.to_nat i) a))
                     = (Z.to_nat i * sz)%nat)
        by apply length_concat_replicate.
      rewrite HPi.
      rewrite take_app_length' by (symmetry; exact Hpre).
      f_equal. f_equal.
      rewrite drop_app_ge by (rewrite Hpre; lia).
      rewrite Hpre. rewrite drop_replicate. f_equal. nia.
    + rewrite Hr. f_equal. unfold P in HP. rewrite HP.
      replace ((Z.to_nat n - Z.to_nat n) * sz)%nat with O by lia.
      apply app_nil_r.
  - intros Hn Ha. unfold mytile_loop.
    destruct (Z.ltb_spec (n * Z.of_nat (length a)) 0) as [_|Hge];
      [reflexivity|].
    destruct a as [|x a]; [contradiction|]. simpl length in Hge. nia.
Qed.

Lemma mytile_loop_is_tile_witness :
  mytile_loop 0%Z [4%Z; 7%Z] 3 = Ok [4%Z; 7%Z; 4%Z; 7%Z; 4%Z; 7%Z].
Proof.
  exact (proj1 (proj1 (mytile_loop_is_tile 0%Z [4%Z; 7%Z] 3)
                  ltac:(lia))).
Defined.

(** ** The Jacobian as a linear operator *)

Lemma cameras_tile_le (camerapix : list (Z * Z)) :
  forall from to, cameras_tile camerapix from to -> (from <= to)%Z.
Proof.
  induction camerapix as [|[s e] cs IH]; intros from to H; simpl in H.
  - lia.
  - destruct H as (-> & Hse & Hrest). specialize (IH _ _ Hrest). lia.
Qed.

Lemma nth_splice (l sub : list R) (a b r : nat) :
  (a <= b)%nat -> (b <= length l)%nat -> length sub = (b - a)%nat ->
  nth r (take a l ++ sub ++ drop b l) 0 =
  if decide (r < a)%nat then nth r l 0
  else if decide (r < b)%nat then nth (r - a) sub 0
  else nth r l 0.
Proof.
  intros Hab Hb Hsub. rewrite !nth_lookup.
  destruct (decide (r < a)%nat) as [Ha|Ha].
  - rewrite lookup_app_l by (rewrite length_take; lia).
    rewrite lookup_take_lt by lia. reflexivity.
  - rewrite lookup_app_r by (rewrite length_take; lia).
    rewrite length_take. replace (a `min` length l)%nat with a by lia.
    destruct (decide (r < b)%nat) as [Hrb|Hrb].
    + rewrite lookup_app_l by lia. reflexivity.
    + rewrite lookup_app_r by lia. rewrite lookup_drop.
      replace (b + (r - a - length sub))%nat with r by lia. reflexivity.
Qed.

Lemma nth_slice (l : list R) (s e : Z) (r : nat) :
  (0 <= s <= e)%Z -> (e <= Z.of_nat (length l))%Z ->
  (r < Z.to_nat (e - s))%nat ->
  nth r (slice l s e) 0 = nth (Z.to_nat s + r) l 0.
Proof.
  intros Hs He Hr. rewrite slice_in by lia. rewrite !nth_lookup.
  rewrite lookup_take_lt by lia. rewrite lookup_drop. reflexivity.
Qed.

Lemma length_slice_in (l : list R) (s e : Z) :
  (0 <= s <= e)%Z -> (e <= Z.of_nat (length l))%Z ->
  length (slice l s e) = Z.to_nat (e - s).
Proof.
  intros Hs He. rewrite length_slice, !clip_index_in by lia. lia.
Qed.

(** The loop over the cameras of the forward product. *)
Lemma matvec_cameras (env : jit_env) (x : list R) (nParms : nat) :
  length x = nParms ->
  forall (cams : list (Z * Z)) (jacs : list EMLineJacobian.fragment)
         (w : list R) (from to : Z),
    cameras_tile cams from to -> (0 <= from)%Z ->
    (to <= Z.of_nat (length w))%Z ->
    fragments_fit cams jacs nParms ->
    exists w',
      for_zip
        (fun (campix : Z * Z) jac w =>
           let '(s, e) := campix in
           sub <- EMLineJacobian._matvec_J env jac x (slice w s e) ;;
           setslice w s e sub)
        cams jacs w = Ok w' /\
      length w' = length w /\
      (forall r, (Z.of_nat r < from \/ to <= Z.of_nat r)%Z ->
         nth r w' 0 = nth r w 0) /\
      (forall r, (from <= Z.of_nat r < to)%Z ->
         nth r w' 0 =
         sum_n (fun i => stacked_entry cams jacs r i * nth i x 0) nParms).
Proof.
  intros Hx. induction cams as [|[s e] cs IH];
    intros jacs w from to Htile Hfrom Hto Hfit.
  - simpl in Htile. subst to. exists w. split; [reflexivity|].
    split; [reflexivity|]. split; [reflexivity|]. intros r Hr. lia.
  - destruct jacs as [|J js]; [contradiction|].
    destruct Htile as (<- & Hse & Hrest).
    destruct Hfit as (Hwf & Hcols & Hfit).
    pose proof (cameras_tile_le _ _ _ Hrest) as Hle.
    destruct J as [[starts ends] values]. cbn [fst] in Hcols.
    cbn [for_zip].
    destruct (matvec_J_ok env starts ends values (Z.to_nat (e - s)) Hwf x
                (slice w s e))
      as (sub & Hsub & Hlsub & Hrows);
      [congruence|apply length_slice_in; lia|].
    rewrite Hsub. cbn [bind].
    rewrite setslice_same by (lia || (rewrite Hlsub; reflexivity)).
    cbn [bind].
    set (w1 := take (Z.to_nat s) w ++ sub ++ drop (Z.to_nat e) w).
    assert (Hl1 : length w1 = length w).
    { unfold w1. rewrite !length_app, length_take, length_drop. lia. }
    assert (Hw1 : forall r, nth r w1 0 =
              if decide (r < Z.to_nat s)%nat then nth r w 0
              else if decide (r < Z.to_nat e)%nat
                   then nth (r - Z.to_nat s) sub 0
                   else nth r w 0).
    { intros r. apply nth_splice; lia. }
    destruct (IH js w1 e to Hrest ltac:(lia) ltac:(lia) Hfit)
      as (w' & Hrun & Hl' & Hout & Hin).
    exists w'. split; [exact Hrun|]. split; [congruence|]. split.
    + intros r Hr. rewrite Hout by lia. rewrite Hw1.
      destruct (decide (r < Z.to_nat s)%nat); [reflexivity|].
      destruct (decide (r < Z.to_nat e)%nat); [lia|reflexivity].
    + intros r Hr. cbn [stacked_entry].
      destruct (decide (s <= Z.of_nat r < e)%Z) as [Hcam|Hcam].
      * rewrite Hout by lia. rewrite Hw1.
        destruct (decide (r < Z.to_nat s)%nat); [lia|].
        destruct (decide (r < Z.to_nat e)%nat); [|lia].
        rewrite Hrows by lia. rewrite Hcols. reflexivity.
      * apply Hin. lia.
Qed.

(** The loop over the cameras of the transposed product. *)
Lemma rmatvec_cameras (env : jit_env) (S : nat -> nat -> R)
    (nParms nFree : nat)
    (pm_rmatvec : list R -> list R -> result (list R)) (u : list R) :
  (forall x w, length x = nParms -> length w = nFree ->
     exists w', pm_rmatvec x w = Ok w' /\ length w' = nFree /\
       forall k, (k < nFree)%nat ->
         nth k w' 0 = nth k w 0 + sum_n (fun i => S i k * nth i x 0) nParms) ->
  forall (cams : list (Z * Z)) (jacs : list EMLineJacobian.fragment)
         (w vF : list R) (from to : Z),
    cameras_tile cams from to -> (0 <= from)%Z ->
    (to <= Z.of_nat (length u))%Z ->
    fragments_fit cams jacs nParms ->
    length w = nFree -> length vF = nParms ->
    exists w' vF',
      for_zip
        (fun (campix : Z * Z) jac (st : list R * list R) =>
           let '(s, e) := campix in
           let '(w, vFull) := st in
           vFull <- EMLineJacobian._rmatvec_J env jac (slice u s e) vFull ;;
           w <- pm_rmatvec vFull w ;;
           Ok (w, vFull))
        cams jacs (w, vF) = Ok (w', vF') /\
      length w' = nFree /\ length vF' = nParms /\
      forall k, (k < nFree)%nat ->
        nth k w' 0 =
        nth k w 0 +
        sum_n (fun i => S i k *
                 sum_n (fun r =>
                          if decide (from <= Z.of_nat r < to)%Z
                          then stacked_entry cams jacs r i * nth r u 0
                          else 0)
                       (length u))
              nParms.
Proof.
  intros Hback. induction cams as [|[s e] cs IH];
    intros jacs w vF from to Htile Hfrom Hto Hfit Hw HvF.
  - simpl in Htile. subst to. exists w, vF. split; [reflexivity|].
    split; [exact Hw|]. split; [exact HvF|]. intros k Hk.
    rewrite (sum_n_zero (fun i => S i k * _)); [ring|].
    intros i Hi. rewrite sum_n_zero; [ring|].
    intros r Hr. destruct (decide _); [lia|reflexivity].
  - destruct jacs as [|J js]; [contradiction|].
    destruct Htile as (<- & Hse & Hrest).
    destruct Hfit as (Hwf & Hcols & Hfit).
    pose proof (cameras_tile_le _ _ _ Hrest) as Hle.
    destruct J as [[starts ends] values]. cbn [fst] in Hcols.
    cbn [for_zip].
    destruct (rmatvec_J_ok env starts ends values (Z.to_nat (e - s)) Hwf
                (slice u s e) vF)
      as (vF1 & HvF1 & HlvF1 & Hcolsum);
      [apply length_slice_in; lia|congruence|].
    rewrite HvF1. cbn [bind].
    destruct (Hback vF1 w) as (w1 & Hw1 & Hlw1 & Hadd);
      [congruence|exact Hw|].
    rewrite Hw1. cbn [bind].
    destruct (IH js w1 vF1 e to Hrest ltac:(lia) Hto Hfit Hlw1
                ltac:(congruence))
      as (w' & vF' & Hrun & Hlw' & HlvF' & Hsum).
    exists w', vF'. split; [exact Hrun|]. split; [exact Hlw'|].
    split; [exact HlvF'|].
    intros k Hk. rewrite Hsum, Hadd by exact Hk.
    rewrite Rplus_assoc. f_equal. rewrite <- sum_n_plus.
    apply sum_n_ext. intros i Hi. rewrite <- Rmult_plus_distr_l. f_equal.
    rewrite Hcolsum by lia.
    replace (Z.to_nat (e - s)) with (Z.to_nat e - Z.to_nat s)%nat by lia.
    rewrite <- (sum_n_window
                  (fun r' => jac_entry (starts, ends, values) r' i *
                             nth r' (slice u s e) 0)
                  (Z.to_nat s) (Z.to_nat e) (length u)) by lia.
    rewrite <- sum_n_plus. apply sum_n_ext. intros r Hr.
    cbn [stacked_entry].
    destruct (decide (Z.to_nat s <= r < Z.to_nat e)%nat) as [Hcam|Hcam].
    + destruct (decide (e <= Z.of_nat r < to)%Z); [lia|].
      destruct (decide (s <= Z.of_nat r < to)%Z); [|lia].
      destruct (decide (s <= Z.of_nat r < e)%Z); [|lia].
      rewrite nth_slice by lia.
      replace (Z.to_nat s + (r - Z.to_nat s))%nat with r by lia. ring.
    + destruct (decide (s <= Z.of_nat r < e)%Z); [lia|].
      destruct (decide (e <= Z.of_nat r < to)%Z);
        destruct (decide (s <= Z.of_nat r < to)%Z); try lia; ring.
Qed.

(** X17: the forward product writes, for camera ranges that follow one
    another from row [0] to row [nBins] and one well-formed fragment per
    camera, the whole of its result: with [x] the full parameter vector that
    [ParamsMapping._matvec] leaves in [vFull], row [r] of the result is the
    product of row [r] of the stacked fragments with [x]; no entry of the
    uninitialised output array is left, and [vFull] holds [x] afterwards. *)
Theorem LinearOperator_matvec_stacks_cameras
    (pm_matvec : list R -> list R -> result (list R)) (env : jit_env)
    (self : LinearOperator.t) (v x : list R) (nBins nParms : nat) :
  fst (LinearOperator.shape self) = Z.of_nat nBins ->
  cameras_tile (LinearOperator.camerapix self) 0 (Z.of_nat nBins) ->
  fragments_fit (LinearOperator.camerapix self) (LinearOperator.jacs self)
    nParms ->
  pm_matvec v (LinearOperator.vFull self) = Ok x ->
  length x = nParms ->
  exists w,
    LinearOperator._matvec pm_matvec env self v =
      Ok (w, LinearOperator.Make (LinearOperator.shape self)
               (LinearOperator.camerapix self) (LinearOperator.jacs self) x) /\
    length w = nBins /\
    forall r, (r < nBins)%nat ->
      nth r w 0 =
      sum_n (fun i => stacked_entry (LinearOperator.camerapix self)
                        (LinearOperator.jacs self) r i * nth i x 0)
            nParms.
Proof.
  intros Hshape Htile Hfit Hpm Hx. unfold LinearOperator._matvec.
  rewrite Hshape. unfold np_empty.
  destruct (Z.ltb_spec (Z.of_nat nBins) 0) as [Hneg|_]; [lia|].
  cbn [bind]. rewrite Hpm. cbn [bind]. rewrite Nat2Z.id.
  destruct (matvec_cameras env x nParms Hx (LinearOperator.camerapix self)
              (LinearOperator.jacs self) (replicate nBins (junk env)) 0
              (Z.of_nat nBins) Htile ltac:(lia)
              ltac:(rewrite length_replicate; lia) Hfit)
    as (w & Hrun & Hlen & _ & Hrows).
  rewrite Hrun. cbn [bind]. exists w. split; [reflexivity|].
  rewrite length_replicate in Hlen. split; [exact Hlen|].
  intros r Hr. apply Hrows. lia.
Qed.

Lemma LinearOperator_matvec_stacks_cameras_witness :
  exists w,
    LinearOperator._matvec (fun v out => Ok v) numba_default
      (LinearOperator.Make (2, 1)%Z [(0, 2)%Z]
         [([0%Z], [2%Z], Array2 1 2 [[4; 5]])] [0]) [3]
    = Ok (w, LinearOperator.Make (2, 1)%Z [(0, 2)%Z]
               [([0%Z], [2%Z], Array2 1 2 [[4; 5]])] [3]) /\
    length w = 2%nat.
Proof.
  destruct (LinearOperator_matvec_stacks_cameras (fun v out => Ok v)
              numba_default
              (LinearOperator.Make (2, 1)%Z [(0, 2)%Z]
                 [([0%Z], [2%Z], Array2 1 2 [[4; 5]])] [0]) [3] [3] 2 1)
    as (w & Hrun & Hlen & _); try reflexivity.
  - simpl. lia.
  - simpl. split; [|split; [reflexivity|exact I]].
    split; [reflexivity|]. split.
    + split; [reflexivity|]. repeat constructor.
    + split; [reflexivity|]. intros i Hi. simpl in Hi.
      assert (i = O) as -> by lia. simpl. lia.
  - exists w. split; [exact Hrun|exact Hlen].
Defined.

(** X18: for an operator built by the constructor over camera ranges that
    follow one another from row [0] to row [nBins], and a parameter mapping
    whose two products are those of one matrix [S] and its transpose,
    [_rmatvec] is the adjoint of [_matvec]: [_matvec(v)] followed by
    [_rmatvec(u)] on the same object both succeed, the transposed product is
    [S^T] times the transposed stacked fragments times [u], whatever the
    shared temporary held, and [_matvec(v) . u = v . _rmatvec(u)]. *)
Theorem LinearOperator_rmatvec_is_adjoint (S : nat -> nat -> R)
    (pm_matvec pm_rmatvec : list R -> list R -> result (list R))
    (env : jit_env) (camerapix : list (Z * Z))
    (jacs : list EMLineJacobian.fragment) (v u : list R)
    (nBins nParms nFree : nat) :
  camerapix <> [] ->
  cameras_tile camerapix 0 (Z.of_nat nBins) ->
  fragments_fit camerapix jacs nParms ->
  mapping_products S nParms nFree pm_matvec pm_rmatvec ->
  length v = nFree -> length u = nBins ->
  exists self Jv self1 Jtu self2,
    LinearOperator.__init__ env (Z.of_nat nBins, Z.of_nat nFree) camerapix
      jacs = Ok self /\
    LinearOperator._matvec pm_matvec env self v = Ok (Jv, self1) /\
    LinearOperator._rmatvec pm_rmatvec env self1 u = Ok (Jtu, self2) /\
    length Jv = nBins /\ length Jtu = nFree /\
    (forall k, (k < nFree)%nat ->
       nth k Jtu 0 =
       sum_n (fun i => S i k *
                sum_n (fun r => stacked_entry camerapix jacs r i * nth r u 0)
                      nBins)
             nParms) /\
    dot Jv u = dot v Jtu.
Proof.
  intros Hne Htile Hfit [Hfwd Hback] Hv Hu.
  destruct camerapix as [|[s e] cs]; [contradiction|].
  destruct jacs as [|[[starts ends] values] js]; [contradiction|].
  assert (Hrows0 : shape0 values = nParms).
  { destruct Hfit as ((_ & _ & Hs0 & _) & Hcols & _). cbn [fst] in Hcols.
    congruence. }
  unfold LinearOperator.__init__.
  change (getitem (((starts, ends, values)) :: js) 0)
    with (Ok (A := EMLineJacobian.fragment) (starts, ends, values)).
  cbn [bind snd]. rewrite Hrows0.
  set (cams := (s, e) :: cs) in *.
  set (jcs := (starts, ends, values) :: js) in *.
  set (self := LinearOperator.Make (Z.of_nat nBins, Z.of_nat nFree) cams jcs
                 (replicate nParms (junk env))).
  destruct (Hfwd v (replicate nParms (junk env)) Hv
              ltac:(apply length_replicate))
    as (x & Hpm & Hlx & Hx).
  (* the forward product *)
  assert (Hmv : exists Jv,
    LinearOperator._matvec pm_matvec env self v =
      Ok (Jv, LinearOperator.Make (Z.of_nat nBins, Z.of_nat nFree) cams jcs x)
    /\ length Jv = nBins /\
    forall r, (r < nBins)%nat ->
      nth r Jv 0 = sum_n (fun i => stacked_entry cams jcs r i * nth i x 0)
                         nParms).
  { unfold LinearOperator._matvec, self.
    cbn [LinearOperator.shape LinearOperator.camerapix LinearOperator.jacs
         LinearOperator.vFull fst].
    unfold np_empty.
    destruct (Z.ltb_spec (Z.of_nat nBins) 0) as [Hneg|_]; [lia|].
    cbn [bind]. rewrite Hpm. cbn [bind]. rewrite Nat2Z.id.
    destruct (matvec_cameras env x nParms Hlx cams jcs
                (replicate nBins (junk env)) 0 (Z.of_nat nBins) Htile
                ltac:(lia) ltac:(rewrite length_replicate; lia) Hfit)
      as (w & Hrun & Hlen & _ & Hrows).
    rewrite Hrun. cbn [bind]. exists w. split; [reflexivity|].
    rewrite length_replicate in Hlen. split; [exact Hlen|].
    intros r Hr. apply Hrows. lia. }
  destruct Hmv as (Jv & HJv & HlJv & Hrows).
  set (self1 := LinearOperator.Make (Z.of_nat nBins, Z.of_nat nFree) cams jcs
                  x) in *.
  (* the transposed product *)
  assert (Hrm : exists Jtu self2,
    LinearOperator._rmatvec pm_rmatvec env self1 u = Ok (Jtu, self2) /\
    length Jtu = nFree /\
    forall k, (k < nFree)%nat ->
      nth k Jtu 0 =
      sum_n (fun i => S i k *
               sum_n (fun r => stacked_entry cams jcs r i * nth r u 0) nBins)
            nParms).
  { unfold LinearOperator._rmatvec, self1.
    cbn [LinearOperator.shape LinearOperator.camerapix LinearOperator.jacs
         LinearOperator.vFull snd].
    unfold np_zeros.
    destruct (Z.ltb_spec (Z.of_nat nFree) 0) as [Hneg|_]; [lia|].
    cbn [bind]. rewrite Nat2Z.id.
    destruct (rmatvec_cameras env S nParms nFree pm_rmatvec u Hback cams jcs
                (replicate nFree 0) x 0 (Z.of_nat nBins) Htile ltac:(lia)
                ltac:(lia) Hfit ltac:(apply length_replicate) Hlx)
      as (w' & vF' & Hrun & Hlw' & _ & Hsum).
    rewrite Hrun. cbn [bind fst snd]. eexists _, _.
    split; [reflexivity|]. split; [exact Hlw'|].
    intros k Hk. rewrite Hsum by exact Hk.
    replace (nth k (replicate nFree 0) 0) with 0.
    2: { symmetry. apply nth_lookup_Some, lookup_replicate_2. exact Hk. }
    rewrite Rplus_0_l. apply sum_n_ext. intros i Hi. f_equal.
    rewrite Hu. apply sum_n_ext. intros r Hr.
    destruct (decide (0 <= Z.of_nat r < Z.of_nat nBins)%Z); [reflexivity|lia]. }
  destruct Hrm as (Jtu & self2 & HJtu & HlJtu & Hcols).
  exists self, Jv, self1, Jtu, self2.
  split; [reflexivity|]. split; [exact HJv|]. split; [exact HJtu|].
  split; [exact HlJv|]. split; [exact HlJtu|]. split; [exact Hcols|].
  unfold dot. rewrite HlJv, Hv.
  (* both sides are the triple sum over rows, parameters and free columns *)
  transitivity
    (sum_n (fun r => sum_n (fun i => sum_n (fun k =>
        stacked_entry cams jcs r i * S i k * nth k v 0 * nth r u 0)
        nFree) nParms) nBins).
  - apply sum_n_ext. intros r Hr. rewrite Hrows by exact Hr.
    rewrite <- sum_n_scal_r. apply sum_n_ext. intros i Hi.
    rewrite Hx by exact Hi. rewrite <- sum_n_scal_l, <- sum_n_scal_r.
    apply sum_n_ext. intros k Hk. ring.
  - rewrite sum_n_swap.
    rewrite (sum_n_ext _ (fun i => sum_n (fun k => sum_n (fun r =>
        stacked_entry cams jcs r i * S i k * nth k v 0 * nth r u 0)
        nBins) nFree)).
    2: { intros i Hi. apply sum_n_swap. }
    rewrite sum_n_swap. apply sum_n_ext. intros k Hk.
    rewrite Hcols by exact Hk. rewrite <- sum_n_scal_l.
    apply sum_n_ext. intros i Hi. rewrite <- !sum_n_scal_l.
    apply sum_n_ext. intros r Hr. ring.
Qed.

Lemma LinearOperator_rmatvec_is_adjoint_witness :
  exists self Jv self1 Jtu self2,
    LinearOperator.__init__ numba_default (Z.of_nat 2, Z.of_nat 1)
      [(0, 2)%Z] [([0%Z], [2%Z], Array2 1 2 [[4; 5]])] = Ok self /\
    LinearOperator._matvec (fun v out => Ok v) numba_default self [3]
      = Ok (Jv, self1) /\
    LinearOperator._rmatvec (fun x w => Ok (zip_with Rplus w x))
      numba_default self1 [1; 2] = Ok (Jtu, self2) /\
    dot Jv [1; 2] = dot [3] Jtu.
Proof.
  destruct (LinearOperator_rmatvec_is_adjoint (fun _ _ => 1)
              (fun v out => Ok v) (fun x w => Ok (zip_with Rplus w x))
              numba_default [(0, 2)%Z]
              [([0%Z], [2%Z], Array2 1 2 [[4; 5]])] [3] [1; 2] 2 1 1)
    as (self & Jv & self1 & Jtu & self2 & H0 & H1 & H2 & _ & _ & _ & Hdot);
    try reflexivity.
  - discriminate.
  - simpl. lia.
  - simpl. split; [|split; [reflexivity|exact I]].
    split; [reflexivity|]. split.
    + split; [reflexivity|]. repeat constructor.
    + split; [reflexivity|]. intros i Hi. simpl in Hi.
      assert (i = O) as -> by lia. simpl. lia.
  - split.
    + intros v out Hv _. exists v. split; [reflexivity|].
      split; [exact Hv|]. intros i Hi. assert (i = O) as -> by lia.
      simpl. ring.
    + intros x w Hx Hw.
      destruct x as [|x0 [|x1 x]]; try discriminate.
      destruct w as [|w0 [|w1 w]]; try discriminate.
      eexists. split; [reflexivity|]. split; [reflexivity|].
      intros k Hk. assert (k = O) as -> by lia. simpl. ring.
  - exists self, Jv, self1, Jtu, self2. auto.
Defined.

(** ** The rows of the Jacobian *)

Lemma difference_row_ok (env : jit_env) (w : list R) (lo i : Z)
    (vals : list R) :
  (0 <= i)%Z -> (i + 1 < Z.of_nat (length vals))%Z -> (0 <= i + lo)%Z ->
  (i + lo < Z.of_nat (length w))%Z \/ boundscheck env = false ->
  difference_row env w lo i vals =
  Ok (<[Z.to_nat i :=
         (nth (Z.to_nat (i + 1)) vals 0 - nth (Z.to_nat i) vals 0) *
         nth (Z.to_nat (i + lo)) w (junk env)]> vals).
Proof.
  intros Hi Hlen Hlo Hread. unfold difference_row.
  rewrite jit_getitem_nth by lia. cbn [bind].
  rewrite jit_getitem_nth by lia. cbn [bind].
  rewrite jit_getitem_unchecked by assumption. cbn [bind].
  rewrite setitem_in by lia. reflexivity.
Qed.

Section JacobianLine.

Variable env : jit_env.
Variables line_amplitudes wts log_obs_bin_edges line_wavelengths : list R.
Variables nl j Wd : nat.
Variable lw : line_window.
Variables aj wj : R.

Let lo := lw_lo lw.
Let hi := lw_hi lw.
Let sigma := lw_sigma lw.
Let nedges := (hi - lo + 2)%Z.
Let start := if (lo =? 0)%Z then 0%Z else (lo - 1)%Z.
Let JE (t : nat) (k : Z) : R :=
  jacobian_edge log_obs_bin_edges lw wj aj t k.
Let Ue (t : nat) (i : Z) : R := JE t (i + lo - 1).
Let De (t : nat) (i : Z) : R :=
  (Ue t (i + 1) - Ue t i) * nth (Z.to_nat (i + lo)) wts (junk env).
Let rowP1 (t : nat) (row : list R) (i : Z) : Prop :=
  length row = Wd /\
  forall i', (0 <= i' < i)%Z -> nth (Z.to_nat i') row 0 = Ue t i'.
Let rowP2 (t : nat) (row : list R) (i : Z) : Prop :=
  length row = Wd /\
  (forall i', (0 <= i' < i)%Z -> nth (Z.to_nat i') row 0 = De t i') /\
  (forall i', (i <= i' <= nedges - 1)%Z -> nth (Z.to_nat i') row 0 = Ue t i').

Hypothesis Hlo : (0 <= lo < hi)%Z.
Hypothesis Hhi : (hi <= Z.of_nat (length log_obs_bin_edges))%Z.
Hypothesis Hsigma : sigma <> 0.
Hypothesis Hj : (j < nl)%nat.
Hypothesis Haj : line_amplitudes !! j = Some aj.
Hypothesis Hwj : line_wavelengths !! j = Some wj.
Hypothesis HW : (nedges <= Z.of_nat Wd)%Z.
Hypothesis Hread :
  (hi < Z.of_nat (length wts))%Z \/ boundscheck env = false.

Lemma Ue_0 (t : nat) : Ue t 0 = 0.
Proof.
  unfold Ue, JE, jacobian_edge. fold lo.
  destruct (Z.ltb_spec (0 + lo - 1) lo); [reflexivity|lia].
Qed.

Lemma Ue_top (t : nat) :
  Ue t (nedges - 1) =
  match t with
  | O => SQRT_2PI * exp (1/2 * sigma ^ 2) * wj * lw_line_shift lw * sigma
  | 1%nat => SQRT_2PI * exp (1/2 * sigma ^ 2) * wj / C_LIGHT * aj * sigma
  | _ => SQRT_2PI * exp (1/2 * sigma ^ 2) * wj / C_LIGHT * aj *
         lw_line_shift lw * (1 + sigma ^ 2)
  end.
Proof.
  unfold Ue, JE, jacobian_edge, nedges. fold lo hi sigma.
  destruct (Z.ltb_spec (hi - lo + 2 - 1 + lo - 1) lo); [lia|].
  destruct (Z.leb_spec hi (hi - lo + 2 - 1 + lo - 1)); [reflexivity|lia].
Qed.

Lemma Ue_mid (t : nat) (i : Z) :
  (1 <= i < nedges - 1)%Z ->
  Ue t i =
  let x := nth (Z.to_nat (i + lo - 1)) log_obs_bin_edges 0 / sigma
           - (lw_log_shifted_line lw / sigma + sigma) in
  match t with
  | O => SQRT_2PI * exp (1/2 * sigma ^ 2) * wj * lw_line_shift lw * sigma *
         norm_cdf x
  | 1%nat => SQRT_2PI * exp (1/2 * sigma ^ 2) * wj / C_LIGHT * aj *
             (sigma * norm_cdf x - norm_pdf x)
  | _ => SQRT_2PI * exp (1/2 * sigma ^ 2) * wj / C_LIGHT * aj *
         lw_line_shift lw *
         ((1 + sigma ^ 2) * norm_cdf x - (x + 2 * sigma) * norm_pdf x)
  end.
Proof.
  intros Hi. unfold Ue, JE, jacobian_edge. unfold nedges in Hi.
  fold lo hi sigma.
  destruct (Z.ltb_spec (i + lo - 1) lo); [lia|].
  destruct (Z.leb_spec hi (i + lo - 1)); [lia|]. reflexivity.
Qed.

Lemma rowP1_step (t : nat) (row : list R) (i : Z) (val : R) :
  (0 <= i < Z.of_nat Wd)%Z -> rowP1 t row i -> val = Ue t i ->
  rowP1 t (<[Z.to_nat i := val]> row) (i + 1).
Proof.
  intros Hi [Hl Hv] ->. split; [rewrite length_insert; exact Hl|].
  intros i' Hi'. destruct (decide (i' = i)) as [->|Hne].
  - apply nth_insert_eq. lia.
  - rewrite nth_insert_ne by lia. apply Hv. lia.
Qed.

Lemma rowP2_step (t : nat) (row : list R) (i : Z) :
  (0 <= i < nedges - 1)%Z -> rowP2 t row i ->
  rowP2 t
    (<[Z.to_nat i :=
        (nth (Z.to_nat (i + 1)) row 0 - nth (Z.to_nat i) row 0) *
        nth (Z.to_nat (i + lo)) wts (junk env)]> row)
    (i + 1).
Proof.
  intros Hi (Hl & Hd & Hv). unfold nedges in Hi, HW.
  split; [rewrite length_insert; exact Hl|]. split.
  - intros i' Hi'. destruct (decide (i' = i)) as [->|Hne].
    + rewrite nth_insert_eq by lia.
      rewrite !Hv by (unfold nedges; lia). reflexivity.
    + rewrite nth_insert_ne by lia. apply Hd. lia.
  - intros i' Hi'. rewrite nth_insert_ne by lia. apply Hv. lia.
Qed.

(** The entries of a finished row, before and after the shift the builder
    applies when the window starts at the first edge. *)
Lemma row_final (t : nat) (row row' : list R) :
  rowP2 t row (nedges - 1) ->
  (if (lo =? 0)%Z
   then forall i, (0 <= i < nedges - 1)%Z ->
                  nth (Z.to_nat i) row' 0 = nth (Z.to_nat (i + 1)) row 0
   else row' = row) ->
  forall b, (start <= b < hi)%Z ->
    nth (Z.to_nat (b - start)) row' 0 =
    (JE t (b + 1) - JE t b) * nth (Z.to_nat (b + 1)) wts (junk env).
Proof.
  intros (_ & Hd & _) Hrow' b Hb. unfold start in *.
  destruct (Z.eq_dec lo 0%Z) as [Hlo0|Hlo0].
  - assert (E : (lo =? 0)%Z = true) by (apply Z.eqb_eq; exact Hlo0).
    rewrite E in *. replace (b - 0)%Z with b by lia.
    rewrite Hrow' by (unfold nedges; lia).
    rewrite Hd by (unfold nedges; lia). unfold De, Ue.
    f_equal; [f_equal; f_equal; lia|f_equal; lia].
  - assert (E : (lo =? 0)%Z = false) by (apply Z.eqb_neq; exact Hlo0).
    rewrite E in *. subst row'. rewrite Hd by (unfold nedges; lia).
    unfold De, Ue. f_equal; [f_equal; f_equal; lia|f_equal; lia].
Qed.

(** The three rows of a line after the builder has filled them in. *)
Lemma jacobian_line_fill_ok (st : jacobian_state) :
  length (js_dd st) = (3 * nl)%nat ->
  (forall r, (r < 3 * nl)%nat -> length (nth r (js_dd st) []) = Wd) ->
  length (js_starts st) = nl -> length (js_ends st) = nl ->
  exists st',
    jacobian_line_fill env line_amplitudes wts log_obs_bin_edges
      line_wavelengths (Z.of_nat nl) (Z.of_nat j) lw st = Ok st' /\
    length (js_dd st') = (3 * nl)%nat /\
    (forall r, (r < 3 * nl)%nat -> length (nth r (js_dd st') []) = Wd) /\
    js_starts st' = <[j := start]> (js_starts st) /\
    js_ends st' = <[j := hi]> (js_ends st) /\
    (forall r, r <> j -> r <> (nl + j)%nat -> r <> (2 * nl + j)%nat ->
       nth r (js_dd st') [] = nth r (js_dd st) []) /\
    (forall t, (t < 3)%nat -> forall b, (start <= b < hi)%Z ->
       nth (Z.to_nat (b - start)) (nth (t * nl + j) (js_dd st') []) 0 =
       (JE t (b + 1) - JE t b) * nth (Z.to_nat (b + 1)) wts (junk env)).
Proof.
  intros Hdd Hrows Hstarts Hends.
  unfold jacobian_line_fill. fold lo hi sigma nedges.
  set (ra := nth j (js_dd st) []).
  set (rv := nth (nl + j) (js_dd st) []).
  set (rs := nth (2 * nl + j) (js_dd st) []).
  assert (Hra : length ra = Wd) by (apply Hrows; lia).
  assert (Hrv : length rv = Wd) by (apply Hrows; lia).
  assert (Hrs : length rs = Wd) by (apply Hrows; lia).
  rewrite (jit_read_in env [] (js_dd st) (Z.of_nat j) ra)
    by (try lia; rewrite Nat2Z.id; apply lookup_nth; lia).
  cbn [bind].
  rewrite (jit_read_in env [] (js_dd st) (Z.of_nat nl + Z.of_nat j) rv).
  2: lia.
  2: { replace (Z.to_nat (Z.of_nat nl + Z.of_nat j)) with (nl + j)%nat by lia.
       apply lookup_nth. lia. }
  cbn [bind].
  rewrite (jit_read_in env [] (js_dd st) (2 * Z.of_nat nl + Z.of_nat j) rs).
  2: lia.
  2: { replace (Z.to_nat (2 * Z.of_nat nl + Z.of_nat j))
         with (2 * nl + j)%nat by lia.
       apply lookup_nth. lia. }
  cbn [bind].
  rewrite scalar_div_ok by exact Hsigma. cbn [bind].
  rewrite (jit_getitem_in env line_wavelengths (Z.of_nat j) wj)
    by (try lia; rewrite Nat2Z.id; exact Hwj).
  cbn [bind].
  rewrite (jit_getitem_in env line_amplitudes (Z.of_nat j) aj)
    by (try lia; rewrite Nat2Z.id; exact Haj).
  cbn [bind].
  assert (HWpos : (2 < Z.of_nat Wd)%Z) by (unfold nedges in HW; lia).
  rewrite !setitem_in by lia. cbn [bind].
  (* first loop: the values at the edges *)
  pose (P1 := fun (i : Z) (r : list R * list R * list R) =>
     let '(a, v, s) := r in rowP1 0 a i /\ rowP1 1 v i /\ rowP1 2 s i).
  assert (Hinit : forall t row, length row = Wd ->
            rowP1 t (<[Z.to_nat 0 := 0]> row) 1).
  { intros t row Hrow.
    apply (rowP1_step t row 0 0); [lia| |symmetry; apply Ue_0].
    split; [exact Hrow|intros; lia]. }
  match goal with
  | |- context [for_range 1 (nedges - 1) ?body ?init] =>
      destruct (for_range_inv P1 body 1 (nedges - 1) init)
        as ([[a1 v1] s1] & Hrun1 & Ha1 & Hv1 & Hs1)
  end.
  { unfold nedges. lia. }
  { unfold P1. split; [|split]; apply Hinit; assumption. }
  { intros i [[a v] s] Hi (Ha & Hv & Hs).
    unfold nedges in Hi, HW.
    pose proof (proj1 Ha) as Hla. pose proof (proj1 Hv) as Hlv.
    pose proof (proj1 Hs) as Hls.
    rewrite jit_getitem_nth by lia. cbn [bind].
    rewrite scalar_div_ok by exact Hsigma. cbn [bind].
    rewrite !setitem_in by lia. cbn [bind].
    eexists. split; [reflexivity|]. unfold P1.
    split; [|split]; (apply rowP1_step; [lia|assumption|]);
      rewrite Ue_mid by (unfold nedges; lia); reflexivity. }
  rewrite Hrun1. cbn [bind].
  pose proof (proj1 Ha1) as Hla1. pose proof (proj1 Hv1) as Hlv1.
  pose proof (proj1 Hs1) as Hls1.
  unfold nedges in HW.
  rewrite !setitem_in by (unfold nedges; lia). cbn [bind].
  assert (Htop : forall t row val, rowP1 t row (nedges - 1) ->
            val = Ue t (nedges - 1) ->
            rowP2 t (<[Z.to_nat (nedges - 1) := val]> row) 0).
  { intros t row val Hrow Hval.
    destruct (rowP1_step t row (nedges - 1) val) as [Hl Hv];
      [unfold nedges; lia|exact Hrow|exact Hval|].
    split; [exact Hl|]. split; [intros; lia|].
    intros i' Hi'. apply Hv. lia. }
  (* second loop: the differences *)
  pose (P2 := fun (i : Z) (r : list R * list R * list R) =>
     let '(a, v, s) := r in rowP2 0 a i /\ rowP2 1 v i /\ rowP2 2 s i).
  match goal with
  | |- context [for_range 0 (nedges - 1) ?body ?init] =>
      destruct (for_range_inv P2 body 0 (nedges - 1) init)
        as ([[a3 v3] s3] & Hrun2 & Ha3 & Hv3 & Hs3)
  end.
  { unfold nedges. lia. }
  { unfold P2. split; [|split]; (apply Htop; [assumption|]);
      rewrite Ue_top; reflexivity. }
  { intros i [[a v] s] Hi (Ha & Hv & Hs).
    pose proof (proj1 Ha) as Hla. pose proof (proj1 Hv) as Hlv.
    pose proof (proj1 Hs) as Hls.
    assert (Hrd : (i + lo < Z.of_nat (length wts))%Z \/ boundscheck env = false)
      by (unfold nedges in Hi; destruct Hread; [left; lia|right; assumption]).
    rewrite !difference_row_ok by (assumption || (unfold nedges in Hi; lia)).
    cbn [bind].
    eexists. split; [reflexivity|]. unfold P2.
    split; [|split]; apply rowP2_step; assumption. }
  rewrite Hrun2. cbn [bind].
  pose proof (proj1 Ha3) as Hla3. pose proof (proj1 Hv3) as Hlv3.
  pose proof (proj1 Hs3) as Hls3.
  (* the shift of the rows when the window starts at the first edge *)
  assert (Hshiftrow : forall row : list R, length row = Wd ->
    exists row',
      setslice row 0 (nedges - 1) (slice row 1 nedges) = Ok row' /\
      length row' = Wd /\
      forall i, (0 <= i < nedges - 1)%Z ->
        nth (Z.to_nat i) row' 0 = nth (Z.to_nat (i + 1)) row 0).
  { intros row Hrow.
    assert (Hsl : slice row 1 nedges =
                  take (Z.to_nat (nedges - 1)) (drop 1 row)).
    { rewrite slice_in by (unfold nedges; lia). f_equal. lia. }
    rewrite Hsl.
    rewrite setslice_same
      by (try (unfold nedges; lia);
          rewrite length_take, length_drop; unfold nedges; lia).
    eexists. split; [reflexivity|]. split.
    - rewrite !length_app, length_take, length_take, !length_drop.
      unfold nedges. lia.
    - intros i Hi. change (Z.to_nat 0) with O. rewrite take_0, app_nil_l.
      rewrite app_nth1
        by (rewrite length_take, length_drop; unfold nedges in *; lia).
      rewrite !nth_lookup, lookup_take_lt by lia. rewrite lookup_drop.
      replace (1 + Z.to_nat i)%nat with (Z.to_nat (i + 1)) by lia.
      reflexivity. }
  assert (Hfin : forall (starts' : list Z) (a v s : list R),
    length a = Wd -> length v = Wd -> length s = Wd ->
    starts' = <[j := start]> (js_starts st) ->
    (forall b, (start <= b < hi)%Z ->
       nth (Z.to_nat (b - start)) a 0 =
       (JE 0 (b + 1) - JE 0 b) * nth (Z.to_nat (b + 1)) wts (junk env)) ->
    (forall b, (start <= b < hi)%Z ->
       nth (Z.to_nat (b - start)) v 0 =
       (JE 1 (b + 1) - JE 1 b) * nth (Z.to_nat (b + 1)) wts (junk env)) ->
    (forall b, (start <= b < hi)%Z ->
       nth (Z.to_nat (b - start)) s 0 =
       (JE 2 (b + 1) - JE 2 b) * nth (Z.to_nat (b + 1)) wts (junk env)) ->
    exists st',
      (dd <- setitem (js_dd st) (Z.of_nat j) a ;;
       dd <- setitem dd (Z.of_nat nl + Z.of_nat j) v ;;
       dd <- setitem dd (2 * Z.of_nat nl + Z.of_nat j) s ;;
       Ok (JacobianState dd starts'
             (<[Z.to_nat (Z.of_nat j) := hi]> (js_ends st)))) = Ok st' /\
      length (js_dd st') = (3 * nl)%nat /\
      (forall r, (r < 3 * nl)%nat -> length (nth r (js_dd st') []) = Wd) /\
      js_starts st' = <[j := start]> (js_starts st) /\
      js_ends st' = <[j := hi]> (js_ends st) /\
      (forall r, r <> j -> r <> (nl + j)%nat -> r <> (2 * nl + j)%nat ->
         nth r (js_dd st') [] = nth r (js_dd st) []) /\
      (forall t, (t < 3)%nat -> forall b, (start <= b < hi)%Z ->
         nth (Z.to_nat (b - start)) (nth (t * nl + j) (js_dd st') []) 0 =
         (JE t (b + 1) - JE t b) * nth (Z.to_nat (b + 1)) wts (junk env))).
  { intros starts' a v s Hla Hlv Hls Hst Hva Hvv Hvs.
    repeat (rewrite setitem_in by (rewrite ?length_insert; lia); cbn [bind]).
    rewrite Nat2Z.id.
    replace (Z.to_nat (Z.of_nat nl + Z.of_nat j)) with (nl + j)%nat by lia.
    replace (Z.to_nat (2 * Z.of_nat nl + Z.of_nat j))
      with (2 * nl + j)%nat by lia.
    eexists. split; [reflexivity|]. cbn [js_dd js_starts js_ends].
    split; [rewrite !length_insert; exact Hdd|]. split; [|split; [exact Hst|]].
    - intros r Hr.
      destruct (decide (r = (2 * nl + j)%nat)) as [->|H2].
      { rewrite nth_insert_eq by (rewrite !length_insert; lia). exact Hls. }
      rewrite nth_insert_ne by lia.
      destruct (decide (r = (nl + j)%nat)) as [->|H1].
      { rewrite nth_insert_eq by (rewrite !length_insert; lia). exact Hlv. }
      rewrite nth_insert_ne by lia.
      destruct (decide (r = j)) as [->|H0].
      { rewrite nth_insert_eq by lia. exact Hla. }
      rewrite nth_insert_ne by lia. apply Hrows, Hr.
    - split; [reflexivity|]. split.
      + intros r H0 H1 H2. rewrite !nth_insert_ne by lia. reflexivity.
      + intros t Ht b Hb.
        destruct t as [|[|[|t]]]; [| | |lia].
        * replace (0 * nl + j)%nat with j by lia.
          rewrite !(nth_insert_ne _ _ j) by lia.
          rewrite nth_insert_eq by lia. apply Hva, Hb.
        * replace (1 * nl + j)%nat with (nl + j)%nat by lia.
          rewrite (nth_insert_ne _ _ (nl + j)) by lia.
          rewrite nth_insert_eq by (rewrite length_insert; lia).
          apply Hvv, Hb.
        * rewrite nth_insert_eq by (rewrite !length_insert; lia).
          apply Hvs, Hb. }
  destruct (Z.eq_dec lo 0%Z) as [Hlo0|Hlo0].
  - assert (E : (lo =? 0)%Z = true) by (apply Z.eqb_eq; exact Hlo0).
    rewrite E.
    destruct (Hshiftrow a3 Hla3) as (a4 & -> & Hla4 & Ha4). cbn [bind].
    destruct (Hshiftrow v3 Hlv3) as (v4 & -> & Hlv4 & Hv4). cbn [bind].
    destruct (Hshiftrow s3 Hls3) as (s4 & -> & Hls4 & Hs4). cbn [bind].
    apply Hfin; try assumption.
    + rewrite Nat2Z.id. unfold start. rewrite E. f_equal. exact Hlo0.
    + apply (row_final 0 a3 a4 Ha3). rewrite E. exact Ha4.
    + apply (row_final 1 v3 v4 Hv3). rewrite E. exact Hv4.
    + apply (row_final 2 s3 s4 Hs3). rewrite E. exact Hs4.
  - assert (E : (lo =? 0)%Z = false) by (apply Z.eqb_neq; exact Hlo0).
    rewrite E. cbn [bind].
    apply Hfin; try assumption.
    + rewrite Nat2Z.id. unfold start. rewrite E. reflexivity.
    + apply (row_final 0 a3 a3 Ha3). rewrite E. reflexivity.
    + apply (row_final 1 v3 v3 Hv3). rewrite E. reflexivity.
    + apply (row_final 2 s3 s3 Hs3). rewrite E. reflexivity.
Qed.

End JacobianLine.

Lemma mapM_zip_array_div (a b : list R) :
  (forall y, In y b -> y <> 0) ->
  mapM (fun q => q) (zip_with array_div a b) = Ok (zip_with Rdiv a b).
Proof.
  revert b. induction a as [|x a IH]; intros [|y b] Hb; try reflexivity.
  cbn [zip_with mapM]. unfold array_div at 1.
  destruct (Req_dec_T y 0) as [E|_].
  - exfalso. apply (Hb y); [left; reflexivity|exact E].
  - cbn [bind]. rewrite IH by (intros z Hz; apply Hb; right; exact Hz).
    reflexivity.
Qed.

Lemma nth_mytile_first {A : Type} (a : list A) (k : nat) (d : A) :
  (k < length a)%nat -> nth k (mytile a 3) d = nth k a d.
Proof. intros H. unfold mytile. simpl. apply app_nth1, H. Qed.

Lemma length_mytile {A : Type} (a : list A) (n : nat) :
  length (mytile a n) = (n * length a)%nat.
Proof.
  unfold mytile. induction n as [|n IH]; [reflexivity|].
  simpl. rewrite length_app, IH. reflexivity.
Qed.

Lemma line_delta_unit (g : R) (ibw logE : list R) (w : line_window)
    (aj : R) (k : nat) :
  line_delta g ibw logE w aj k = aj * line_delta g ibw logE w 1 k.
Proof.
  replace aj with (aj * 1 + 0 * 0) at 1 by ring.
  rewrite line_delta_linear. ring.
Qed.

(** The weights array of the Jacobian builder is the observation weights
    times the inverse bin widths of the model builder. *)
Lemma line_delta_weights (g g' : R) (obs_weights obs_bin_edges logE : list R)
    (w : line_window) (aj : R) (b : nat) :
  length obs_weights = (length obs_bin_edges - 1)%nat ->
  (b + 1 < length obs_bin_edges)%nat ->
  line_delta g (0 :: zip_with Rdiv obs_weights (np_diff obs_bin_edges)) logE
    w aj (S b) =
  nth b obs_weights 0 *
  line_delta g' (ibin_width_of obs_bin_edges) logE w aj (S b).
Proof.
  intros Hw Hb. unfold line_delta.
  destruct (decide _) as [_|_]; [|ring].
  rewrite ibin_width_of_nth by exact Hb. cbn [nth].
  assert (Hnth : nth b (zip_with Rdiv obs_weights (np_diff obs_bin_edges)) g
                 = nth b obs_weights 0 / nth b (np_diff obs_bin_edges) 0).
  { apply nth_lookup_Some. rewrite lookup_zip_with.
    rewrite (lookup_nth obs_weights b 0) by lia. cbn.
    rewrite (lookup_nth (np_diff obs_bin_edges) b 0)
      by (rewrite length_np_diff; lia).
    reflexivity. }
  rewrite Hnth, np_diff_nth by exact Hb. unfold Rdiv. ring.
Qed.

(** The run of the Jacobian builder on valid input: each of the three rows
    of every line holds, on the run the builder records, the differences of
    the row's edge values times the weights array. *)
Lemma build_emline_model_jacobian_ok (env : jit_env)
    (parameters obs_weights obs_bin_edges log_obs_bin_edges : list R)
    (redshift : R) (line_wavelengths : list R) :
  let N := length line_wavelengths in
  let win j := line_window_at parameters log_obs_bin_edges redshift
                 line_wavelengths j in
  let wts := 0 :: zip_with Rdiv obs_weights (np_diff obs_bin_edges) in
  valid_model_input parameters obs_bin_edges log_obs_bin_edges redshift
    line_wavelengths ->
  length obs_weights = (length obs_bin_edges - 1)%nat ->
  (boundscheck env = false \/
   forall j, (j < N)%nat ->
     (lw_hi (win j) < Z.of_nat (length obs_bin_edges))%Z) ->
  exists starts ends rows Wd,
    build_emline_model_jacobian env parameters obs_weights obs_bin_edges
      log_obs_bin_edges redshift line_wavelengths =
    Ok (mytile starts 3, mytile ends 3, Array2 (3 * N) Wd rows) /\
    length starts = N /\ length ends = N /\ length rows = (3 * N)%nat /\
    (forall r, (r < 3 * N)%nat -> length (nth r rows []) = Wd) /\
    (forall j, (j < N)%nat ->
       (lw_hi (win j) - lw_lo (win j) + 2 <= Z.of_nat Wd)%Z /\
       nth j starts 0%Z =
         (if (lw_hi (win j) =? lw_lo (win j))%Z then 0
          else if (lw_lo (win j) =? 0)%Z then 0 else lw_lo (win j) - 1)%Z /\
       nth j ends 0%Z =
         (if (lw_hi (win j) =? lw_lo (win j))%Z then 0 else lw_hi (win j))%Z) /\
    forall j, (j < N)%nat -> forall t, (t < 3)%nat -> forall b : nat,
      (if decide (nth j starts 0%Z <= Z.of_nat b < nth j ends 0%Z)%Z
       then nth (Z.to_nat (Z.of_nat b - nth j starts 0%Z))
                (nth (t * N + j) rows []) 0
       else 0) =
      jacobian_delta (junk env) wts log_obs_bin_edges (win j)
        (nth j line_wavelengths 0) (nth j parameters 0) t (S b).
Proof.
  intros N win wts Hvalid Hwl Hread.
  pose proof Hvalid as [HN Hp He Hl Hobs Hinc Hs _ _]. fold N in HN, Hp, Hs.
  destruct (build_emline_model_prelude env parameters obs_bin_edges
              log_obs_bin_edges redshift line_wavelengths Hvalid)
    as (smax & dmin & Hmax & Hmin & Htr & _).
  destruct (window_fits parameters obs_bin_edges log_obs_bin_edges redshift
              line_wavelengths Hvalid 0 smax dmin ltac:(lia) Hmax Hmin)
    as (Hd & Hq & _).
  fold N in Hmax.
  unfold build_emline_model_jacobian.
  rewrite (array_split3_3n parameters N Hp).
  rewrite broadcast2_same by (rewrite length_np_diff; lia). cbn [bind].
  rewrite mapM_zip_array_div.
  2: { intros y Hy. destruct (In_nth_lt _ _ 0 Hy) as (i & Hi & <-).
       rewrite length_np_diff in Hi. rewrite np_diff_nth by lia.
       specialize (Hobs i ltac:(lia)). lra. }
  cbn [bind]. fold wts. rewrite Hmax. cbn [bind]. rewrite Hmin. cbn [bind].
  rewrite scalar_div_ok by lra. cbn [bind].
  set (q := 2 * MAX_SDEV * smax / dmin) in *.
  destruct (Z.ltb_spec (trunc q + 4) 0) as [Hneg|_]; [lia|]. cbn [bind].
  set (Wd := Z.to_nat (trunc q + 4)).
  fold N.
  set (la := take N parameters).
  set (lv := take N (drop N parameters)).
  set (ls := drop (2 * N) parameters).
  pose (colprop := fun (j : nat) (st : jacobian_state) =>
    forall t, (t < 3)%nat -> forall b : nat,
      (if decide (nth j (js_starts st) 0%Z <= Z.of_nat b
                  < nth j (js_ends st) 0%Z)%Z
       then nth (Z.to_nat (Z.of_nat b - nth j (js_starts st) 0%Z))
                (nth (t * N + j) (js_dd st) []) 0
       else 0) =
      jacobian_delta (junk env) wts log_obs_bin_edges (win j)
        (nth j line_wavelengths 0) (nth j parameters 0) t (S b)).
  pose (runprop := fun (j : nat) (st : jacobian_state) =>
    nth j (js_starts st) 0%Z =
      (if (lw_hi (win j) =? lw_lo (win j))%Z then 0
       else if (lw_lo (win j) =? 0)%Z then 0 else lw_lo (win j) - 1)%Z /\
    nth j (js_ends st) 0%Z =
      (if (lw_hi (win j) =? lw_lo (win j))%Z then 0 else lw_hi (win j))%Z).
  pose (Q := fun (j : Z) (st : jacobian_state) =>
    length (js_dd st) = (3 * N)%nat /\
    (forall r, (r < 3 * N)%nat -> length (nth r (js_dd st) []) = Wd) /\
    length (js_starts st) = N /\ length (js_ends st) = N /\
    (forall j', (j' < N)%nat -> (Z.of_nat j' < j)%Z -> colprop j' st) /\
    (forall j', (j' < N)%nat -> (Z.of_nat j' < j)%Z -> runprop j' st) /\
    (forall j', (j' < N)%nat -> (j <= Z.of_nat j')%Z ->
       nth j' (js_starts st) 0%Z = 0%Z /\ nth j' (js_ends st) 0%Z = 0%Z)).
  destruct (for_range_inv Q
    (jacobian_line env la lv ls wts log_obs_bin_edges redshift
       line_wavelengths (Z.of_nat N))
    0 (Z.of_nat N)
    (JacobianState (rows (np_empty2 (junk env) (3 * N) Wd))
       (replicate N 0%Z) (replicate N 0%Z)))
    as (st & Hrun & Hdd & Hrows & Hst & Hen & Hcols & Hruns & _).
  - lia.
  - unfold Q. cbn [js_dd js_starts js_ends np_empty2 rows].
    rewrite !length_replicate. split; [reflexivity|]. split.
    { intros r Hr. rewrite (nth_lookup_Some _ r [] (replicate Wd (junk env))).
      - apply length_replicate.
      - apply lookup_replicate_2. exact Hr. }
    split; [reflexivity|]. split; [reflexivity|]. split; [intros; lia|].
    split; [intros; lia|].
    intros j' Hj' _.
    split; apply nth_lookup_Some, lookup_replicate_2; exact Hj'.
  - intros jz st Hjz (Hdd & Hrows & Hst & Hen & Hcols & Hruns & Hzero).
    set (j := Z.to_nat jz).
    assert (Ejz : jz = Z.of_nat j) by (unfold j; lia).
    assert (Hj : (j < N)%nat) by lia.
    rewrite Ejz. unfold jacobian_line.
    change (jacobian_line_window env lv ls log_obs_bin_edges redshift
              line_wavelengths (Z.of_nat j))
      with (model_line_window env lv ls log_obs_bin_edges redshift
              line_wavelengths (Z.of_nat j)).
    unfold lv, ls, N.
    rewrite (window_ok env parameters obs_bin_edges log_obs_bin_edges
               redshift line_wavelengths Hvalid j Hj).
    cbn [bind]. fold (win j). fold N. fold la.
    pose proof (win_lo_le_hi parameters obs_bin_edges log_obs_bin_edges
                  redshift line_wavelengths Hvalid j Hj) as Hlohi.
    pose proof (win_hi_le parameters log_obs_bin_edges redshift
                  line_wavelengths j) as Hhi.
    cbv beta in Hlohi, Hhi. fold (win j) in Hlohi, Hhi.
    destruct (Z.eqb_spec (lw_hi (win j)) (lw_lo (win j))) as [Heq|Hne].
    + exists st. split; [reflexivity|]. unfold Q.
      split; [exact Hdd|]. split; [exact Hrows|]. split; [exact Hst|].
      split; [exact Hen|]. split.
      * intros j' Hj' Hlt. destruct (decide (j' = j)) as [->|Hnej].
        -- intros t Ht b. destruct (Hzero j Hj ltac:(lia)) as [-> ->].
           destruct (decide (0 <= Z.of_nat b < 0)%Z); [lia|].
           unfold jacobian_delta.
           destruct (decide _) as [[Hlt' _]|_]; [lia|reflexivity].
        -- apply Hcols; [exact Hj'|lia].
      * split.
        -- intros j' Hj' Hlt. destruct (decide (j' = j)) as [->|Hnej].
           ++ unfold runprop. destruct (Hzero j Hj ltac:(lia)) as [-> ->].
              destruct (Z.eqb_spec (lw_hi (win j)) (lw_lo (win j)));
                [split; reflexivity|contradiction].
           ++ apply Hruns; [exact Hj'|lia].
        -- intros j' Hj' Hge. apply Hzero; [exact Hj'|lia].
    + destruct (window_fits parameters obs_bin_edges log_obs_bin_edges
                  redshift line_wavelengths Hvalid j smax dmin Hj Hmax Hmin)
        as (_ & _ & Hfit).
      cbv beta in Hfit. fold (win j) in Hfit. fold q in Hfit.
      specialize (Hfit ltac:(lia)).
      destruct (jacobian_line_fill_ok env la wts log_obs_bin_edges
                  line_wavelengths N j Wd (win j) (nth j parameters 0)
                  (nth j line_wavelengths 0))
        with (st := st)
        as (st' & Hfill & Hdd' & Hrows' & Hst' & Hen' & Hother & Hvals).
      { lia. }
      { rewrite Hl. lia. }
      { apply (win_sigma_nonzero parameters obs_bin_edges log_obs_bin_edges
                 redshift line_wavelengths Hvalid j Hj Hne). }
      { exact Hj. }
      { unfold la. rewrite lookup_take_lt by lia. apply lookup_nth. lia. }
      { apply lookup_nth. exact Hj. }
      { unfold Wd. lia. }
      { destruct Hread as [Hb|Hb]; [right; exact Hb|left].
        unfold wts. cbn [length]. rewrite length_zip_with, length_np_diff.
        specialize (Hb j Hj). fold (win j) in Hb. lia. }
      { exact Hdd. }
      { exact Hrows. }
      { exact Hst. }
      { exact Hen. }
      exists st'. split; [exact Hfill|]. unfold Q.
      split; [exact Hdd'|]. split; [exact Hrows'|].
      split; [rewrite Hst', length_insert; exact Hst|].
      split; [rewrite Hen', length_insert; exact Hen|]. split.
      * intros j' Hj' Hlt. destruct (decide (j' = j)) as [->|Hnej].
        -- intros t Ht b. rewrite Hst', Hen'.
           rewrite !nth_insert_eq by lia.
           specialize (Hvals t Ht).
           unfold jacobian_delta.
           destruct (Z.eqb_spec (lw_lo (win j)) 0) as [Hlo0|Hlo0].
           ++ destruct (decide (0 <= Z.of_nat b < lw_hi (win j))%Z) as [Hb|Hb];
                destruct (decide (lw_lo (win j) < lw_hi (win j) /\
                                  lw_lo (win j) <= Z.of_nat (S b)
                                  <= lw_hi (win j))%Z) as [Hb'|Hb'];
                try lia; [|reflexivity].
              rewrite (Hvals (Z.of_nat b)) by lia.
              replace (Z.of_nat b + 1)%Z with (Z.of_nat (S b)) by lia.
              replace (Z.of_nat (S b) - 1)%Z with (Z.of_nat b) by lia.
              rewrite Nat2Z.id. reflexivity.
           ++ destruct (decide (lw_lo (win j) - 1 <= Z.of_nat b
                                < lw_hi (win j))%Z) as [Hb|Hb];
                destruct (decide (lw_lo (win j) < lw_hi (win j) /\
                                  lw_lo (win j) <= Z.of_nat (S b)
                                  <= lw_hi (win j))%Z) as [Hb'|Hb'];
                try lia; [|reflexivity].
              rewrite (Hvals (Z.of_nat b)) by lia.
              replace (Z.of_nat b + 1)%Z with (Z.of_nat (S b)) by lia.
              replace (Z.of_nat (S b) - 1)%Z with (Z.of_nat b) by lia.
              rewrite Nat2Z.id. reflexivity.
        -- intros t Ht b. rewrite Hst', Hen'.
           rewrite (Hother (t * N + j')%nat)
             by (destruct t as [|[|[|t]]]; lia).
           rewrite !nth_insert_ne by lia.
           apply Hcols; [exact Hj'|lia|exact Ht].
      * split.
        -- intros j' Hj' Hlt. unfold runprop. rewrite Hst', Hen'.
           destruct (decide (j' = j)) as [->|Hnej].
           ++ rewrite !nth_insert_eq by lia.
              destruct (Z.eqb_spec (lw_hi (win j)) (lw_lo (win j)));
                [contradiction|split; reflexivity].
           ++ rewrite !nth_insert_ne by lia. apply Hruns; [exact Hj'|lia].
        -- intros j' Hj' Hge. rewrite Hst', Hen'.
           rewrite !nth_insert_ne by lia. apply Hzero; [exact Hj'|lia].
  - rewrite Hrun. cbn [bind].
    exists (js_starts st), (js_ends st), (js_dd st), Wd.
    split; [reflexivity|]. split; [exact Hst|]. split; [exact Hen|].
    split; [exact Hdd|]. split; [exact Hrows|]. split.
    + intros j Hj. split; [|apply Hruns; [exact Hj|lia]].
      pose proof (win_lo_le_hi parameters obs_bin_edges log_obs_bin_edges
                    redshift line_wavelengths Hvalid j Hj) as Hlohi.
      destruct (window_fits parameters obs_bin_edges log_obs_bin_edges
                  redshift line_wavelengths Hvalid j smax dmin Hj Hmax Hmin)
        as (_ & _ & Hfit).
      cbv beta in Hlohi, Hfit. fold (win j) in Hlohi, Hfit. fold q in Hfit.
      unfold Wd.
      destruct (decide (lw_lo (win j) < lw_hi (win j))%Z) as [Hlt|Hge];
        [specialize (Hfit Hlt)|]; lia.
    + intros j Hj. apply Hcols; [exact Hj|lia].
Qed.

Lemma jacobian_edge_amplitude (logE : list R) (w : line_window) (wj aj : R)
    (k : Z) :
  lw_shifted_line w = wj * lw_line_shift w ->
  jacobian_edge logE w wj aj 0 k = edge_value logE w 1 k.
Proof.
  intros Hshift. unfold jacobian_edge, edge_value, line_area.
  destruct (k <? lw_lo w)%Z; [reflexivity|].
  destruct (lw_hi w <=? k)%Z; rewrite Hshift; ring.
Qed.

Lemma jacobian_delta_amplitude (g : R) (wts logE : list R) (w : line_window)
    (wj aj : R) (k : nat) :
  lw_shifted_line w = wj * lw_line_shift w ->
  jacobian_delta g wts logE w wj aj 0 k = line_delta g wts logE w 1 k.
Proof.
  intros Hshift. unfold jacobian_delta, line_delta.
  rewrite !(jacobian_edge_amplitude logE w wj aj) by exact Hshift.
  reflexivity.
Qed.

(** X19: the amplitude columns of the Jacobian are the weighted models of the
    single lines at unit amplitude.  On valid input with one weight per bin
    (the builders running as compiled, without bounds checks, or with no
    window reaching the last edge), [build_emline_model_jacobian] returns a
    fragment with [3 N] columns whose column [j], for [j < N], holds in every
    bin [b] the weight of the bin times the flux that [build_emline_model]
    gives line [j] alone with amplitude one; hence the amplitude columns
    times the amplitudes are the weights times the model. *)
Theorem build_emline_model_jacobian_amplitude_columns (env : jit_env)
    (parameters obs_weights obs_bin_edges log_obs_bin_edges : list R)
    (redshift : R) (line_wavelengths : list R) :
  let N := length line_wavelengths in
  let nbins := (length obs_bin_edges - 1)%nat in
  valid_model_input parameters obs_bin_edges log_obs_bin_edges redshift
    line_wavelengths ->
  length obs_weights = nbins ->
  (boundscheck env = false \/
   forall j, (j < N)%nat ->
     (lw_hi (line_window_at parameters log_obs_bin_edges redshift
               line_wavelengths j)
      < Z.of_nat (length obs_bin_edges))%Z) ->
  exists starts ends dd out,
    build_emline_model_jacobian env parameters obs_weights obs_bin_edges
      log_obs_bin_edges redshift line_wavelengths = Ok (starts, ends, dd) /\
    build_emline_model env parameters obs_bin_edges log_obs_bin_edges
      redshift line_wavelengths = Ok out /\
    length starts = (3 * N)%nat /\ length ends = (3 * N)%nat /\
    shape0 dd = (3 * N)%nat /\ array2_wf dd /\
    (forall j, (j < N)%nat ->
       exists unit_j,
         build_emline_model env
           [1; nth (N + j) parameters 0; nth (2 * N + j) parameters 0]
           obs_bin_edges log_obs_bin_edges redshift [nth j line_wavelengths 0]
         = Ok unit_j /\
         forall b, (b < nbins)%nat ->
           jac_entry (starts, ends, dd) b j =
           nth b obs_weights 0 * nth b unit_j 0) /\
    (forall b, (b < nbins)%nat ->
       sum_n (fun j => jac_entry (starts, ends, dd) b j * nth j parameters 0)
             N
       = nth b obs_weights 0 * nth b out 0).
Proof.
  intros N nbins Hvalid Hwl Hread.
  set (win := fun j => line_window_at parameters log_obs_bin_edges redshift
                         line_wavelengths j).
  destruct (build_emline_model_jacobian_ok env parameters obs_weights
              obs_bin_edges log_obs_bin_edges redshift line_wavelengths
              Hvalid Hwl Hread)
    as (starts & ends & rws & Wd & Hjac & Hls & Hle & Hlr & Hrows & _
        & Hcols).
  destruct (build_emline_model_ok env parameters obs_bin_edges
              log_obs_bin_edges redshift line_wavelengths Hvalid Hread)
    as (out & Hout & Hlout & Hbins).
  fold N in Hls, Hle, Hlr, Hrows, Hcols, Hbins.
  pose proof Hvalid as [HN Hp He Hl _ _ _ _ _]. fold N in HN, Hp.
  assert (Hentry : forall j b, (j < N)%nat -> (b < nbins)%nat ->
    jac_entry (mytile starts 3, mytile ends 3, Array2 (3 * N) Wd rws) b j =
    nth b obs_weights 0 *
    line_delta (junk env) (ibin_width_of obs_bin_edges) log_obs_bin_edges
      (win j) 1 (S b)).
  { intros j b Hj Hb. unfold jac_entry.
    rewrite !nth_mytile_first by lia.
    rewrite <- (line_delta_weights (junk env) (junk env) obs_weights)
      by (fold nbins; unfold nbins in Hb; lia).
    unfold win.
    rewrite <- (jacobian_delta_amplitude (junk env) _ log_obs_bin_edges _
                  (nth j line_wavelengths 0) (nth j parameters 0))
      by reflexivity.
    pose proof (Hcols j Hj 0%nat ltac:(lia) b) as Hc.
    cbn [Nat.mul Nat.add] in Hc. rewrite <- Hc.
    destruct (decide _) as [Hin|_]; [|reflexivity].
    unfold entry. cbn [rows]. rewrite Nat2Z.id. reflexivity. }
  exists (mytile starts 3), (mytile ends 3), (Array2 (3 * N) Wd rws), out.
  split; [exact Hjac|]. split; [exact Hout|].
  split; [rewrite length_mytile; lia|].
  split; [rewrite length_mytile; lia|].
  split; [reflexivity|]. split.
  { split; [exact Hlr|]. cbn [rows shape1].
    apply Forall_forall. intros row Hin.
    apply list_elem_of_lookup in Hin as (r & Hr).
    rewrite <- (nth_lookup_Some _ _ [] _ Hr). apply Hrows.
    apply lookup_lt_Some in Hr. lia. }
  split.
  - intros j Hj.
    assert (Hv1 : valid_model_input
                    ([1] ++ [nth (N + j) parameters 0;
                             nth (2 * N + j) parameters 0])
                    obs_bin_edges log_obs_bin_edges redshift
                    [nth j line_wavelengths 0]).
    { apply (valid_amplitudes_irrelevant [nth j parameters 0] [1]);
        [reflexivity|reflexivity|].
      apply (single_line_valid parameters obs_bin_edges log_obs_bin_edges
               redshift line_wavelengths j Hvalid Hj). }
    assert (Hwin1 : line_window_at
                      ([1] ++ [nth (N + j) parameters 0;
                               nth (2 * N + j) parameters 0])
                      log_obs_bin_edges redshift [nth j line_wavelengths 0] 0
                    = win j).
    { rewrite (line_window_at_amplitudes [1] [nth j parameters 0])
        by reflexivity.
      apply (single_line_window parameters log_obs_bin_edges redshift
               line_wavelengths j). }
    destruct (build_emline_model_ok env _ obs_bin_edges log_obs_bin_edges
                redshift [nth j line_wavelengths 0] Hv1)
      as (unit_j & Hunit & _ & Hub).
    { destruct Hread as [Hb|Hb]; [left; exact Hb|right].
      intros j' Hj'. simpl in Hj'. assert (j' = O) as -> by lia.
      rewrite Hwin1. apply Hb, Hj. }
    exists unit_j. split; [exact Hunit|].
    intros b Hb. rewrite Hub by exact Hb. cbn [length sum_n].
    rewrite Hwin1. cbn [app nth]. rewrite Rplus_0_l.
    apply Hentry; assumption.
  - intros b Hb. rewrite Hbins by exact Hb. rewrite <- sum_n_scal_l.
    apply sum_n_ext. intros j Hj. rewrite Hentry by assumption.
    fold (win j). rewrite (line_delta_unit _ _ _ _ (nth j parameters 0)).
    ring.
Qed.

Lemma build_emline_model_jacobian_amplitude_columns_witness :
  exists starts ends dd out,
    build_emline_model_jacobian numba_default [2; 0; 75] [5] [exp 8; exp 9]
      [8; 9] 0 [exp 9] = Ok (starts, ends, dd) /\
    build_emline_model numba_default [2; 0; 75] [exp 8; exp 9] [8; 9] 0
      [exp 9] = Ok out /\
    length starts = 3%nat /\
    sum_n (fun j => jac_entry (starts, ends, dd) 0 j * nth j [2; 0; 75] 0) 1
    = 5 * nth 0 out 0.
Proof.
  destruct (build_emline_model_jacobian_amplitude_columns numba_default
              [2; 0; 75] [5] [exp 8; exp 9] [8; 9] 0 [exp 9])
    as (starts & ends & dd & out & Hjac & Hout & Hls & _ & _ & _ & _ & Hsum).
  - apply (valid_one_line 2 9); [simpl; lia|reflexivity| |].
    + apply strictly_increasing_2, exp_increasing. lra.
    + apply strictly_increasing_2. lra.
  - reflexivity.
  - left. reflexivity.
  - exists starts, ends, dd, out. split; [exact Hjac|]. split; [exact Hout|].
    split; [exact Hls|]. apply (Hsum 0%nat). simpl. lia.
Defined.

Lemma nth_mytile_3 {A : Type} (a : list A) (i : nat) (d : A) :
  (i < 3 * length a)%nat ->
  nth i (mytile a 3) d = nth (i mod length a) a d.
Proof.
  intros Hi. unfold mytile. cbn [replicate concat]. rewrite app_nil_r.
  set (n := length a) in *.
  assert (Hn : (0 < n)%nat) by lia.
  destruct (decide (i < n)%nat) as [H1|H1].
  - rewrite app_nth1 by exact H1. rewrite Nat.mod_small by exact H1.
    reflexivity.
  - rewrite app_nth2 by (fold n; lia). fold n.
    destruct (decide (i < 2 * n)%nat) as [H2|H2].
    + rewrite app_nth1 by (fold n; lia).
      replace i with ((i - n) + 1 * n)%nat at 2 by lia.
      rewrite Nat.Div0.mod_add, Nat.mod_small by lia. reflexivity.
    + rewrite app_nth2 by (fold n; lia). fold n.
      replace i with ((i - n - n) + 2 * n)%nat at 2 by lia.
      rewrite Nat.Div0.mod_add, Nat.mod_small by lia. reflexivity.
Qed.

(** X20: the runs of the fragment that [build_emline_model_jacobian]
    returns.  On valid input with one weight per bin, column [i] of the
    [3 N] columns belongs to line [j = i mod N]; its run is empty ([0, 0))
    when the line is skipped and is [max(lo - 1, 0), hi) otherwise, and it
    fits the width of the value rows.  When no filled-in window reaches the
    last edge, the fragment is well formed over the [nbins] bins, which is
    what [_matvec_J] and [_rmatvec_J] need; when the window of some line
    reaches the last edge, the run of that line ends at [nbins + 1], one row
    past the last bin, and the fragment is not well formed. *)
Theorem build_emline_model_jacobian_fragment_runs (env : jit_env)
    (parameters obs_weights obs_bin_edges log_obs_bin_edges : list R)
    (redshift : R) (line_wavelengths : list R) :
  let N := length line_wavelengths in
  let nbins := (length obs_bin_edges - 1)%nat in
  let win j := line_window_at parameters log_obs_bin_edges redshift
                 line_wavelengths j in
  valid_model_input parameters obs_bin_edges log_obs_bin_edges redshift
    line_wavelengths ->
  length obs_weights = nbins ->
  (boundscheck env = false \/
   forall j, (j < N)%nat ->
     (lw_hi (win j) < Z.of_nat (length obs_bin_edges))%Z) ->
  exists starts ends dd,
    build_emline_model_jacobian env parameters obs_weights obs_bin_edges
      log_obs_bin_edges redshift line_wavelengths = Ok (starts, ends, dd) /\
    (forall i, (i < 3 * N)%nat ->
       let w := win (i mod N) in
       nth i starts 0%Z =
         (if (lw_hi w =? lw_lo w)%Z then 0
          else if (lw_lo w =? 0)%Z then 0 else lw_lo w - 1)%Z /\
       nth i ends 0%Z = (if (lw_hi w =? lw_lo w)%Z then 0 else lw_hi w)%Z /\
       (nth i ends 0 - nth i starts 0 <= Z.of_nat (shape1 dd))%Z) /\
    ((forall j, (j < N)%nat -> (lw_lo (win j) < lw_hi (win j))%Z ->
        (lw_hi (win j) < Z.of_nat (length obs_bin_edges))%Z) ->
     fragment_wf (starts, ends, dd) nbins) /\
    (forall j, (j < N)%nat -> (lw_lo (win j) < lw_hi (win j))%Z ->
       lw_hi (win j) = Z.of_nat (length obs_bin_edges) ->
       nth j ends 0%Z = (Z.of_nat nbins + 1)%Z /\
       ~ fragment_wf (starts, ends, dd) nbins).
Proof.
  intros N nbins win Hvalid Hwl Hread.
  destruct (build_emline_model_jacobian_ok env parameters obs_weights
              obs_bin_edges log_obs_bin_edges redshift line_wavelengths
              Hvalid Hwl Hread)
    as (starts & ends & rws & Wd & Hjac & Hls & Hle & Hlr & Hrows & Hruns & _).
  fold N in Hls, Hle, Hlr, Hrows, Hruns.
  pose proof Hvalid as [HN Hp He Hl _ _ _ _ _]. fold N in HN, Hp.
  assert (Hcol : forall i, (i < 3 * N)%nat ->
    let w := win (i mod N) in
    nth i (mytile starts 3) 0%Z =
      (if (lw_hi w =? lw_lo w)%Z then 0
       else if (lw_lo w =? 0)%Z then 0 else lw_lo w - 1)%Z /\
    nth i (mytile ends 3) 0%Z =
      (if (lw_hi w =? lw_lo w)%Z then 0 else lw_hi w)%Z /\
    (lw_hi w - lw_lo w + 2 <= Z.of_nat Wd)%Z /\
    (0 <= lw_lo w <= lw_hi w)%Z).
  { intros i Hi w.
    assert (Hj : (i mod N < N)%nat) by (apply Nat.mod_upper_bound; lia).
    destruct (Hruns (i mod N) Hj) as (Hfit & Hs & He').
    rewrite !nth_mytile_3 by lia. rewrite Hls, Hle.
    split; [exact Hs|]. split; [exact He'|]. split; [exact Hfit|].
    apply (win_lo_le_hi parameters obs_bin_edges log_obs_bin_edges redshift
             line_wavelengths Hvalid (i mod N) Hj). }
  exists (mytile starts 3), (mytile ends 3), (Array2 (3 * N) Wd rws).
  split; [exact Hjac|]. split; [|split].
  - intros i Hi w. destruct (Hcol i Hi) as (Hs & He' & Hfit & Hlohi).
    fold w in Hs, He', Hfit, Hlohi.
    split; [exact Hs|]. split; [exact He'|]. rewrite Hs, He'. cbn [shape1].
    destruct (Z.eqb_spec (lw_hi w) (lw_lo w)); [lia|].
    destruct (Z.eqb_spec (lw_lo w) 0); lia.
  - intros Hin. unfold fragment_wf.
    split; [rewrite !length_mytile; lia|]. split.
    { split; [exact Hlr|]. cbn [rows shape1].
      apply Forall_forall. intros row Hrow.
      apply list_elem_of_lookup in Hrow as (r & Hr).
      rewrite <- (nth_lookup_Some _ _ [] _ Hr). apply Hrows.
      apply lookup_lt_Some in Hr. lia. }
    split; [cbn [shape0]; rewrite length_mytile; lia|].
    intros i Hi. rewrite length_mytile, Hls in Hi.
    destruct (Hcol i Hi) as (Hs & He' & Hfit & Hlohi).
    assert (Hj : (i mod N < N)%nat) by (apply Nat.mod_upper_bound; lia).
    specialize (Hin (i mod N) Hj).
    rewrite Hs, He'. cbn [shape1]. unfold nbins.
    destruct (Z.eqb_spec (lw_hi (win (i mod N))) (lw_lo (win (i mod N))));
      [lia|].
    destruct (Z.eqb_spec (lw_lo (win (i mod N))) 0); lia.
  - intros j Hj Hlt Hend.
    destruct (Hcol j ltac:(lia)) as (_ & He' & _).
    rewrite Nat.mod_small in He' by exact Hj.
    destruct (Z.eqb_spec (lw_hi (win j)) (lw_lo (win j))) in He'; [lia|].
    assert (Hej : nth j (mytile ends 3) 0%Z = (Z.of_nat nbins + 1)%Z)
      by (rewrite He', Hend; unfold nbins; lia).
    split; [exact Hej|].
    intros (_ & _ & _ & Hwf).
    specialize (Hwf j ltac:(rewrite length_mytile; lia)).
    destruct Hwf as (_ & Hle' & _). rewrite Hej in Hle'. lia.
Qed.

Lemma build_emline_model_jacobian_fragment_runs_witness :
  exists starts ends dd,
    build_emline_model_jacobian numba_default [2; 0; 75] [5] [exp 8; exp 9]
      [8; 9] 0 [exp 9] = Ok (starts, ends, dd) /\
    nth 0 ends 0%Z = 2%Z /\
    ~ fragment_wf (starts, ends, dd) 1.
Proof.
  assert (Hvalid : valid_model_input [2; 0; 75] [exp 8; exp 9] [8; 9] 0
                     [exp 9]).
  { apply (valid_one_line 2 9); [simpl; lia|reflexivity| |].
    - apply strictly_increasing_2, exp_increasing. lra.
    - apply strictly_increasing_2. lra. }
  destruct (build_emline_model_jacobian_fragment_runs numba_default
              [2; 0; 75] [5] [exp 8; exp 9] [8; 9] 0 [exp 9] Hvalid)
    as (starts & ends & dd & Hjac & _ & _ & Hbad).
  - reflexivity.
  - left. reflexivity.
  - exists starts, ends, dd. split; [exact Hjac|].
    assert (Hw : lw_lo (line_window_at [2; 0; 75] [8; 9] 0 [exp 9] 0) = 1%Z /\
                 lw_hi (line_window_at [2; 0; 75] [8; 9] 0 [exp 9] 0) = 2%Z).
    { unfold line_window_at. cbn [length Nat.mul Nat.add nth lw_lo lw_hi].
      rewrite ln_unshifted.
      cbn [searchsorted_left searchsorted_right].
      assert (0 < 75 / C_LIGHT < 1/10) by (unfold C_LIGHT; lra).
      unfold MAX_SDEV.
      repeat match goal with
             | |- context [Rlt_dec ?a ?b] => destruct (Rlt_dec a b); try lra
             | |- context [Rle_dec ?a ?b] => destruct (Rle_dec a b); try lra
             end.
      split; reflexivity. }
    destruct Hw as [Hlo Hhi].
    apply (Hbad 0%nat); [simpl; lia|rewrite Hlo, Hhi; lia|exact Hhi].
Defined.

(** ** The density is the derivative of the distribution function *)

Lemma gauss_continuity : continuity gauss.
Proof.
  unfold gauss.
  apply (continuity_comp (fun t => - (t * t)) exp).
  - apply continuity_opp.
    apply continuity_mult; apply derivable_continuous, derivable_id.
  - apply derivable_continuous, derivable_exp.
Qed.

Lemma gauss_even (x : R) : gauss (- x) = gauss x.
Proof. unfold gauss. f_equal. ring. Qed.

(** The integral of [exp(-t^2)] from [0] to [x] has derivative [exp(-x^2)],
    for [x] of either sign. *)
Lemma gauss_area_derivative (x : R) : derivable_pt_lim gauss_area x (gauss x).
Proof.
  set (M := Rabs x + 1).
  assert (HM : - M < x < M).
  { unfold M. destruct (Rcase_abs x) as [Hx|Hx].
    - rewrite Rabs_left by exact Hx. lra.
    - rewrite Rabs_right by exact Hx. lra. }
  assert (h : - M <= M) by lra.
  pose (C0 := fun (z : R) (_ : - M <= z <= M) => gauss_continuity z).
  pose proof (@RiemannInt_P27 gauss (- M) M x h C0 HM) as HP.
  set (P := primitive h (FTC_P1 h C0)) in *.
  apply (derivable_pt_lim_locally_ext (fun z => P z - P 0) gauss_area x
           (- M) M).
  - exact HM.
  - intros z Hz. unfold P, primitive.
    destruct (Rle_dec (- M) z) as [r|]; [|lra].
    destruct (Rle_dec z M) as [r0|]; [|lra].
    destruct (Rle_dec (- M) 0) as [s|]; [|lra].
    destruct (Rle_dec 0 M) as [s0|]; [|lra].
    unfold gauss_area.
    pose proof (RiemannInt_P26 (FTC_P1 h C0 s s0) (gauss_integrable 0 z)
                  (FTC_P1 h C0 r r0)) as E.
    lra.
  - replace (gauss x) with (gauss x - 0) by ring.
    apply (derivable_pt_lim_ext (P - fct_cte (P 0))%F).
    + intros z. reflexivity.
    + apply derivable_pt_lim_minus; [exact HP|apply derivable_pt_lim_const].
Qed.

Lemma gauss_area_odd (x : R) : gauss_area (- x) = - gauss_area x.
Proof.
  pose (H := fun z => gauss_area z + gauss_area (- z)).
  assert (Hd : forall z, derivable_pt_lim H z 0).
  { intros z.
    replace 0 with (gauss z + gauss (- z) * (- 1))
      by (rewrite gauss_even; ring).
    apply (derivable_pt_lim_ext (gauss_area + comp gauss_area (- id))%F).
    - intros y. reflexivity.
    - apply derivable_pt_lim_plus; [apply gauss_area_derivative|].
      apply derivable_pt_lim_comp.
      + apply derivable_pt_lim_opp, derivable_pt_lim_id.
      + apply gauss_area_derivative. }
  pose (pr := fun z => exist (fun l => derivable_pt_abs H z l) 0 (Hd z)
                       : derivable_pt H z).
  assert (Hc : constant H).
  { apply (null_derivative_1 H pr). intros z. reflexivity. }
  specialize (Hc x 0). unfold H in Hc.
  rewrite Ropp_0, gauss_area_0 in Hc. lra.
Qed.

Lemma erf_gauss_area (x : R) : erf x = 2 / sqrt PI * gauss_area x.
Proof.
  unfold erf. destruct (Rle_dec 0 x); [reflexivity|].
  rewrite gauss_area_odd. ring.
Qed.

Lemma erf_derivative (x : R) :
  derivable_pt_lim erf x (2 / sqrt PI * gauss x).
Proof.
  apply (derivable_pt_lim_ext (mult_real_fct (2 / sqrt PI) gauss_area)).
  - intros z. symmetry. apply erf_gauss_area.
  - apply derivable_pt_lim_scal, gauss_area_derivative.
Qed.

Lemma norm_pdf_gauss (a : R) :
  norm_pdf a = 1/2 * ((2 / sqrt PI * gauss (a * (1 / sqrt 2))) * (1 / sqrt 2)).
Proof.
  assert (H2 : 0 < sqrt 2) by (apply sqrt_lt_R0; lra).
  assert (Hpi : 0 < sqrt PI) by (apply sqrt_lt_R0, PI_RGT_0).
  assert (Hsq : sqrt 2 * sqrt 2 = 2) by (apply sqrt_sqrt; lra).
  unfold norm_pdf, SQRT_2PI, gauss.
  rewrite sqrt_mult by (pose proof PI_RGT_0; lra).
  replace (- (a * (1 / sqrt 2) * (a * (1 / sqrt 2))))
    with (- (1 / 2) * a ^ 2).
  2: { assert (Hinv : / sqrt 2 * / sqrt 2 = / 2)
         by (rewrite <- Rinv_mult, Hsq; reflexivity).
       replace (a * (1 / sqrt 2) * (a * (1 / sqrt 2)))
         with (a ^ 2 * (/ sqrt 2 * / sqrt 2)) by (field; lra).
       rewrite Hinv. field. }
  field. lra.
Qed.

Lemma norm_cdf_derivative (a : R) : derivable_pt_lim norm_cdf a (norm_pdf a).
Proof.
  rewrite norm_pdf_gauss.
  replace (1 / 2 * (2 / sqrt PI * gauss (a * (1 / sqrt 2)) * (1 / sqrt 2)))
    with (0 + 1 / 2 * (2 / sqrt PI * gauss (a * (1 / sqrt 2)) *
                         (1 / sqrt 2 * 1))) by ring.
  apply (derivable_pt_lim_ext
           (fct_cte (1/2) +
            mult_real_fct (1/2)
              (comp erf (mult_real_fct (1 / sqrt 2) id)))%F).
  - intros z. rewrite norm_cdf_erf.
    unfold plus_fct, fct_cte, mult_real_fct, comp, id. f_equal. f_equal.
    f_equal. ring.
  - apply derivable_pt_lim_plus; [apply derivable_pt_lim_const|].
    apply derivable_pt_lim_scal.
    apply derivable_pt_lim_comp.
    + apply derivable_pt_lim_scal, derivable_pt_lim_id.
    + unfold mult_real_fct, id.
      replace (1 / sqrt 2 * a) with (a * (1 / sqrt 2)) by ring.
      apply erf_derivative.
Qed.

(** X21: [norm_pdf] is the derivative of [norm_cdf] at every point, the
    points [|a| = 1] where [norm_cdf] changes branch included; so [norm_cdf]
    is continuous everywhere, and [erf] as modelled has the derivative
    [2 / sqrt(pi) * exp(-x^2)]. *)
Theorem norm_cdf_derivative_is_norm_pdf :
  (forall a, derivable_pt_lim norm_cdf a (norm_pdf a)) /\
  (forall a, continuity_pt norm_cdf a) /\
  (forall x, derivable_pt_lim erf x (2 / sqrt PI * exp (- (x * x)))).
Proof.
  split; [exact norm_cdf_derivative|]. split.
  - intros a. apply derivable_continuous_pt.
    exists (norm_pdf a). apply norm_cdf_derivative.
  - intros x. apply erf_derivative.
Qed.

(** ** The Jacobian holds the derivatives of the model *)

Lemma derivable_pt_lim_eq (f g : R -> R) (x l l' : R) :
  derivable_pt_lim f x l -> (forall z, f z = g z) -> l = l' ->
  derivable_pt_lim g x l'.
Proof.
  intros Hf Hfg <-. exact (derivable_pt_lim_ext f g x l Hfg Hf).
Qed.

Lemma derivable_pt_lim_sqr (x : R) :
  derivable_pt_lim (fun y => y ^ 2) x (2 * x).
Proof.
  apply (derivable_pt_lim_eq (id * id)%F _ x (1 * id x + id x * 1)).
  - apply derivable_pt_lim_mult; apply derivable_pt_lim_id.
  - intros z. unfold mult_fct, id. ring.
  - unfold id. ring.
Qed.

Ltac differentiate :=
  repeat match goal with
  | |- derivable_pt_lim (fct_cte _) _ _ => apply derivable_pt_lim_const
  | |- derivable_pt_lim id _ _ => apply derivable_pt_lim_id
  | |- derivable_pt_lim exp _ _ => apply derivable_pt_lim_exp
  | |- derivable_pt_lim ln _ _ => apply derivable_pt_lim_ln
  | |- derivable_pt_lim norm_cdf _ _ => apply norm_cdf_derivative
  | |- derivable_pt_lim (fun y => y ^ 2) _ _ => apply derivable_pt_lim_sqr
  | |- derivable_pt_lim (_ + _)%F _ _ => eapply derivable_pt_lim_plus
  | |- derivable_pt_lim (_ - _)%F _ _ => eapply derivable_pt_lim_minus
  | |- derivable_pt_lim (_ * _)%F _ _ => eapply derivable_pt_lim_mult
  | |- derivable_pt_lim (_ / _)%F _ _ => eapply derivable_pt_lim_div
  | |- derivable_pt_lim (comp _ _) _ _ => eapply derivable_pt_lim_comp
  end.

Ltac unfold_fct :=
  unfold plus_fct, minus_fct, mult_fct, div_fct, fct_cte, comp, id, Rsqr.

Section EdgeDerivatives.

Variables (log_obs_bin_edges : list R) (redshift wl : R) (lo hi : Z).
Variables (a v s : R) (k : Z).

Let w := window_of redshift wl lo hi v s.
Let sigma := s / C_LIGHT.
Let shift := 1 + redshift + v / C_LIGHT.
Let x := nth (Z.to_nat k) log_obs_bin_edges 0 / sigma
         - (ln (wl * shift) / sigma + sigma).

Hypothesis Hs : s <> 0.
Hypothesis Hshifted : 0 < wl * shift.

Lemma sigma_nonzero : sigma <> 0.
Proof.
  unfold sigma. pose proof C_LIGHT_pos. intros H0.
  apply Hs. apply Rmult_eq_reg_r with (/ C_LIGHT);
    [|apply Rinv_neq_0_compat; lra].
  rewrite Rmult_0_l. exact H0.
Qed.

(** The amplitude: the edge value is linear in it. *)
Lemma edge_value_amplitude_derivative :
  derivable_pt_lim
    (fun a' => edge_value log_obs_bin_edges w a' k) a
    (jacobian_edge log_obs_bin_edges w wl a 0 k).
Proof.
  unfold edge_value, jacobian_edge, line_area, w, window_of.
  cbn [lw_lo lw_hi lw_sigma lw_line_shift lw_shifted_line
       lw_log_shifted_line].
  fold sigma shift. fold x.
  destruct (k <? lo)%Z; [apply derivable_pt_lim_const|].
  destruct (hi <=? k)%Z.
  - eapply (derivable_pt_lim_eq
              (fct_cte (SQRT_2PI * sigma * exp (1 / 2 * sigma ^ 2)) * id
               * fct_cte (wl * shift))%F).
    + differentiate.
    + intros z. reflexivity.
    + unfold_fct. ring.
  - eapply (derivable_pt_lim_eq
              (fct_cte (SQRT_2PI * sigma * exp (1 / 2 * sigma ^ 2)) * id
               * fct_cte (wl * shift) * fct_cte (norm_cdf x))%F).
    + differentiate.
    + intros z. reflexivity.
    + unfold_fct. ring.
Qed.

Let shifted_fct : R -> R :=
  (fct_cte wl * (fct_cte (1 + redshift) + id / fct_cte C_LIGHT))%F.
Let sigma_fct : R -> R := (id / fct_cte C_LIGHT)%F.

Lemma shift_facts : wl <> 0 /\ shift <> 0 /\ C_LIGHT <> 0.
Proof.
  pose proof C_LIGHT_pos. split; [|split]; [| |lra].
  - intros E. rewrite E, Rmult_0_l in Hshifted. lra.
  - intros E. rewrite E, Rmult_0_r in Hshifted. lra.
Qed.

(** The velocity shift: it moves the centre of the line and scales its
    area. *)
Lemma edge_value_vshift_derivative :
  derivable_pt_lim
    (fun v' => edge_value log_obs_bin_edges
                 (window_of redshift wl lo hi v' s) a k) v
    (jacobian_edge log_obs_bin_edges w wl a 1 k).
Proof.
  pose proof sigma_nonzero as Hsig.
  destruct shift_facts as (Hwl & Hsh & HC).
  unfold edge_value, jacobian_edge, line_area, w, window_of.
  cbn [lw_lo lw_hi lw_sigma lw_line_shift lw_shifted_line
       lw_log_shifted_line].
  fold sigma.
  destruct (k <? lo)%Z; [apply derivable_pt_lim_const|].
  destruct (hi <=? k)%Z.
  - eapply (derivable_pt_lim_eq
              (fct_cte (SQRT_2PI * sigma * exp (1 / 2 * sigma ^ 2) * a)
               * shifted_fct)%F).
    + unfold shifted_fct. differentiate. unfold_fct. exact HC.
    + intros z. reflexivity.
    + unfold_fct. unfold sigma in *. field. exact HC.
  - eapply (derivable_pt_lim_eq
              (fct_cte (SQRT_2PI * sigma * exp (1 / 2 * sigma ^ 2) * a)
               * shifted_fct
               * comp norm_cdf
                   (fct_cte (nth (Z.to_nat k) log_obs_bin_edges 0 / sigma)
                    - (comp ln shifted_fct / fct_cte sigma
                       + fct_cte sigma)))%F).
    + unfold shifted_fct. differentiate;
        unfold_fct; try assumption; exact Hshifted.
    + intros z. reflexivity.
    + unfold shifted_fct. unfold_fct. fold shift. fold x.
      unfold sigma in *. field. repeat split; assumption.
Qed.

(** The width: it scales the area of the line and the argument of the
    distribution function. *)
Lemma edge_value_width_derivative :
  derivable_pt_lim
    (fun s' => edge_value log_obs_bin_edges
                 (window_of redshift wl lo hi v s') a k) s
    (jacobian_edge log_obs_bin_edges w wl a 2 k).
Proof.
  pose proof sigma_nonzero as Hsig.
  destruct shift_facts as (Hwl & Hsh & HC).
  unfold edge_value, jacobian_edge, line_area, w, window_of.
  cbn [lw_lo lw_hi lw_sigma lw_line_shift lw_shifted_line
       lw_log_shifted_line].
  fold shift.
  destruct (k <? lo)%Z; [apply derivable_pt_lim_const|].
  destruct (hi <=? k)%Z.
  - eapply (derivable_pt_lim_eq
              (fct_cte SQRT_2PI * sigma_fct
               * comp exp (fct_cte (1 / 2) * comp (fun y => y ^ 2) sigma_fct)
               * fct_cte a * fct_cte (wl * shift))%F).
    + unfold sigma_fct. differentiate; unfold_fct; exact HC.
    + intros z. reflexivity.
    + unfold sigma_fct. unfold_fct. field. exact HC.
  - eapply (derivable_pt_lim_eq
              (fct_cte SQRT_2PI * sigma_fct
               * comp exp (fct_cte (1 / 2) * comp (fun y => y ^ 2) sigma_fct)
               * fct_cte a * fct_cte (wl * shift)
               * comp norm_cdf
                   (fct_cte (nth (Z.to_nat k) log_obs_bin_edges 0)
                      / sigma_fct
                    - (fct_cte (ln (wl * shift)) / sigma_fct
                       + sigma_fct)))%F).
    + unfold sigma_fct. differentiate; unfold_fct; try exact HC;
        exact Hsig.
    + intros z. reflexivity.
    + unfold sigma_fct. unfold_fct. unfold x, sigma.
      field. split; [exact HC|exact Hs].
Qed.

End EdgeDerivatives.

(** The flux of a line in a bin, weighted, and its three derivatives. *)
Lemma weighted_flux_derivatives (obs_bin_edges log_obs_bin_edges : list R)
    (redshift wl : R) (lo hi : Z) (a v s wb : R) (b : nat) :
  ((lo < hi)%Z -> s <> 0) ->
  0 < wl * (1 + redshift + v / C_LIGHT) ->
  let flux := line_flux_of obs_bin_edges log_obs_bin_edges redshift wl lo hi in
  let w := window_of redshift wl lo hi v s in
  let entry t :=
    wb * jacobian_delta 0 (ibin_width_of obs_bin_edges) log_obs_bin_edges w
           wl a t (S b) in
  derivable_pt_lim (fun a' => wb * flux a' v s b) a (entry 0%nat) /\
  derivable_pt_lim (fun v' => wb * flux a v' s b) v (entry 1%nat) /\
  derivable_pt_lim (fun s' => wb * flux a v s' b) s (entry 2%nat).
Proof.
  intros Hs Hshifted flux w entry.
  unfold entry, flux, line_flux_of, line_delta, jacobian_delta, w.
  cbn [window_of lw_lo lw_hi].
  destruct (decide (lo < hi /\ lo <= Z.of_nat (S b) <= hi)%Z) as [Hin|Hout].
  - specialize (Hs (proj1 Hin)).
    set (g := nth (S b) (ibin_width_of obs_bin_edges) 0).
    assert (Hgen : forall (F : R -> Z -> R) (p : R) (E : Z -> R),
      (forall k, derivable_pt_lim (fun p' => F p' k) p (E k)) ->
      derivable_pt_lim
        (fun p' => wb * ((F p' (Z.of_nat (S b)) - F p' (Z.of_nat (S b) - 1)%Z)
                         * g))
        p
        (wb * ((E (Z.of_nat (S b)) - E (Z.of_nat (S b) - 1)%Z) * g))).
    { intros F p E HF.
      eapply (derivable_pt_lim_eq
                (fct_cte wb *
                 (((fun p' => F p' (Z.of_nat (S b)))
                   - (fun p' => F p' (Z.of_nat (S b) - 1)%Z))
                  * fct_cte g))%F).
      - differentiate; apply HF.
      - intros z. reflexivity.
      - unfold_fct. ring. }
    split; [|split].
    + apply (Hgen (fun a' k => edge_value log_obs_bin_edges
                                 (window_of redshift wl lo hi v s) a' k)
               a
               (fun k => jacobian_edge log_obs_bin_edges
                           (window_of redshift wl lo hi v s) wl a 0 k)).
      intros k. apply edge_value_amplitude_derivative.
    + apply (Hgen (fun v' k => edge_value log_obs_bin_edges
                                 (window_of redshift wl lo hi v' s) a k)
               v
               (fun k => jacobian_edge log_obs_bin_edges
                           (window_of redshift wl lo hi v s) wl a 1 k)).
      intros k. apply edge_value_vshift_derivative; assumption.
    + apply (Hgen (fun s' k => edge_value log_obs_bin_edges
                                 (window_of redshift wl lo hi v s') a k)
               s
               (fun k => jacobian_edge log_obs_bin_edges
                           (window_of redshift wl lo hi v s) wl a 2 k)).
      intros k. apply edge_value_width_derivative; assumption.
  - assert (Hzero : forall p, derivable_pt_lim (fun _ : R => wb * 0) p (wb * 0)).
    { intros p. eapply (derivable_pt_lim_eq (fct_cte (wb * 0))).
      - apply derivable_pt_lim_const.
      - intros z. reflexivity.
      - ring. }
    split; [|split]; apply Hzero.
Qed.

Lemma jacobian_delta_weights (g g' : R)
    (obs_weights obs_bin_edges logE : list R) (w : line_window) (wj aj : R)
    (t b : nat) :
  length obs_weights = (length obs_bin_edges - 1)%nat ->
  (b + 1 < length obs_bin_edges)%nat ->
  jacobian_delta g (0 :: zip_with Rdiv obs_weights (np_diff obs_bin_edges))
    logE w wj aj t (S b) =
  nth b obs_weights 0 *
  jacobian_delta g' (ibin_width_of obs_bin_edges) logE w wj aj t (S b).
Proof.
  intros Hw Hb. unfold jacobian_delta.
  destruct (decide _) as [_|_]; [|ring].
  rewrite ibin_width_of_nth by exact Hb. cbn [nth].
  assert (Hnth : nth b (zip_with Rdiv obs_weights (np_diff obs_bin_edges)) g
                 = nth b obs_weights 0 / nth b (np_diff obs_bin_edges) 0).
  { apply nth_lookup_Some. rewrite lookup_zip_with.
    rewrite (lookup_nth obs_weights b 0) by lia. cbn.
    rewrite (lookup_nth (np_diff obs_bin_edges) b 0)
      by (rewrite length_np_diff; lia).
    reflexivity. }
  rewrite Hnth, np_diff_nth by exact Hb. unfold Rdiv. ring.
Qed.

(** X22: the Jacobian holds the derivatives of the weighted model.  On valid
    input with one weight per bin, for every line [j] and bin [b]: the flux
    that [build_emline_model] gives line [j] alone is a function [flux] of
    the amplitude, the velocity shift and the width of the line (the bounds
    [lo], [hi] of its window being held); and the entries that
    [build_emline_model_jacobian] returns for the bin in the columns [j],
    [N + j] and [2 N + j] are the derivatives of [obs_weights[b] * flux]
    with respect to the amplitude, the velocity shift and the width. *)
Theorem build_emline_model_jacobian_is_derivative (env : jit_env)
    (parameters obs_weights obs_bin_edges log_obs_bin_edges : list R)
    (redshift : R) (line_wavelengths : list R) :
  let N := length line_wavelengths in
  let nbins := (length obs_bin_edges - 1)%nat in
  valid_model_input parameters obs_bin_edges log_obs_bin_edges redshift
    line_wavelengths ->
  length obs_weights = nbins ->
  (boundscheck env = false \/
   forall j, (j < N)%nat ->
     (lw_hi (line_window_at parameters log_obs_bin_edges redshift
               line_wavelengths j)
      < Z.of_nat (length obs_bin_edges))%Z) ->
  exists starts ends dd,
    build_emline_model_jacobian env parameters obs_weights obs_bin_edges
      log_obs_bin_edges redshift line_wavelengths = Ok (starts, ends, dd) /\
    forall j b, (j < N)%nat -> (b < nbins)%nat ->
      let a := nth j parameters 0 in
      let v := nth (N + j) parameters 0 in
      let s := nth (2 * N + j) parameters 0 in
      let win := line_window_at parameters log_obs_bin_edges redshift
                   line_wavelengths j in
      let flux := line_flux_of obs_bin_edges log_obs_bin_edges redshift
                    (nth j line_wavelengths 0) (lw_lo win) (lw_hi win) in
      let wb := nth b obs_weights 0 in
      (exists alone,
         build_emline_model env [a; v; s] obs_bin_edges log_obs_bin_edges
           redshift [nth j line_wavelengths 0] = Ok alone /\
         nth b alone 0 = flux a v s b) /\
      derivable_pt_lim (fun a' => wb * flux a' v s b) a
        (jac_entry (starts, ends, dd) b j) /\
      derivable_pt_lim (fun v' => wb * flux a v' s b) v
        (jac_entry (starts, ends, dd) b (N + j)) /\
      derivable_pt_lim (fun s' => wb * flux a v s' b) s
        (jac_entry (starts, ends, dd) b (2 * N + j)).
Proof.
  intros N nbins Hvalid Hwl Hread.
  destruct (build_emline_model_jacobian_ok env parameters obs_weights
              obs_bin_edges log_obs_bin_edges redshift line_wavelengths
              Hvalid Hwl Hread)
    as (starts & ends & rws & Wd & Hjac & Hls & Hle & Hlr & Hrows & _
        & Hcols).
  fold N in Hls, Hle, Hlr, Hrows, Hcols.
  pose proof Hvalid as [HN Hp He Hl _ _ _ _ Hshifted].
  fold N in HN, Hp, Hshifted.
  exists (mytile starts 3), (mytile ends 3), (Array2 (3 * N) Wd rws).
  split; [exact Hjac|].
  intros j b Hj Hb a v s win flux wb.
  assert (Hwin : win = window_of redshift (nth j line_wavelengths 0)
                         (lw_lo win) (lw_hi win) v s) by reflexivity.
  (* the entries of the three columns of the line *)
  assert (Hentry : forall t, (t < 3)%nat ->
    jac_entry (mytile starts 3, mytile ends 3, Array2 (3 * N) Wd rws) b
      (t * N + j) =
    wb * jacobian_delta 0 (ibin_width_of obs_bin_edges) log_obs_bin_edges
           win (nth j line_wavelengths 0) a t (S b)).
  { intros t Ht. unfold jac_entry.
    assert (Hmod : ((t * N + j) mod N = j)%nat).
    { rewrite Nat.add_comm, Nat.Div0.mod_add. apply Nat.mod_small, Hj. }
    rewrite !nth_mytile_3 by nia. rewrite Hls, Hle, Hmod.
    unfold wb.
    rewrite <- (jacobian_delta_weights (junk env) 0 obs_weights)
      by (fold nbins; unfold nbins in Hb; lia).
    etransitivity; [|exact (Hcols j Hj t Ht b)].
    destruct (decide _) as [Hin|_]; [|reflexivity].
    unfold entry. cbn [rows]. rewrite Nat2Z.id. reflexivity. }
  (* the hypotheses of the derivatives *)
  assert (Hs : (lw_lo win < lw_hi win)%Z -> s <> 0).
  { intros Hlt Hs0.
    apply (win_sigma_nonzero parameters obs_bin_edges log_obs_bin_edges
             redshift line_wavelengths Hvalid j Hj); [fold win; lia|].
    fold win. rewrite Hwin. cbn [window_of lw_sigma]. rewrite Hs0.
    unfold Rdiv. ring. }
  destruct (weighted_flux_derivatives obs_bin_edges log_obs_bin_edges
              redshift (nth j line_wavelengths 0) (lw_lo win) (lw_hi win)
              a v s wb b Hs (Hshifted j Hj))
    as (Da & Dv & Ds).
  rewrite <- Hwin in Da, Dv, Ds.
  split; [|split; [|split]].
  - destruct (build_emline_model_ok env
                (single_line_parameters parameters N j) obs_bin_edges
                log_obs_bin_edges redshift [nth j line_wavelengths 0]
                (single_line_valid _ _ _ _ _ j Hvalid Hj))
      as (alone & Halone & _ & Hbins).
    { destruct Hread as [Hbc|Hbc]; [left; exact Hbc|right].
      intros j' Hj'. simpl in Hj'. assert (j' = O) as -> by lia.
      unfold N. rewrite single_line_window. apply Hbc, Hj. }
    exists alone. split; [exact Halone|].
    rewrite Hbins by exact Hb. cbn [length sum_n].
    unfold N. rewrite single_line_window. fold N. fold win.
    rewrite Rplus_0_l. unfold flux, line_flux_of. rewrite <- Hwin.
    cbn [single_line_parameters nth].
    apply line_delta_garbage. unfold nbins in Hb. lia.
  - specialize (Hentry 0%nat ltac:(lia)).
    change (0 * N + j)%nat with j in Hentry.
    rewrite Hentry. exact Da.
  - specialize (Hentry 1%nat ltac:(lia)).
    replace (1 * N + j)%nat with (N + j)%nat in Hentry by lia.
    rewrite Hentry. exact Dv.
  - specialize (Hentry 2%nat ltac:(lia)).
    rewrite Hentry. exact Ds.
Qed.

Lemma build_emline_model_jacobian_is_derivative_witness :
  exists starts ends dd,
    build_emline_model_jacobian numba_default [2; 0; 75] [5] [exp 8; exp 9]
      [8; 9] 0 [exp 9] = Ok (starts, ends, dd) /\
    derivable_pt_lim
      (fun v' => 5 * line_flux_of [exp 8; exp 9] [8; 9] 0 (exp 9)
                       (lw_lo (line_window_at [2; 0; 75] [8; 9] 0 [exp 9] 0))
                       (lw_hi (line_window_at [2; 0; 75] [8; 9] 0 [exp 9] 0))
                       2 v' 75 0)
      0 (jac_entry (starts, ends, dd) 0 1).
Proof.
  destruct (build_emline_model_jacobian_is_derivative numba_default
              [2; 0; 75] [5] [exp 8; exp 9] [8; 9] 0 [exp 9])
    as (starts & ends & dd & Hjac & Hder).
  - apply (valid_one_line 2 9); [simpl; lia|reflexivity| |].
    + apply strictly_increasing_2, exp_increasing. lra.
    + apply strictly_increasing_2. lra.
  - reflexivity.
  - left. reflexivity.
  - exists starts, ends, dd. split; [exact Hjac|].
    destruct (Hder 0%nat 0%nat) as (_ & _ & Dv & _); [simpl; lia..|].
    exact Dv.
Defined.
